(** * JAPluginSuite extender: asset indexing and resolution engine

    A shallow embedding of the add-on's core (index.py, skin.py, cache.py,
    pk3.py and data_types.py) together with the properties stated about it.

    Conventions of the embedding:
    - a Python [str] is a [string]; each character is a code point below 256,
      and the built-ins ([lower], [strip], [splitlines], ...) follow CPython
      on that range;
    - a [pathlib] path is the record [Path] of its root and its components,
      as [pathlib] parses it;
    - a Python [dict] is an insertion-ordered association list ([odict]);
      a Python [set] is a duplicate-free list ([ListSet]);
    - the file system is an explicit value threaded through the code that
      reads or writes it; it has no symbolic links;
    - code that can raise returns a [result]. *)

From Stdlib Require Import String Ascii List Bool Arith Lia ListSet Permutation
  Sorted OrderedTypeEx.
Import ListNotations.
Local Open Scope string_scope.
Local Open Scope list_scope.
Local Open Scope nat_scope.

Set Implicit Arguments.

(* ================================================================== *)
(** * Python string built-ins *)
(* ================================================================== *)

Module PyStr.

Definition ord (c : ascii) : nat := nat_of_ascii c.

(** [str.lower] on one code point: A-Z and the Latin-1 capitals. *)
Definition isupper_char (c : ascii) : bool :=
  let n := ord c in
  (((65 <=? n) && (n <=? 90))
   || ((192 <=? n) && (n <=? 222) && negb (n =? 215)))%nat.

Definition lower_char (c : ascii) : ascii :=
  if isupper_char c then ascii_of_nat (ord c + 32) else c.

Fixpoint lower (s : string) : string :=
  match s with
  | EmptyString => EmptyString
  | String c r => String (lower_char c) (lower r)
  end.

(** [str.isspace] on one code point. *)
Definition isspace (c : ascii) : bool :=
  let n := ord c in
  (((9 <=? n) && (n <=? 13)) || ((28 <=? n) && (n <=? 32))
   || (n =? 133) || (n =? 160))%nat.

(** Line boundaries of [str.splitlines]. *)
Definition islinebreak (c : ascii) : bool :=
  let n := ord c in
  (((10 <=? n) && (n <=? 13)) || ((28 <=? n) && (n <=? 30)) || (n =? 133))%nat.

Fixpoint mem_char (c : ascii) (chars : string) : bool :=
  match chars with
  | EmptyString => false
  | String a r => Ascii.eqb c a || mem_char c r
  end.

(** [s.lstrip(chars)] *)
Fixpoint lstrip (chars s : string) : string :=
  match s with
  | EmptyString => EmptyString
  | String c r => if mem_char c chars then lstrip chars r else s
  end.

Fixpoint lstrip_ws (s : string) : string :=
  match s with
  | EmptyString => EmptyString
  | String c r => if isspace c then lstrip_ws r else s
  end.

Fixpoint rstrip_ws (s : string) : string :=
  match s with
  | EmptyString => EmptyString
  | String c r =>
      match rstrip_ws r with
      | EmptyString => if isspace c then EmptyString else String c EmptyString
      | r' => String c r'
      end
  end.

(** [s.strip()] *)
Definition strip (s : string) : string := rstrip_ws (lstrip_ws s).

(** [s.startswith(p)] *)
Definition startswith (s p : string) : bool := String.prefix p s.

(** [s.endswith(p)] *)
Fixpoint endswith (s p : string) : bool :=
  String.eqb s p
  || match s with
     | EmptyString => false
     | String _ r => endswith r p
     end.

(** [s.split(sep)] for a one-character separator. *)
Fixpoint split (sep : ascii) (s : string) : list string :=
  match s with
  | EmptyString => [EmptyString]
  | String c r =>
      if Ascii.eqb c sep then EmptyString :: split sep r
      else match split sep r with
           | h :: t => String c h :: t
           | [] => [String c EmptyString]
           end
  end.

(** [s.split(sep, 1)] when [sep in s]; [None] when the separator is absent. *)
Fixpoint split_once (sep : ascii) (s : string) : option (string * string) :=
  match s with
  | EmptyString => None
  | String c r =>
      if Ascii.eqb c sep then Some (EmptyString, r)
      else match split_once sep r with
           | Some (a, b) => Some (String c a, b)
           | None => None
           end
  end.

(** [sep.join(l)] *)
Definition join (sep : string) (l : list string) : string := String.concat sep l.

(** [s.replace(a, b)] for single characters. *)
Fixpoint replace_char (a b : ascii) (s : string) : string :=
  match s with
  | EmptyString => EmptyString
  | String c r => String (if Ascii.eqb c a then b else c) (replace_char a b r)
  end.

(** [s.rfind(c)] *)
Fixpoint rfind (c : ascii) (s : string) : option nat :=
  match s with
  | EmptyString => None
  | String a r =>
      match rfind c r with
      | Some i => Some (S i)
      | None => if Ascii.eqb a c then Some 0 else None
      end
  end.

(** [s[i:]] and [s[i:j]] *)
Definition drop (i : nat) (s : string) : string := substring i (String.length s - i) s.
Definition slice (i j : nat) (s : string) : string := substring i (j - i) s.

(** [s.splitlines()]: the line being read is accumulated in [cur];
    [pending] tells whether a line is open (a final line break opens none). *)
Fixpoint splitlines_from (cur : string) (pending : bool) (s : string) : list string :=
  match s with
  | EmptyString => if pending then [cur] else []
  | String c r =>
      if Ascii.eqb c "013" then
        match r with
        | String "010" r' => cur :: splitlines_from EmptyString false r'
        | _ => cur :: splitlines_from EmptyString false r
        end
      else if islinebreak c then cur :: splitlines_from EmptyString false r
      else splitlines_from (String.append cur (String c EmptyString)) true r
  end.

Definition splitlines (s : string) : list string :=
  splitlines_from EmptyString false s.

Definition LF : string := String "010" EmptyString.

End PyStr.

(* ================================================================== *)
(** * pathlib *)
(* ================================================================== *)

(** ** The POSIX flavour ([PurePosixPath]), used throughout *)

Module Pathlib.
Import PyStr.

(** A parsed path: [root] is [""], ["/"] or ["//"]; [tail] holds the
    components after the root. *)
Record Path : Type := mkPath { root : string; tail : list string }.

(** [x and x != '.'] : the components [parse_parts] keeps. *)
Definition keep_part (x : string) : bool :=
  negb (String.eqb x "") && negb (String.eqb x ".").

(** The root found by [splitroot]: exactly two leading slashes are kept,
    any other number collapses to one. *)
Definition splitroot (s : string) : string :=
  match s with
  | String "/" (String "/" (String "/" _)) => "/"
  | String "/" (String "/" _) => "//"
  | String "/" _ => "/"
  | _ => ""
  end.

(** [Path(s)] *)
Definition parse (s : string) : Path :=
  {| root := splitroot s; tail := filter keep_part (split "/" s) |}.

(** [str(p)] *)
Definition to_str (p : Path) : string :=
  let s := String.append (root p) (join "/" (tail p)) in
  if String.eqb s "" then "." else s.

(** [p.as_posix()] : the separator already is the forward slash. *)
Definition as_posix (p : Path) : string := replace_char "/" "/" (to_str p).

(** [p.parts] *)
Definition parts (p : Path) : list string :=
  if String.eqb (root p) "" then tail p else root p :: tail p.

(** [p.name] *)
Definition name (p : Path) : string := last (tail p) "".

(** The index of the dot that starts the suffix of a file name:
    [i = name.rfind('.')] with [0 < i < len(name) - 1]. *)
Definition suffix_index (nm : string) : option nat :=
  match rfind "." nm with
  | Some i => if (0 <? i) && (i <? String.length nm - 1) then Some i else None
  | None => None
  end.

(** [p.suffix] *)
Definition suffix (p : Path) : string :=
  match suffix_index (name p) with
  | Some i => drop i (name p)
  | None => ""
  end.

(** [p.stem] *)
Definition stem (p : Path) : string :=
  match suffix_index (name p) with
  | Some i => slice 0 i (name p)
  | None => name p
  end.

(** [p.with_suffix(ext)]; [None] stands for the [ValueError] raised on an
    invalid suffix or on a path with an empty name. *)
Definition valid_suffix (ext : string) : bool :=
  negb (mem_char "/" ext)
  && negb ((negb (String.eqb ext "") && negb (startswith ext "."))
           || String.eqb ext ".").

Definition with_suffix (p : Path) (ext : string) : option Path :=
  if negb (valid_suffix ext) then None
  else if String.eqb (name p) "" then None
  else Some {| root := root p;
               tail := removelast (tail p) ++ [String.append (stem p) ext] |}.

(** [a / b] *)
Definition joinpath (a b : Path) : Path :=
  if String.eqb (root b) "" then {| root := root a; tail := tail a ++ tail b |}
  else b.

(** [p.parent] *)
Definition parent (p : Path) : Path :=
  {| root := root p; tail := removelast (tail p) |}.

(** [p == q] *)
Definition list_eqb (l1 l2 : list string) : bool :=
  if list_eq_dec string_dec l1 l2 then true else false.

Definition eqb (p q : Path) : bool :=
  String.eqb (root p) (root q) && list_eqb (tail p) (tail q).

(** [p < q], the order [sorted] uses: the lists of parts are compared
    lexicographically, each part by code points. *)
Fixpoint parts_ltb (l1 l2 : list string) : bool :=
  match l1, l2 with
  | [], [] => false
  | [], _ :: _ => true
  | _ :: _, [] => false
  | a :: r1, b :: r2 =>
      if String.eqb a b then parts_ltb r1 r2 else String.ltb a b
  end.

Definition ltb (p q : Path) : bool := parts_ltb (parts p) (parts q).

End Pathlib.

(** ** The Windows flavour ([PureWindowsPath]), for path normalisation only *)

Module WinPath.
Import PyStr.

Definition sep : string := "\".

Definition split_extended_path (s : string) : string * string :=
  if startswith s "\\?\" then
    let prefix := slice 0 4 s in
    let s := drop 4 s in
    if startswith s "UNC\" then
      (String.append prefix (slice 0 3 s), String.append "\" (drop 3 s))
    else (prefix, s)
  else ("", s).

Definition is_drive_letter (first : string) : bool :=
  match first with
  | String c EmptyString =>
      let n := ord c in
      ((65 <=? n) && (n <=? 90)) || ((97 <=? n) && (n <=? 122))
  | _ => false
  end.

(** [part.find(sep, start)] *)
Definition find_sep (start : nat) (part : string) : option nat :=
  String.index start sep part.

(** The last step of [splitroot]: a drive letter, then a root. *)
Definition split_drive (prefix part : string) : string * string * string :=
  let first := slice 0 1 part in
  let second := slice 1 2 part in
  let third := slice 2 3 part in
  let '(drv, part, first) :=
    if String.eqb second ":" && is_drive_letter first
    then (slice 0 2 part, drop 2 part, third)
    else ("", part, first) in
  if String.eqb first sep
  then (String.append prefix drv, first, lstrip sep part)
  else (String.append prefix drv, "", part).

(** [_WindowsFlavour.splitroot]: drive, root and the rest. *)
Definition splitroot (part0 : string) : string * string * string :=
  let first0 := slice 0 1 part0 in
  let second0 := slice 1 2 part0 in
  let '(prefix, part) :=
    if String.eqb second0 sep && String.eqb first0 sep
    then split_extended_path part0 else ("", part0) in
  let first := slice 0 1 part in
  let second := slice 1 2 part in
  let third := slice 2 3 part in
  if String.eqb second sep && String.eqb first sep && negb (String.eqb third sep)
  then
    match find_sep 2 part with
    | Some index =>
        let unc index2 :=
          if String.eqb prefix ""
          then (slice 0 index2 part, sep, drop (index2 + 1) part)
          else (String.append prefix (slice 1 index2 part), sep,
                drop (index2 + 1) part) in
        match find_sep (index + 1) part with
        | Some index2 =>
            if index2 =? index + 1 then split_drive prefix part else unc index2
        | None => unc (String.length part)
        end
    | None => split_drive prefix part
    end
  else split_drive prefix part.

Record Path : Type := mkPath { drv : string; root : string; tail : list string }.

(** [PureWindowsPath(s)] : [parse_parts] on one argument. *)
Definition parse (s : string) : Path :=
  if String.eqb s "" then {| drv := ""; root := ""; tail := [] |}
  else
    let '(d, r, rel) := splitroot (replace_char "/" "\" s) in
    {| drv := d; root := r; tail := filter Pathlib.keep_part (split "\" rel) |}.

(** [str(p)] *)
Definition to_str (p : Path) : string :=
  let s := String.append (drv p) (String.append (root p) (join sep (tail p))) in
  if String.eqb s "" then "." else s.

(** [p.as_posix()] *)
Definition as_posix (p : Path) : string := replace_char "\" "/" (to_str p).

End WinPath.

(* ================================================================== *)
(** * index.py: path keys *)
(* ================================================================== *)

Inductive flavour : Type := Posix | Windows.

(** [Path(path).as_posix()] on the platform's flavour. *)
Definition platform_as_posix (fl : flavour) (path : string) : string :=
  match fl with
  | Posix => Pathlib.as_posix (Pathlib.parse path)
  | Windows => WinPath.as_posix (WinPath.parse path)
  end.

(** The platform's separator, [os.sep]. *)
Definition os_sep (fl : flavour) : ascii :=
  match fl with Posix => "/"%char | Windows => "\"%char end.

(** [normalize_rel] on a [str] argument, for either flavour. *)
Definition normalize_rel_str (fl : flavour) (path : string) : string :=
  PyStr.lstrip "./" (PyStr.lower (platform_as_posix fl path)).

(** [normalize_rel] on a [Path] argument (POSIX flavour). *)
Definition normalize_rel (path : Pathlib.Path) : string :=
  PyStr.lstrip "./" (PyStr.lower (Pathlib.as_posix path)).

(* ================================================================== *)
(** * Exceptions, dictionaries, sets, sorting *)
(* ================================================================== *)

(** The exceptions the code can meet. *)
Inductive exn : Type :=
| ValueError (msg : string)
| IndexError
| KeyError
| ArchiveError
| BadZipFile
| FileNotFoundError
| FileExistsError
| NotADirectoryError
| IsADirectoryError
| SameFileError
| AttributeError
| TypeError
| NotImplementedError
| UnicodeDecodeError.

(** [True] for the subclasses of [OSError]. *)
Definition is_OSError (e : exn) : bool :=
  match e with
  | FileNotFoundError | FileExistsError | NotADirectoryError
  | IsADirectoryError | SameFileError => true
  | _ => false
  end.

Inductive result (A : Type) : Type :=
| Ok (a : A)
| Raise (e : exn).
Arguments Ok {A} a.
Arguments Raise {A} e.

Definition bind {A B : Type} (c : result A) (k : A -> result B) : result B :=
  match c with
  | Ok a => k a
  | Raise e => Raise e
  end.

Notation "x <- c ;; k" := (bind c (fun x => k))
  (at level 61, c at next level, right associativity).
Notation "' p <- c ;; k" := (bind c (fun p => k))
  (at level 61, p pattern, c at next level, right associativity).

Definition is_some {A : Type} (o : option A) : bool :=
  match o with Some _ => true | None => false end.

(** A Python [dict]: insertion-ordered; assigning to a key already present
    keeps its position. *)
Module ODict.
Section ODict.
Variables K V : Type.
Variable eqb : K -> K -> bool.

Definition t : Type := list (K * V).

(** [d.get(k)] *)
Fixpoint get (k : K) (d : t) : option V :=
  match d with
  | [] => None
  | (k', v) :: r => if eqb k' k then Some v else get k r
  end.

(** [k in d] *)
Definition mem (k : K) (d : t) : bool := is_some (get k d).

(** [d[k] = v] *)
Fixpoint set (k : K) (v : V) (d : t) : t :=
  match d with
  | [] => [(k, v)]
  | (k', v') :: r => if eqb k' k then (k', v) :: r else (k', v') :: set k v r
  end.

(** [d.keys()], [d.values()] *)
Definition keys (d : t) : list K := map fst d.
Definition values (d : t) : list V := map snd d.
End ODict.
End ODict.

(** [sorted(l, key=key)]: the stable sort, written as an insertion sort. *)
Section Sorted.
Variables A K : Type.
Variable leb : K -> K -> bool.
Variable key : A -> K.

Fixpoint insert_sorted (x : A) (l : list A) : list A :=
  match l with
  | [] => [x]
  | y :: r => if leb (key x) (key y) then x :: y :: r else y :: insert_sorted x r
  end.

Fixpoint sorted (l : list A) : list A :=
  match l with
  | [] => []
  | x :: r => insert_sorted x (sorted r)
  end.
End Sorted.

(** Comparison of the 2-tuples [source_priority] returns. *)
Definition tuple_leb (a b : nat * nat) : bool :=
  (fst a <? fst b) || ((fst a =? fst b) && (snd a <=? snd b)).

Definition Path_eq_dec (p q : Pathlib.Path) : {p = q} + {p <> q}.
Proof.
  decide equality; [apply (list_eq_dec string_dec)|apply string_dec].
Defined.

(** A Python [set] of paths, and of strings, kept as the list of its
    elements without repetition.  The order in which Python goes through a
    set is not fixed: a loop over a set is modelled as a loop over this
    list, and the properties of such loops are stated for any list. *)
Definition pathset : Type := set Pathlib.Path.
Definition pathset_add (p : Pathlib.Path) (s : pathset) : pathset :=
  set_add Path_eq_dec p s.

Definition strset : Type := set string.
Definition strset_add (x : string) (s : strset) : strset := set_add string_dec x s.
Definition strset_mem (x : string) (s : strset) : bool := set_mem string_dec x s.

(** A list that holds at least one element: what
    [d.setdefault(k, []).append(x)] leaves under a key. *)
Record nelist (A : Type) : Type := mkNe { ne_head : A; ne_rest : list A }.
Definition ne_list {A : Type} (l : nelist A) : list A := ne_head l :: ne_rest l.
Definition ne_append {A : Type} (l : nelist A) (x : A) : nelist A :=
  {| ne_head := ne_head l; ne_rest := ne_rest l ++ [x] |}.

(** [d.setdefault(k, []).append(x)] *)
Definition multi_add {A : Type} (k : string) (x : A)
    (d : ODict.t string (nelist A)) : ODict.t string (nelist A) :=
  match ODict.get String.eqb k d with
  | Some l => ODict.set String.eqb k (ne_append l x) d
  | None => ODict.set String.eqb k {| ne_head := x; ne_rest := [] |} d
  end.

(* ================================================================== *)
(** * data_types.py *)
(* ================================================================== *)

Record FileSource : Type := mkFileSource {
  fs_origin : string;                      (* "disk" or "pk3" *)
  fs_container : option Pathlib.Path;
  fs_rel_path : Pathlib.Path
}.

Record ModelSource : Type := mkModelSource {
  origin : string;
  container : option Pathlib.Path;
  glm : option Pathlib.Path;
  skins : pathset;
  glas : pathset
}.

(** The value [build_index] keeps under ["models"][name]. *)
Record ModelEntry : Type := mkModelEntry {
  sources : list ModelSource;
  primary : ModelSource;
  entry_skins : list Pathlib.Path
}.

(** The dictionary [build_index] returns. *)
Record Index : Type := mkIndex {
  base : Pathlib.Path;
  models : ODict.t string ModelEntry;
  textures_by_rel : ODict.t string (nelist FileSource);
  textures_by_stem : ODict.t string (nelist FileSource);
  gla_index : ODict.t string (nelist FileSource)
}.

Definition option_path_eqb (a b : option Pathlib.Path) : bool :=
  match a, b with
  | Some p, Some q => Pathlib.eqb p q
  | None, None => true
  | _, _ => false
  end.

(* ================================================================== *)
(** * index.py: source priority and the choice of the primary source *)
(* ================================================================== *)

Definition source_priority (src : ModelSource) : nat * nat :=
  if String.eqb (origin src) "disk" then (0, 0)
  else match container src with
       | Some c =>
           if String.eqb (PyStr.lower (Pathlib.name c)) "assets1.pk3"
           then (1, 0) else (1, 1)
       | None => (1, 1)
       end.

(** What [build_index] accumulates under [models_tmp][name]. *)
Record TmpEntry : Type := mkTmpEntry {
  tmp_sources : ODict.t Pathlib.Path ModelSource;
  tmp_skins : pathset
}.

(** [{Path(s) for src in sources_list for s in src.skins}] *)
Definition all_skins (sources_list : list ModelSource) : pathset :=
  fold_left (fun acc src => fold_left (fun acc s => pathset_add s acc) (skins src) acc)
            sources_list [].

Definition skin_sort_key (p : Pathlib.Path) : string :=
  PyStr.lower (Pathlib.as_posix p).

(** The body of the last loop of [build_index], for one model name;
    [None] when the name is skipped. *)
Definition finalize_model (data : TmpEntry) : option ModelEntry :=
  let sources_list := ODict.values (tmp_sources data) in
  let glm_sources := filter (fun s => is_some (glm s)) sources_list in
  match sorted tuple_leb source_priority glm_sources with
  | [] => None
  | first :: _ =>
      Some {| sources := sources_list;
              primary := first;
              entry_skins := sorted String.leb skin_sort_key (all_skins sources_list) |}
  end.

Definition finalize_models (models_tmp : ODict.t string TmpEntry)
    : ODict.t string ModelEntry :=
  fold_left (fun models nd =>
               match finalize_model (snd nd) with
               | Some e => ODict.set String.eqb (fst nd) e models
               | None => models
               end)
            models_tmp [].

(* ================================================================== *)
(** * skin.py: the text of a skin file *)
(* ================================================================== *)

(** The body of the loop of [parse_skin_text]. *)
Definition parse_skin_line (mapping : ODict.t string string) (raw_line : string)
    : ODict.t string string :=
  let line := PyStr.strip raw_line in
  if String.eqb line "" || PyStr.startswith line "//" then mapping
  else if negb (PyStr.mem_char "," line) then mapping
  else match PyStr.split_once "," line with
       | None => mapping
       | Some (part, tex) =>
           let part := PyStr.strip part in
           let tex := PyStr.strip tex in
           if String.eqb (PyStr.lower tex) "*off" || String.eqb (PyStr.lower tex) "off"
           then mapping
           else if negb (String.eqb part "")
                then ODict.set String.eqb part tex mapping
                else mapping
       end.

Definition parse_skin_text (text : string) : ODict.t string string :=
  fold_left parse_skin_line (PyStr.splitlines text) [].

(* ================================================================== *)
(** * The file system *)
(* ================================================================== *)

(** A tree without symbolic links.  An entry is located by the list of its
    components below the root directory, which always exists; the order of
    the entries is the order in which the system lists a directory.  The
    working directory of the process is the root. *)
Module FS.
Import Pathlib.

Abbreviation key := (list string) (only parsing).

Inductive node : Type :=
| Dir
| File (bytes : string).

Definition t : Type := list (key * node).

Definition lookup (fs : t) (k : key) : option node :=
  match k with
  | [] => Some Dir
  | _ => ODict.get list_eqb k fs
  end.

(** One component of a path, followed from the directory [cur]. *)
Definition step (cur : key) (s : string) : key :=
  if String.eqb s ".." then removelast cur
  else if String.eqb s "." then cur
  else cur ++ [s].

(** Path resolution by the system: every component is looked up in a
    directory that must exist; the last one need not exist itself. *)
Fixpoint walk (fs : t) (cur : key) (segs : list string) : result key :=
  match segs with
  | [] => Ok cur
  | s :: rest =>
      match lookup fs cur with
      | Some Dir => walk fs (step cur s) rest
      | Some (File _) => Raise NotADirectoryError
      | None => Raise FileNotFoundError
      end
  end.

Definition locate (fs : t) (p : Path) : result key := walk fs [] (tail p).

(** [os.stat(p)] *)
Definition stat (fs : t) (p : Path) : result node :=
  k <- locate fs p ;;
  match lookup fs k with
  | Some n => Ok n
  | None => Raise FileNotFoundError
  end.

(** [p.exists()], [p.is_dir()], [p.is_file()] *)
Definition exists_ (fs : t) (p : Path) : bool :=
  match stat fs p with Ok _ => true | Raise _ => false end.
Definition is_dir (fs : t) (p : Path) : bool :=
  match stat fs p with Ok Dir => true | _ => false end.
Definition is_file (fs : t) (p : Path) : bool :=
  match stat fs p with Ok (File _) => true | _ => false end.

(** [os.mkdir(p)] *)
Definition os_mkdir (fs : t) (p : Path) : result t :=
  k <- locate fs p ;;
  match lookup fs k with
  | Some _ => Raise FileExistsError
  | None => Ok (fs ++ [(k, Dir)])
  end.

(** [p.mkdir(parents=True, exist_ok=True)], on the root and the reversed
    components of [p]; the recursive call is the one on [p.parent]. *)
Fixpoint mkdir_parents (fs : t) (rt : string) (rsegs : list string) : result t :=
  let p := {| root := rt; tail := rev rsegs |} in
  match os_mkdir fs p with
  | Ok fs' => Ok fs'
  | Raise FileNotFoundError =>
      match rsegs with
      | [] => Raise FileNotFoundError
      | _ :: rparent =>
          fs1 <- mkdir_parents fs rt rparent ;;
          match os_mkdir fs1 p with
          | Ok fs2 => Ok fs2
          | Raise FileNotFoundError => Raise FileNotFoundError
          | Raise e => if is_OSError e && is_dir fs1 p then Ok fs1 else Raise e
          end
      end
  | Raise e => if is_OSError e && is_dir fs p then Ok fs else Raise e
  end.

Definition mkdir (fs : t) (p : Path) : result t :=
  mkdir_parents fs (root p) (rev (tail p)).

(** [open(p, "wb")] followed by the writing of [bytes]: the file is created
    or truncated. *)
Definition write_file (fs : t) (p : Path) (bytes : string) : result t :=
  k <- locate fs p ;;
  match lookup fs k with
  | Some Dir => Raise IsADirectoryError
  | _ => Ok (ODict.set list_eqb k (File bytes) fs)
  end.

(** [open(p, "rb").read()] *)
Definition read_file (fs : t) (p : Path) : result string :=
  n <- stat fs p ;;
  match n with
  | File b => Ok b
  | Dir => Raise IsADirectoryError
  end.

Definition remove_key (k : key) (fs : t) : t :=
  filter (fun e => negb (list_eqb (fst e) k)) fs.

(** [os.unlink(p)] *)
Definition unlink (fs : t) (p : Path) : result t :=
  k <- locate fs p ;;
  match lookup fs k with
  | Some (File _) => Ok (remove_key k fs)
  | Some Dir => Raise IsADirectoryError
  | None => Raise FileNotFoundError
  end.

(** The part of [k'] below [k], when [k'] is [k] or lies below it. *)
Fixpoint below (k k' : key) : option key :=
  match k, k' with
  | [], _ => Some k'
  | a :: r, b :: r' => if String.eqb a b then below r r' else None
  | _ :: _, [] => None
  end.

(** The entries strictly below the directory at [k], in listing order. *)
Definition descendants (fs : t) (k : key) : list key :=
  flat_map (fun e => match below k (fst e) with
                     | Some (n :: rel) => [n :: rel]
                     | _ => []
                     end) fs.

(** [os.listdir]: the names of the entries directly in the directory. *)
Definition children (fs : t) (k : key) : list string :=
  flat_map (fun e => match below k (fst e) with
                     | Some [n] => [n]
                     | _ => []
                     end) fs.

Definition child (p : Path) (n : string) : Path :=
  {| root := root p; tail := tail p ++ [n] |}.

Definition under (p : Path) (rel : key) : Path :=
  {| root := root p; tail := tail p ++ rel |}.

(** [p.iterdir()], for a directory [p]. *)
Definition iterdir (fs : t) (p : Path) : result (list Path) :=
  k <- locate fs p ;;
  match lookup fs k with
  | Some Dir => Ok (map (child p) (children fs k))
  | Some (File _) => Raise NotADirectoryError
  | None => Raise FileNotFoundError
  end.

(** [p.glob("*" + ext)]: nothing unless [p] is a directory. *)
Definition glob_suffix (fs : t) (p : Path) (ext : string) : list Path :=
  match locate fs p with
  | Ok k =>
      if is_dir fs p
      then map (child p) (filter (fun n => PyStr.endswith n ext) (children fs k))
      else []
  | Raise _ => []
  end.

(** [p.rglob("*")], as paths relative to [p]. *)
Definition rglob_rel (fs : t) (p : Path) : list key :=
  match locate fs p with
  | Ok k => if is_dir fs p then descendants fs k else []
  | Raise _ => []
  end.

(** [p.rglob("*")] and [p.rglob("*" + ext)] *)
Definition rglob (fs : t) (p : Path) : list Path := map (under p) (rglob_rel fs p).
Definition rglob_suffix (fs : t) (p : Path) (ext : string) : list Path :=
  filter (fun q => PyStr.endswith (name q) ext) (rglob fs p).

(** [os.rmdir(p)]; [FileExistsError] stands for the error raised on a
    directory that is not empty. *)
Definition rmdir (fs : t) (p : Path) : result t :=
  k <- locate fs p ;;
  match lookup fs k with
  | Some Dir =>
      match k, descendants fs k with
      | _ :: _, [] => Ok (remove_key k fs)
      | _, _ => Raise FileExistsError
      end
  | Some (File _) => Raise NotADirectoryError
  | None => Raise FileNotFoundError
  end.

(** [p.relative_to(other)] *)
Fixpoint strip_parts (pre l : list string) : option (list string) :=
  match pre, l with
  | [], _ => Some l
  | a :: r, b :: r' => if String.eqb a b then strip_parts r r' else None
  | _ :: _, [] => None
  end.

Definition relative_to (p other : Path) : result Path :=
  if String.eqb (root p) (root other) then
    match strip_parts (tail other) (tail p) with
    | Some rel => Ok {| root := ""; tail := rel |}
    | None => Raise (ValueError "not in the subpath")
    end
  else Raise (ValueError "not in the subpath").

(** [p.resolve()]: absolute, with [..] folded; there are no links to follow. *)
Definition resolve (p : Path) : Path :=
  {| root := "/"; tail := fold_left step (tail p) [] |}.

End FS.

(* ================================================================== *)
(** * pk3.py: archives *)
(* ================================================================== *)

(** What reading a member yields: its data, an error on opening it, or an
    error met after [partial] has been delivered. *)
Inductive member_body : Type :=
| Stored (data : string)
| Unreadable
| Corrupt (partial : string).

(** A [ZipInfo] with the payload it stands for. *)
Record ZipInfo : Type := mkZipInfo { filename : string; body : member_body }.

(** [info.is_dir()]: [self.filename[-1] == '/']. *)
Definition zipinfo_is_dir (info : ZipInfo) : result bool :=
  if String.eqb (filename info) "" then Raise IndexError
  else Ok (PyStr.endswith (filename info) "/").

(** [zf.getinfo(name)]: the last member recorded under that name. *)
Definition getinfo (zf : list ZipInfo) (name : string) : result ZipInfo :=
  match find (fun i => String.eqb (filename i) name) (rev zf) with
  | Some i => Ok i
  | None => Raise KeyError
  end.

(** [zf.open(info).read()] *)
Definition read_member (info : ZipInfo) : result string :=
  match body info with
  | Stored data => Ok data
  | Unreadable => Raise BadZipFile
  | Corrupt _ => Raise BadZipFile
  end.

(** [with zf.open(info) as src, open(dest, "wb") as dst:
       shutil.copyfileobj(src, dst)]
    The destination is opened once the member is; what was written before
    an error stays in the file. *)
Definition copy_member (fs : FS.t) (info : ZipInfo) (dest : Pathlib.Path)
    : FS.t * result unit :=
  match body info with
  | Unreadable => (fs, Raise BadZipFile)
  | Stored data =>
      match FS.write_file fs dest data with
      | Ok fs' => (fs', Ok tt)
      | Raise e => (fs, Raise e)
      end
  | Corrupt partial =>
      match FS.write_file fs dest partial with
      | Ok fs' => (fs', Raise BadZipFile)
      | Raise e => (fs, Raise e)
      end
  end.

Section Program.

(** What [ZipFile] makes of the bytes of a file: the members, or the
    exception it raises ([BadZipFile] for bytes that are no archive,
    another one for an archive it cannot handle); and how bytes decode to
    text. *)
Variable unzip : string -> result (list ZipInfo).
Variable decode_utf8 : string -> string.
Variable decode_locale : string -> string.

(** [constants.TEXTURE_EXTS], in its order. *)
Variable TEXTURE_EXTS : list string.

Definition in_TEXTURE_EXTS (suffix : string) : bool :=
  existsb (String.eqb suffix) TEXTURE_EXTS.

Definition open_pk3 (fs : FS.t) (path : Pathlib.Path) : result (list ZipInfo) :=
  if negb (FS.exists_ fs path) then Raise ArchiveError
  else
    bytes <- FS.read_file fs path ;;
    match unzip bytes with
    | Ok zf => Ok zf
    | Raise BadZipFile => Raise ArchiveError
    | Raise e => Raise e
    end.

(** The body of the loop of [safe_extract_members]; [destination] is
    already resolved. *)
Definition extract_member (destination : Pathlib.Path) (fs : FS.t) (info : ZipInfo)
    : FS.t * result (option string) :=
  let target := Pathlib.joinpath destination (Pathlib.parse (filename info)) in
  let resolved_target := FS.resolve target in
  if negb (PyStr.startswith (Pathlib.to_str resolved_target) (Pathlib.to_str destination))
  then (fs, Raise ArchiveError)
  else
    match zipinfo_is_dir info with
    | Raise e => (fs, Raise e)
    | Ok true =>
        match FS.mkdir fs resolved_target with
        | Ok fs' => (fs', Ok None)
        | Raise e => (fs, Raise e)
        end
    | Ok false =>
        match FS.mkdir fs (Pathlib.parent resolved_target) with
        | Raise e => (fs, Raise e)
        | Ok fs1 =>
            match copy_member fs1 info resolved_target with
            | (fs2, Ok _) => (fs2, Ok (Some (filename info)))
            | (fs2, Raise e) => (fs2, Raise e)
            end
        end
    end.

Fixpoint extract_members_loop (destination : Pathlib.Path) (fs : FS.t)
    (members : list ZipInfo) (extracted : list string) : FS.t * result (list string) :=
  match members with
  | [] => (fs, Ok extracted)
  | info :: rest =>
      match extract_member destination fs info with
      | (fs', Raise e) => (fs', Raise e)
      | (fs', Ok None) => extract_members_loop destination fs' rest extracted
      | (fs', Ok (Some n)) => extract_members_loop destination fs' rest (extracted ++ [n])
      end
  end.

Definition safe_extract_members (fs : FS.t) (destination : Pathlib.Path)
    (members : list ZipInfo) : FS.t * result (list string) :=
  extract_members_loop (FS.resolve destination) fs members [].

(* ================================================================== *)
(** * skin.py: resolution *)
(* ================================================================== *)

Definition read_text_from_source (fs : FS.t) (source : FileSource)
    (base_dir : Pathlib.Path) : result string :=
  if String.eqb (fs_origin source) "disk" then
    bytes <- FS.read_file fs (Pathlib.joinpath base_dir (fs_rel_path source)) ;;
    Ok (decode_locale bytes)
  else
    match fs_container source with
    | None => Raise AttributeError
    | Some c =>
        zf <- open_pk3 fs c ;;
        info <- getinfo zf (Pathlib.as_posix (fs_rel_path source)) ;;
        bytes <- read_member info ;;
        Ok (decode_utf8 bytes)
    end.

(** The inner function [choose] of [resolve_texture]. *)
Definition choose (preferred : option ModelSource) (fs_list : nelist FileSource)
    : FileSource :=
  let same_container :=
    match preferred with
    | Some p =>
        match container p with
        | Some c =>
            find (fun fs => option_path_eqb (fs_container fs) (Some c)) (ne_list fs_list)
        | None => None
        end
    | None => None
    end in
  match same_container with
  | Some fs => fs
  | None =>
      match find (fun fs => String.eqb (fs_origin fs) "disk") (ne_list fs_list) with
      | Some fs => fs
      | None => ne_head fs_list
      end
  end.

(** The first loop of [resolve_texture], over the extensions left to try. *)
Fixpoint resolve_by_ext (index : Index) (tex_path : Pathlib.Path)
    (preferred : option ModelSource) (exts : list string)
    : result (option (FileSource * Pathlib.Path)) :=
  match exts with
  | [] => Ok None
  | ext :: rest =>
      match Pathlib.with_suffix tex_path ext with
      | None => Raise (ValueError "with_suffix")
      | Some candidate =>
          match ODict.get String.eqb (normalize_rel candidate) (textures_by_rel index) with
          | Some l => let fs := choose preferred l in Ok (Some (fs, fs_rel_path fs))
          | None => resolve_by_ext index tex_path preferred rest
          end
      end
  end.

Definition resolve_by_stem (index : Index) (tex_path : Pathlib.Path)
    (preferred : option ModelSource) : option (FileSource * Pathlib.Path) :=
  match ODict.get String.eqb (PyStr.lower (Pathlib.stem tex_path)) (textures_by_stem index) with
  | Some l => let fs := choose preferred l in Some (fs, fs_rel_path fs)
  | None => None
  end.

Definition resolve_texture (index : Index) (tex_entry : string)
    (preferred : option ModelSource) : result (option (FileSource * Pathlib.Path)) :=
  let tex_path := Pathlib.parse tex_entry in
  r <- resolve_by_ext index tex_path preferred TEXTURE_EXTS ;;
  match r with
  | Some hit => Ok (Some hit)
  | None => Ok (resolve_by_stem index tex_path preferred)
  end.

Definition resolve_gla (index : Index) (rel_path : Pathlib.Path) : option FileSource :=
  match ODict.get String.eqb (normalize_rel rel_path) (gla_index index) with
  | Some l => Some (ne_head l)
  | None => None
  end.

(** The first result a loop returns: [for x in l: r = f(x); if r: return r]. *)
Fixpoint first_some {A B : Type} (f : A -> option B) (l : list A) : option B :=
  match l with
  | [] => None
  | x :: r => match f x with Some y => Some y | None => first_some f r end
  end.

(** The three conventional places of a skeleton. *)
Definition gla_candidates (model_name : string) : list Pathlib.Path :=
  [ Pathlib.parse (String.append "models/players/"
      (String.append model_name (String.append "/" (String.append model_name ".gla"))));
    Pathlib.parse (String.append "models/players/" (String.append model_name "/model.gla"));
    Pathlib.parse "models/players/_humanoid/_humanoid.gla" ].

Definition find_gla (index : Index) (model_name : string) (entry : ModelEntry)
    : option FileSource :=
  match first_some (fun src => first_some (resolve_gla index) (glas src)) (sources entry) with
  | Some resolved => Some resolved
  | None => first_some (resolve_gla index) (gla_candidates model_name)
  end.

Definition find_skin_source (entry : ModelEntry) (skin_rel : Pathlib.Path)
    : option FileSource :=
  let target_norm := normalize_rel skin_rel in
  first_some
    (fun src =>
       first_some
         (fun candidate =>
            if String.eqb (normalize_rel candidate) target_norm
            then Some (mkFileSource (origin src) (container src) candidate)
            else None)
         (skins src))
    (sources entry).

(** The state of the texture loop of [collect_assets_for_skin]. *)
Record Collected : Type := mkCollected {
  c_textures : list (FileSource * Pathlib.Path);
  c_missing : list string;
  c_replacements : ODict.t string string
}.

Definition collect_texture (index : Index) (primary_src : ModelSource)
    (acc : Collected) (tex : string) : result Collected :=
  resolved <- resolve_texture index tex (Some primary_src) ;;
  match resolved with
  | Some (fs, actual_rel) =>
      Ok {| c_textures := c_textures acc ++ [(fs, actual_rel)];
            c_missing := c_missing acc;
            c_replacements :=
              if negb (String.eqb (Pathlib.as_posix actual_rel) tex)
              then ODict.set String.eqb tex (Pathlib.as_posix actual_rel) (c_replacements acc)
              else c_replacements acc |}
  | None =>
      Ok {| c_textures := c_textures acc;
            c_missing := c_missing acc ++ [tex];
            c_replacements := c_replacements acc |}
  end.

Fixpoint collect_textures (index : Index) (primary_src : ModelSource)
    (acc : Collected) (texs : list string) : result Collected :=
  match texs with
  | [] => Ok acc
  | tex :: rest =>
      acc' <- collect_texture index primary_src acc tex ;;
      collect_textures index primary_src acc' rest
  end.

Definition asset : Type := (FileSource * Pathlib.Path)%type.

Definition collect_assets_for_skin (fs : FS.t) (index : Index) (base_dir : Pathlib.Path)
    (model_name : string) (skin_rel : Pathlib.Path)
    : result (list asset * list string * ODict.t string string) :=
  match ODict.get String.eqb model_name (models index) with
  | None => Raise (ValueError "Model not found")
  | Some entry =>
      match find_skin_source entry skin_rel with
      | None => Raise (ValueError "Skin file not found")
      | Some skin_src =>
          let primary_src := primary entry in
          match glm primary_src with
          | None =>
              (* an entry made by [build_index] always has the model file of its
                 primary source; a list holding [None] as a path makes its
                 consumer raise *)
              Raise TypeError
          | Some glm_rel =>
              let glm_src := mkFileSource (origin primary_src) (container primary_src) glm_rel in
              skin_text <- read_text_from_source fs skin_src base_dir ;;
              let skin_map := parse_skin_text skin_text in
              col <- collect_textures index primary_src
                       (mkCollected [] [] []) (ODict.values skin_map) ;;
              let assets := [(glm_src, fs_rel_path glm_src); (skin_src, skin_rel)] in
              let assets :=
                match find_gla index model_name entry with
                | Some gla_src => assets ++ [(gla_src, fs_rel_path gla_src)]
                | None => assets
                end in
              Ok (assets ++ c_textures col, c_missing col, c_replacements col)
          end
      end
  end.

(* ================================================================== *)
(** * cache.py *)
(* ================================================================== *)

(** The first loop of [cleanup_cache], for one path found by [rglob]. *)
Definition cleanup_file (cache_root : Pathlib.Path) (keep_set : strset)
    (fs : FS.t) (rel : FS.key) : result FS.t :=
  let file := FS.under cache_root rel in
  if FS.is_file fs file then
    rel_path <- FS.relative_to file cache_root ;;
    if negb (strset_mem (normalize_rel rel_path) keep_set) then
      match FS.unlink fs file with
      | Ok fs' => Ok fs'
      | Raise FileNotFoundError => Ok fs
      | Raise e => Raise e
      end
    else Ok fs
  else Ok fs.

Fixpoint cleanup_files (cache_root : Pathlib.Path) (keep_set : strset)
    (fs : FS.t) (rels : list FS.key) : result FS.t :=
  match rels with
  | [] => Ok fs
  | rel :: rest =>
      fs' <- cleanup_file cache_root keep_set fs rel ;;
      cleanup_files cache_root keep_set fs' rest
  end.

(** The second loop of [cleanup_cache]: every [OSError] is passed over. *)
Definition cleanup_dir (fs : FS.t) (d : Pathlib.Path) : FS.t :=
  match FS.iterdir fs d with
  | Ok [] => match FS.rmdir fs d with Ok fs' => fs' | Raise _ => fs end
  | _ => fs
  end.

Definition deeper_first (a b : nat) : bool := b <=? a.

Definition cleanup_cache (fs : FS.t) (cache_root : Pathlib.Path) (keep_set : strset)
    : result FS.t :=
  if negb (FS.exists_ fs cache_root) then Ok fs
  else
    fs1 <- cleanup_files cache_root keep_set fs (FS.rglob_rel fs cache_root) ;;
    let dirs :=
      sorted deeper_first (fun p => List.length (Pathlib.parts p))
             (filter (FS.is_dir fs1) (FS.rglob fs1 cache_root)) in
    Ok (fold_left cleanup_dir dirs fs1).

(** [shutil.copy2(src, dst)]: into [dst] when it is a directory. *)
Definition copy2 (fs : FS.t) (src dst : Pathlib.Path) : FS.t * result unit :=
  let dst := if FS.is_dir fs dst then FS.child dst (Pathlib.name src) else dst in
  let same :=
    match FS.stat fs src, FS.stat fs dst, FS.locate fs src, FS.locate fs dst with
    | Ok _, Ok _, Ok k1, Ok k2 => Pathlib.list_eqb k1 k2
    | _, _, _, _ => false
    end in
  if same then (fs, Raise SameFileError)
  else
    match FS.read_file fs src with
    | Raise e => (fs, Raise e)
    | Ok bytes =>
        match FS.write_file fs dst bytes with
        | Ok fs' => (fs', Ok tt)
        | Raise e => (fs, Raise e)
        end
    end.

(** The [try] block of [extract_assets]. *)
Definition copy_asset (fs : FS.t) (base_dir : Pathlib.Path) (src : FileSource)
    (dest_path : Pathlib.Path) : FS.t * result unit :=
  if String.eqb (fs_origin src) "disk" then
    copy2 fs (Pathlib.joinpath base_dir (fs_rel_path src)) dest_path
  else
    match fs_container src with
    | None => (fs, Raise AttributeError)
    | Some c =>
        match open_pk3 fs c with
        | Raise e => (fs, Raise e)
        | Ok zf =>
            match getinfo zf (Pathlib.as_posix (fs_rel_path src)) with
            | Raise e => (fs, Raise e)
            | Ok info => copy_member fs info dest_path
            end
        end
    end.

(** The local variables of [extract_assets]. *)
Record Extraction : Type := mkExtraction {
  x_fs : FS.t;
  texture_map : ODict.t string string;
  keep : strset;
  failed : list string
}.

(** The body of the loop of [extract_assets]. *)
Definition extract_asset (base_dir cache_root : Pathlib.Path) (st : Extraction)
    (a : asset) : result Extraction :=
  let '(src, dest_rel) := a in
  let keep' := strset_add (normalize_rel dest_rel) (keep st) in
  let dest_path := Pathlib.joinpath cache_root dest_rel in
  fs1 <- FS.mkdir (x_fs st) (Pathlib.parent dest_path) ;;
  match copy_asset fs1 base_dir src dest_path with
  | (fs2, Raise _) =>
      Ok {| x_fs := fs2; texture_map := texture_map st; keep := keep';
            failed := failed st ++ [Pathlib.to_str dest_rel] |}
  | (fs2, Ok _) =>
      Ok {| x_fs := fs2;
            texture_map :=
              if in_TEXTURE_EXTS (PyStr.lower (Pathlib.suffix dest_path))
              then ODict.set String.eqb (PyStr.lower (Pathlib.stem dest_path))
                             (Pathlib.to_str dest_path) (texture_map st)
              else texture_map st;
            keep := keep';
            failed := failed st |}
  end.

Fixpoint extract_loop (base_dir cache_root : Pathlib.Path) (st : Extraction)
    (assets : list asset) : result Extraction :=
  match assets with
  | [] => Ok st
  | a :: rest =>
      st' <- extract_asset base_dir cache_root st a ;;
      extract_loop base_dir cache_root st' rest
  end.

(** [extract_assets]: the file system it leaves, the texture map and the
    failed paths. *)
Definition extract_assets (fs : FS.t) (base_dir cache_root : Pathlib.Path)
    (assets : list asset) : result (FS.t * ODict.t string string * list string) :=
  fs0 <- FS.mkdir fs cache_root ;;
  st <- extract_loop base_dir cache_root (mkExtraction fs0 [] [] []) assets ;;
  fs' <- cleanup_cache (x_fs st) cache_root (keep st) ;;
  Ok (fs', texture_map st, failed st).

(** The keep set [extract_assets] hands to [cleanup_cache]. *)
Definition keep_of (assets : list asset) : strset :=
  fold_left (fun k a => strset_add (normalize_rel (snd a)) k) assets [].

(* ================================================================== *)
(** * index.py: the scan *)
(* ================================================================== *)

(** The dictionaries [build_index] fills. *)
Record Scan : Type := mkScan {
  models_tmp : ODict.t string TmpEntry;
  scan_textures_by_rel : ODict.t string (nelist FileSource);
  scan_textures_by_stem : ODict.t string (nelist FileSource);
  scan_gla_index : ODict.t string (nelist FileSource)
}.

Definition add_texture (rel : Pathlib.Path) (orig : string)
    (cont : option Pathlib.Path) (st : Scan) : Scan :=
  let fs := mkFileSource orig cont rel in
  {| models_tmp := models_tmp st;
     scan_textures_by_rel := multi_add (normalize_rel rel) fs (scan_textures_by_rel st);
     scan_textures_by_stem :=
       multi_add (PyStr.lower (Pathlib.stem rel)) fs (scan_textures_by_stem st);
     scan_gla_index := scan_gla_index st |}.

Definition add_gla (rel : Pathlib.Path) (orig : string)
    (cont : option Pathlib.Path) (st : Scan) : Scan :=
  let fs := mkFileSource orig cont rel in
  {| models_tmp := models_tmp st;
     scan_textures_by_rel := scan_textures_by_rel st;
     scan_textures_by_stem := scan_textures_by_stem st;
     scan_gla_index := multi_add (normalize_rel rel) fs (scan_gla_index st) |}.

(** [get_entry(name)]: [models_tmp.setdefault(name, ...)]. *)
Definition get_entry (name : string) (tmp : ODict.t string TmpEntry) : TmpEntry :=
  match ODict.get String.eqb name tmp with
  | Some e => e
  | None => mkTmpEntry [] []
  end.

(** [entry["sources"].get(key)], or the fresh source put under [key]. *)
Definition get_source (key : Pathlib.Path) (fresh : ModelSource) (entry : TmpEntry)
    : ModelSource :=
  match ODict.get Pathlib.eqb key (tmp_sources entry) with
  | Some s => s
  | None => fresh
  end.

(** The entry of [name] after its source under [key] has become [source]
    and [new_skins] have been added to the skins of the entry. *)
Definition put_source (name : string) (key : Pathlib.Path) (source : ModelSource)
    (new_skins : list Pathlib.Path) (st : Scan) : Scan :=
  let entry := get_entry name (models_tmp st) in
  let entry' :=
    {| tmp_sources := ODict.set Pathlib.eqb key source (tmp_sources entry);
       tmp_skins := fold_left (fun acc s => pathset_add s acc) new_skins (tmp_skins entry) |} in
  {| models_tmp := ODict.set String.eqb name entry' (models_tmp st);
     scan_textures_by_rel := scan_textures_by_rel st;
     scan_textures_by_stem := scan_textures_by_stem st;
     scan_gla_index := scan_gla_index st |}.

Definition with_glm (s : ModelSource) (g : Pathlib.Path) : ModelSource :=
  {| origin := origin s; container := container s; glm := Some g;
     skins := skins s; glas := glas s |}.
Definition with_skin (s : ModelSource) (p : Pathlib.Path) : ModelSource :=
  {| origin := origin s; container := container s; glm := glm s;
     skins := pathset_add p (skins s); glas := glas s |}.
Definition with_gla (s : ModelSource) (p : Pathlib.Path) : ModelSource :=
  {| origin := origin s; container := container s; glm := glm s;
     skins := skins s; glas := pathset_add p (glas s) |}.

(** The body of the loop over the members of one archive. *)
Definition scan_member (pk3_path : Pathlib.Path) (st : Scan) (info : ZipInfo)
    : result Scan :=
  d <- zipinfo_is_dir info ;;
  if d then Ok st
  else
    let rel := Pathlib.parse (filename info) in
    let suffix := PyStr.lower (Pathlib.suffix rel) in
    let parts := Pathlib.parts rel in
    if in_TEXTURE_EXTS suffix then Ok (add_texture rel "pk3" (Some pk3_path) st)
    else if List.length parts <? 3 then Ok st
    else if negb (String.eqb (PyStr.lower (nth 0 parts "")) "models")
            || negb (String.eqb (PyStr.lower (nth 1 parts "")) "players")
    then Ok st
    else
      let name := nth 2 parts "" in
      let entry := get_entry name (models_tmp st) in
      let source := get_source pk3_path (mkModelSource "pk3" (Some pk3_path) None [] []) entry in
      if String.eqb suffix ".glm" then
        if negb (is_some (glm source))
           || String.eqb (PyStr.lower (Pathlib.name rel)) "model.glm"
        then Ok (put_source name pk3_path (with_glm source rel) [] st)
        else Ok (put_source name pk3_path source [] st)
      else if String.eqb suffix ".skin" then
        Ok (put_source name pk3_path (with_skin source rel) [rel] st)
      else if String.eqb suffix ".gla" then
        Ok (add_gla rel "pk3" (Some pk3_path)
              (put_source name pk3_path (with_gla source rel) [] st))
      else Ok (put_source name pk3_path source [] st).

Fixpoint scan_members (pk3_path : Pathlib.Path) (st : Scan) (infos : list ZipInfo)
    : result Scan :=
  match infos with
  | [] => Ok st
  | info :: rest =>
      st' <- scan_member pk3_path st info ;;
      scan_members pk3_path st' rest
  end.

(** One archive: an [ArchiveError] skips it, any other exception goes up. *)
Definition scan_archive (fs : FS.t) (st : Scan) (pk3_path : Pathlib.Path) : result Scan :=
  match open_pk3 fs pk3_path with
  | Ok zf => scan_members pk3_path st zf
  | Raise ArchiveError => Ok st
  | Raise e => Raise e
  end.

Fixpoint scan_archives (fs : FS.t) (st : Scan) (pk3_paths : list Pathlib.Path)
    : result Scan :=
  match pk3_paths with
  | [] => Ok st
  | p :: rest =>
      st' <- scan_archive fs st p ;;
      scan_archives fs st' rest
  end.

Definition path_leb (p q : Pathlib.Path) : bool := negb (Pathlib.ltb q p).

(** [next((p for p in glm_files if p.name.lower() == "model.glm"), glm_files[0])] *)
Definition pick_glm (first : Pathlib.Path) (glm_files : list Pathlib.Path) : Pathlib.Path :=
  match find (fun p => String.eqb (PyStr.lower (Pathlib.name p)) "model.glm") glm_files with
  | Some p => p
  | None => first
  end.

(** [for x in paths: rel = x.relative_to(base_dir); st = f(rel, st)] *)
Fixpoint for_each_rel (base_dir : Pathlib.Path) (f : Pathlib.Path -> Scan -> Scan)
    (paths : list Pathlib.Path) (st : Scan) : result Scan :=
  match paths with
  | [] => Ok st
  | p :: rest =>
      rel <- FS.relative_to p base_dir ;;
      for_each_rel base_dir f rest (f rel st)
  end.

Definition is_texture_file (fs : FS.t) (tex : Pathlib.Path) : bool :=
  FS.is_file fs tex && in_TEXTURE_EXTS (PyStr.lower (Pathlib.suffix tex)).

Definition add_disk_skin (name : string) (key : Pathlib.Path) (rel : Pathlib.Path)
    (st : Scan) : Scan :=
  let entry := get_entry name (models_tmp st) in
  let source := get_source key (mkModelSource "disk" None None [] []) entry in
  put_source name key (with_skin source rel) [rel] st.

Definition add_disk_gla (name : string) (key : Pathlib.Path) (rel : Pathlib.Path)
    (st : Scan) : Scan :=
  let entry := get_entry name (models_tmp st) in
  let source := get_source key (mkModelSource "disk" None None [] []) entry in
  add_gla rel "disk" None (put_source name key (with_gla source rel) [] st).

(** The body of the loop over [models_dir.iterdir()]. *)
Definition scan_model_dir (fs : FS.t) (base_dir : Pathlib.Path) (st : Scan)
    (model_dir : Pathlib.Path) : result Scan :=
  if negb (FS.is_dir fs model_dir) then Ok st
  else
    match FS.glob_suffix fs model_dir ".glm" with
    | [] => Ok st
    | first :: others =>
        let glm_file := pick_glm first (first :: others) in
        let name := Pathlib.name model_dir in
        let entry := get_entry name (models_tmp st) in
        let source := get_source model_dir (mkModelSource "disk" None None [] []) entry in
        glm_rel <- FS.relative_to glm_file base_dir ;;
        let st := put_source name model_dir (with_glm source glm_rel) [] st in
        st <- for_each_rel base_dir (add_disk_skin name model_dir)
                (FS.glob_suffix fs model_dir ".skin") st ;;
        st <- for_each_rel base_dir (add_disk_gla name model_dir)
                (FS.glob_suffix fs model_dir ".gla") st ;;
        for_each_rel base_dir (fun rel => add_texture rel "disk" None)
          (filter (is_texture_file fs) (FS.rglob fs model_dir)) st
    end.

Fixpoint scan_model_dirs (fs : FS.t) (base_dir : Pathlib.Path) (st : Scan)
    (dirs : list Pathlib.Path) : result Scan :=
  match dirs with
  | [] => Ok st
  | d :: rest =>
      st' <- scan_model_dir fs base_dir st d ;;
      scan_model_dirs fs base_dir st' rest
  end.

Definition build_index (fs : FS.t) (base_dir : Pathlib.Path) : result Index :=
  let st := mkScan [] [] [] [] in
  (* Scan PK3 archives *)
  st <- scan_archives fs st
          (sorted path_leb (fun p => p) (FS.rglob_suffix fs base_dir ".pk3")) ;;
  (* Scan disk models *)
  let models_dir :=
    Pathlib.joinpath (Pathlib.joinpath base_dir (Pathlib.parse "models"))
                     (Pathlib.parse "players") in
  st <- (if FS.is_dir fs models_dir
         then dirs <- FS.iterdir fs models_dir ;; scan_model_dirs fs base_dir st dirs
         else Ok st) ;;
  (* Scan loose textures under /textures *)
  let textures_dir := Pathlib.joinpath base_dir (Pathlib.parse "textures") in
  st <- (if FS.is_dir fs textures_dir
         then for_each_rel base_dir (fun rel => add_texture rel "disk" None)
                (filter (is_texture_file fs) (FS.rglob fs textures_dir)) st
         else Ok st) ;;
  Ok {| base := base_dir;
        models := finalize_models (models_tmp st);
        textures_by_rel := scan_textures_by_rel st;
        textures_by_stem := scan_textures_by_stem st;
        gla_index := scan_gla_index st |}.

(** [ensure_index] with the global [PK3_INDEX_CACHE] passed in and out:
    the new value of the global, then the value returned. *)
Definition ensure_index (cache : option Index) (fs : FS.t) (base_dir : Pathlib.Path)
    : result (option Index * option Index) :=
  if negb (FS.exists_ fs base_dir) then Ok (None, None)
  else
    match cache with
    | Some idx =>
        if Pathlib.eqb (base idx) base_dir then Ok (cache, cache)
        else idx' <- build_index fs base_dir ;; Ok (Some idx', Some idx')
    | None => idx' <- build_index fs base_dir ;; Ok (Some idx', Some idx')
    end.

End Program.

(* ================================================================== *)
(** * Notions used to state the properties *)
(* ================================================================== *)

(** The relation a comparison function stands for. *)
Definition leb_rel (A : Type) (leb : A -> A -> bool) (x y : A) : Prop := leb x y = true.

Module Notions.
Import PyStr Pathlib.

(** A component as [parse] keeps them. *)
Definition good_part (p : string) : Prop :=
  p <> "" /\ mem_char "/" p = false /\ p <> ".".

(** The shape of a normalised key: empty, or clean components the first of
    which starts with neither a dot nor a slash. *)
Definition key_shape (r : string) : Prop :=
  r = "" \/
  exists c q l, r = join "/" (String c q :: l)
                /\ Forall good_part (String c q :: l)
                /\ mem_char c "./" = false.

(** The binding one line of a skin file states, in the words of the
    format: a blank line or a [//] comment states none; a line without a
    comma states none; otherwise the line splits at its first comma into
    a part name and a texture reference, and states none when the reference
    is [*off] or [off] in any letter case. *)
Definition line_binding (raw_line : string) : option (string * string) :=
  let line := strip raw_line in
  if String.eqb line "" then None
  else if startswith line "//" then None
  else match split_once "," line with
       | None => None
       | Some (part, tex) =>
           if String.eqb (lower (strip tex)) "*off" then None
           else if String.eqb (lower (strip tex)) "off" then None
           else Some (strip part, strip tex)
       end.

(** The texture bound to [part] by a sequence of bindings: the last one
    stated for it. *)
Definition last_binding (part : string) (acc : option string)
    (bindings : list (option (string * string))) : option string :=
  fold_left (fun acc b =>
               match b with
               | Some (p, tex) => if String.eqb p part then Some tex else acc
               | None => acc
               end) bindings acc.

(** The rank of a source, in the words of the specification:
    on disk (0), the preferred archive [assets1.pk3] (1), any other
    archive (2). *)
Definition priority_class (src : ModelSource) : nat :=
  if String.eqb (origin src) "disk" then 0
  else match container src with
       | Some c =>
           if String.eqb (PyStr.lower (Pathlib.name c)) "assets1.pk3" then 1 else 2
       | None => 2
       end.

Definition has_glm (s : ModelSource) : bool := is_some (glm s).

(** The candidate [tex_path.with_suffix(ext)] exists and is not a key of
    the path table. *)
Definition ext_misses (index : Index) (tex_path : Pathlib.Path) (ext : string) : Prop :=
  exists candidate,
    Pathlib.with_suffix tex_path ext = Some candidate
    /\ ODict.get String.eqb (normalize_rel candidate) (textures_by_rel index) = None.

(** The candidate exists and the path table holds [l] under its key. *)
Definition ext_hits (index : Index) (tex_path : Pathlib.Path) (ext : string)
    (l : nelist FileSource) : Prop :=
  exists candidate,
    Pathlib.with_suffix tex_path ext = Some candidate
    /\ ODict.get String.eqb (normalize_rel candidate) (textures_by_rel index) = Some l.

(** The text of a Windows path begins with two separators: the path of
    a share ([\\host\share]) or an extended path ([\\?\...]). *)
Definition win_two_seps (x : string) : bool :=
  match replace_char "/" "\" x with
  | String "\" (String "\" _) => true
  | _ => false
  end.

(** The sources the skeleton table of the index lists under the key of
    the path [g]. *)
Definition gla_listed (index : Index) (g : Path) : option (nelist FileSource) :=
  ODict.get String.eqb (normalize_rel g) (gla_index index).

(** No skeleton listed by the sources of the entry is in the index. *)
Definition no_own_gla (index : Index) (entry : ModelEntry) : Prop :=
  forall src gla_rel,
    In src (sources entry) -> In gla_rel (glas src) -> resolve_gla index gla_rel = None.

Import FS.

(** [k'] lies strictly below [k]. *)
Definition inside (k k' : key) : Prop := exists n rel, k' = k ++ n :: rel.

Definition keys (fs : t) : list key := map fst fs.

Definition plain_seg (s : string) : Prop := s <> ".." /\ s <> ".".
Definition plain (k : key) : Prop := Forall plain_seg k.

(** Every entry has a name made of plain components and lies in a
    directory of the tree; no two entries share a place. *)
Definition wf (fs : t) : Prop :=
  NoDup (keys fs)
  /\ forall k n, In (k, n) fs -> k <> [] /\ plain k /\ lookup fs (removelast k) = Some Dir.

(** The two conditions as tests that run. *)
Definition plain_b (k : key) : bool :=
  forallb (fun s => negb (String.eqb s "..") && negb (String.eqb s ".")) k.

Fixpoint nodup_b (l : list key) : bool :=
  match l with
  | [] => true
  | k :: rest => negb (existsb (list_eqb k) rest) && nodup_b rest
  end.

Definition wf_b (fs : t) : bool :=
  nodup_b (keys fs)
  && forallb (fun e =>
       match fst e with
       | [] => false
       | _ :: _ =>
           plain_b (fst e)
           && match lookup fs (removelast (fst e)) with
              | Some Dir => true
              | _ => false
              end
       end) fs.

(** A relative path without [.] or [..] components: below a directory it
    names the place given by the list of its components. *)
Definition plain_rel (p : Path) : Prop := root p = "" /\ plain (tail p).

(** [rel], relative to the cache root, is a file of the cache. *)
Definition cache_file (fs : t) (cache_root : Path) (rel : key) : Prop :=
  exists b, lookup fs (tail cache_root ++ rel) = Some (File b).

(** The key of [rel], as [cleanup_cache] computes it, is in the keep set. *)
Definition kept (keep_set : strset) (rel : key) : bool :=
  strset_mem (normalize_rel {| root := ""; tail := rel |}) keep_set.

(** [fs'] has every entry of [fs], unchanged. *)
Definition keeps (fs fs' : t) : Prop :=
  forall k n, lookup fs k = Some n -> lookup fs' k = Some n.

(** Whatever [mkdir] adds is a directory; nothing else changes. *)
Definition adds_dirs (fs fs' : t) : Prop :=
  keeps fs fs'
  /\ forall k n, lookup fs' k = Some n -> lookup fs k = Some n \/ (lookup fs k = None /\ n = Dir).

(** Files stay files and directories stay directories. *)
Definition grows (fs fs' : t) : Prop :=
  forall k,
    match lookup fs k with
    | Some Dir => lookup fs' k = Some Dir
    | Some (File _) => exists b, lookup fs' k = Some (File b)
    | None => True
    end.

Definition is_file_at (fs : t) (k : key) : bool :=
  match lookup fs k with Some (File _) => true | _ => false end.

(** The file at [q] is one [cleanup_cache] removes: it lies below the
    cache root at [ck] and its key is not in the keep set. *)
Definition doomed (ck : key) (keep_set : strset) (fs : t) (q : key) : bool :=
  match below ck q with
  | Some rel => is_file_at fs q && negb (kept keep_set rel)
  | None => false
  end.

(** What lies at a place: nothing, a directory or a file. *)
Definition kind (o : option node) : option bool :=
  match o with
  | None => None
  | Some Dir => Some false
  | Some (File _) => Some true
  end.

(** [s] has the entries of [s1], of the same kinds, and the very same
    entries where the cache root at [ck] is not above. *)
Definition alike (ck : key) (s s1 : t) : Prop :=
  wf s
  /\ (forall q, kind (lookup s q) = kind (lookup s1 q))
  /\ (forall q, below ck q = None -> lookup s q = lookup s1 q).

(** The source of an asset can be read in [fs], and lies outside the
    cache: a file below [base_dir], or a stored member of an archive. *)
Definition source_available (unzip : string -> result (list ZipInfo)) (fs : t)
    (cache_root base_dir : Path) (src : FileSource) : Prop :=
  if String.eqb (fs_origin src) "disk" then
    let p := joinpath base_dir (fs_rel_path src) in
    plain (tail p) /\ below (tail cache_root) (tail p) = None /\ is_file fs p = true
  else
    exists c zf info data,
      fs_container src = Some c
      /\ plain (tail c) /\ below (tail cache_root) (tail c) = None
      /\ open_pk3 unzip fs c = Ok zf
      /\ getinfo zf (as_posix (fs_rel_path src)) = Ok info
      /\ body info = Stored data.

(** An asset list that the cache [fs] holds in full: every destination is
    a plain relative path at which [fs] has a file, and every source can
    still be read. *)
Definition fully_resolved (unzip : string -> result (list ZipInfo)) (fs : t)
    (cache_root base_dir : Path) (assets : list asset) : Prop :=
  forall a, In a assets ->
    plain_rel (snd a)
    /\ is_file fs (joinpath cache_root (snd a)) = true
    /\ source_available unzip fs cache_root base_dir (fst a).

(** Nothing stands in the way of a file at [k]: no file lies where a
    directory is needed, and no directory lies at [k]. *)
Definition clear_way (fs : t) (k : key) : Prop :=
  (forall pre post b, k = pre ++ post -> post <> [] -> lookup fs pre <> Some (File b))
  /\ lookup fs k <> Some Dir.

(** No file lies at any of the first [n] prefixes of [k], the empty one
    included. *)
Definition no_file_on (fs : t) (k : key) (n : nat) : bool :=
  forallb (fun i => match lookup fs (firstn i k) with
                    | Some (File _) => false
                    | _ => true
                    end) (seq 0 n).

(** An asset list that can be extracted in full into the cache, as [fs]
    has it before the call: no file lies on the path of the cache root;
    every source can be read and lies outside the cache; every destination
    is a plain relative path, not empty, at which a file can be made; and
    no destination lies below another one. *)
Definition resolvable (unzip : string -> result (list ZipInfo)) (fs : t)
    (cache_root base_dir : Path) (assets : list asset) : Prop :=
  (forall pre post b, tail cache_root = pre ++ post -> lookup fs pre <> Some (File b))
  /\ (forall a, In a assets ->
        plain_rel (snd a) /\ tail (snd a) <> []
        /\ clear_way fs (tail cache_root ++ tail (snd a))
        /\ source_available unzip fs cache_root base_dir (fst a))
  /\ (forall a a' x rest,
        In a assets -> In a' assets -> tail (snd a') <> tail (snd a) ++ x :: rest).

(** ** What the scan of the disk does to the entry of one model *)

(** What the choice of the primary source reads of a source. *)
Definition header : Type := (string * option Path * bool)%type.

Definition hdr (s : ModelSource) : header := (origin s, container s, is_some (glm s)).

Definition hdr_mark (h : header) : header := (fst (fst h), snd (fst h), true).

Definition hdr_priority (h : header) : nat * nat :=
  source_priority (mkModelSource (fst (fst h)) (snd (fst h)) None [] []).

Definition hdr_class (h : header) : nat :=
  priority_class (mkModelSource (fst (fst h)) (snd (fst h)) None [] []).

(** The source [build_index] makes for a directory of the disk. *)
Definition disk_source : ModelSource := mkModelSource "disk" None None [] [].

(** The sources of an entry, in their order, each reduced to its header. *)
Definition entry_hdr (e : TmpEntry) : ODict.t Path header :=
  map (fun kv => (fst kv, hdr (snd kv))) (tmp_sources e).

Definition hdr_at (d : Path) (H : ODict.t Path header) : header :=
  match ODict.get Pathlib.eqb d H with
  | Some h => h
  | None => ("disk", None, false)
  end.

(** [x] is a skin of some source of the entry. *)
Definition entry_skinset (e : TmpEntry) (x : Path) : Prop :=
  exists kv, In kv (tmp_sources e) /\ In x (skins (snd kv)).

(** Two entries with the same headers and the same skins. *)
Definition entry_eq (e e' : TmpEntry) : Prop :=
  entry_hdr e = entry_hdr e' /\ forall x, entry_skinset e x <-> entry_skinset e' x.

(** The directory [d] is passed over by the scan of the disk. *)
Definition no_model (fs : t) (d : Path) : bool :=
  negb (is_dir fs d)
  || match glob_suffix fs d ".glm" with [] => true | _ :: _ => false end.

(** [x] is, relative to [base_dir], a skin file of the directory [d]. *)
Definition disk_skin (fs : t) (base_dir d x : Path) : Prop :=
  exists p, In p (glob_suffix fs d ".skin") /\ relative_to p base_dir = Ok x.

(** The entry [E] of the name of [d] before the directory [d] is scanned,
    and the entry [E'] after. *)
Definition disk_effect (fs : t) (base_dir d : Path) (E E' : TmpEntry) : Prop :=
  if no_model fs d then E' = E
  else
    entry_hdr E'
    = ODict.set Pathlib.eqb d (hdr_mark (hdr_at d (entry_hdr E))) (entry_hdr E)
    /\ forall x, entry_skinset E' x <-> entry_skinset E x \/ disk_skin fs base_dir d x.

(** A step of a loop over the files of the directory [d], whose model is
    [n]: it leaves the header of the source of [d] as it is, and adds the
    skins [A rel]. *)
Definition quiet_step (n : string) (d : Path) (f : Path -> Scan -> Scan)
    (A : Path -> Path -> Prop) : Prop :=
  forall rel st,
    (forall h,
        ODict.get Pathlib.eqb d (entry_hdr (get_entry n (models_tmp st))) = Some h ->
        entry_hdr (get_entry n (models_tmp (f rel st)))
        = entry_hdr (get_entry n (models_tmp st)))
    /\ (forall x,
          entry_skinset (get_entry n (models_tmp (f rel st))) x
          <-> entry_skinset (get_entry n (models_tmp st)) x \/ A rel x)
    /\ (forall m, m <> n ->
          get_entry m (models_tmp (f rel st)) = get_entry m (models_tmp st))
    /\ (NoDup (map fst (models_tmp st)) -> NoDup (map fst (models_tmp (f rel st)))).

End Notions.

(* ================================================================== *)
(** * A small game directory, used to run the code *)
(* ================================================================== *)

Module Demo.

Definition exts : list string := [".jpg"; ".png"; ".tga"].

(** Two archives, told apart by their first byte. *)
Definition unzip (bytes : string) : result (list ZipInfo) :=
  if String.eqb bytes "PK-assets1" then
    Ok [ mkZipInfo "models/players/kyle/model.glm" (Stored "glm-a");
         mkZipInfo "models/players/kyle/model_default.skin"
           (Stored "head,models/players/kyle/head.jpg");
         mkZipInfo "models/players/kyle/head.jpg" (Stored "jpg");
         mkZipInfo "models/players/_humanoid/_humanoid.gla" (Stored "gla") ]
  else if String.eqb bytes "PK-extra" then
    Ok [ mkZipInfo "models/players/kyle/kyle.glm" (Stored "glm-b");
         mkZipInfo "models/players/kyle/model_blue.skin" (Stored "head,x") ]
  else Raise BadZipFile.

Definition game : Pathlib.Path := Pathlib.parse "/game".

Definition tree : FS.t :=
  [ (["game"], FS.Dir);
    (["game"; "assets1.pk3"], FS.File "PK-assets1");
    (["game"; "extra.pk3"], FS.File "PK-extra");
    (["game"; "broken.pk3"], FS.File "not an archive");
    (["game"; "models"], FS.Dir);
    (["game"; "models"; "players"], FS.Dir);
    (["game"; "models"; "players"; "kyle"], FS.Dir);
    (["game"; "models"; "players"; "kyle"; "model.glm"], FS.File "glm-disk");
    (["game"; "models"; "players"; "kyle"; "model_red.skin"], FS.File "head,*off");
    (["game"; "textures"], FS.Dir);
    (["game"; "textures"; "t.png"], FS.File "png") ].

Definition index : Index :=
  Eval vm_compute in
    match build_index unzip exts tree game with
    | Ok idx => idx
    | Raise _ => mkIndex game [] [] [] []
    end.

Definition kyle : ModelEntry :=
  Eval vm_compute in
    match ODict.get String.eqb "kyle" (models index) with
    | Some e => e
    | None => mkModelEntry [] (mkModelSource "" None None [] []) []
    end.

(** The same index with its skeleton table emptied. *)
Definition bare_index : Index :=
  mkIndex game (models index) (textures_by_rel index) (textures_by_stem index) [].

(** The cache below the game directory, and two assets: a texture on
    disk and a texture of the first archive. *)
Definition cache : Pathlib.Path := Pathlib.parse "/game/cache".

Definition assets : list asset :=
  [ (mkFileSource "disk" None (Pathlib.parse "textures/t.png"),
     Pathlib.parse "textures/t.png");
    (mkFileSource "pk3" (Some (Pathlib.parse "/game/assets1.pk3"))
       (Pathlib.parse "models/players/kyle/head.jpg"),
     Pathlib.parse "models/players/kyle/head.jpg") ].

(** A cache that holds one file, and an asset whose source is missing. *)
Definition stale : FS.t :=
  [ (["game"], FS.Dir);
    (["game"; "cache"], FS.Dir);
    (["game"; "cache"; "a"], FS.Dir);
    (["game"; "cache"; "b.png"], FS.File "old") ].

Definition missing : FileSource :=
  mkFileSource "disk" None (Pathlib.parse "textures/missing.png").

End Demo.

(* ================================================================== *)
(** * The rest of the modules: labels, skin rewriting, filtered
      extraction *)
(* ================================================================== *)

Module More.
Import PyStr Pathlib.

(** ** skin.py: the label of a skin file *)

(** [format_skin_label(rel)] *)
Definition format_skin_label (rel : Path) : string :=
  let stem := Pathlib.stem rel in
  if startswith stem "model_" then drop (String.length "model_") stem else stem.

(** [derive_skin_suffix(skin_rel)] *)
Definition derive_skin_suffix (skin_rel : Path) : string :=
  let stem := Pathlib.stem skin_rel in
  if startswith stem "model_" then drop (String.length "model_") stem else stem.

(** ** index.py: the cached index *)

(** [clear_index()], on the global passed in and out. *)
Definition clear_index (cache : option Index) : option Index := None.

(** ** cache.py: the references of the cached skin file *)

(** [s.replace(old, new)] for a non-empty [old]: the occurrences are taken
    from the left and do not overlap; [skip] counts the characters of the
    occurrence being replaced that are still to pass. *)
Fixpoint replace_from (old new : string) (skip : nat) (s : string) : string :=
  match s with
  | EmptyString => EmptyString
  | String c r =>
      match skip with
      | S k => replace_from old new k r
      | O =>
          if String.prefix old s
          then String.append new (replace_from old new (String.length old - 1) r)
          else String c (replace_from old new 0 r)
      end
  end.

(** [s.replace("", new)]: [new] before every character and at the end. *)
Fixpoint interleave (new s : string) : string :=
  match s with
  | EmptyString => new
  | String c r => String.append new (String c (interleave new r))
  end.

(** [s.replace(old, new)] *)
Definition replace (old new s : string) : string :=
  if String.eqb old "" then interleave new s else replace_from old new 0 s.

Section SkinText.

(** [bytes] as [read_text()] gives them, [None] when the decoding raises;
    and a text as [write_text()] stores it, [None] when the encoding
    raises. *)
Variable decode_strict : string -> option string.
Variable encode_locale : string -> option string.

(** [rewrite_skin_paths(cache_root, skin_rel, replacements)].  The file is
    opened for writing, hence emptied, before the text is encoded. *)
Definition rewrite_skin_paths (fs : FS.t) (cache_root skin_rel : Path)
    (replacements : ODict.t string string) : FS.t :=
  match replacements with
  | [] => fs
  | _ :: _ =>
      let skin_path := joinpath cache_root skin_rel in
      if negb (FS.exists_ fs skin_path) then fs
      else
        match FS.read_file fs skin_path with
        | Raise _ => fs
        | Ok bytes =>
            match decode_strict bytes with
            | None => fs
            | Some text =>
                let text :=
                  fold_left (fun t kv => replace (fst kv) (snd kv) t) replacements text in
                let written :=
                  match encode_locale text with
                  | Some b => b
                  | None => EmptyString
                  end in
                match FS.write_file fs skin_path written with
                | Ok fs' => fs'
                | Raise _ => fs
                end
            end
        end
  end.

End SkinText.

(** ** pk3.py: extraction of the members that match *)

Section Filtered.

(** [fnmatch.fnmatch(name, pattern)] *)
Variable fnmatch : string -> string -> bool.

(** [list(filter_members(entries, patterns))] *)
Definition filter_members (entries : list ZipInfo) (patterns : list string)
    : list ZipInfo :=
  match patterns with
  | [] => entries
  | _ :: _ =>
      filter (fun entry => existsb (fun pattern => fnmatch (filename entry) pattern) patterns)
             entries
  end.

(** [safe_extract(archive, destination, patterns)] *)
Definition safe_extract (fs : FS.t) (archive : list ZipInfo) (destination : Path)
    (patterns : list string) : FS.t * result (list string) :=
  match filter_members archive patterns with
  | [] => (fs, Ok [])
  | members => safe_extract_members fs destination members
  end.

End Filtered.

End More.

(* ================================================================== *)
(** * Further notions *)
(* ================================================================== *)

Module MoreNotions.
Import PyStr Pathlib Notions.

(** The source lies in the container of the preferred model source. *)
Definition in_preferred (preferred : option ModelSource) (fs : FileSource) : bool :=
  match preferred with
  | Some p =>
      match container p with
      | Some c => option_path_eqb (fs_container fs) (Some c)
      | None => false
      end
  | None => false
  end.

Definition on_disk (fs : FileSource) : bool := String.eqb (fs_origin fs) "disk".

(** [x] is the first element of [l] that satisfies [f]. *)
Definition first_with (A : Type) (f : A -> bool) (l : list A) (x : A) : Prop :=
  exists before after,
    l = before ++ x :: after /\ f x = true /\ forall y, In y before -> f y = false.

(** A source as [build_index] makes them: on disk and in no container, or
    in an archive. *)
Definition source_shape (f : FileSource) : Prop :=
  (fs_origin f = "disk" /\ fs_container f = None)
  \/ (fs_origin f = "pk3" /\ exists c, fs_container f = Some c).

(** [f] is listed under the key [k]. *)
Definition listed (table : ODict.t string (nelist FileSource)) (k : string)
    (f : FileSource) : Prop :=
  exists l, ODict.get String.eqb k table = Some l /\ In f (ne_list l).

(** The keys of the three tables of sources are the keys of the sources
    they list, and the tables of textures list files with a texture
    extension only. *)
Definition tables_ok (TEXTURE_EXTS : list string)
    (by_rel by_stem glas : ODict.t string (nelist FileSource)) : Prop :=
  (forall k f, listed by_rel k f ->
     normalize_rel (fs_rel_path f) = k
     /\ in_TEXTURE_EXTS TEXTURE_EXTS (lower (suffix (fs_rel_path f))) = true
     /\ source_shape f)
  /\ (forall k f, listed by_stem k f ->
        lower (stem (fs_rel_path f)) = k
        /\ in_TEXTURE_EXTS TEXTURE_EXTS (lower (suffix (fs_rel_path f))) = true
        /\ source_shape f)
  /\ (forall k f, listed glas k f ->
        normalize_rel (fs_rel_path f) = k /\ source_shape f).

(** [f] is listed in the path table under the key of its path and in the
    stem table under its lower-cased stem. *)
Definition texture_listed (by_rel by_stem : ODict.t string (nelist FileSource))
    (f : FileSource) : Prop :=
  listed by_rel (normalize_rel (fs_rel_path f)) f
  /\ listed by_stem (lower (stem (fs_rel_path f))) f.

(** A member that is not a directory entry. *)
Definition is_file_member (info : ZipInfo) : bool :=
  match zipinfo_is_dir info with
  | Ok false => true
  | _ => false
  end.

(** The place [target] lies at the directory [destination] or below it, or
    at or below a neighbour of it whose name begins with the name of
    [destination]. *)
Definition confined (destination target : Path) : Prop :=
  FS.below (tail destination) (tail target) <> None
  \/ exists pre nm s rest,
       s <> "" /\ tail destination = pre ++ [nm]
       /\ tail target = pre ++ String.append nm s :: rest.

(** Opening the archive fails with [ArchiveError]. *)
Definition unreadable (unzip : string -> result (list ZipInfo)) (fs : FS.t)
    (p : Path) : bool :=
  match open_pk3 unzip fs p with
  | Raise ArchiveError => true
  | _ => false
  end.

(** The order of the skins of an entry. *)
Definition skin_le (a b : Path) : Prop :=
  String.leb (skin_sort_key a) (skin_sort_key b) = true.

Definition scan_lists (f : FileSource) (st : Scan) : Prop :=
  texture_listed (scan_textures_by_rel st) (scan_textures_by_stem st) f.

Definition scan_ok (TEXTURE_EXTS : list string) (st : Scan) : Prop :=
  tables_ok TEXTURE_EXTS (scan_textures_by_rel st) (scan_textures_by_stem st)
    (scan_gla_index st).

(** Where the cache root at [ck] is not above, [fs'] has every entry of
    [fs], unchanged, and beyond them directories only. *)
Definition dirs_outside (ck : FS.key) (fs fs' : FS.t) : Prop :=
  forall q, ~ inside ck q ->
    (forall n, FS.lookup fs q = Some n -> FS.lookup fs' q = Some n)
    /\ (forall n, FS.lookup fs' q = Some n ->
          FS.lookup fs q = Some n \/ (FS.lookup fs q = None /\ n = FS.Dir)).

End MoreNotions.

Unset Implicit Arguments.

(* ================================================================== *)
(** * Dictionaries *)
(* ================================================================== *)

Module ODictFacts.

Section Generic.
Variables K V : Type.
Variable eqb : K -> K -> bool.
Hypothesis eqb_eq : forall a b, eqb a b = true <-> a = b.

Lemma eqb_refl (a : K) : eqb a a = true.
Proof. now apply eqb_eq. Qed.

Lemma eqb_neq (a b : K) : eqb a b = false <-> a <> b.
Proof.
  split.
  - intros H E. apply eqb_eq in E. congruence.
  - intros N. destruct (eqb a b) eqn:E; [|reflexivity]. apply eqb_eq in E. contradiction.
Qed.

Lemma gen_get_set (k q : K) (v : V) (d : ODict.t K V) :
  ODict.get eqb q (ODict.set eqb k v d)
  = if eqb k q then Some v else ODict.get eqb q d.
Proof.
  induction d as [|[k' v'] d IH]; simpl; [reflexivity|].
  destruct (eqb k' k) eqn:E; simpl.
  - apply eqb_eq in E. subst k'. destruct (eqb k q); reflexivity.
  - rewrite IH. destruct (eqb k' q) eqn:E'; [|reflexivity].
    apply eqb_eq in E'. subst k'. now rewrite (proj2 (eqb_neq k q)) by
      (intros ->; rewrite eqb_refl in E; discriminate).
Qed.

Lemma gen_get_app (q : K) (d d' : ODict.t K V) :
  ODict.get eqb q (d ++ d')
  = match ODict.get eqb q d with
    | Some v => Some v
    | None => ODict.get eqb q d'
    end.
Proof.
  induction d as [|[k v] d IH]; simpl; [reflexivity|].
  destruct (eqb k q); [reflexivity|exact IH].
Qed.

Lemma gen_get_in (q : K) (v : V) (d : ODict.t K V) :
  ODict.get eqb q d = Some v -> In (q, v) d.
Proof.
  induction d as [|[k v'] d IH]; simpl; [discriminate|].
  destruct (eqb k q) eqn:E.
  - apply eqb_eq in E. subst k. intros H. injection H as ->. now left.
  - intros H. right. now apply IH.
Qed.

Lemma gen_in_get (q : K) (v : V) (d : ODict.t K V) :
  NoDup (map fst d) -> In (q, v) d -> ODict.get eqb q d = Some v.
Proof.
  induction d as [|[k v'] d IH]; simpl; [tauto|].
  intros ND [H|H].
  - injection H as -> ->. now rewrite eqb_refl.
  - inversion ND as [|? ? Hn ND']; subst.
    destruct (eqb k q) eqn:E; [|now apply IH].
    apply eqb_eq in E. subst k. exfalso. apply Hn.
    apply in_map_iff. now exists (q, v).
Qed.

Lemma gen_get_none (q : K) (d : ODict.t K V) :
  ODict.get eqb q d = None <-> ~ In q (map fst d).
Proof.
  induction d as [|[k v] d IH]; simpl; [tauto|].
  destruct (eqb k q) eqn:E.
  - apply eqb_eq in E. subst. split; [discriminate|tauto].
  - apply eqb_neq in E. rewrite IH. tauto.
Qed.

Lemma gen_set_absent (k : K) (v : V) (d : ODict.t K V) :
  ODict.get eqb k d = None -> ODict.set eqb k v d = d ++ [(k, v)].
Proof.
  induction d as [|[k' v'] d IH]; simpl; [reflexivity|].
  destruct (eqb k' k); [discriminate|]. intros H. now rewrite IH.
Qed.

Lemma gen_set_keys_present (k : K) (v v0 : V) (d : ODict.t K V) :
  ODict.get eqb k d = Some v0 -> map fst (ODict.set eqb k v d) = map fst d.
Proof.
  induction d as [|[k' v'] d IH]; simpl; [discriminate|].
  destruct (eqb k' k); simpl; [reflexivity|]. intros H. now rewrite IH.
Qed.
End Generic.

Lemma get_set (V : Type) (k q : string) (v : V) (d : ODict.t string V) :
  ODict.get String.eqb q (ODict.set String.eqb k v d)
  = if String.eqb k q then Some v else ODict.get String.eqb q d.
Proof. apply gen_get_set. apply String.eqb_eq. Qed.

Lemma get_set_same (V : Type) (k : string) (v : V) (d : ODict.t string V) :
  ODict.get String.eqb k (ODict.set String.eqb k v d) = Some v.
Proof. now rewrite get_set, String.eqb_refl. Qed.

Lemma get_set_other (V : Type) (k q : string) (v : V) (d : ODict.t string V) :
  k <> q ->
  ODict.get String.eqb q (ODict.set String.eqb k v d) = ODict.get String.eqb q d.
Proof. intros N. rewrite get_set. apply String.eqb_neq in N. now rewrite N. Qed.

End ODictFacts.

(* ================================================================== *)
(** * skin.py: [parse_skin_text] *)
(* ================================================================== *)

Module SkinTextFacts.
Import PyStr ODictFacts Notions.

Lemma split_once_none (sep : ascii) (s : string) :
  split_once sep s = None <-> mem_char sep s = false.
Proof.
  induction s as [|c r IH]; cbn [split_once mem_char]; [tauto|].
  rewrite (Ascii.eqb_sym sep c).
  destruct (Ascii.eqb c sep); cbn [orb]; [split; discriminate|].
  destruct (split_once sep r) as [[a b]|]; split; intros H; try discriminate.
  - pose proof (proj2 IH H). discriminate.
  - now apply IH.
  - reflexivity.
Qed.

(** [split_once] cuts at the first separator. *)
Lemma split_once_first (sep : ascii) (s a b : string) :
  split_once sep s = Some (a, b) ->
  s = String.append a (String sep b) /\ mem_char sep a = false.
Proof.
  revert a. induction s as [|c r IH]; intros a; simpl; [discriminate|].
  destruct (Ascii.eqb_spec c sep) as [->|N].
  - intros H. injection H as <- <-. auto.
  - destruct (split_once sep r) as [[a' b']|]; [|discriminate].
    intros H. injection H as <- <-.
    destruct (IH a' eq_refl) as [-> Hm]. split; [reflexivity|].
    simpl. rewrite Hm. apply Ascii.eqb_neq in N. rewrite Ascii.eqb_sym, N. reflexivity.
Qed.

(** One step of the loop, through the binding the line states. *)
Lemma parse_skin_line_binding (m : ODict.t string string) (raw_line : string) :
  parse_skin_line m raw_line
  = match line_binding raw_line with
    | Some (part, tex) =>
        if String.eqb part "" then m else ODict.set String.eqb part tex m
    | None => m
    end.
Proof.
  unfold parse_skin_line, line_binding.
  destruct (String.eqb (strip raw_line) ""); simpl; [reflexivity|].
  destruct (startswith (strip raw_line) "//"); simpl; [reflexivity|].
  destruct (split_once "," (strip raw_line)) as [[part tex]|] eqn:S.
  - assert (M : mem_char "," (strip raw_line) = true).
    { destruct (mem_char "," (strip raw_line)) eqn:M; [reflexivity|].
      apply split_once_none in M. congruence. }
    rewrite M. simpl.
    destruct (String.eqb (lower (strip tex)) "*off"); simpl; [reflexivity|].
    destruct (String.eqb (lower (strip tex)) "off"); simpl; [reflexivity|].
    destruct (String.eqb (strip part) ""); reflexivity.
  - destruct (mem_char "," (strip raw_line)); reflexivity.
Qed.

Lemma parse_skin_lines_get (lines : list string) (m : ODict.t string string)
    (part : string) :
  part <> "" ->
  ODict.get String.eqb part (fold_left parse_skin_line lines m)
  = last_binding part (ODict.get String.eqb part m) (map line_binding lines).
Proof.
  intros Hne. revert m.
  induction lines as [|l lines IH]; intros m; [reflexivity|].
  cbn [fold_left map]. rewrite IH. unfold last_binding. cbn [fold_left]. f_equal.
  rewrite parse_skin_line_binding.
  destruct (line_binding l) as [[p tex]|]; [|reflexivity].
  destruct (String.eqb_spec p "") as [->|Np].
  - destruct (String.eqb_spec "" part); [congruence|reflexivity].
  - apply get_set.
Qed.

Lemma parse_skin_lines_get_empty (lines : list string) (m : ODict.t string string) :
  ODict.get String.eqb "" (fold_left parse_skin_line lines m)
  = ODict.get String.eqb "" m.
Proof.
  revert m. induction lines as [|l lines IH]; intros m; [reflexivity|].
  cbn [fold_left]. rewrite IH, parse_skin_line_binding.
  destruct (line_binding l) as [[p tex]|]; [|reflexivity].
  destruct (String.eqb_spec p "") as [->|Np]; [reflexivity|].
  now apply get_set_other.
Qed.

End SkinTextFacts.

(* ================================================================== *)
(** * Facts about the string built-ins *)
(* ================================================================== *)

Module PyStrFacts.
Import PyStr.

Lemma append_empty_r (s : string) : String.append s "" = s.
Proof. induction s; simpl; congruence. Qed.

Lemma append_assoc (a b c : string) :
  String.append (String.append a b) c = String.append a (String.append b c).
Proof. induction a; simpl; congruence. Qed.

Lemma lower_char_idem (c : ascii) : lower_char (lower_char c) = lower_char c.
Proof. destruct c as [[] [] [] [] [] [] [] []]; reflexivity. Qed.

Lemma lower_char_slash (c : ascii) : Ascii.eqb (lower_char c) "/" = Ascii.eqb c "/".
Proof. destruct c as [[] [] [] [] [] [] [] []]; reflexivity. Qed.

Lemma lower_char_dot (c : ascii) : Ascii.eqb (lower_char c) "." = Ascii.eqb c ".".
Proof. destruct c as [[] [] [] [] [] [] [] []]; reflexivity. Qed.

Lemma lower_idem (s : string) : lower (lower s) = lower s.
Proof. induction s; simpl; [reflexivity|]. now rewrite lower_char_idem, IHs. Qed.

Lemma lower_app (a b : string) :
  lower (String.append a b) = String.append (lower a) (lower b).
Proof. induction a; simpl; congruence. Qed.

Lemma lower_empty_iff (s : string) : lower s = "" <-> s = "".
Proof. destruct s; simpl; split; congruence. Qed.

Lemma lower_eqb_dot (s : string) : String.eqb (lower s) "." = String.eqb s ".".
Proof.
  destruct s as [|c [|d r]]; simpl; try reflexivity.
  - rewrite lower_char_dot. reflexivity.
  - rewrite lower_char_dot. destruct (Ascii.eqb c "."); reflexivity.
Qed.

Lemma lower_eqb_empty (s : string) : String.eqb (lower s) "" = String.eqb s "".
Proof. destruct s; reflexivity. Qed.

Lemma lower_join (sep : string) (l : list string) :
  lower (join sep l) = join (lower sep) (map lower l).
Proof.
  induction l as [|a [|b l] IH]; simpl in *; try reflexivity.
  rewrite !lower_app. f_equal. f_equal. exact IH.
Qed.

Lemma lower_join_slash (l : list string) :
  join "/" (map lower l) = lower (join "/" l).
Proof. now rewrite lower_join. Qed.

Lemma lower_mem_slash (s : string) : mem_char "/" (lower s) = mem_char "/" s.
Proof.
  induction s as [|c r IH]; cbn [lower mem_char]; [reflexivity|].
  rewrite IH. f_equal.
  rewrite Ascii.eqb_sym, lower_char_slash, Ascii.eqb_sym. reflexivity.
Qed.

Lemma lower_split (s : string) : split "/" (lower s) = map lower (split "/" s).
Proof.
  induction s as [|c r IH]; simpl; [reflexivity|].
  rewrite lower_char_slash. destruct (Ascii.eqb c "/"); simpl.
  - now rewrite IH.
  - rewrite IH. destruct (split "/" r); reflexivity.
Qed.

Lemma lstrip_idem (cs s : string) : lstrip cs (lstrip cs s) = lstrip cs s.
Proof.
  induction s as [|c r IH]; simpl; [reflexivity|].
  destruct (mem_char c cs) eqn:E; [exact IH|]. simpl. now rewrite E.
Qed.

(** A suffix of a lower-case string is lower-case. *)
Lemma lower_lstrip (cs s : string) : lower s = s -> lower (lstrip cs s) = lstrip cs s.
Proof.
  induction s as [|c r IH]; simpl; [reflexivity|]. intros H.
  injection H as Hc Hr.
  destruct (mem_char c cs); [auto|]. simpl. congruence.
Qed.

Lemma replace_char_same (a : ascii) (s : string) : replace_char a a s = s.
Proof.
  induction s as [|c r IH]; simpl; [reflexivity|].
  rewrite IH. destruct (Ascii.eqb_spec c a); congruence.
Qed.

Lemma split_not_nil (sep : ascii) (s : string) : split sep s <> [].
Proof.
  destruct s as [|c r]; simpl; [discriminate|].
  destruct (Ascii.eqb c sep); [discriminate|]. destruct (split sep r); discriminate.
Qed.

(** No piece produced by [split] holds the separator. *)
Lemma split_no_sep (sep : ascii) (s : string) :
  Forall (fun p => mem_char sep p = false) (split sep s).
Proof.
  induction s as [|c r IH]; simpl.
  - constructor; [reflexivity|constructor].
  - destruct (Ascii.eqb c sep) eqn:E.
    + constructor; [reflexivity|exact IH].
    + destruct (split sep r) as [|h t] eqn:S.
      * constructor; [|constructor]. simpl. rewrite Ascii.eqb_sym, E. reflexivity.
      * inversion IH; subst. constructor; [|assumption].
        simpl. rewrite Ascii.eqb_sym, E. assumption.
Qed.

Lemma split_no_sep_id (sep : ascii) (s : string) :
  mem_char sep s = false -> split sep s = [s].
Proof.
  induction s as [|c r IH]; simpl; [reflexivity|].
  rewrite Ascii.eqb_sym. destruct (Ascii.eqb c sep); simpl; [discriminate|].
  intros H. rewrite (IH H). reflexivity.
Qed.

Lemma split_app_sep (sep : ascii) (a b : string) :
  mem_char sep a = false ->
  split sep (String.append a (String sep b)) = a :: split sep b.
Proof.
  induction a as [|c r IH]; simpl.
  - intros _. rewrite Ascii.eqb_refl. reflexivity.
  - rewrite Ascii.eqb_sym. destruct (Ascii.eqb c sep); simpl; [discriminate|].
    intros H. rewrite (IH H). reflexivity.
Qed.

(** [split] undoes [join] on pieces that do not hold the separator. *)
Lemma split_join (sep : ascii) (l : list string) :
  l <> [] -> Forall (fun p => mem_char sep p = false) l ->
  split sep (join (String sep "") l) = l.
Proof.
  induction l as [|a [|b l] IH]; intros Hne Hall; [congruence| |].
  - simpl. inversion Hall; subst. now apply split_no_sep_id.
  - inversion Hall; subst.
    change (join (String sep "") (a :: b :: l))
      with (String.append a (String sep (join (String sep "") (b :: l)))).
    rewrite split_app_sep by assumption. f_equal. apply IH; [discriminate|assumption].
Qed.

End PyStrFacts.

(* ================================================================== *)
(** * Path normalisation *)
(* ================================================================== *)

Module NormalizeFacts.
Import PyStr PyStrFacts Pathlib Notions.

Lemma keep_part_good (p : string) :
  mem_char "/" p = false -> keep_part p = true -> good_part p.
Proof.
  unfold keep_part, good_part. intros Hs Hk.
  apply andb_true_iff in Hk as [H1 H2].
  apply negb_true_iff in H1, H2.
  apply String.eqb_neq in H1, H2. auto.
Qed.

Lemma good_part_keep (p : string) : good_part p -> keep_part p = true.
Proof.
  intros (H1 & _ & H2). unfold keep_part.
  apply String.eqb_neq in H1, H2. now rewrite H1, H2.
Qed.

Lemma good_part_lower (p : string) : good_part p -> good_part (lower p).
Proof.
  intros (H1 & H2 & H3). repeat split.
  - intros E. apply H1. now apply lower_empty_iff.
  - now rewrite lower_mem_slash.
  - intros E. apply String.eqb_eq in E. rewrite lower_eqb_dot in E.
    apply String.eqb_eq in E. contradiction.
Qed.

Lemma parse_tail_good (x : string) : Forall good_part (tail (parse x)).
Proof.
  unfold parse; simpl. apply Forall_forall. intros p Hp.
  apply filter_In in Hp as [Hin Hk].
  apply keep_part_good; [|assumption].
  exact (proj1 (Forall_forall _ _) (split_no_sep "/" x) p Hin).
Qed.

Lemma keep_part_lower (p : string) : keep_part (lower p) = keep_part p.
Proof. unfold keep_part. now rewrite lower_eqb_dot, lower_eqb_empty. Qed.

Lemma filter_keep_lower (l : list string) :
  filter keep_part (map lower l) = map lower (filter keep_part l).
Proof.
  induction l as [|a l IH]; simpl; [reflexivity|].
  rewrite keep_part_lower. destruct (keep_part a); simpl; now rewrite IH.
Qed.

Lemma splitroot_cases (x : string) :
  splitroot x = "" \/ splitroot x = "/" \/ splitroot x = "//".
Proof.
  destruct x as [|c1 [|c2 [|c3 r]]]; simpl; auto;
    repeat match goal with
           | |- context [match ?c with Ascii _ _ _ _ _ _ _ _ => _ end] =>
               destruct c as [[] [] [] [] [] [] [] []]; simpl; auto
           end.
Qed.

Lemma splitroot_lower (x : string) : splitroot (lower x) = splitroot x.
Proof.
  assert (H : forall c, (c = "/"%char -> lower_char c = "/"%char)
                        /\ (lower_char c = "/"%char -> c = "/"%char)).
  { intros c. split; intros E.
    - subst. reflexivity.
    - apply Ascii.eqb_eq in E. rewrite lower_char_slash in E.
      now apply Ascii.eqb_eq in E. }
  assert (D : forall c : ascii, {c = "/"%char} + {c <> "/"%char})
    by (intros; apply ascii_dec).
  assert (N : forall (c : ascii) (A : Type) (a b : A), c <> "/"%char ->
            match c with
            | "/"%char => a
            | _ => b
            end = b).
  { intros c A a b. destruct c as [[] [] [] [] [] [] [] []]; try reflexivity.
    congruence. }
  destruct x as [|c1 r1]; [reflexivity|]. cbn [lower].
  destruct (D c1) as [->|N1].
  2:{ unfold splitroot. rewrite (N c1) by assumption.
      rewrite (N (lower_char c1)); [reflexivity|].
      intros E. apply H in E. contradiction. }
  change (lower_char "/") with "/"%char.
  destruct r1 as [|c2 r2]; [reflexivity|]. cbn [lower].
  destruct (D c2) as [->|N2].
  2:{ unfold splitroot. rewrite (N c2) by assumption.
      rewrite (N (lower_char c2)); [reflexivity|].
      intros E. apply H in E. contradiction. }
  change (lower_char "/") with "/"%char.
  destruct r2 as [|c3 r3]; [reflexivity|]. cbn [lower].
  destruct (D c3) as [->|N3]; [reflexivity|].
  unfold splitroot. rewrite (N c3) by assumption.
  rewrite (N (lower_char c3)); [reflexivity|].
  intros E. apply H in E. contradiction.
Qed.

Lemma lstrip_app (cs p rest : string) :
  (lstrip cs p = "" -> lstrip cs (String.append p rest) = lstrip cs rest)
  /\ (lstrip cs p <> "" ->
      lstrip cs (String.append p rest) = String.append (lstrip cs p) rest).
Proof.
  induction p as [|c r IH]; simpl.
  - split; [reflexivity|congruence].
  - destruct (mem_char c cs); [exact IH|]. split; [discriminate|reflexivity].
Qed.

Lemma lstrip_head (cs p : string) :
  lstrip cs p = "" \/ exists c q, lstrip cs p = String c q /\ mem_char c cs = false.
Proof.
  induction p as [|c r IH]; simpl; [now left|].
  destruct (mem_char c cs) eqn:E; [exact IH|]. right. eauto.
Qed.

Lemma lstrip_no_char (a : ascii) (cs p : string) :
  mem_char a p = false -> mem_char a (lstrip cs p) = false.
Proof.
  induction p as [|c r IH]; simpl; [reflexivity|]. intros H.
  apply orb_false_iff in H as [H1 H2].
  destruct (mem_char c cs); [auto|]. simpl. now rewrite H1, H2.
Qed.

Lemma lstrip_join_shape (l : list string) :
  Forall good_part l -> key_shape (lstrip "./" (join "/" l)).
Proof.
  induction l as [|p l IH]; intros Hall; [now left|].
  inversion Hall as [|? ? Hp Hl]; subst.
  destruct Hp as (Hne & Hslash & Hdot).
  assert (Hq : lstrip "./" p = "" \/
               exists c q, lstrip "./" p = String c q /\ mem_char c "./" = false)
    by apply lstrip_head.
  assert (Hgood : forall c q, lstrip "./" p = String c q ->
                              mem_char c "./" = false -> good_part (String c q)).
  { intros c q E Hc. repeat split; [discriminate| |].
    - rewrite <- E. now apply lstrip_no_char.
    - intros E'. injection E' as -> _. discriminate. }
  destruct l as [|b l].
  - cbn [join String.concat]. destruct Hq as [->|(c & q & E & Hc)]; [now left|].
    right. exists c, q, []. rewrite E. repeat split; auto.
  - change (join "/" (p :: b :: l))
      with (String.append p (String "/" (join "/" (b :: l)))).
    destruct (lstrip_app "./" p (String "/" (join "/" (b :: l)))) as [A B].
    destruct Hq as [E|(c & q & E & Hc)].
    + rewrite (A E). change (lstrip "./" (String "/" (join "/" (b :: l))))
        with (lstrip "./" (join "/" (b :: l))). now apply IH.
    + rewrite B by (rewrite E; discriminate). rewrite E.
      right. exists c, q, (b :: l). repeat split; auto.
Qed.

Lemma lstrip_root (x s : string) :
  lstrip "./" (String.append (splitroot x) s) = lstrip "./" s.
Proof. destruct (splitroot_cases x) as [->|[->| ->]]; reflexivity. Qed.

(** What [normalize_rel] computes, with the path already parsed. *)
Lemma normalize_rel_str_posix (x : string) :
  normalize_rel_str Posix x
  = lstrip "./" (join "/" (map lower (tail (parse x)))).
Proof.
  unfold normalize_rel_str, platform_as_posix, as_posix, to_str.
  rewrite replace_char_same.
  destruct (String.eqb_spec (String.append (root (parse x)) (join "/" (tail (parse x)))) "")
    as [E|NE].
  - assert (J : join "/" (tail (parse x)) = "").
    { destruct (root (parse x)); [exact E|discriminate E]. }
    rewrite lower_join_slash, J. reflexivity.
  - rewrite lower_app, <- lower_join_slash.
    assert (R : lower (root (parse x)) = splitroot x).
    { cbn [parse root]. destruct (splitroot_cases x) as [->|[->| ->]]; reflexivity. }
    rewrite R. apply lstrip_root.
Qed.

Lemma normalize_rel_str_shape (x : string) : key_shape (normalize_rel_str Posix x).
Proof.
  rewrite normalize_rel_str_posix. apply lstrip_join_shape.
  apply Forall_forall. intros p Hp. apply in_map_iff in Hp as (p0 & <- & Hin).
  apply good_part_lower.
  exact (proj1 (Forall_forall _ _) (parse_tail_good x) p0 Hin).
Qed.

Lemma normalize_rel_str_lower (x : string) :
  lower (normalize_rel_str Posix x) = normalize_rel_str Posix x.
Proof. unfold normalize_rel_str. apply lower_lstrip. apply lower_idem. Qed.

Lemma filter_keep_good (l : list string) :
  Forall good_part l -> filter keep_part l = l.
Proof.
  induction 1 as [|a l Ha Hl IH]; simpl; [reflexivity|].
  now rewrite (good_part_keep a Ha), IH.
Qed.

(** A key of that shape, already in lower case, is a fixed point. *)
Lemma key_shape_fixed (r : string) :
  key_shape r -> lower r = r -> normalize_rel_str Posix r = r.
Proof.
  intros [->|(c & q & l & -> & Hall & Hc)] Hlow; [reflexivity|].
  rewrite normalize_rel_str_posix.
  assert (Hhead : exists rest, join "/" (String c q :: l) = String c rest).
  { destruct l; cbn [join String.concat]; simpl; eauto. }
  destruct Hhead as (rest & Hrest).
  assert (Hsplit : tail (parse (join "/" (String c q :: l))) = String c q :: l).
  { cbn [parse tail]. rewrite (split_join "/"); [|discriminate|].
    - now apply filter_keep_good.
    - apply Forall_forall. intros p Hp.
      exact (proj1 (proj2 (proj1 (Forall_forall _ _) Hall p Hp))). }
  rewrite Hsplit, lower_join_slash, Hlow, Hrest.
  cbn [lstrip]. now rewrite Hc.
Qed.

Lemma normalize_rel_str_idempotent (x : string) :
  normalize_rel_str Posix (normalize_rel_str Posix x) = normalize_rel_str Posix x.
Proof.
  apply key_shape_fixed; [apply normalize_rel_str_shape|apply normalize_rel_str_lower].
Qed.

(** The key depends on the lower-cased text only. *)
Lemma normalize_rel_str_of_lower (x : string) :
  normalize_rel_str Posix x = normalize_rel_str Posix (lower x).
Proof.
  rewrite !normalize_rel_str_posix. cbn [parse tail].
  rewrite lower_split, filter_keep_lower, map_map.
  f_equal. f_equal. apply map_ext. intros a. now rewrite lower_idem.
Qed.

(** The Windows flavour parses a path after turning every [/] into the
    platform separator. *)
Lemma win_replace_inj (x y : string) :
  replace_char "\" "/" x = replace_char "\" "/" y ->
  replace_char "/" "\" x = replace_char "/" "\" y.
Proof.
  revert y. induction x as [|c r IH]; intros [|d s]; simpl; try discriminate; auto.
  intros H. injection H as Hc Hr. f_equal; [|auto].
  destruct (Ascii.eqb_spec c "\"), (Ascii.eqb_spec d "\"),
    (Ascii.eqb_spec c "/"), (Ascii.eqb_spec d "/"); subst; congruence.
Qed.

Lemma win_replace_empty (x y : string) :
  replace_char "\" "/" x = replace_char "\" "/" y ->
  String.eqb x "" = String.eqb y "".
Proof. destruct x, y; simpl; try reflexivity; discriminate. Qed.

Lemma normalize_rel_str_slash (fl : flavour) (x y : string) :
  replace_char (os_sep fl) "/" x = replace_char (os_sep fl) "/" y ->
  normalize_rel_str fl x = normalize_rel_str fl y.
Proof.
  destruct fl; cbn [os_sep]; intros H.
  - rewrite !replace_char_same in H. now subst.
  - unfold normalize_rel_str, platform_as_posix, WinPath.parse.
    now rewrite (win_replace_inj _ _ H), (win_replace_empty _ _ H).
Qed.

End NormalizeFacts.

(* ================================================================== *)
(** * Path normalisation with the Windows flavour *)
(* ================================================================== *)

Module WinFacts.
Import PyStr PyStrFacts Notions NormalizeFacts.

Lemma lower_char_backslash (c : ascii) : Ascii.eqb (lower_char c) "\" = Ascii.eqb c "\".
Proof. destruct c as [[] [] [] [] [] [] [] []]; reflexivity. Qed.

Lemma lower_char_colon (c : ascii) : Ascii.eqb (lower_char c) ":" = Ascii.eqb c ":".
Proof. destruct c as [[] [] [] [] [] [] [] []]; reflexivity. Qed.

Lemma is_drive_letter_lower (c : ascii) :
  WinPath.is_drive_letter (String (lower_char c) "") = WinPath.is_drive_letter (String c "").
Proof. destruct c as [[] [] [] [] [] [] [] []]; reflexivity. Qed.

Lemma lower_to_backslash (s : string) :
  lower (replace_char "/" "\" s) = replace_char "/" "\" (lower s).
Proof.
  induction s as [|c r IH]; cbn [lower replace_char]; [reflexivity|].
  rewrite IH, lower_char_slash. f_equal.
  destruct (Ascii.eqb c "/"); reflexivity.
Qed.

Lemma lower_to_slash (s : string) :
  lower (replace_char "\" "/" s) = replace_char "\" "/" (lower s).
Proof.
  induction s as [|c r IH]; cbn [lower replace_char]; [reflexivity|].
  rewrite IH, lower_char_backslash. f_equal.
  destruct (Ascii.eqb c "\"); reflexivity.
Qed.

Lemma lower_split_backslash (s : string) :
  split "\" (lower s) = map lower (split "\" s).
Proof.
  induction s as [|c r IH]; simpl; [reflexivity|].
  rewrite lower_char_backslash. destruct (Ascii.eqb c "\"); simpl.
  - now rewrite IH.
  - rewrite IH. destruct (split "\" r); reflexivity.
Qed.

Lemma lower_lstrip_backslash (s : string) :
  lstrip "\" (lower s) = lower (lstrip "\" s).
Proof.
  induction s as [|c r IH]; cbn [lower lstrip mem_char]; [reflexivity|].
  rewrite lower_char_backslash. destruct (Ascii.eqb c "\"); cbn [orb]; [exact IH|].
  reflexivity.
Qed.

Lemma substring_whole (s : string) : substring 0 (String.length s) s = s.
Proof. induction s as [|c r IH]; cbn; [reflexivity|]. now rewrite IH. Qed.

Lemma slice_0_1 (a : ascii) (r : string) : slice 0 1 (String a r) = String a "".
Proof. now destruct r. Qed.

Lemma slice_1_2 (a b : ascii) (r : string) :
  slice 1 2 (String a (String b r)) = String b "".
Proof. now destruct r. Qed.

Lemma slice_2_3 (a b : ascii) (r : string) :
  slice 2 3 (String a (String b r)) = slice 0 1 r.
Proof. reflexivity. Qed.

Lemma slice_0_2 (a b : ascii) (r : string) :
  slice 0 2 (String a (String b r)) = String a (String b "").
Proof. now destruct r. Qed.

Lemma drop_2 (a b : ascii) (r : string) : drop 2 (String a (String b r)) = r.
Proof.
  unfold drop. cbn [String.length Nat.sub substring]. rewrite Nat.sub_0_r.
  apply substring_whole.
Qed.

Lemma eqb_one (c d : ascii) : String.eqb (String c "") (String d "") = Ascii.eqb c d.
Proof. cbn. now destruct (Ascii.eqb c d). Qed.

(** The rest of [split_drive], once the drive is set apart. *)
Lemma split_root_lower (d : string) (part : string) :
  (if String.eqb (slice 0 1 (lower part)) WinPath.sep
   then (lower d, slice 0 1 (lower part), lstrip WinPath.sep (lower part))
   else (lower d, "", lower part))
  = (if String.eqb (slice 0 1 part) WinPath.sep
     then (lower d, slice 0 1 part, lower (lstrip WinPath.sep part))
     else (lower d, "", lower part)).
Proof.
  destruct part as [|c r]; [reflexivity|]. cbn [lower]. rewrite !slice_0_1.
  unfold WinPath.sep. rewrite !eqb_one, lower_char_backslash.
  destruct (Ascii.eqb_spec c "\") as [->|N]; [|reflexivity].
  change (lower_char "\") with "\"%char.
  now rewrite <- lower_lstrip_backslash.
Qed.

Lemma split_drive_lower (p : string) :
  WinPath.split_drive "" (lower p)
  = (lower (fst (fst (WinPath.split_drive "" p))),
     snd (fst (WinPath.split_drive "" p)),
     lower (snd (WinPath.split_drive "" p))).
Proof.
  destruct p as [|a [|b r]].
  - reflexivity.
  - unfold WinPath.split_drive, slice, drop. cbn.
    rewrite lower_char_backslash.
    destruct (Ascii.eqb_spec a "\") as [->|N]; reflexivity.
  - unfold WinPath.split_drive. cbn [lower].
    rewrite !slice_1_2, !slice_2_3, !slice_0_2, !drop_2, !slice_0_1.
    change ":" with (String ":" "") at 1 3. rewrite !eqb_one.
    rewrite lower_char_colon, is_drive_letter_lower.
    destruct (Ascii.eqb b ":" && WinPath.is_drive_letter (String a "")).
    + cbn [String.append].
      change (String (lower_char a) (String (lower_char b) ""))
        with (lower (String a (String b ""))).
      rewrite split_root_lower.
      destruct (String.eqb (slice 0 1 r) WinPath.sep); reflexivity.
    + cbn [String.append]. unfold WinPath.sep. rewrite !eqb_one, lower_char_backslash.
      destruct (Ascii.eqb_spec a "\") as [->|N]; cbn [fst snd]; [|reflexivity].
      rewrite <- lower_lstrip_backslash. reflexivity.
Qed.

(** With a text that does not begin with two separators, [splitroot] has
    a drive letter and a root to look for only. *)
Lemma splitroot_plain (p : string) :
  match p with String "\" (String "\" _) => true | _ => false end = false ->
  WinPath.splitroot p = WinPath.split_drive "" p.
Proof.
  intros H. unfold WinPath.splitroot.
  assert (T : String.eqb (slice 1 2 p) WinPath.sep && String.eqb (slice 0 1 p) WinPath.sep
              = false).
  { destruct p as [|a [|b r]]; [reflexivity| |].
    - reflexivity.
    - rewrite slice_1_2, slice_0_1. unfold WinPath.sep. rewrite !eqb_one.
      destruct (Ascii.eqb_spec b "\") as [->|Nb]; [|reflexivity].
      destruct (Ascii.eqb_spec a "\") as [->|Na]; [discriminate H|reflexivity]. }
  rewrite T. cbv zeta. cbn [fst snd]. rewrite T. reflexivity.
Qed.

Lemma split_drive_root (p : string) :
  snd (fst (WinPath.split_drive "" p)) = "" \/ snd (fst (WinPath.split_drive "" p)) = "\".
Proof.
  unfold WinPath.split_drive. cbv zeta.
  destruct (String.eqb (slice 1 2 p) ":" && WinPath.is_drive_letter (slice 0 1 p)).
  - destruct (String.eqb_spec (slice 2 3 p) WinPath.sep) as [E|N]; cbn [fst snd];
      [right; exact E|now left].
  - destruct (String.eqb_spec (slice 0 1 p) WinPath.sep) as [E|N]; cbn [fst snd];
      [right; exact E|now left].
Qed.

Lemma two_seps_spec (p : string) :
  match p with String "\" (String "\" _) => true | _ => false end
  = match p with
    | String a (String b _) => Ascii.eqb a "\" && Ascii.eqb b "\"
    | _ => false
    end.
Proof.
  destruct p as [|a [|b r]]; [reflexivity| |].
  - destruct a as [[] [] [] [] [] [] [] []]; reflexivity.
  - destruct (Ascii.eqb_spec a "\") as [->|Na].
    + destruct b as [[] [] [] [] [] [] [] []]; reflexivity.
    + destruct a as [[] [] [] [] [] [] [] []]; try reflexivity. now elim Na.
Qed.

Lemma two_seps_lower (p : string) :
  match lower p with String "\" (String "\" _) => true | _ => false end
  = match p with String "\" (String "\" _) => true | _ => false end.
Proof.
  rewrite !two_seps_spec. destruct p as [|a [|b r]]; cbn [lower]; try reflexivity.
  now rewrite !lower_char_backslash.
Qed.

Lemma win_two_seps_lower (x : string) : win_two_seps (lower x) = win_two_seps x.
Proof. unfold win_two_seps. rewrite <- lower_to_backslash. apply two_seps_lower. Qed.

(** Parsing the lower-case text gives the lower-case path. *)
Lemma win_parse_lower (x : string) :
  win_two_seps x = false ->
  WinPath.parse (lower x)
  = {| WinPath.drv := lower (WinPath.drv (WinPath.parse x));
       WinPath.root := WinPath.root (WinPath.parse x);
       WinPath.tail := map lower (WinPath.tail (WinPath.parse x)) |}.
Proof.
  intros H. unfold WinPath.parse. rewrite lower_eqb_empty.
  destruct (String.eqb x ""); [reflexivity|].
  rewrite <- lower_to_backslash.
  rewrite (splitroot_plain (lower (replace_char "/" "\" x)))
    by (rewrite two_seps_lower; exact H).
  rewrite (splitroot_plain (replace_char "/" "\" x)) by exact H.
  rewrite split_drive_lower.
  destruct (WinPath.split_drive "" (replace_char "/" "\" x)) as [[d r] rel].
  cbn [fst snd WinPath.drv WinPath.root WinPath.tail]. f_equal.
  now rewrite lower_split_backslash, filter_keep_lower.
Qed.

Lemma win_parse_root (x : string) :
  win_two_seps x = false ->
  WinPath.root (WinPath.parse x) = "" \/ WinPath.root (WinPath.parse x) = "\".
Proof.
  intros H. unfold WinPath.parse. destruct (String.eqb x ""); [now left|].
  rewrite (splitroot_plain (replace_char "/" "\" x)) by exact H.
  pose proof (split_drive_root (replace_char "/" "\" x)) as R.
  destruct (WinPath.split_drive "" (replace_char "/" "\" x)) as [[d r] rel].
  exact R.
Qed.

(** The key of a text that does not begin with two separators is the key
    of the lower-case text. *)
Lemma win_normalize_of_lower (x : string) :
  win_two_seps x = false ->
  normalize_rel_str Windows x = normalize_rel_str Windows (lower x).
Proof.
  intros H. unfold normalize_rel_str, platform_as_posix, WinPath.as_posix.
  rewrite !lower_to_slash. f_equal. f_equal.
  rewrite (win_parse_lower x H).
  pose proof (win_parse_root x H) as R.
  destruct (WinPath.parse x) as [d r tl]. cbn [WinPath.drv WinPath.root WinPath.tail] in *.
  unfold WinPath.to_str. cbn [WinPath.drv WinPath.root WinPath.tail]. cbv zeta.
  assert (E : String.append (lower d) (String.append r (join WinPath.sep (map lower tl)))
              = lower (String.append d (String.append r (join WinPath.sep tl)))).
  { rewrite !lower_app, lower_join. destruct R as [->| ->]; reflexivity. }
  rewrite E, lower_eqb_empty.
  destruct (String.eqb (String.append d (String.append r (join WinPath.sep tl))) "");
    [reflexivity|].
  now rewrite lower_idem.
Qed.

(** ** Texts without a drive: the Windows flavour agrees with the POSIX one *)

Lemma replace_no_char (a b : ascii) (s : string) :
  mem_char a s = false -> replace_char a b s = s.
Proof.
  induction s as [|c r IH]; cbn [mem_char replace_char]; [reflexivity|].
  rewrite Ascii.eqb_sym. destruct (Ascii.eqb c a); cbn [orb]; [discriminate|].
  intros H. now rewrite IH.
Qed.

Lemma replace_app (a b : ascii) (s t : string) :
  replace_char a b (String.append s t)
  = String.append (replace_char a b s) (replace_char a b t).
Proof. induction s as [|c r IH]; cbn [String.append replace_char]; congruence. Qed.

Lemma mem_char_app (c : ascii) (s t : string) :
  mem_char c (String.append s t) = mem_char c s || mem_char c t.
Proof.
  induction s as [|d r IH]; cbn [String.append mem_char]; [reflexivity|].
  now rewrite IH, orb_assoc.
Qed.

Lemma mem_replace (c a b : ascii) (s : string) :
  c <> a -> c <> b -> mem_char c (replace_char a b s) = mem_char c s.
Proof.
  intros Na Nb. induction s as [|d r IH]; cbn [mem_char replace_char]; [reflexivity|].
  rewrite IH. f_equal. destruct (Ascii.eqb_spec d a) as [->|Nd]; [|reflexivity].
  rewrite (proj2 (Ascii.eqb_neq c b) Nb). now rewrite (proj2 (Ascii.eqb_neq c a) Na).
Qed.

Lemma replace_replace (x : string) :
  replace_char "/" "\" (replace_char "\" "/" x) = replace_char "/" "\" x.
Proof.
  induction x as [|c r IH]; cbn [replace_char]; [reflexivity|]. rewrite IH. f_equal.
  destruct (Ascii.eqb_spec c "\") as [->|N]; reflexivity.
Qed.

Lemma mem_backslash_to_slash (x : string) :
  mem_char "\" (replace_char "\" "/" x) = false.
Proof.
  induction x as [|c r IH]; cbn [replace_char mem_char]; [reflexivity|].
  rewrite IH, orb_false_r. destruct (Ascii.eqb_spec c "\") as [->|N]; [reflexivity|].
  apply Ascii.eqb_neq. congruence.
Qed.

Lemma split_to_backslash (z : string) :
  mem_char "\" z = false -> split "\" (replace_char "/" "\" z) = split "/" z.
Proof.
  induction z as [|c r IH]; cbn [mem_char replace_char split]; [reflexivity|].
  rewrite Ascii.eqb_sym. destruct (Ascii.eqb_spec c "\") as [->|N]; cbn [orb];
    [discriminate|].
  intros H. rewrite (IH H).
  destruct (Ascii.eqb_spec c "/") as [->|N']; [reflexivity|].
  now rewrite (proj2 (Ascii.eqb_neq c "\") N).
Qed.

Lemma filter_lstrip_backslash (p : string) :
  filter Pathlib.keep_part (split "\" (lstrip "\" p))
  = filter Pathlib.keep_part (split "\" p).
Proof.
  induction p as [|c r IH]; cbn [lstrip mem_char]; [reflexivity|].
  destruct (Ascii.eqb_spec c "\") as [->|N]; cbn [orb]; [|reflexivity].
  rewrite IH. reflexivity.
Qed.

Lemma join_to_slash (l : list string) :
  Forall (fun p => mem_char "\" p = false) l ->
  replace_char "\" "/" (join "\" l) = join "/" l.
Proof.
  induction l as [|a [|b l] IH]; intros H; [reflexivity| |].
  - inversion H; subst. cbn. now apply replace_no_char.
  - inversion H as [|? ? Ha Hl]; subst.
    change (join "\" (a :: b :: l)) with (String.append a (String "\" (join "\" (b :: l)))).
    change (join "/" (a :: b :: l)) with (String.append a (String "/" (join "/" (b :: l)))).
    rewrite replace_app. cbn [replace_char]. rewrite (IH Hl).
    now rewrite (replace_no_char _ _ _ Ha).
Qed.

Lemma split_drive_no_colon (p : string) :
  mem_char ":" p = false ->
  WinPath.split_drive "" p
  = if String.eqb (slice 0 1 p) "\" then ("", "\", lstrip "\" p) else ("", "", p).
Proof.
  intros H. unfold WinPath.split_drive. cbv zeta.
  assert (C : String.eqb (slice 1 2 p) ":" = false).
  { destruct p as [|a [|b r]]; [reflexivity|reflexivity|]. rewrite slice_1_2.
    change ":" with (String ":" ""). rewrite eqb_one.
    cbn [mem_char] in H. apply orb_false_iff in H as [_ H].
    apply orb_false_iff in H as [H _]. now rewrite Ascii.eqb_sym. }
  rewrite C. cbn [andb]. unfold WinPath.sep.
  destruct (String.eqb_spec (slice 0 1 p) "\") as [E|N]; [|reflexivity].
  now rewrite E.
Qed.

Lemma split_mem (c sep : ascii) (s : string) :
  mem_char c s = false -> Forall (fun p => mem_char c p = false) (split sep s).
Proof.
  induction s as [|d r IH]; cbn [mem_char split].
  - intros _. constructor; [reflexivity|constructor].
  - intros H. apply orb_false_iff in H as [Hd Hr]. specialize (IH Hr).
    destruct (Ascii.eqb d sep).
    + constructor; [reflexivity|exact IH].
    + destruct (split sep r) as [|h t].
      * constructor; [|constructor]. cbn [mem_char]. now rewrite Hd.
      * inversion IH; subst. constructor; [|assumption]. cbn [mem_char]. now rewrite Hd.
Qed.

Lemma Forall_filter_keep (P : string -> Prop) (l : list string) :
  Forall P l -> Forall P (filter Pathlib.keep_part l).
Proof.
  intros H. rewrite Forall_forall in *. intros x Hx. apply filter_In in Hx as [Hx _].
  now apply H.
Qed.

Lemma posix_splitroot_slash (r : string) :
  match r with String b _ => Ascii.eqb b "/" | _ => false end = false ->
  Pathlib.splitroot (String "/" r) = "/".
Proof.
  destruct r as [|b r]; [reflexivity|]. intros H.
  destruct b as [[] [] [] [] [] [] [] []]; try reflexivity. discriminate H.
Qed.

Lemma posix_splitroot_other (a : ascii) (r : string) :
  Ascii.eqb a "/" = false -> Pathlib.splitroot (String a r) = "".
Proof.
  intros H. destruct a as [[] [] [] [] [] [] [] []]; try reflexivity. discriminate H.
Qed.

(** A text with forward slashes only, no colon and no double slash in
    front reads the same with both flavours. *)
Lemma win_posix_agree (z : string) :
  mem_char "\" z = false -> mem_char ":" z = false ->
  match z with
  | String a (String b _) => Ascii.eqb a "/" && Ascii.eqb b "/"
  | _ => false
  end = false ->
  platform_as_posix Windows z = platform_as_posix Posix z.
Proof.
  intros Hb Hc Hs. unfold platform_as_posix, WinPath.as_posix, Pathlib.as_posix.
  rewrite replace_char_same.
  destruct z as [|a r]; [reflexivity|].
  assert (Tl : Forall (fun p => mem_char "\" p = false)
                 (filter Pathlib.keep_part (split "/" (String a r)))).
  { apply Forall_filter_keep. now apply split_mem. }
  assert (Sp : split "\" (replace_char "/" "\" (String a r)) = split "/" (String a r))
    by (now apply split_to_backslash).
  unfold WinPath.parse, Pathlib.parse. change (String.eqb (String a r) "") with false.
  cbv iota.
  rewrite splitroot_plain.
  2:{ rewrite two_seps_spec. cbn [replace_char].
      destruct r as [|b r']; [reflexivity|]. cbn [replace_char].
      cbn [mem_char] in Hb. apply orb_false_iff in Hb as [Ha Hb].
      apply orb_false_iff in Hb as [Hb' _].
      rewrite Ascii.eqb_sym in Ha. rewrite Ascii.eqb_sym in Hb'.
      destruct (Ascii.eqb_spec a "/") as [->|Na]; [|now rewrite Ha].
      destruct (Ascii.eqb_spec b "/") as [->|Nb]; [discriminate Hs|].
      now rewrite Hb', andb_false_r. }
  rewrite split_drive_no_colon by (rewrite mem_replace; [exact Hc|discriminate|discriminate]).
  cbn [replace_char]. rewrite slice_0_1.
  change "\" with (String "\" "") at 2. rewrite eqb_one.
  cbn [mem_char] in Hb. apply orb_false_iff in Hb as [Ha Hb].
  rewrite Ascii.eqb_sym in Ha.
  destruct (Ascii.eqb_spec a "/") as [->|Na].
  - change (Ascii.eqb "\" "\") with true. cbv iota.
    cbn [WinPath.drv WinPath.root WinPath.tail].
    change (String "\" (replace_char "/" "\" r)) with (replace_char "/" "\" (String "/" r)).
    rewrite filter_lstrip_backslash, Sp.
    rewrite posix_splitroot_slash.
    2:{ destruct r as [|b r']; [reflexivity|]. cbn [andb Ascii.eqb] in Hs.
        change (Ascii.eqb "/" "/") with true in Hs. exact Hs. }
    unfold WinPath.to_str, Pathlib.to_str.
    cbn [WinPath.drv WinPath.root WinPath.tail Pathlib.root Pathlib.tail String.append].
    cbv zeta. cbn [String.eqb replace_char].
    unfold WinPath.sep. now rewrite (join_to_slash _ Tl).
  - rewrite Ha. cbv iota. cbn [WinPath.drv WinPath.root WinPath.tail].
    assert (Sp' : split "\" (String a (replace_char "/" "\" r)) = split "/" (String a r)).
    { rewrite <- Sp. cbn [replace_char]. now rewrite (proj2 (Ascii.eqb_neq a "/") Na). }
    rewrite Sp'.
    rewrite posix_splitroot_other by (now apply Ascii.eqb_neq).
    unfold WinPath.to_str, Pathlib.to_str.
    cbn [WinPath.drv WinPath.root WinPath.tail Pathlib.root Pathlib.tail String.append].
    cbv zeta. unfold WinPath.sep.
    pose proof (join_to_slash _ Tl) as J.
    destruct (join "\" (filter Pathlib.keep_part (split "/" (String a r)))) as [|c s'];
      rewrite <- J; reflexivity.
Qed.

Lemma two_slashes (z : string) :
  mem_char "\" z = false ->
  match replace_char "/" "\" z with
  | String a (String b _) => Ascii.eqb a "\" && Ascii.eqb b "\"
  | _ => false
  end
  = match z with
    | String a (String b _) => Ascii.eqb a "/" && Ascii.eqb b "/"
    | _ => false
    end.
Proof.
  intros H. destruct z as [|a [|b r]]; [reflexivity|reflexivity|].
  cbn [replace_char]. cbn [mem_char] in H. apply orb_false_iff in H as [Ha H].
  apply orb_false_iff in H as [Hb _].
  rewrite Ascii.eqb_sym in Ha. rewrite Ascii.eqb_sym in Hb.
  destruct (Ascii.eqb_spec a "/") as [->|Na]; [|now rewrite Ha].
  destruct (Ascii.eqb_spec b "/") as [->|Nb]; [reflexivity|].
  now rewrite Hb, andb_false_r.
Qed.

(** The key of a Windows text without a colon that does not begin with two
    separators is the POSIX key of the text with forward slashes. *)
Lemma win_normalize_posix (x : string) :
  win_two_seps x = false -> mem_char ":" x = false ->
  normalize_rel_str Windows x = normalize_rel_str Posix (replace_char "\" "/" x).
Proof.
  intros H2 Hc.
  assert (Hz : mem_char "\" (replace_char "\" "/" x) = false)
    by apply mem_backslash_to_slash.
  rewrite (normalize_rel_str_slash Windows x (replace_char "\" "/" x))
    by (cbn [os_sep]; now rewrite (replace_no_char _ _ _ Hz)).
  unfold normalize_rel_str. rewrite win_posix_agree; [reflexivity|exact Hz| |].
  - rewrite mem_replace; [exact Hc|discriminate|discriminate].
  - rewrite <- (two_slashes _ Hz), replace_replace, <- two_seps_spec. exact H2.
Qed.

Lemma mem_char_lower (c : ascii) (s : string) :
  (forall d, Ascii.eqb c (lower_char d) = Ascii.eqb c d) ->
  mem_char c (lower s) = mem_char c s.
Proof.
  intros H. induction s as [|d r IH]; cbn [lower mem_char]; [reflexivity|].
  now rewrite IH, H.
Qed.

Lemma mem_char_join (c : ascii) (sep : string) (l : list string) :
  mem_char c sep = false -> Forall (fun p => mem_char c p = false) l ->
  mem_char c (join sep l) = false.
Proof.
  intros Hs. induction l as [|a [|b l] IH]; intros H; [reflexivity| |].
  - inversion H; subst. assumption.
  - inversion H as [|? ? Ha Hl]; subst.
    change (join sep (a :: b :: l))
      with (String.append a (String.append sep (join sep (b :: l)))).
    rewrite !mem_char_app, Ha, Hs, (IH Hl). reflexivity.
Qed.

(** A character that is neither a slash nor a capital and is not in the
    text is not in its POSIX key. *)
Lemma posix_key_no_char (c : ascii) (z : string) :
  (forall d, Ascii.eqb c (lower_char d) = Ascii.eqb c d) ->
  Ascii.eqb c "/" = false ->
  mem_char c z = false -> mem_char c (normalize_rel_str Posix z) = false.
Proof.
  intros Hl Hs Hz. rewrite normalize_rel_str_posix. apply lstrip_no_char.
  apply mem_char_join; [cbn [mem_char]; now rewrite Hs|].
  unfold Pathlib.parse. cbn [Pathlib.tail].
  pose proof (Forall_filter_keep _ _ (split_mem c "/" z Hz)) as F.
  rewrite Forall_forall in *. intros p Hp. apply in_map_iff in Hp as (q & <- & Hq).
  rewrite mem_char_lower by exact Hl. now apply F.
Qed.

(** The key of such a text is its own key. *)
Lemma win_normalize_idempotent (x : string) :
  win_two_seps x = false -> mem_char ":" x = false ->
  normalize_rel_str Windows (normalize_rel_str Windows x) = normalize_rel_str Windows x.
Proof.
  intros H2 Hc. rewrite (win_normalize_posix x H2 Hc).
  set (z := replace_char "\" "/" x).
  assert (Hz : mem_char "\" z = false) by apply mem_backslash_to_slash.
  assert (Hcz : mem_char ":" z = false)
    by (unfold z; rewrite mem_replace; [exact Hc|discriminate|discriminate]).
  assert (Kb : mem_char "\" (normalize_rel_str Posix z) = false).
  { apply posix_key_no_char; [|reflexivity|exact Hz].
    intros d. rewrite Ascii.eqb_sym, lower_char_backslash. apply Ascii.eqb_sym. }
  assert (Kc : mem_char ":" (normalize_rel_str Posix z) = false).
  { apply posix_key_no_char; [|reflexivity|exact Hcz].
    intros d. rewrite Ascii.eqb_sym, lower_char_colon. apply Ascii.eqb_sym. }
  rewrite win_normalize_posix; [| |exact Kc].
  - rewrite (replace_no_char _ _ _ Kb). apply normalize_rel_str_idempotent.
  - unfold win_two_seps. rewrite two_seps_spec, (two_slashes _ Kb).
    unfold normalize_rel_str.
    destruct (lstrip_head "./" (lower (platform_as_posix Posix z)))
      as [->|(c & q & -> & Hm)]; [reflexivity|].
    destruct q as [|b q]; [reflexivity|].
    cbn [mem_char] in Hm. apply orb_false_iff in Hm as [_ Hm].
    apply orb_false_iff in Hm as [Hm _]. now rewrite Hm.
Qed.

(** Two such texts that differ in letter case only have one key. *)
Lemma win_normalize_case (x y : string) :
  win_two_seps x = false -> lower x = lower y ->
  normalize_rel_str Windows x = normalize_rel_str Windows y.
Proof.
  intros H2 E.
  assert (H2y : win_two_seps y = false)
    by (rewrite <- win_two_seps_lower, <- E, win_two_seps_lower; exact H2).
  rewrite (win_normalize_of_lower x H2), (win_normalize_of_lower y H2y). now rewrite E.
Qed.

End WinFacts.

(* ================================================================== *)
(** * The stable sort *)
(* ================================================================== *)

Section SortedFacts.
Variables A K : Type.
Variable leb : K -> K -> bool.
Variable key : A -> K.
Hypothesis leb_total : forall a b, leb a b = false -> leb b a = true.
Hypothesis leb_trans : forall a b c, leb a b = true -> leb b c = true -> leb a c = true.

Lemma insert_sorted_perm (x : A) (l : list A) :
  Permutation (x :: l) (insert_sorted leb key x l).
Proof.
  induction l as [|y r IH]; simpl; [reflexivity|].
  destruct (leb (key x) (key y)); [reflexivity|].
  rewrite perm_swap. now constructor.
Qed.

Lemma sorted_perm (l : list A) : Permutation l (sorted leb key l).
Proof.
  induction l as [|x r IH]; simpl; [reflexivity|].
  rewrite <- insert_sorted_perm. now constructor.
Qed.

Lemma sorted_nil (l : list A) : sorted leb key l = [] -> l = [].
Proof.
  intros H. apply Permutation_nil. rewrite <- H. symmetry. apply sorted_perm.
Qed.

(** The head of the sorted list is the first element of least key. *)
Lemma sorted_head (l : list A) (x : A) (r : list A) :
  sorted leb key l = x :: r ->
  exists before after,
    l = before ++ x :: after
    /\ (forall y, In y before -> leb (key y) (key x) = false)
    /\ (forall y, In y after -> leb (key x) (key y) = true).
Proof.
  revert x r. induction l as [|a l IH]; intros x r; simpl; [discriminate|].
  destruct (sorted leb key l) as [|y s] eqn:S.
  - apply sorted_nil in S. subst l. simpl. intros H. injection H as <- <-.
    exists [], []. repeat split; simpl; tauto.
  - destruct (IH y s eq_refl) as (before & after & -> & Hb & Ha).
    simpl. destruct (leb (key a) (key y)) eqn:E; intros H; injection H as <- <-.
    + exists [], (before ++ y :: after). repeat split; [simpl; tauto|].
      intros z Hz. apply in_app_or in Hz as [Hz|[<-|Hz]].
      * apply leb_trans with (key y); [assumption|]. apply leb_total. now apply Hb.
      * assumption.
      * apply leb_trans with (key y); [assumption|]. now apply Ha.
    + exists (a :: before), after. repeat split; [|assumption].
      intros z [<-|Hz]; [assumption|now apply Hb].
Qed.
End SortedFacts.

(* ================================================================== *)
(** * index.py: the primary source *)
(* ================================================================== *)

Module PrimaryFacts.
Import Notions.

Lemma tuple_leb_total (a b : nat * nat) : tuple_leb a b = false -> tuple_leb b a = true.
Proof.
  unfold tuple_leb. destruct a as [a1 a2], b as [b1 b2]; simpl.
  destruct (a1 <? b1) eqn:E1, (b1 <? a1) eqn:E2, (a1 =? b1) eqn:E3, (b1 =? a1) eqn:E4,
    (a2 <=? b2) eqn:E5, (b2 <=? a2) eqn:E6; simpl; try reflexivity; try discriminate;
    intros _;
    repeat match goal with
           | H : (_ <? _) = true |- _ => apply Nat.ltb_lt in H
           | H : (_ <? _) = false |- _ => apply Nat.ltb_ge in H
           | H : (_ =? _) = true |- _ => apply Nat.eqb_eq in H
           | H : (_ =? _) = false |- _ => apply Nat.eqb_neq in H
           | H : (_ <=? _) = true |- _ => apply Nat.leb_le in H
           | H : (_ <=? _) = false |- _ => apply Nat.leb_gt in H
           end; lia.
Qed.

Lemma tuple_leb_spec (a b : nat * nat) :
  tuple_leb a b = true <-> fst a < fst b \/ (fst a = fst b /\ snd a <= snd b).
Proof.
  unfold tuple_leb. rewrite orb_true_iff, andb_true_iff, Nat.ltb_lt, Nat.eqb_eq, Nat.leb_le.
  tauto.
Qed.

Lemma tuple_leb_trans (a b c : nat * nat) :
  tuple_leb a b = true -> tuple_leb b c = true -> tuple_leb a c = true.
Proof. rewrite !tuple_leb_spec. lia. Qed.

(** The tuples [source_priority] returns order the sources as their rank does. *)
Lemma source_priority_class (a b : ModelSource) :
  tuple_leb (source_priority a) (source_priority b)
  = (priority_class a <=? priority_class b).
Proof.
  unfold source_priority, priority_class.
  destruct (String.eqb (origin a) "disk"), (String.eqb (origin b) "disk");
    try destruct (container a) as [ca|]; try destruct (container b) as [cb|];
    repeat match goal with
           | |- context [String.eqb (PyStr.lower (Pathlib.name ?c)) "assets1.pk3"] =>
               destruct (String.eqb (PyStr.lower (Pathlib.name c)) "assets1.pk3")
           end; reflexivity.
Qed.

Lemma source_priority_values (s : ModelSource) :
  (priority_class s = 0 /\ source_priority s = (0, 0))
  \/ (priority_class s = 1 /\ source_priority s = (1, 0))
  \/ (priority_class s = 2 /\ source_priority s = (1, 1)).
Proof.
  unfold source_priority, priority_class.
  destruct (String.eqb (origin s) "disk"); [auto|].
  destruct (container s) as [c|]; [|auto].
  destruct (String.eqb (PyStr.lower (Pathlib.name c)) "assets1.pk3"); auto.
Qed.

(** What the last loop of [build_index] chooses for one name. *)
Lemma finalize_model_primary (data : TmpEntry) (e : ModelEntry) :
  finalize_model data = Some e ->
  sources e = ODict.values (tmp_sources data)
  /\ exists before after,
       filter has_glm (sources e) = before ++ primary e :: after
       /\ (forall s, In s before -> priority_class (primary e) < priority_class s)
       /\ (forall s, In s after -> priority_class (primary e) <= priority_class s).
Proof.
  unfold finalize_model.
  destruct (sorted tuple_leb source_priority
              (filter (fun s => is_some (glm s)) (ODict.values (tmp_sources data))))
    as [|first rest] eqn:S; [discriminate|].
  intros H. injection H as <-. cbn [sources primary]. split; [reflexivity|].
  destruct (sorted_head _ _ tuple_leb source_priority tuple_leb_total tuple_leb_trans _ _ _ S)
    as (before & after & E & Hb & Ha).
  exists before, after. split; [exact E|]. split.
  - intros s Hs. specialize (Hb s Hs). rewrite source_priority_class in Hb.
    apply Nat.leb_gt in Hb. exact Hb.
  - intros s Hs. specialize (Ha s Hs). rewrite source_priority_class in Ha.
    apply Nat.leb_le in Ha. exact Ha.
Qed.

(** Every entry of the final dictionary comes from [finalize_model]. *)
Lemma finalize_models_entry (tmp : ODict.t string TmpEntry) (name : string)
    (e : ModelEntry) :
  ODict.get String.eqb name (finalize_models tmp) = Some e ->
  exists data, In (name, data) tmp /\ finalize_model data = Some e.
Proof.
  unfold finalize_models.
  assert (G : forall (acc : ODict.t string ModelEntry) (l : list (string * TmpEntry)),
             ODict.get String.eqb name
               (fold_left (fun models nd =>
                             match finalize_model (snd nd) with
                             | Some e => ODict.set String.eqb (fst nd) e models
                             | None => models
                             end) l acc) = Some e ->
             ODict.get String.eqb name acc = Some e
             \/ exists data, In (name, data) l /\ finalize_model data = Some e).
  { intros acc l. revert acc. induction l as [|[n d] l IH]; intros acc H; [now left|].
    cbn [fold_left fst snd] in H. apply IH in H as [H|(data & Hin & Hf)].
    - destruct (finalize_model d) as [e'|] eqn:F; [|now left].
      rewrite ODictFacts.get_set in H.
      destruct (String.eqb_spec n name) as [->|N]; [|now left].
      injection H as ->. right. exists d. split; [now left|assumption].
    - right. exists data. split; [now right|assumption]. }
  intros H. apply G in H as [H|H]; [discriminate|exact H].
Qed.

End PrimaryFacts.

(* ================================================================== *)
(** * skin.py: textures and skeletons *)
(* ================================================================== *)

Module ResolveFacts.
Import ODictFacts Notions.

Section WithExts.
Variable TEXTURE_EXTS : list string.

Lemma resolve_by_ext_hit (index : Index) (tex_path : Pathlib.Path)
    (preferred : option ModelSource) (before after : list string) (ext : string)
    (l : nelist FileSource) :
  (forall e, In e before -> ext_misses index tex_path e) ->
  ext_hits index tex_path ext l ->
  resolve_by_ext index tex_path preferred (before ++ ext :: after)
  = Ok (Some (choose preferred l, fs_rel_path (choose preferred l))).
Proof.
  intros Hb (c & Hc & Hl).
  induction before as [|e before IH]; simpl.
  - now rewrite Hc, Hl.
  - destruct (Hb e (or_introl eq_refl)) as (c' & Hc' & Hn). rewrite Hc', Hn.
    apply IH. intros e' He'. apply Hb. now right.
Qed.

Lemma resolve_by_ext_miss (index : Index) (tex_path : Pathlib.Path)
    (preferred : option ModelSource) (exts : list string) :
  (forall e, In e exts -> ext_misses index tex_path e) ->
  resolve_by_ext index tex_path preferred exts = Ok None.
Proof.
  induction exts as [|e exts IH]; intros H; simpl; [reflexivity|].
  destruct (H e (or_introl eq_refl)) as (c & Hc & Hn). rewrite Hc, Hn.
  apply IH. intros e' He'. apply H. now right.
Qed.

(** Extensions are tried in their order; the first hit decides. *)
Lemma resolve_texture_by_path (index : Index) (tex_entry : string)
    (preferred : option ModelSource) (before after : list string) (ext : string)
    (l : nelist FileSource) :
  TEXTURE_EXTS = before ++ ext :: after ->
  (forall e, In e before -> ext_misses index (Pathlib.parse tex_entry) e) ->
  ext_hits index (Pathlib.parse tex_entry) ext l ->
  resolve_texture TEXTURE_EXTS index tex_entry preferred
  = Ok (Some (choose preferred l, fs_rel_path (choose preferred l))).
Proof.
  intros E Hb Hh. unfold resolve_texture. rewrite E.
  erewrite resolve_by_ext_hit; [reflexivity|eassumption|eassumption].
Qed.

(** Without any hit the stem table decides. *)
Lemma resolve_texture_by_stem (index : Index) (tex_entry : string)
    (preferred : option ModelSource) :
  (forall e, In e TEXTURE_EXTS -> ext_misses index (Pathlib.parse tex_entry) e) ->
  resolve_texture TEXTURE_EXTS index tex_entry preferred
  = Ok (resolve_by_stem index (Pathlib.parse tex_entry) preferred).
Proof.
  intros H. unfold resolve_texture. erewrite resolve_by_ext_miss; [reflexivity|assumption].
Qed.

(** A reference without a file name stops the resolution. *)
Lemma resolve_texture_empty_name (index : Index) (tex_entry : string)
    (preferred : option ModelSource) (ext : string) (rest : list string) :
  Pathlib.name (Pathlib.parse tex_entry) = "" ->
  TEXTURE_EXTS = ext :: rest ->
  resolve_texture TEXTURE_EXTS index tex_entry preferred = Raise (ValueError "with_suffix").
Proof.
  intros Hn E. unfold resolve_texture. rewrite E. cbn [resolve_by_ext].
  unfold Pathlib.with_suffix. rewrite Hn.
  destruct (negb (Pathlib.valid_suffix ext)); reflexivity.
Qed.

Lemma choose_single (preferred : option ModelSource) (fs : FileSource) :
  choose preferred {| ne_head := fs; ne_rest := [] |} = fs.
Proof.
  unfold choose, ne_list. cbn [ne_head ne_rest find].
  destruct preferred as [p|]; [destruct (container p) as [c|]|];
    try destruct (option_path_eqb (fs_container fs) (Some c));
    destruct (String.eqb (fs_origin fs) "disk"); reflexivity.
Qed.

(** What [collect_assets_for_skin] records for one reference. *)
Lemma collect_texture_resolved (index : Index) (primary_src : ModelSource)
    (acc : Collected) (tex : string) (fs : FileSource) (actual_rel : Pathlib.Path) :
  resolve_texture TEXTURE_EXTS index tex (Some primary_src) = Ok (Some (fs, actual_rel)) ->
  exists acc',
    collect_texture TEXTURE_EXTS index primary_src acc tex = Ok acc'
    /\ c_textures acc' = c_textures acc ++ [(fs, actual_rel)]
    /\ c_missing acc' = c_missing acc
    /\ (Pathlib.as_posix actual_rel <> tex ->
        ODict.get String.eqb tex (c_replacements acc') = Some (Pathlib.as_posix actual_rel))
    /\ (Pathlib.as_posix actual_rel = tex -> c_replacements acc' = c_replacements acc).
Proof.
  intros H. unfold collect_texture. rewrite H. cbn [bind].
  eexists. split; [reflexivity|]. cbn [c_textures c_missing c_replacements].
  repeat split.
  - intros N. apply String.eqb_neq in N. rewrite N. cbn [negb]. apply get_set_same.
  - intros E. apply String.eqb_eq in E. now rewrite E.
Qed.

Lemma collect_texture_missing (index : Index) (primary_src : ModelSource)
    (acc : Collected) (tex : string) :
  resolve_texture TEXTURE_EXTS index tex (Some primary_src) = Ok None ->
  collect_texture TEXTURE_EXTS index primary_src acc tex
  = Ok {| c_textures := c_textures acc;
          c_missing := c_missing acc ++ [tex];
          c_replacements := c_replacements acc |}.
Proof. intros H. unfold collect_texture. now rewrite H. Qed.

End WithExts.

(** ** Skeletons *)

Lemma first_some_none {A B : Type} (f : A -> option B) (l : list A) :
  first_some f l = None <-> forall x, In x l -> f x = None.
Proof.
  induction l as [|a l IH]; simpl; [tauto|].
  destruct (f a) eqn:E; split; intros H.
  - discriminate.
  - specialize (H a (or_introl eq_refl)). congruence.
  - intros x [<-|Hx]; [assumption|]. now apply IH.
  - apply IH. intros x Hx. apply H. now right.
Qed.

Lemma first_some_first {A B : Type} (f : A -> option B) (before after : list A)
    (x : A) (y : B) :
  (forall a, In a before -> f a = None) -> f x = Some y ->
  first_some f (before ++ x :: after) = Some y.
Proof.
  intros Hb Hx. induction before as [|a before IH]; simpl.
  - now rewrite Hx.
  - rewrite (Hb a (or_introl eq_refl)). apply IH. intros a' Ha'. apply Hb. now right.
Qed.

Lemma find_gla_own (index : Index) (model_name : string) (entry : ModelEntry)
    (before after : list ModelSource) (src : ModelSource)
    (gbefore gafter : list Pathlib.Path) (gla_rel : Pathlib.Path) (fs : FileSource) :
  sources entry = before ++ src :: after ->
  (forall s g, In s before -> In g (glas s) -> resolve_gla index g = None) ->
  glas src = gbefore ++ gla_rel :: gafter ->
  (forall g, In g gbefore -> resolve_gla index g = None) ->
  resolve_gla index gla_rel = Some fs ->
  find_gla index model_name entry = Some fs.
Proof.
  intros Es Hb Eg Hg Hr. unfold find_gla. rewrite Es.
  erewrite (first_some_first _ before after src fs); [reflexivity| |].
  - intros s Hs. apply first_some_none. intros g Hgin. now apply (Hb s g).
  - rewrite Eg. now apply first_some_first.
Qed.

Lemma find_gla_candidates (index : Index) (model_name : string) (entry : ModelEntry) :
  no_own_gla index entry ->
  find_gla index model_name entry
  = match resolve_gla index
            (Pathlib.parse (String.append "models/players/"
               (String.append model_name
                  (String.append "/" (String.append model_name ".gla"))))) with
    | Some fs => Some fs
    | None =>
        match resolve_gla index
                (Pathlib.parse (String.append "models/players/"
                   (String.append model_name "/model.gla"))) with
        | Some fs => Some fs
        | None => resolve_gla index (Pathlib.parse "models/players/_humanoid/_humanoid.gla")
        end
    end.
Proof.
  intros H. unfold find_gla.
  assert (E : first_some (fun src => first_some (resolve_gla index) (glas src))
                (sources entry) = None).
  { apply first_some_none. intros s Hs. apply first_some_none. intros g Hg.
    now apply (H s g). }
  rewrite E. unfold gla_candidates. cbn [first_some].
  repeat match goal with
         | |- context [match resolve_gla ?i ?p with _ => _ end] =>
             destruct (resolve_gla i p)
         end; reflexivity.
Qed.

End ResolveFacts.

(* ================================================================== *)
(** * The file system: well-formed trees and plain paths *)
(* ================================================================== *)

Module FSFacts.
Import Pathlib FS ODictFacts Notions.

Lemma list_eqb_eq (a b : list string) : list_eqb a b = true <-> a = b.
Proof. unfold list_eqb. destruct (list_eq_dec string_dec a b); split; congruence. Qed.

Lemma list_eqb_refl (a : list string) : list_eqb a a = true.
Proof. now apply list_eqb_eq. Qed.

Lemma list_eqb_neq (a b : list string) : list_eqb a b = false <-> a <> b.
Proof. apply (eqb_neq _ list_eqb list_eqb_eq). Qed.

(** ** Entries below a directory *)

Lemma below_app (k rel : key) : below k (k ++ rel) = Some rel.
Proof. induction k as [|a k IH]; simpl; [reflexivity|]. now rewrite String.eqb_refl. Qed.

Lemma below_some (k k' rel : key) : below k k' = Some rel <-> k' = k ++ rel.
Proof.
  revert k'. induction k as [|a k IH]; intros k'; simpl.
  - split; congruence.
  - destruct k' as [|b k']; [split; discriminate|].
    destruct (String.eqb_spec a b) as [->|N].
    + rewrite IH. split; congruence.
    + split; [discriminate|]. intros H. injection H as -> _. contradiction.
Qed.

Lemma inside_dec (k k' : key) : {inside k k'} + {~ inside k k'}.
Proof.
  destruct (below k k') as [[|n rel]|] eqn:B.
  - right. intros (n & rel & E). apply below_some in B.
    rewrite app_nil_r in B. subst k'.
    apply (f_equal (@List.length string)) in E. rewrite length_app in E. simpl in E. lia.
  - left. exists n, rel. now apply below_some.
  - right. intros (n & rel & E). subst k'. rewrite below_app in B. discriminate.
Qed.

Lemma inside_app (k k' rel : key) : inside k k' -> inside k (k' ++ rel).
Proof. intros (n & r & ->). exists n, (r ++ rel). now rewrite <- app_assoc. Qed.

Lemma inside_removelast (k k' : key) :
  inside k k' -> removelast k' = k \/ inside k (removelast k').
Proof.
  intros (n & rel & ->).
  destruct (@exists_last _ (n :: rel)) as (l & x & E); [discriminate|].
  rewrite E, app_assoc, removelast_last.
  destruct l as [|n' l]; [left; apply app_nil_r|right].
  exists n', l. reflexivity.
Qed.

(** ** Looking entries up *)

Lemma lookup_nil (fs : t) : lookup fs [] = Some Dir.
Proof. reflexivity. Qed.

Lemma lookup_cons (fs : t) (a : string) (k : key) :
  lookup fs (a :: k) = ODict.get list_eqb (a :: k) fs.
Proof. reflexivity. Qed.

Lemma lookup_in (fs : t) (k : key) (n : node) :
  k <> [] -> lookup fs k = Some n -> In (k, n) fs.
Proof.
  destruct k; [congruence|]. intros _. rewrite lookup_cons.
  apply (gen_get_in _ _ list_eqb list_eqb_eq).
Qed.

Lemma in_lookup (fs : t) (k : key) (n : node) :
  NoDup (keys fs) -> k <> [] -> In (k, n) fs -> lookup fs k = Some n.
Proof.
  destruct k; [congruence|]. intros ND _. rewrite lookup_cons.
  now apply (gen_in_get _ _ list_eqb list_eqb_eq).
Qed.

Lemma lookup_none (fs : t) (k : key) : lookup fs k = None <-> k <> [] /\ ~ In k (keys fs).
Proof.
  destruct k as [|a k]; simpl lookup.
  - split; [discriminate|]. intros [H _]. congruence.
  - rewrite (gen_get_none _ _ list_eqb list_eqb_eq). split; [split; [discriminate|assumption]|tauto].
Qed.

Lemma lookup_add (fs : t) (k q : key) (n : node) :
  lookup fs k = None ->
  lookup (fs ++ [(k, n)]) q = if list_eqb k q then Some n else lookup fs q.
Proof.
  intros Hk. destruct q as [|a q].
  - simpl. destruct (list_eqb k []) eqn:E; [|reflexivity].
    apply list_eqb_eq in E. subst. discriminate.
  - rewrite !lookup_cons, gen_get_app.
    destruct (list_eqb k (a :: q)) eqn:E.
    + apply list_eqb_eq in E. subst k. rewrite lookup_cons in Hk. rewrite Hk.
      simpl. now rewrite list_eqb_refl.
    + destruct (ODict.get list_eqb (a :: q) fs); [reflexivity|].
      simpl. now rewrite E.
Qed.

Lemma lookup_set (fs : t) (k q : key) (n : node) :
  k <> [] ->
  lookup (ODict.set list_eqb k n fs) q = if list_eqb k q then Some n else lookup fs q.
Proof.
  intros Hk. destruct q as [|a q].
  - simpl. destruct (list_eqb k []) eqn:E; [|reflexivity].
    apply list_eqb_eq in E. contradiction.
  - rewrite !lookup_cons. apply (gen_get_set _ _ list_eqb list_eqb_eq).
Qed.

Lemma get_remove_key (fs : t) (k q : key) :
  ODict.get list_eqb q (remove_key k fs)
  = if list_eqb k q then None else ODict.get list_eqb q fs.
Proof.
  unfold remove_key. induction fs as [|[k' n] fs IH]; simpl.
  - destruct (list_eqb k q); reflexivity.
  - destruct (list_eqb k' k) eqn:E; simpl.
    + apply list_eqb_eq in E. subst k'. rewrite IH.
      destruct (list_eqb k q); reflexivity.
    + rewrite IH. destruct (list_eqb k' q) eqn:E'; [|reflexivity].
      apply list_eqb_eq in E'. subst k'.
      assert (list_eqb k q = false) as ->; [|reflexivity].
      apply list_eqb_neq. intros ->. rewrite list_eqb_refl in E. discriminate.
Qed.

Lemma lookup_remove (fs : t) (k q : key) :
  k <> [] ->
  lookup (remove_key k fs) q = if list_eqb k q then None else lookup fs q.
Proof.
  intros Hk. destruct q as [|a q].
  - simpl. destruct (list_eqb k []) eqn:E; [|reflexivity].
    apply list_eqb_eq in E. contradiction.
  - rewrite !lookup_cons. apply get_remove_key.
Qed.

(** ** Plain components and well-formed trees *)

Lemma step_plain (cur : key) (s : string) : plain_seg s -> step cur s = cur ++ [s].
Proof.
  intros [H1 H2]. unfold step.
  apply String.eqb_neq in H1, H2. now rewrite H1, H2.
Qed.

Lemma wf_nil : wf [].
Proof. split; [constructor|]. intros k n []. Qed.

Lemma wf_lookup (fs : t) (k : key) (n : node) :
  wf fs -> lookup fs k = Some n -> plain k /\ lookup fs (removelast k) = Some Dir.
Proof.
  intros [ND W] H. destruct k as [|a k]; [split; [constructor|reflexivity]|].
  apply lookup_in in H; [|discriminate]. apply W in H. tauto.
Qed.

(** In a well-formed tree every place above an entry is a directory. *)
Lemma wf_above (fs : t) (k rel : key) (n : node) :
  wf fs -> lookup fs (k ++ rel) = Some n -> rel <> [] -> lookup fs k = Some Dir.
Proof.
  intros W. revert n. induction rel as [|x rel IH] using rev_ind; intros n H Hne; [congruence|].
  rewrite app_assoc in H. apply wf_lookup in H as [_ H]; [|exact W].
  rewrite removelast_last in H.
  destruct rel as [|y rel]; [now rewrite app_nil_r in H|].
  apply (IH Dir H). discriminate.
Qed.

(** ** Path resolution *)

Lemma walk_app (fs : t) (cur : key) (a b : list string) :
  walk fs cur (a ++ b) = (k <- walk fs cur a ;; walk fs k b).
Proof.
  revert cur. induction a as [|s a IH]; intros cur; simpl; [reflexivity|].
  destruct (lookup fs cur) as [[|]|]; auto.
Qed.

(** A plain path is resolved to the list of its components, provided the
    places above it are directories. *)
Lemma walk_plain (fs : t) (cur : key) (segs : list string) :
  plain segs ->
  (forall pre x post, segs = pre ++ x :: post -> lookup fs (cur ++ pre) = Some Dir) ->
  walk fs cur segs = Ok (cur ++ segs).
Proof.
  revert cur. induction segs as [|s segs IH]; intros cur Hp Hd; simpl.
  - now rewrite app_nil_r.
  - inversion Hp as [|? ? Hs Hp']; subst.
    rewrite <- (app_nil_r cur) at 1. rewrite (Hd [] s segs eq_refl).
    rewrite (step_plain cur s Hs), IH; [now rewrite <- app_assoc|assumption|].
    intros pre x post E. rewrite <- app_assoc. apply (Hd (s :: pre) x post).
    simpl. now rewrite E.
Qed.

Lemma walk_plain_inv (fs : t) (cur : key) (segs : list string) (k : key) :
  plain segs -> walk fs cur segs = Ok k ->
  k = cur ++ segs
  /\ forall pre x post, segs = pre ++ x :: post -> lookup fs (cur ++ pre) = Some Dir.
Proof.
  revert cur. induction segs as [|s segs IH]; intros cur Hp; simpl.
  - intros H. injection H as <-. split; [now rewrite app_nil_r|].
    intros [|] ? ? E; discriminate.
  - inversion Hp as [|? ? Hs Hp']; subst.
    destruct (lookup fs cur) as [[|]|] eqn:L; try discriminate.
    rewrite (step_plain cur s Hs). intros H. destruct (IH _ Hp' H) as [-> Hd].
    split; [now rewrite <- app_assoc|].
    intros [|y pre] x post E; simpl in E; injection E as -> ->.
    + now rewrite app_nil_r.
    + specialize (Hd pre x post eq_refl). now rewrite <- app_assoc in Hd.
Qed.

(** In a well-formed tree, an existing entry with a plain path is found. *)
Lemma walk_wf (fs : t) (segs : list string) (n : node) :
  wf fs -> lookup fs segs = Some n -> walk fs [] segs = Ok segs.
Proof.
  intros W H. apply walk_plain.
  - exact (proj1 (wf_lookup _ _ _ W H)).
  - intros pre x post E. simpl. subst segs.
    eapply wf_above; [exact W|exact H|discriminate].
Qed.

(** [stat] on a plain path of a well-formed tree. *)
Lemma stat_found (fs : t) (p : Path) (n : node) :
  wf fs -> lookup fs (tail p) = Some n -> stat fs p = Ok n.
Proof.
  intros W H. unfold stat, locate. rewrite (walk_wf _ _ _ W H). simpl. now rewrite H.
Qed.

Lemma stat_plain_inv (fs : t) (p : Path) (n : node) :
  plain (tail p) -> stat fs p = Ok n -> lookup fs (tail p) = Some n.
Proof.
  intros Hp. unfold stat, locate.
  destruct (walk fs [] (tail p)) as [k|e] eqn:Wk; [|discriminate].
  destruct (walk_plain_inv _ _ _ _ Hp Wk) as [-> _]. simpl.
  destruct (lookup fs (tail p)); [congruence|discriminate].
Qed.

Lemma is_file_iff (fs : t) (p : Path) :
  wf fs -> plain (tail p) ->
  is_file fs p = true <-> exists b, lookup fs (tail p) = Some (File b).
Proof.
  intros W Hp. unfold is_file. split.
  - destruct (stat fs p) as [[|b]|] eqn:S; try discriminate.
    intros _. exists b. now apply stat_plain_inv.
  - intros (b & H). now rewrite (stat_found fs p _ W H).
Qed.

Lemma is_dir_iff (fs : t) (p : Path) :
  wf fs -> plain (tail p) ->
  is_dir fs p = true <-> lookup fs (tail p) = Some Dir.
Proof.
  intros W Hp. unfold is_dir. split.
  - destruct (stat fs p) as [[|b]|] eqn:S; try discriminate.
    intros _. now apply stat_plain_inv.
  - intros H. now rewrite (stat_found fs p _ W H).
Qed.

Lemma exists_iff (fs : t) (p : Path) :
  wf fs -> plain (tail p) ->
  exists_ fs p = true <-> exists n, lookup fs (tail p) = Some n.
Proof.
  intros W Hp. unfold exists_. split.
  - destruct (stat fs p) as [n|] eqn:S; try discriminate.
    intros _. exists n. now apply stat_plain_inv.
  - intros (n & H). now rewrite (stat_found fs p _ W H).
Qed.

End FSFacts.

(* ================================================================== *)
(** * The file system: what the operations change *)
(* ================================================================== *)

Module FSOps.
Import Pathlib FS ODictFacts Notions FSFacts.

Lemma keeps_refl (fs : t) : keeps fs fs.
Proof. intros k n H. exact H. Qed.

Lemma keeps_trans (a b c : t) : keeps a b -> keeps b c -> keeps a c.
Proof. intros H1 H2 k n H. apply H2, H1, H. Qed.

Lemma walk_keeps (fs fs' : t) (cur : key) (segs : list string) (k : key) :
  keeps fs fs' -> walk fs cur segs = Ok k -> walk fs' cur segs = Ok k.
Proof.
  intros Hk. revert cur. induction segs as [|s segs IH]; intros cur; simpl; [auto|].
  destruct (lookup fs cur) as [[|b]|] eqn:L; try discriminate.
  rewrite (Hk _ _ L). apply IH.
Qed.

Lemma keys_app (fs : t) (k : key) (n : node) : keys (fs ++ [(k, n)]) = keys fs ++ [k].
Proof. unfold keys. now rewrite map_app. Qed.

(** Adding an entry in an existing directory keeps the tree well formed. *)
Lemma wf_add (fs : t) (k : key) (n : node) :
  wf fs -> lookup fs k = None -> plain k -> lookup fs (removelast k) = Some Dir ->
  wf (fs ++ [(k, n)]).
Proof.
  intros [ND W] Hn Hp Hd. apply lookup_none in Hn as [Hne Hnin]. split.
  - rewrite keys_app. apply NoDup_app; [assumption|repeat constructor; intros []| ].
    intros x Hx [<-|[]]. contradiction.
  - assert (K : keeps fs (fs ++ [(k, n)])).
    { intros q m Hq. rewrite lookup_add by (apply lookup_none; auto).
      destruct (list_eqb k q) eqn:E; [|assumption].
      apply list_eqb_eq in E. subst q.
      destruct k; [congruence|]. apply lookup_in in Hq; [|discriminate].
      exfalso. apply Hnin. apply in_map_iff. now exists (s :: k, m). }
    intros q m Hin. apply in_app_or in Hin as [Hin|[Hin|[]]].
    + destruct (W q m Hin) as (A & B & C). repeat split; auto.
    + injection Hin as <- <-. repeat split; auto.
Qed.

(** The place found for a new entry is a plain name in a directory. *)
Lemma walk_new (fs : t) (segs : list string) (cur k : key) :
  wf fs -> lookup fs cur <> None ->
  walk fs cur segs = Ok k -> lookup fs k = None ->
  k <> [] /\ plain k /\ lookup fs (removelast k) = Some Dir.
Proof.
  intros W. revert cur. induction segs as [|s segs IH]; intros cur Hc; simpl.
  - intros H. injection H as <-. contradiction.
  - destruct (lookup fs cur) as [[|b]|] eqn:L; try discriminate.
    intros Hw Hn.
    destruct (lookup fs (step cur s)) as [m|] eqn:Ls.
    + apply (IH (step cur s)); [congruence|assumption|assumption].
    + destruct segs as [|s' segs].
      * simpl in Hw. injection Hw as <-.
        unfold step in *.
        destruct (String.eqb_spec s "..") as [->|N1].
        { destruct (wf_lookup _ _ _ W L) as [_ Hp]. congruence. }
        destruct (String.eqb_spec s ".") as [->|N2]; [congruence|].
        rewrite removelast_last. repeat split.
        -- intros E. apply app_eq_nil in E as [_ E]. discriminate.
        -- apply Forall_app. split; [exact (proj1 (wf_lookup _ _ _ W L))|].
           repeat constructor; assumption.
        -- assumption.
      * simpl in Hw. rewrite Ls in Hw. discriminate.
Qed.

(** ** [mkdir] *)

Lemma os_mkdir_ok (fs fs' : t) (p : Path) :
  os_mkdir fs p = Ok fs' ->
  exists k, locate fs p = Ok k /\ lookup fs k = None /\ fs' = fs ++ [(k, Dir)].
Proof.
  unfold os_mkdir. destruct (locate fs p) as [k|]; [|discriminate]. cbn [bind].
  destruct (lookup fs k) eqn:L; [discriminate|].
  intros H. injection H as <-. eauto.
Qed.

Lemma adds_dirs_refl (fs : t) : adds_dirs fs fs.
Proof. split; [apply keeps_refl|]. intros k n H. now left. Qed.

Lemma adds_dirs_trans (a b c : t) : adds_dirs a b -> adds_dirs b c -> adds_dirs a c.
Proof.
  intros [K1 N1] [K2 N2]. split; [eapply keeps_trans; eassumption|].
  intros k n H. destruct (N2 k n H) as [H'|[H' ->]].
  - apply N1. exact H'.
  - destruct (lookup a k) as [m|] eqn:L; [|now right].
    apply K1 in L. congruence.
Qed.

Lemma os_mkdir_spec (fs fs' : t) (p : Path) :
  wf fs -> os_mkdir fs p = Ok fs' ->
  wf fs' /\ adds_dirs fs fs' /\ is_dir fs' p = true.
Proof.
  intros W H. apply os_mkdir_ok in H as (k & Hl & Hn & ->).
  destruct (walk_new fs (tail p) [] k W) as (Hne & Hp & Hd);
    [discriminate|exact Hl|exact Hn|].
  assert (K : keeps fs (fs ++ [(k, Dir)])).
  { intros q m Hq. rewrite lookup_add by assumption.
    destruct (list_eqb k q) eqn:E; [|assumption].
    apply list_eqb_eq in E. subst q. congruence. }
  split; [now apply wf_add|]. split; [split; [exact K|]|].
  - intros q m Hq. rewrite lookup_add in Hq by assumption.
    destruct (list_eqb k q) eqn:E; [|now left].
    apply list_eqb_eq in E. subst q. injection Hq as <-. now right.
  - unfold is_dir, stat. unfold locate in *. rewrite (walk_keeps _ _ _ _ _ K Hl).
    cbn [bind]. rewrite lookup_add by assumption. now rewrite list_eqb_refl.
Qed.

Lemma mkdir_parents_spec (rsegs : list string) (fs fs' : t) (rt : string) :
  wf fs -> mkdir_parents fs rt rsegs = Ok fs' ->
  wf fs' /\ adds_dirs fs fs' /\ is_dir fs' {| root := rt; tail := rev rsegs |} = true.
Proof.
  revert fs fs'. induction rsegs as [|s rsegs IH]; intros fs fs' W.
  - cbn [mkdir_parents].
    destruct (os_mkdir fs _) as [fs1|e] eqn:M.
    + intros H. injection H as <-. now apply os_mkdir_spec.
    + destruct e; try discriminate;
        match goal with
        | |- (if ?c then _ else _) = _ -> _ =>
            destruct c eqn:C; [|discriminate];
            intros H; injection H as <-;
            apply andb_true_iff in C as [_ C];
            split; [assumption|split; [apply adds_dirs_refl|exact C]]
        end.
  - cbn [mkdir_parents].
    destruct (os_mkdir fs _) as [fs1|e] eqn:M.
    + intros H. injection H as <-. now apply os_mkdir_spec.
    + destruct e; try discriminate;
        try match goal with
        | |- (if ?c then _ else _) = _ -> _ =>
            destruct c eqn:C; [|discriminate];
            intros H; injection H as <-;
            apply andb_true_iff in C as [_ C];
            split; [assumption|split; [apply adds_dirs_refl|exact C]]
        end.
      destruct (mkdir_parents fs rt rsegs) as [fs1|] eqn:R; [|discriminate]. cbn [bind].
      destruct (IH _ _ W R) as (W1 & A1 & _).
      destruct (os_mkdir fs1 _) as [fs2|e] eqn:M2.
      * intros H. injection H as <-.
        destruct (os_mkdir_spec _ _ _ W1 M2) as (W2 & A2 & D2).
        split; [assumption|]. split; [eapply adds_dirs_trans; eassumption|assumption].
      * destruct e; try discriminate;
          match goal with
          | |- (if ?c then _ else _) = _ -> _ =>
              destruct c eqn:C; [|discriminate];
              intros H; injection H as <-;
              apply andb_true_iff in C as [_ C];
              split; [assumption|split; [assumption|exact C]]
          end.
Qed.

Lemma mkdir_spec (fs fs' : t) (p : Path) :
  wf fs -> mkdir fs p = Ok fs' -> wf fs' /\ adds_dirs fs fs' /\ is_dir fs' p = true.
Proof.
  intros W H. unfold mkdir in H.
  destruct (mkdir_parents_spec _ _ _ _ W H) as (W' & A & D).
  split; [assumption|]. split; [assumption|].
  unfold is_dir, stat, locate in *. cbn [tail] in D. now rewrite rev_involutive in D.
Qed.

(** On a directory that exists [mkdir] changes nothing. *)
Lemma mkdir_existing (fs : t) (p : Path) : is_dir fs p = true -> mkdir fs p = Ok fs.
Proof.
  intros D. unfold mkdir.
  assert (D' : is_dir fs {| root := root p; tail := rev (rev (tail p)) |} = true).
  { unfold is_dir, stat, locate in *. cbn [tail]. now rewrite rev_involutive. }
  assert (M : os_mkdir fs {| root := root p; tail := rev (rev (tail p)) |}
              = Raise FileExistsError).
  { unfold os_mkdir. unfold is_dir, stat in D'.
    destruct (locate fs _) as [k|]; [|discriminate]. cbn [bind] in *.
    destruct (lookup fs k); [reflexivity|discriminate]. }
  destruct (rev (tail p)) as [|s r]; cbn [mkdir_parents]; rewrite M; cbn [is_OSError andb];
    now rewrite D'.
Qed.


(** ** Writing, removing *)

Lemma in_set (k q : key) (v m : node) (d : t) :
  In (q, m) (ODict.set list_eqb k v d) -> (q = k /\ m = v) \/ In (q, m) d.
Proof.
  induction d as [|[k' v'] d IH]; simpl.
  - intros [H|[]]. injection H as <- <-. now left.
  - destruct (list_eqb k' k) eqn:E; simpl.
    + apply list_eqb_eq in E. subst k'. intros [H|H]; [|now right; right].
      injection H as <- <-. now left.
    + intros [H|H]; [now right; left|]. destruct (IH H); [now left|now right; right].
Qed.

Lemma wf_set_file (fs : t) (k : key) (b0 b : string) :
  wf fs -> lookup fs k = Some (File b0) -> wf (ODict.set list_eqb k (File b) fs).
Proof.
  intros [ND W] L.
  assert (Hne : k <> []) by (intros ->; discriminate).
  split.
  - unfold keys. destruct k as [|a k]; [congruence|].
    rewrite (gen_set_keys_present _ _ list_eqb (a :: k) (File b) (File b0)); assumption.
  - intros q m Hin. apply in_set in Hin as [[-> ->]|Hin].
    + destruct (wf_lookup _ _ _ (conj ND W) L) as [Hp Hd]. repeat split; auto.
      rewrite lookup_set by assumption.
      destruct (list_eqb k (removelast k)) eqn:E; [|assumption].
      apply list_eqb_eq in E. rewrite <- E in Hd. congruence.
    + destruct (W q m Hin) as (A & B & C). repeat split; auto.
      rewrite lookup_set by assumption.
      destruct (list_eqb k (removelast q)) eqn:E; [|assumption].
      apply list_eqb_eq in E. rewrite <- E in C. congruence.
Qed.

Lemma write_file_spec (fs fs' : t) (p : Path) (b : string) :
  wf fs -> write_file fs p b = Ok fs' ->
  exists k,
    locate fs p = Ok k /\ k <> [] /\ lookup fs k <> Some Dir
    /\ wf fs'
    /\ forall q, lookup fs' q = if list_eqb k q then Some (File b) else lookup fs q.
Proof.
  intros W. unfold write_file.
  destruct (locate fs p) as [k|] eqn:Lc; [|discriminate]. cbn [bind].
  assert (Hne : lookup fs k <> Some Dir -> k <> []) by (intros H ->; now apply H).
  destruct (lookup fs k) as [[|b0]|] eqn:L; [discriminate| |].
  - intros H. injection H as <-. exists k.
    assert (Hk : k <> []) by (apply Hne; discriminate).
    split; [reflexivity|]. split; [assumption|]. split; [congruence|].
    split; [eapply wf_set_file; eassumption|].
    intros q. now apply lookup_set.
  - intros H. injection H as <-. exists k.
    assert (Hk : k <> []) by (apply Hne; discriminate).
    destruct (walk_new fs (tail p) [] k W) as (A & B & C);
      [discriminate|exact Lc|exact L|].
    rewrite (gen_set_absent _ _ list_eqb k (File b) fs)
      by (destruct k; [congruence|exact L]).
    split; [reflexivity|]. split; [assumption|]. split; [congruence|].
    split; [now apply wf_add|].
    intros q. now apply lookup_add.
Qed.

Lemma keys_remove (fs : t) (k : key) : keys (remove_key k fs) = filter (fun q => negb (list_eqb q k)) (keys fs).
Proof.
  unfold keys, remove_key. induction fs as [|[q m] fs IH]; simpl; [reflexivity|].
  destruct (list_eqb q k); simpl; now rewrite IH.
Qed.

(** Removing an entry under which nothing lies keeps the tree well formed. *)
Lemma wf_remove (fs : t) (k : key) :
  wf fs -> k <> [] ->
  (forall q m, In (q, m) fs -> removelast q <> k) ->
  wf (remove_key k fs).
Proof.
  intros [ND W] Hne Hch. split.
  - rewrite keys_remove. now apply NoDup_filter.
  - intros q m Hin. unfold remove_key in Hin. apply filter_In in Hin as [Hin _].
    destruct (W q m Hin) as (A & B & C). repeat split; auto.
    rewrite lookup_remove by assumption.
    destruct (list_eqb k (removelast q)) eqn:E; [|assumption].
    apply list_eqb_eq in E. exfalso. apply (Hch q m Hin). now symmetry.
Qed.

Lemma unlink_spec (fs fs' : t) (p : Path) :
  wf fs -> unlink fs p = Ok fs' ->
  exists k b,
    locate fs p = Ok k /\ lookup fs k = Some (File b)
    /\ wf fs'
    /\ forall q, lookup fs' q = if list_eqb k q then None else lookup fs q.
Proof.
  intros W. unfold unlink.
  destruct (locate fs p) as [k|] eqn:Lc; [|discriminate]. cbn [bind].
  destruct (lookup fs k) as [[|b]|] eqn:L; try discriminate.
  intros H. injection H as <-. exists k, b.
  assert (Hne : k <> []) by (intros ->; discriminate).
  split; [reflexivity|]. split; [exact L|]. split.
  - apply wf_remove; auto. intros q m Hin E.
    destruct W as [ND W]. destruct (W q m Hin) as (_ & _ & C). congruence.
  - intros q. now apply lookup_remove.
Qed.

Lemma descendants_in (fs : t) (k rel : key) :
  In rel (descendants fs k) <-> rel <> [] /\ exists m, In (k ++ rel, m) fs.
Proof.
  unfold descendants. rewrite in_flat_map. split.
  - intros ([q m] & Hin & Hr). cbn [fst] in Hr.
    destruct (below k q) as [[|n r]|] eqn:B; try contradiction.
    destruct Hr as [<-|[]]. apply below_some in B. subst q.
    split; [discriminate|]. now exists m.
  - intros (Hne & m & Hin). exists (k ++ rel, m). split; [assumption|].
    cbn [fst]. rewrite below_app. destruct rel; [congruence|]. now left.
Qed.

Lemma removelast_app_last (q : key) : q <> [] -> exists x, q = removelast q ++ [x].
Proof.
  intros H. destruct (exists_last H) as (l & x & ->). exists x. now rewrite removelast_last.
Qed.

Lemma rmdir_spec (fs fs' : t) (p : Path) :
  wf fs -> rmdir fs p = Ok fs' ->
  exists k,
    lookup fs k = Some Dir /\ k <> [] /\ descendants fs k = []
    /\ wf fs'
    /\ forall q, lookup fs' q = if list_eqb k q then None else lookup fs q.
Proof.
  intros W. unfold rmdir.
  destruct (locate fs p) as [k|] eqn:Lc; [|discriminate]. cbn [bind].
  destruct (lookup fs k) as [[|b]|] eqn:L; try discriminate.
  destruct k as [|a k]; [discriminate|].
  destruct (descendants fs (a :: k)) eqn:Ds; [|discriminate].
  intros H. injection H as <-. exists (a :: k).
  split; [exact L|]. split; [discriminate|]. split; [exact Ds|]. split.
  - apply wf_remove; auto; [discriminate|]. intros q m Hin E.
    destruct W as [ND W]. destruct (W q m Hin) as (A & _ & _).
    destruct (removelast_app_last q A) as (x & Eq). rewrite E in Eq.
    assert (Hd : In [x] (descendants fs (a :: k))).
    { apply descendants_in. split; [discriminate|]. exists m. now rewrite <- Eq. }
    rewrite Ds in Hd. contradiction.
  - intros q. apply lookup_remove. discriminate.
Qed.

End FSOps.

(* ================================================================== *)
(** * cache.py: copying and pruning *)
(* ================================================================== *)

Module CacheFacts.
Import Pathlib FS ODictFacts Notions FSFacts FSOps.

Lemma grows_refl (fs : t) : grows fs fs.
Proof. intros k. destruct (lookup fs k) as [[|b]|]; eauto. Qed.

Lemma grows_trans (a b c : t) : grows a b -> grows b c -> grows a c.
Proof.
  intros H1 H2 k. specialize (H1 k). specialize (H2 k).
  destruct (lookup a k) as [[|x]|]; auto.
  - now rewrite H1 in H2.
  - destruct H1 as (y & H1). now rewrite H1 in H2.
Qed.

Lemma keeps_grows (fs fs' : t) : keeps fs fs' -> grows fs fs'.
Proof.
  intros K k. destruct (lookup fs k) as [[|b]|] eqn:L; [now apply K| |exact I].
  exists b. now apply K.
Qed.

Lemma write_file_grows (fs fs' : t) (p : Path) (b : string) :
  wf fs -> write_file fs p b = Ok fs' -> wf fs' /\ grows fs fs'.
Proof.
  intros W H. destruct (write_file_spec _ _ _ _ W H) as (k & _ & _ & Hd & W' & L).
  split; [assumption|]. intros q. rewrite (L q).
  destruct (list_eqb k q) eqn:E.
  - apply list_eqb_eq in E. subst q.
    destruct (lookup fs k) as [[|x]|]; eauto. congruence.
  - destruct (lookup fs q) as [[|x]|]; eauto.
Qed.

Lemma copy_member_grows (fs fs' : t) (info : ZipInfo) (dest : Path) (r : result unit) :
  wf fs -> copy_member fs info dest = (fs', r) -> wf fs' /\ grows fs fs'.
Proof.
  intros W. unfold copy_member.
  destruct (body info) as [data| |partial].
  - destruct (write_file fs dest data) as [fs1|] eqn:Wr; intros H; injection H as <- <-.
    + eapply write_file_grows; eassumption.
    + split; [assumption|apply grows_refl].
  - intros H. injection H as <- <-. split; [assumption|apply grows_refl].
  - destruct (write_file fs dest partial) as [fs1|] eqn:Wr; intros H; injection H as <- <-.
    + eapply write_file_grows; eassumption.
    + split; [assumption|apply grows_refl].
Qed.

Lemma copy2_grows (fs fs' : t) (src dst : Path) (r : result unit) :
  wf fs -> copy2 fs src dst = (fs', r) -> wf fs' /\ grows fs fs'.
Proof.
  intros W. unfold copy2.
  match goal with |- (if ?c then _ else _) = _ -> _ => destruct c end.
  - intros H. injection H as <- <-. split; [assumption|apply grows_refl].
  - destruct (read_file fs src) as [bytes|].
    + match goal with
      | |- match write_file fs ?d bytes with _ => _ end = _ -> _ =>
          destruct (write_file fs d bytes) as [fs1|] eqn:Wr
      end; intros H; injection H as <- <-.
      * eapply write_file_grows; eassumption.
      * split; [assumption|apply grows_refl].
    + intros H. injection H as <- <-. split; [assumption|apply grows_refl].
Qed.

Section WithEnv.
Variable unzip : string -> result (list ZipInfo).
Variable TEXTURE_EXTS : list string.

Lemma copy_asset_grows (fs fs' : t) (base_dir : Path) (src : FileSource)
    (dest_path : Path) (r : result unit) :
  wf fs -> copy_asset unzip fs base_dir src dest_path = (fs', r) ->
  wf fs' /\ grows fs fs'.
Proof.
  intros W. unfold copy_asset.
  destruct (String.eqb (fs_origin src) "disk"); [now apply copy2_grows|].
  destruct (fs_container src) as [c|].
  - destruct (open_pk3 unzip fs c) as [zf|].
    + destruct (getinfo zf _) as [info|]; [now apply copy_member_grows|].
      intros H. injection H as <- <-. split; [assumption|apply grows_refl].
    + intros H. injection H as <- <-. split; [assumption|apply grows_refl].
  - intros H. injection H as <- <-. split; [assumption|apply grows_refl].
Qed.

Lemma adds_dirs_grows (fs fs' : t) : adds_dirs fs fs' -> grows fs fs'.
Proof. intros [K _]. now apply keeps_grows. Qed.

(** One asset: the key of its destination enters the keep set whether the
    copy succeeds or not. *)
Lemma extract_asset_spec (base_dir cache_root : Path) (st st' : Extraction) (a : asset) :
  wf (x_fs st) ->
  extract_asset unzip TEXTURE_EXTS base_dir cache_root st a = Ok st' ->
  wf (x_fs st') /\ grows (x_fs st) (x_fs st')
  /\ keep st' = strset_add (normalize_rel (snd a)) (keep st).
Proof.
  intros W. unfold extract_asset. destruct a as [src dest_rel]. cbn [snd].
  destruct (mkdir (x_fs st) _) as [fs1|] eqn:M; [|discriminate]. cbn [bind].
  destruct (mkdir_spec _ _ _ W M) as (W1 & A1 & _).
  destruct (copy_asset unzip fs1 base_dir src _) as [fs2 r] eqn:C.
  destruct (copy_asset_grows _ _ _ _ _ _ W1 C) as (W2 & G2).
  assert (G : grows (x_fs st) fs2)
    by (eapply grows_trans; [apply adds_dirs_grows; eassumption|assumption]).
  destruct r; intros H; injection H as <-; cbn [x_fs keep]; auto.
Qed.

Lemma extract_loop_spec (base_dir cache_root : Path) (assets : list asset)
    (st st' : Extraction) :
  wf (x_fs st) ->
  extract_loop unzip TEXTURE_EXTS base_dir cache_root st assets = Ok st' ->
  wf (x_fs st') /\ grows (x_fs st) (x_fs st')
  /\ keep st' = fold_left (fun k a => strset_add (normalize_rel (snd a)) k) assets (keep st).
Proof.
  revert st. induction assets as [|a assets IH]; intros st W; cbn [extract_loop fold_left].
  - intros H. injection H as <-. split; [assumption|]. split; [apply grows_refl|reflexivity].
  - destruct (extract_asset unzip TEXTURE_EXTS base_dir cache_root st a) as [st1|] eqn:E;
      [|discriminate]. cbn [bind].
    destruct (extract_asset_spec _ _ _ _ _ W E) as (W1 & G1 & K1).
    intros H. destruct (IH _ W1 H) as (W2 & G2 & K2).
    split; [assumption|]. split; [eapply grows_trans; eassumption|].
    now rewrite K2, K1.
Qed.

Lemma keep_of_mem (assets : list asset) (k : strset) (x : string) :
  In x (fold_left (fun k a => strset_add (normalize_rel (snd a)) k) assets k)
  <-> In x k \/ exists a, In a assets /\ x = normalize_rel (snd a).
Proof.
  revert k. induction assets as [|a assets IH]; intros k; cbn [fold_left].
  - split; [now left|]. intros [H|(a & [] & _)]. exact H.
  - rewrite IH. unfold strset_add. rewrite set_add_iff. split.
    + intros [[->|H]|(b & Hb & ->)].
      * right. exists a. split; [now left|reflexivity].
      * now left.
      * right. exists b. split; [now right|reflexivity].
    + intros [H|(b & [<-|Hb] & ->)].
      * left. now right.
      * left. now left.
      * right. exists b. now split.
Qed.

End WithEnv.

(** ** Pruning *)

Lemma strip_parts_app (pre rel : list string) : strip_parts pre (pre ++ rel) = Some rel.
Proof. induction pre as [|a pre IH]; simpl; [reflexivity|]. now rewrite String.eqb_refl. Qed.

Lemma relative_to_under (c : Path) (rel : key) :
  relative_to (under c rel) c = Ok {| root := ""; tail := rel |}.
Proof.
  unfold relative_to, under. cbn [root tail].
  now rewrite String.eqb_refl, strip_parts_app.
Qed.

Lemma is_file_at_iff (fs : t) (k : key) :
  is_file_at fs k = true <-> exists b, lookup fs k = Some (File b).
Proof.
  unfold is_file_at. destruct (lookup fs k) as [[|b]|]; split; try discriminate; eauto.
  - intros (b & H). discriminate.
  - intros (b & H). discriminate.
Qed.

Lemma is_file_plain (fs : t) (p : Path) :
  wf fs -> plain (tail p) -> is_file fs p = is_file_at fs (tail p).
Proof.
  intros W Hp. destruct (is_file_at fs (tail p)) eqn:E.
  - apply is_file_iff; auto. now apply is_file_at_iff.
  - destruct (is_file fs p) eqn:F; [|reflexivity].
    apply is_file_iff in F; auto. apply is_file_at_iff in F. congruence.
Qed.

Lemma unlink_file (fs : t) (p : Path) (b : string) :
  wf fs -> lookup fs (tail p) = Some (File b) ->
  unlink fs p = Ok (remove_key (tail p) fs).
Proof.
  intros W L. unfold unlink, locate. rewrite (walk_wf _ _ _ W L). cbn [bind].
  now rewrite L.
Qed.

Lemma doomed_at (ck rel : key) (keep_set : strset) (fs : t) :
  doomed ck keep_set fs (ck ++ rel)
  = is_file_at fs (ck ++ rel) && negb (kept keep_set rel).
Proof. unfold doomed. now rewrite below_app. Qed.

Lemma doomed_file (ck : key) (keep_set : strset) (fs : t) (q : key) :
  doomed ck keep_set fs q = true -> exists rel b, q = ck ++ rel /\ lookup fs q = Some (File b).
Proof.
  unfold doomed. destruct (below ck q) as [rel|] eqn:B; [|discriminate].
  intros H. apply andb_true_iff in H as [H _]. apply is_file_at_iff in H as (b & H).
  apply below_some in B. eauto.
Qed.

Lemma cleanup_file_spec (c : Path) (keep_set : strset) (fs : t) (rel : key) :
  wf fs -> plain (tail c ++ rel) ->
  exists fs',
    cleanup_file c keep_set fs rel = Ok fs' /\ wf fs'
    /\ forall q, lookup fs' q
                 = if list_eqb (tail c ++ rel) q && doomed (tail c) keep_set fs q
                   then None else lookup fs q.
Proof.
  intros W Hp. unfold cleanup_file.
  rewrite (is_file_plain fs (under c rel) W Hp). cbn [under tail].
  assert (Same : forall q, (if list_eqb (tail c ++ rel) q && false then None else lookup fs q)
                           = lookup fs q)
    by (intros q; now rewrite andb_false_r).
  destruct (is_file_at fs (tail c ++ rel)) eqn:F.
  - rewrite relative_to_under. cbn [bind].
    fold (kept keep_set rel).
    destruct (kept keep_set rel) eqn:Kp; cbn [negb].
    + exists fs. split; [reflexivity|]. split; [assumption|].
      intros q. destruct (list_eqb (tail c ++ rel) q) eqn:E; [|reflexivity].
      apply list_eqb_eq in E. subst q. rewrite doomed_at, F, Kp. reflexivity.
    + apply is_file_at_iff in F as (b & L).
      rewrite (unlink_file fs (under c rel) b W L). cbn [under tail].
      exists (remove_key (tail c ++ rel) fs).
      assert (Hne : tail c ++ rel <> []) by (intros E; rewrite E in L; discriminate).
      split; [reflexivity|]. split.
      * apply wf_remove; auto. intros q m Hin E.
        destruct W as [ND W]. destruct (W q m Hin) as (_ & _ & C). congruence.
      * intros q. rewrite lookup_remove by assumption.
        destruct (list_eqb (tail c ++ rel) q) eqn:E; [|reflexivity].
        apply list_eqb_eq in E. subst q. rewrite doomed_at, Kp.
        unfold is_file_at. rewrite L. reflexivity.
  - exists fs. split; [reflexivity|]. split; [assumption|].
    intros q. destruct (list_eqb (tail c ++ rel) q) eqn:E; [|reflexivity].
    apply list_eqb_eq in E. subst q. rewrite doomed_at, F. reflexivity.
Qed.

Lemma doomed_same (ck : key) (keep_set : strset) (fs fs' : t) (q : key) :
  lookup fs' q = lookup fs q -> doomed ck keep_set fs' q = doomed ck keep_set fs q.
Proof. intros H. unfold doomed, is_file_at. now rewrite H. Qed.

Lemma cleanup_files_spec (c : Path) (keep_set : strset) (rels : list key) (fs : t) :
  wf fs -> (forall rel, In rel rels -> plain (tail c ++ rel)) ->
  exists fs',
    cleanup_files c keep_set fs rels = Ok fs' /\ wf fs'
    /\ forall q, lookup fs' q
                 = if existsb (fun rel => list_eqb (tail c ++ rel) q) rels
                      && doomed (tail c) keep_set fs q
                   then None else lookup fs q.
Proof.
  revert fs. induction rels as [|rel rels IH]; intros fs W Hp; cbn [cleanup_files existsb].
  - exists fs. split; [reflexivity|]. split; [assumption|reflexivity].
  - destruct (cleanup_file_spec c keep_set fs rel W (Hp rel (or_introl eq_refl)))
      as (fs1 & E1 & W1 & L1).
    rewrite E1. cbn [bind].
    destruct (IH fs1 W1 (fun r Hr => Hp r (or_intror Hr))) as (fs' & E' & W' & L').
    exists fs'. split; [assumption|]. split; [assumption|].
    intros q. rewrite L'. rewrite (L1 q).
    destruct (list_eqb (tail c ++ rel) q && doomed (tail c) keep_set fs q) eqn:A.
    + apply andb_true_iff in A as [A1 A2]. rewrite A1, A2. cbn [orb andb].
      destruct (_ && _); reflexivity.
    + assert (Dm : doomed (tail c) keep_set fs1 q = doomed (tail c) keep_set fs q).
      { apply doomed_same. rewrite (L1 q), A. reflexivity. }
      rewrite Dm.
      destruct (doomed (tail c) keep_set fs q); [|now rewrite !andb_false_r].
      rewrite andb_true_r in A. rewrite A. reflexivity.
Qed.

Lemma cleanup_dir_spec (fs : t) (d : Path) :
  wf fs ->
  wf (cleanup_dir fs d)
  /\ forall q b, lookup (cleanup_dir fs d) q = Some (File b) <-> lookup fs q = Some (File b).
Proof.
  intros W. unfold cleanup_dir.
  destruct (iterdir fs d) as [[|x l]|]; try (split; [assumption|tauto]).
  destruct (rmdir fs d) as [fs'|] eqn:R; [|split; [assumption|tauto]].
  destruct (rmdir_spec _ _ _ W R) as (k & Lk & _ & _ & W' & L').
  split; [assumption|]. intros q b. rewrite (L' q).
  destruct (list_eqb k q) eqn:E; [|tauto].
  apply list_eqb_eq in E. subst q. rewrite Lk. split; discriminate.
Qed.

(** Only the directory at the path given can go. *)
Lemma cleanup_dir_frame (fs : t) (d : Path) (q : key) :
  wf fs -> plain (tail d) -> q <> tail d -> lookup (cleanup_dir fs d) q = lookup fs q.
Proof.
  intros W Hp Hq. unfold cleanup_dir.
  destruct (iterdir fs d) as [[|x l]|]; try reflexivity.
  destruct (rmdir fs d) as [fs'|] eqn:R; [|reflexivity].
  unfold rmdir in R.
  destruct (locate fs d) as [k|] eqn:Lc; [|discriminate]. cbn [bind] in R.
  destruct (walk_plain_inv _ _ _ _ Hp Lc) as [-> _]. cbn [app] in R.
  destruct (lookup fs (tail d)) as [[|b]|]; try discriminate.
  destruct (tail d) as [|a k] eqn:T; [discriminate|].
  destruct (descendants fs (a :: k)); [|discriminate].
  injection R as <-. rewrite lookup_remove by discriminate.
  destruct (list_eqb (a :: k) q) eqn:E; [|reflexivity].
  apply list_eqb_eq in E. congruence.
Qed.

Lemma cleanup_dirs_frame (dirs : list Path) (fs : t) (q : key) :
  wf fs -> (forall d, In d dirs -> plain (tail d) /\ q <> tail d) ->
  lookup (fold_left cleanup_dir dirs fs) q = lookup fs q.
Proof.
  revert fs. induction dirs as [|d dirs IH]; intros fs W H; cbn [fold_left]; [reflexivity|].
  destruct (H d (or_introl eq_refl)) as [Hp Hq].
  rewrite IH.
  - now apply cleanup_dir_frame.
  - exact (proj1 (cleanup_dir_spec fs d W)).
  - intros d' Hd'. apply H. now right.
Qed.

Lemma cleanup_dirs_spec (dirs : list Path) (fs : t) :
  wf fs ->
  wf (fold_left cleanup_dir dirs fs)
  /\ forall q b, lookup (fold_left cleanup_dir dirs fs) q = Some (File b)
                 <-> lookup fs q = Some (File b).
Proof.
  revert fs. induction dirs as [|d dirs IH]; intros fs W; cbn [fold_left].
  - split; [assumption|tauto].
  - destruct (cleanup_dir_spec fs d W) as (W1 & L1).
    destruct (IH _ W1) as (W2 & L2). split; [assumption|].
    intros q b. rewrite L2. apply L1.
Qed.

(** After [cleanup_cache] the files are those it found whose key is in the
    keep set, together with the files that are not below the cache root. *)
Lemma cleanup_cache_spec (fs : t) (c : Path) (keep_set : strset) :
  wf fs -> lookup fs (tail c) = Some Dir ->
  exists fs',
    cleanup_cache fs c keep_set = Ok fs' /\ wf fs'
    /\ lookup fs' (tail c) = Some Dir
    /\ forall q b, lookup fs' q = Some (File b)
                   <-> lookup fs q = Some (File b) /\ doomed (tail c) keep_set fs q = false.
Proof.
  intros W Lc. unfold cleanup_cache.
  assert (St : stat fs c = Ok Dir) by (now apply stat_found).
  assert (Ex : exists_ fs c = true) by (unfold exists_; now rewrite St).
  assert (Rg : rglob_rel fs c = descendants fs (tail c)).
  { unfold rglob_rel, locate. rewrite (walk_wf _ _ _ W Lc).
    unfold is_dir. now rewrite St. }
  rewrite Ex. cbn [negb]. rewrite Rg.
  destruct (cleanup_files_spec c keep_set (descendants fs (tail c)) fs W)
    as (fs1 & E1 & W1 & L1).
  { intros rel Hr. apply descendants_in in Hr as (_ & m & Hin).
    destruct W as [ND W]. exact (proj1 (proj2 (W _ _ Hin))). }
  rewrite E1. cbn [bind].
  match goal with |- context [fold_left cleanup_dir ?ds fs1] => set (dirs := ds) end.
  destruct (cleanup_dirs_spec dirs fs1 W1) as (W2 & L2).
  eexists. split; [reflexivity|]. split; [assumption|]. split.
  { rewrite cleanup_dirs_frame; [|assumption|].
    - rewrite (L1 (tail c)).
      assert (Dm : doomed (tail c) keep_set fs (tail c) = false).
      { unfold doomed, is_file_at. rewrite Lc. now destruct (below (tail c) (tail c)). }
      rewrite Dm, andb_false_r. exact Lc.
    - intros d Hd. subst dirs.
      apply (Permutation_in _ (Permutation_sym (sorted_perm _ _ _ _ _))) in Hd.
      apply filter_In in Hd as [Hd _]. unfold rglob in Hd.
      apply in_map_iff in Hd as (rel & <- & Hr). cbn [under tail].
      unfold rglob_rel in Hr.
      destruct (locate fs1 c) as [k|] eqn:Lk; [|contradiction].
      destruct (is_dir fs1 c); [|contradiction].
      assert (Pc : plain (tail c)) by exact (proj1 (wf_lookup _ _ _ W Lc)).
      destruct (walk_plain_inv _ _ _ _ Pc Lk) as [-> _]. cbn [app] in Hr.
      apply descendants_in in Hr as (Hne & m & Hin).
      split.
      + destruct W1 as [ND1 W1]. exact (proj1 (proj2 (W1 _ _ Hin))).
      + intros E. apply Hne. apply (app_inv_head (tail c)). now rewrite app_nil_r. }
  intros q b. rewrite L2, (L1 q).
  destruct (doomed (tail c) keep_set fs q) eqn:Dm.
  - destruct (doomed_file _ _ _ _ Dm) as (rel & b' & -> & Lq).
    assert (Hin : existsb (fun r => list_eqb (tail c ++ r) (tail c ++ rel))
                    (descendants fs (tail c)) = true).
    { apply existsb_exists. exists rel. split; [|apply list_eqb_refl].
      apply descendants_in. split.
      - intros ->. rewrite app_nil_r in Lq. congruence.
      - exists (File b'). apply lookup_in; [|assumption].
        intros E. rewrite E in Lq. discriminate. }
    rewrite Hin. cbn [andb]. split; [discriminate|]. intros [_ H]. discriminate.
  - rewrite andb_false_r. tauto.
Qed.


(** ** [extract_assets] as a whole *)

Section WithEnv2.
Variable unzip : string -> result (list ZipInfo).
Variable TEXTURE_EXTS : list string.

(** The three steps of [extract_assets] and what holds between them. *)
Lemma extract_assets_steps (fs fs' : t) (base_dir c : Path) (assets : list asset)
    (tm : ODict.t string string) (fl : list string) :
  wf fs -> plain (tail c) ->
  extract_assets unzip TEXTURE_EXTS fs base_dir c assets = Ok (fs', tm, fl) ->
  exists fs0 st,
    mkdir fs c = Ok fs0
    /\ extract_loop unzip TEXTURE_EXTS base_dir c (mkExtraction fs0 [] [] []) assets = Ok st
    /\ cleanup_cache (x_fs st) c (keep st) = Ok fs'
    /\ tm = texture_map st /\ fl = failed st
    /\ wf (x_fs st) /\ grows fs (x_fs st)
    /\ keep st = keep_of assets
    /\ lookup (x_fs st) (tail c) = Some Dir.
Proof.
  intros W Pc. unfold extract_assets.
  destruct (mkdir fs c) as [fs0|] eqn:M; [|discriminate]. cbn [bind].
  destruct (extract_loop _ _ _ _ _ _) as [st|] eqn:L; [|discriminate]. cbn [bind].
  destruct (cleanup_cache _ _ _) as [fs2|] eqn:C; [|discriminate]. cbn [bind].
  intros H. injection H as <- <- <-.
  destruct (mkdir_spec _ _ _ W M) as (W0 & A0 & D0).
  destruct (extract_loop_spec unzip TEXTURE_EXTS base_dir c assets
              (mkExtraction fs0 [] [] []) st W0 L) as (W1 & G1 & K1).
  cbn [x_fs keep] in *.
  exists fs0, st. repeat (split; [first [reflexivity|assumption]|]).
  split; [eapply grows_trans; [apply adds_dirs_grows; eassumption|assumption]|].
  split; [exact K1|].
  apply (is_dir_iff _ _ W0 Pc) in D0. specialize (G1 (tail c)). now rewrite D0 in G1.
Qed.

(** The cache after any call: exactly the files the copies left whose key
    is in the keep set of the call. *)
Lemma extract_assets_cache (fs fs' : t) (base_dir c : Path) (assets : list asset)
    (tm : ODict.t string string) (fl : list string) :
  wf fs -> plain (tail c) ->
  extract_assets unzip TEXTURE_EXTS fs base_dir c assets = Ok (fs', tm, fl) ->
  exists st,
    wf (x_fs st) /\ grows fs (x_fs st) /\ fl = failed st
    /\ wf fs' /\ lookup fs' (tail c) = Some Dir
    /\ forall rel,
         cache_file fs' c rel
         <-> cache_file (x_fs st) c rel /\ kept (keep_of assets) rel = true.
Proof.
  intros W Pc H.
  destruct (extract_assets_steps _ _ _ _ _ _ _ W Pc H)
    as (fs0 & st & _ & _ & C & _ & Fl & W1 & G & K & Lc).
  destruct (cleanup_cache_spec (x_fs st) c (keep st) W1 Lc) as (fs2 & C2 & W2 & Lc2 & L2).
  rewrite C in C2. injection C2 as <-.
  exists st. repeat (split; [assumption|]).
  intros rel. unfold cache_file. split.
  - intros (b & Hb). apply L2 in Hb as [Hb Dm]. split; [eauto|].
    rewrite doomed_at in Dm. unfold is_file_at in Dm. rewrite Hb, K in Dm.
    cbn [andb] in Dm. now apply negb_false_iff in Dm.
  - intros [(b & Hb) Kp]. exists b. apply L2. split; [assumption|].
    rewrite doomed_at, K, Kp. apply andb_false_r.
Qed.

Lemma plain_rel_join (c dest : Path) :
  plain (tail c) -> plain_rel dest ->
  joinpath c dest = {| root := root c; tail := tail c ++ tail dest |}
  /\ plain (tail c ++ tail dest)
  /\ normalize_rel {| root := ""; tail := tail dest |} = normalize_rel dest.
Proof.
  intros Pc [Hr Hp]. destruct dest as [r tl]. cbn [root tail] in *. subst r.
  split; [reflexivity|]. split; [|reflexivity].
  apply Forall_app. now split.
Qed.

Lemma kept_listed (assets : list asset) (a : asset) :
  In a assets -> plain_rel (snd a) -> kept (keep_of assets) (tail (snd a)) = true.
Proof.
  intros Hin Hp. unfold kept, strset_mem. apply set_mem_correct2.
  destruct (plain_rel_join {| root := ""; tail := [] |} (snd a)) as (_ & _ & E);
    [constructor|assumption|].
  rewrite E. unfold keep_of. apply keep_of_mem. right. now exists a.
Qed.

(** A file at a listed destination survives the call, whether the copy to
    it succeeds or fails. *)
Lemma extract_assets_keeps_listed (fs fs' : t) (base_dir c : Path) (assets : list asset)
    (tm : ODict.t string string) (fl : list string) (a : asset) :
  wf fs -> plain (tail c) ->
  extract_assets unzip TEXTURE_EXTS fs base_dir c assets = Ok (fs', tm, fl) ->
  In a assets -> plain_rel (snd a) ->
  is_file fs (joinpath c (snd a)) = true ->
  is_file fs' (joinpath c (snd a)) = true.
Proof.
  intros W Pc H Hin Hp Hf.
  destruct (extract_assets_cache _ _ _ _ _ _ _ W Pc H) as (st & W1 & G & _ & W2 & _ & L).
  destruct (plain_rel_join c (snd a) Pc Hp) as (Ej & Pj & _).
  rewrite Ej in *.
  rewrite (is_file_plain fs {| root := root c; tail := tail c ++ tail (snd a) |} W Pj) in Hf.
  rewrite (is_file_plain fs' {| root := root c; tail := tail c ++ tail (snd a) |} W2 Pj).
  cbn [tail] in *. apply is_file_at_iff in Hf as (b & Hb). apply is_file_at_iff.
  apply (L (tail (snd a))). split.
  - specialize (G (tail c ++ tail (snd a))). now rewrite Hb in G.
  - now apply kept_listed.
Qed.

End WithEnv2.


(** ** The tests [plain_b] and [wf_b] *)

Lemma plain_b_sound (k : key) : plain_b k = true -> plain k.
Proof.
  unfold plain_b, plain. rewrite forallb_forall, Forall_forall.
  intros H x Hx. specialize (H x Hx). apply andb_prop in H as [H1 H2].
  apply negb_true_iff in H1, H2. apply String.eqb_neq in H1, H2. now split.
Qed.

Lemma nodup_b_sound (l : list key) : nodup_b l = true -> NoDup l.
Proof.
  induction l as [|k l IH]; cbn [nodup_b]; [constructor|].
  intros H. apply andb_prop in H as [H1 H2]. constructor; [|now apply IH].
  intros Hin. apply negb_true_iff in H1.
  assert (E : existsb (list_eqb k) l = true)
    by (apply existsb_exists; exists k; split; [assumption|apply list_eqb_refl]).
  congruence.
Qed.

Lemma wf_b_sound (fs : t) : wf_b fs = true -> wf fs.
Proof.
  unfold wf_b. intros H. apply andb_prop in H as [H1 H2]. split.
  - now apply nodup_b_sound.
  - intros k n Hin. rewrite forallb_forall in H2. specialize (H2 _ Hin).
    cbn [fst] in H2. destruct k as [|x k]; [discriminate|].
    apply andb_prop in H2 as [H2 H3]. split; [discriminate|].
    split; [now apply plain_b_sound|].
    destruct (lookup fs (removelast (x :: k))) as [[|b]|]; try discriminate. reflexivity.
Qed.

(** ** A second call on a cache that holds the list in full *)

Lemma plain_removelast (k : key) : plain k -> plain (removelast k).
Proof.
  induction 1 as [|x l Hx Hl IH]; [constructor|].
  destruct l as [|y l]; [constructor|]. cbn [removelast]. constructor; assumption.
Qed.

Lemma kind_file (o : option node) : kind o = Some true <-> exists b, o = Some (File b).
Proof.
  destruct o as [[|b]|]; simpl; split; try discriminate; eauto;
    intros (b' & H); discriminate.
Qed.

Lemma kind_dir (o : option node) : kind o = Some false <-> o = Some Dir.
Proof. destruct o as [[|b]|]; simpl; split; congruence. Qed.

Lemma alike_refl (ck : key) (fs : t) : wf fs -> alike ck fs fs.
Proof. intros W. split; [assumption|]. split; reflexivity. Qed.

(** Writing over a file of the cache keeps the trees alike. *)
Lemma alike_write (ck td : key) (s s1 : t) (p : Path) (b bytes : string) :
  alike ck s s1 -> tail p = ck ++ td -> lookup s (tail p) = Some (File b) ->
  exists s', write_file s p bytes = Ok s' /\ alike ck s' s1.
Proof.
  intros (W & Kd & Out) Et L.
  assert (Hne : tail p <> []) by (intros E; rewrite E in L; discriminate).
  exists (ODict.set list_eqb (tail p) (File bytes) s). split.
  - unfold write_file, locate. rewrite (walk_wf _ _ _ W L). cbn [bind]. now rewrite L.
  - split; [eapply wf_set_file; eassumption|]. split.
    + intros q. rewrite lookup_set by assumption.
      destruct (list_eqb (tail p) q) eqn:E; [|apply Kd].
      apply list_eqb_eq in E. subst q. rewrite <- Kd, L. reflexivity.
    + intros q Hq. rewrite lookup_set by assumption.
      destruct (list_eqb (tail p) q) eqn:E; [|now apply Out].
      apply list_eqb_eq in E. subst q. rewrite Et, below_app in Hq. discriminate.
Qed.

Section WithEnv3.
Variable unzip : string -> result (list ZipInfo).
Variable TEXTURE_EXTS : list string.

Lemma open_pk3_file (fs : t) (p : Path) (zf : list ZipInfo) :
  plain (tail p) -> open_pk3 unzip fs p = Ok zf ->
  exists bytes, lookup fs (tail p) = Some (File bytes) /\ unzip bytes = Ok zf.
Proof.
  intros Pp. unfold open_pk3.
  destruct (exists_ fs p); [|discriminate]. cbn [negb].
  unfold read_file. destruct (stat fs p) as [[|bytes]|] eqn:S; try discriminate.
  cbn [bind]. destruct (unzip bytes) as [z|e] eqn:U; [|now destruct e].
  intros H. injection H as <-. exists bytes. split; [|assumption].
  now apply stat_plain_inv.
Qed.

Lemma open_pk3_found (fs : t) (p : Path) (bytes : string) (zf : list ZipInfo) :
  wf fs -> lookup fs (tail p) = Some (File bytes) -> unzip bytes = Ok zf ->
  open_pk3 unzip fs p = Ok zf.
Proof.
  intros W L U. unfold open_pk3, exists_, read_file.
  rewrite (stat_found _ _ _ W L). cbn [negb bind]. now rewrite U.
Qed.

(** The copy of an available source onto a file of the cache succeeds. *)
Lemma copy_asset_again (ck td : key) (s s1 : t) (base_dir c : Path) (src : FileSource)
    (dp : Path) (b : string) :
  alike ck s s1 -> wf s1 -> ck = tail c ->
  tail dp = ck ++ td -> plain (tail dp) -> lookup s (tail dp) = Some (File b) ->
  source_available unzip s1 c base_dir src ->
  exists s', copy_asset unzip s base_dir src dp = (s', Ok tt) /\ alike ck s' s1.
Proof.
  intros A W1 Eck Et Pd L Av. pose proof A as (W & Kd & Out).
  unfold source_available in Av. unfold copy_asset.
  destruct (String.eqb (fs_origin src) "disk").
  - cbv zeta in Av. destruct Av as (Pp & Bp & Fp). rewrite <- Eck in Bp.
    set (p := joinpath base_dir (fs_rel_path src)) in *.
    rewrite (is_file_plain _ _ W1 Pp) in Fp. apply is_file_at_iff in Fp as (bs & Ls1).
    assert (Ls : lookup s (tail p) = Some (File bs)) by (now rewrite (Out _ Bp)).
    unfold copy2.
    assert (Nd : is_dir s dp = false).
    { destruct (is_dir s dp) eqn:E; [|reflexivity].
      apply (is_dir_iff _ _ W Pd) in E. congruence. }
    rewrite Nd. rewrite (stat_found _ _ _ W Ls), (stat_found _ _ _ W L).
    unfold locate. rewrite (walk_wf _ _ _ W Ls), (walk_wf _ _ _ W L).
    assert (Ne : list_eqb (tail p) (tail dp) = false).
    { apply list_eqb_neq. intros E. rewrite E, Et, below_app in Bp. discriminate. }
    rewrite Ne. unfold read_file. rewrite (stat_found _ _ _ W Ls). cbn [bind].
    destruct (alike_write ck td s s1 dp b bs A Et L) as (s' & Wr & A').
    rewrite Wr. eauto.
  - destruct Av as (c' & zf & info & data & Ec & Pc' & Bc & Op & Gi & Bd).
    rewrite <- Eck in Bc. rewrite Ec.
    destruct (open_pk3_file _ _ _ Pc' Op) as (bytes & Lc1 & U).
    assert (Lc : lookup s (tail c') = Some (File bytes)) by (now rewrite (Out _ Bc)).
    rewrite (open_pk3_found _ _ _ _ W Lc U), Gi.
    unfold copy_member. rewrite Bd.
    destruct (alike_write ck td s s1 dp b data A Et L) as (s' & Wr & A').
    rewrite Wr. eauto.
Qed.

Lemma extract_asset_again (s1 : t) (base_dir c : Path) (st : Extraction) (a : asset) :
  alike (tail c) (x_fs st) s1 -> wf s1 -> plain (tail c) ->
  plain_rel (snd a) -> is_file s1 (joinpath c (snd a)) = true ->
  source_available unzip s1 c base_dir (fst a) ->
  exists st',
    extract_asset unzip TEXTURE_EXTS base_dir c st a = Ok st'
    /\ alike (tail c) (x_fs st') s1 /\ failed st' = failed st.
Proof.
  intros A W1 Pc Hp Hf Av. pose proof A as (W & Kd & Out).
  destruct a as [src dest]. cbn [fst snd] in *.
  destruct (plain_rel_join c dest Pc Hp) as (Ej & Pj & _).
  unfold extract_asset. rewrite Ej in *.
  set (dp := {| root := root c; tail := tail c ++ tail dest |}) in *.
  rewrite (is_file_plain s1 dp W1 Pj) in Hf. apply is_file_at_iff in Hf as (b1 & L1).
  assert (L : exists b, lookup (x_fs st) (tail dp) = Some (File b)).
  { apply kind_file. rewrite Kd. unfold dp in *. cbn [tail] in *. rewrite L1. reflexivity. }
  destruct L as (b & L).
  assert (Dp : is_dir (x_fs st) (parent dp) = true).
  { apply is_dir_iff; [assumption|apply plain_removelast; exact Pj|].
    cbn [parent tail]. exact (proj2 (wf_lookup _ _ _ W L)). }
  rewrite (mkdir_existing _ _ Dp). cbn [bind].
  destruct (copy_asset_again (tail c) (tail dest) (x_fs st) s1 base_dir c src dp b
              A W1 eq_refl eq_refl Pj L Av) as (s' & Cp & A').
  rewrite Cp. eexists. split; [reflexivity|]. cbn [x_fs failed]. now split.
Qed.

Lemma extract_loop_again (s1 : t) (base_dir c : Path) (assets : list asset)
    (st : Extraction) :
  alike (tail c) (x_fs st) s1 -> wf s1 -> plain (tail c) ->
  fully_resolved unzip s1 c base_dir assets ->
  exists st',
    extract_loop unzip TEXTURE_EXTS base_dir c st assets = Ok st'
    /\ alike (tail c) (x_fs st') s1 /\ failed st' = failed st.
Proof.
  revert st. induction assets as [|a assets IH]; intros st A W1 Pc Hall;
    cbn [extract_loop].
  - exists st. split; [reflexivity|]. split; [assumption|reflexivity].
  - destruct (Hall a (or_introl eq_refl)) as (Hp & Hf & Av).
    destruct (extract_asset_again s1 base_dir c st a A W1 Pc Hp Hf Av)
      as (st1 & E1 & A1 & F1).
    rewrite E1. cbn [bind].
    destruct (IH st1 A1 W1 Pc (fun x Hx => Hall x (or_intror Hx))) as (st2 & E2 & A2 & F2).
    exists st2. split; [assumption|]. split; [assumption|congruence].
Qed.

(** The second call: no failure, and the same files in the cache. *)
Lemma extract_assets_again (s1 : t) (base_dir c : Path) (assets : list asset) :
  wf s1 -> plain (tail c) -> lookup s1 (tail c) = Some Dir ->
  (forall rel, cache_file s1 c rel -> kept (keep_of assets) rel = true) ->
  fully_resolved unzip s1 c base_dir assets ->
  exists fs2 tm2,
    extract_assets unzip TEXTURE_EXTS s1 base_dir c assets = Ok (fs2, tm2, [])
    /\ forall rel, cache_file fs2 c rel <-> cache_file s1 c rel.
Proof.
  intros W1 Pc Lc Kp Hall. unfold extract_assets.
  rewrite (mkdir_existing s1 c (proj2 (is_dir_iff _ _ W1 Pc) Lc)). cbn [bind].
  destruct (extract_loop_again s1 base_dir c assets (mkExtraction s1 [] [] [])
              (alike_refl _ _ W1) W1 Pc Hall) as (st & E & A & F).
  rewrite E. cbn [bind]. cbn [failed] in F. pose proof A as (W & Kd & Out).
  destruct (extract_loop_spec unzip TEXTURE_EXTS base_dir c assets
              (mkExtraction s1 [] [] []) st W1 E)
    as (_ & _ & K).
  cbn [keep] in K. fold (keep_of assets) in K.
  assert (Lc2 : lookup (x_fs st) (tail c) = Some Dir).
  { apply kind_dir. rewrite Kd, Lc. reflexivity. }
  destruct (cleanup_cache_spec (x_fs st) c (keep st) W Lc2) as (fs2 & C & W2 & _ & L2).
  rewrite C. cbn [bind]. exists fs2, (texture_map st). rewrite F.
  split; [reflexivity|].
  intros rel. unfold cache_file. split.
  - intros (b & Hb). apply L2 in Hb as [Hb _].
    apply kind_file. rewrite <- Kd, Hb. reflexivity.
  - intros (b1 & Hb1).
    assert (Hb : exists b, lookup (x_fs st) (tail c ++ rel) = Some (File b)).
    { apply kind_file. rewrite Kd, Hb1. reflexivity. }
    destruct Hb as (b & Hb). exists b. apply L2. split; [assumption|].
    rewrite doomed_at, K, (Kp rel); [apply andb_false_r|].
    now exists b1.
Qed.

End WithEnv3.

End CacheFacts.

(* ================================================================== *)
(** * The index does not depend on the order of directory listings *)
(* ================================================================== *)

Module OrderFacts.
Import Pathlib.

(** ** The order of paths *)

Lemma ltb_lt (a b : string) : String.ltb a b = true <-> String_as_OT.lt a b.
Proof.
  unfold String.ltb. rewrite <- String_as_OT.cmp_lt. unfold String_as_OT.cmp.
  destruct (String.compare a b); split; congruence.
Qed.

Lemma str_ltb_irrefl (a : string) : String.ltb a a = false.
Proof.
  destruct (String.ltb a a) eqn:E; [|reflexivity].
  apply ltb_lt in E. exfalso. now apply (String_as_OT.lt_not_eq _ _ E).
Qed.

Lemma str_ltb_trans (a b c : string) :
  String.ltb a b = true -> String.ltb b c = true -> String.ltb a c = true.
Proof. rewrite !ltb_lt. apply String_as_OT.lt_trans. Qed.

Lemma str_ltb_tri (a b : string) :
  String.ltb a b = false -> String.ltb b a = false -> a = b.
Proof.
  unfold String.ltb. rewrite (String.compare_antisym b a).
  destruct (String.compare a b) eqn:E; simpl; try discriminate.
  intros _ _. now apply String.compare_eq_iff.
Qed.

Lemma parts_ltb_irrefl (l : list string) : parts_ltb l l = false.
Proof.
  induction l as [|a l IH]; [reflexivity|].
  cbn [parts_ltb]. now rewrite String.eqb_refl.
Qed.

Lemma parts_ltb_trans (a b c : list string) :
  parts_ltb a b = true -> parts_ltb b c = true -> parts_ltb a c = true.
Proof.
  revert b c. induction a as [|x a IH]; intros [|y b] [|z c]; cbn [parts_ltb];
    try discriminate; try reflexivity.
  destruct (String.eqb_spec x y) as [->|Nxy].
  - destruct (String.eqb_spec y z) as [->|Nyz]; [apply IH|tauto].
  - destruct (String.eqb_spec y z) as [->|Nyz].
    + destruct (String.eqb_spec x z) as [->|_]; [contradiction|tauto].
    + intros H1 H2. pose proof (str_ltb_trans _ _ _ H1 H2) as H3.
      destruct (String.eqb_spec x z) as [->|_]; [|exact H3].
      rewrite str_ltb_irrefl in H3. discriminate.
Qed.

Lemma parts_ltb_tri (a b : list string) :
  parts_ltb a b = false -> parts_ltb b a = false -> a = b.
Proof.
  revert b. induction a as [|x a IH]; intros [|y b]; cbn [parts_ltb];
    try discriminate; try reflexivity.
  rewrite (String.eqb_sym y x).
  destruct (String.eqb_spec x y) as [->|N].
  - intros H1 H2. f_equal. now apply IH.
  - intros H1 H2. exfalso. apply N. now apply str_ltb_tri.
Qed.

Lemma parts_ltb_asym (a b : list string) :
  parts_ltb a b = true -> parts_ltb b a = false.
Proof.
  intros H. destruct (parts_ltb b a) eqn:E; [|reflexivity].
  pose proof (parts_ltb_trans _ _ _ H E) as C. rewrite parts_ltb_irrefl in C. discriminate.
Qed.

Lemma path_leb_total (p q : Path) : path_leb p q = false -> path_leb q p = true.
Proof.
  unfold path_leb, ltb. intros H. apply negb_false_iff in H.
  apply negb_true_iff. now apply parts_ltb_asym.
Qed.

Lemma path_leb_trans (p q r : Path) :
  path_leb p q = true -> path_leb q r = true -> path_leb p r = true.
Proof.
  unfold path_leb, ltb. rewrite !negb_true_iff. intros H1 H2.
  destruct (parts_ltb (parts r) (parts p)) eqn:E; [|reflexivity].
  destruct (parts_ltb (parts q) (parts p)) eqn:E1; [discriminate|].
  destruct (parts_ltb (parts p) (parts q)) eqn:E2.
  - pose proof (parts_ltb_trans _ _ _ E E2). congruence.
  - rewrite (parts_ltb_tri _ _ E2 E1) in E. congruence.
Qed.

Lemma path_leb_antisym (p q : Path) :
  root p = root q -> path_leb p q = true -> path_leb q p = true -> p = q.
Proof.
  unfold path_leb, ltb. rewrite !negb_true_iff. intros R H1 H2.
  pose proof (parts_ltb_tri _ _ H2 H1) as E. unfold parts in E. rewrite <- R in E.
  destruct p as [rp tp], q as [rq tq]. cbn [root tail] in *. subst rq.
  destruct (String.eqb rp ""); [now subst|]. now injection E as ->.
Qed.

(** ** Sorting a list listed in another order *)

Section SortUnique.
Variable A : Type.
Variable leb : A -> A -> bool.
Hypothesis leb_total : forall a b, leb a b = false -> leb b a = true.
Hypothesis leb_trans : forall a b c, leb a b = true -> leb b c = true -> leb a c = true.

Lemma insert_sorted_in (x y : A) (l : list A) :
  In y (insert_sorted leb (fun a => a) x l) <-> y = x \/ In y l.
Proof.
  induction l as [|z l IH]; cbn [insert_sorted]; [simpl; intuition|].
  destruct (leb x z); simpl; [intuition|]. rewrite IH. simpl. intuition.
Qed.

Lemma insert_sorted_sorted (x : A) (l : list A) :
  StronglySorted (leb_rel leb) l -> StronglySorted (leb_rel leb) (insert_sorted leb (fun a => a) x l).
Proof.
  induction 1 as [|z l S IH F]; cbn [insert_sorted].
  - constructor; constructor.
  - destruct (leb x z) eqn:E.
    + constructor; [constructor; assumption|]. constructor; [exact E|].
      rewrite Forall_forall in *. intros y Hy. exact (leb_trans _ _ _ E (F y Hy)).
    + constructor; [exact IH|]. rewrite Forall_forall in *. intros y Hy.
      apply insert_sorted_in in Hy as [->|Hy]; [now apply leb_total|now apply F].
Qed.

Lemma sorted_sorted (l : list A) : StronglySorted (leb_rel leb) (sorted leb (fun a => a) l).
Proof.
  induction l as [|x l IH]; cbn [sorted]; [constructor|now apply insert_sorted_sorted].
Qed.

Lemma sorted_unique (l1 l2 : list A) :
  StronglySorted (leb_rel leb) l1 -> StronglySorted (leb_rel leb) l2 -> Permutation l1 l2 ->
  (forall x y, In x l1 -> In y l1 -> leb x y = true -> leb y x = true -> x = y) ->
  l1 = l2.
Proof.
  intros S1. revert l2. induction S1 as [|x r1 S1 IH F1]; intros l2 S2 P Anti.
  - apply Permutation_nil in P. now subst.
  - destruct l2 as [|y r2]; [apply Permutation_sym, Permutation_nil in P; discriminate|].
    inversion S2 as [|? ? S2' F2]; subst.
    rewrite Forall_forall in F1, F2.
    assert (E : x = y).
    { assert (Hx : In x (y :: r2)) by (eapply Permutation_in; [exact P|now left]).
      assert (Hy : In y (x :: r1))
        by (eapply Permutation_in; [apply Permutation_sym; exact P|now left]).
      destruct Hx as [Hx|Hx]; [now subst|]. destruct Hy as [Hy|Hy]; [now subst|].
      apply Anti; [now left|now right|now apply F1|now apply F2]. }
    subst y. f_equal. apply IH; [assumption|eapply Permutation_cons_inv; exact P|].
    intros a b Ha Hb. apply Anti; now right.
Qed.

Lemma sorted_of_permutation (l1 l2 : list A) :
  Permutation l1 l2 ->
  (forall x y, In x l1 -> In y l1 -> leb x y = true -> leb y x = true -> x = y) ->
  sorted leb (fun a => a) l1 = sorted leb (fun a => a) l2.
Proof.
  intros P Anti. apply sorted_unique; try apply sorted_sorted.
  - eapply Permutation_trans; [apply Permutation_sym, sorted_perm|].
    eapply Permutation_trans; [exact P|apply sorted_perm].
  - intros x y Hx Hy. apply Anti.
    + eapply Permutation_in; [apply Permutation_sym, sorted_perm|exact Hx].
    + eapply Permutation_in; [apply Permutation_sym, sorted_perm|exact Hy].
Qed.

End SortUnique.

End OrderFacts.

Module ListingFacts.
Import Pathlib FS Notions ODictFacts FSFacts OrderFacts.

(** ** Two listings of the same tree *)

Lemma Path_eqb_eq (p q : Path) : Pathlib.eqb p q = true <-> p = q.
Proof.
  unfold Pathlib.eqb. rewrite andb_true_iff, String.eqb_eq, list_eqb_eq.
  destruct p, q; cbn [root tail]. split; [intros [-> ->]; reflexivity|].
  intros E. now injection E.
Qed.

Lemma filter_permutation (A : Type) (f : A -> bool) (l l' : list A) :
  Permutation l l' -> Permutation (filter f l) (filter f l').
Proof.
  induction 1 as [|x l l' P IH|x y l|l l' l'' P1 IH1 P2 IH2]; cbn [filter].
  - constructor.
  - destruct (f x); [now constructor|assumption].
  - destruct (f x), (f y); try apply Permutation_refl. apply perm_swap.
  - eapply Permutation_trans; eassumption.
Qed.

Lemma flat_map_permutation (A B : Type) (f : A -> list B) (l l' : list A) :
  Permutation l l' -> Permutation (flat_map f l) (flat_map f l').
Proof.
  induction 1 as [|x l l' P IH|x y l|l l' l'' P1 IH1 P2 IH2]; cbn [flat_map].
  - constructor.
  - now apply Permutation_app_head.
  - rewrite !app_assoc. apply Permutation_app_tail. apply Permutation_app_comm.
  - eapply Permutation_trans; eassumption.
Qed.

Section Listings.
Variables fs1 fs2 : t.
Hypothesis keys_nodup : NoDup (keys fs1).
Hypothesis same_tree : Permutation fs1 fs2.

Lemma keys_nodup' : NoDup (keys fs2).
Proof.
  unfold keys in *. eapply Permutation_NoDup; [|exact keys_nodup].
  now apply Permutation_map.
Qed.

Lemma lookup_listing (k : key) : lookup fs2 k = lookup fs1 k.
Proof.
  destruct k as [|a k]; [reflexivity|]. unfold lookup.
  destruct (ODict.get list_eqb (a :: k) fs1) as [n|] eqn:E1.
  - apply (gen_get_in _ _ list_eqb list_eqb_eq) in E1.
    apply (gen_in_get _ _ list_eqb list_eqb_eq); [apply keys_nodup'|].
    eapply Permutation_in; eassumption.
  - destruct (ODict.get list_eqb (a :: k) fs2) as [n|] eqn:E2; [|reflexivity].
    apply (gen_get_in _ _ list_eqb list_eqb_eq) in E2.
    assert (E : ODict.get list_eqb (a :: k) fs1 = Some n).
    { apply (gen_in_get _ _ list_eqb list_eqb_eq); [apply keys_nodup|].
      eapply Permutation_in; [apply Permutation_sym; eassumption|assumption]. }
    congruence.
Qed.

Lemma walk_listing (segs : list string) (cur : key) :
  walk fs2 cur segs = walk fs1 cur segs.
Proof.
  revert cur. induction segs as [|s segs IH]; intros cur; cbn [walk]; [reflexivity|].
  rewrite lookup_listing. destruct (lookup fs1 cur) as [[|b]|]; [apply IH|reflexivity..].
Qed.

Lemma locate_listing (p : Path) : locate fs2 p = locate fs1 p.
Proof. apply walk_listing. Qed.

Lemma stat_listing (p : Path) : stat fs2 p = stat fs1 p.
Proof.
  unfold stat. rewrite locate_listing. destruct (locate fs1 p) as [k|e]; [|reflexivity].
  cbn [bind]. now rewrite lookup_listing.
Qed.

Lemma is_dir_listing (p : Path) : is_dir fs2 p = is_dir fs1 p.
Proof. unfold is_dir. now rewrite stat_listing. Qed.

Lemma is_file_listing (p : Path) : is_file fs2 p = is_file fs1 p.
Proof. unfold is_file. now rewrite stat_listing. Qed.

Lemma exists_listing (p : Path) : exists_ fs2 p = exists_ fs1 p.
Proof. unfold exists_. now rewrite stat_listing. Qed.

Lemma read_file_listing (p : Path) : read_file fs2 p = read_file fs1 p.
Proof. unfold read_file. now rewrite stat_listing. Qed.

Lemma open_pk3_listing (unzip : string -> result (list ZipInfo)) (p : Path) :
  open_pk3 unzip fs2 p = open_pk3 unzip fs1 p.
Proof. unfold open_pk3. now rewrite exists_listing, read_file_listing. Qed.

Lemma children_listing (k : key) : Permutation (children fs1 k) (children fs2 k).
Proof. unfold children. now apply flat_map_permutation. Qed.

Lemma descendants_listing (k : key) : Permutation (descendants fs1 k) (descendants fs2 k).
Proof. unfold descendants. now apply flat_map_permutation. Qed.

Lemma glob_suffix_listing (p : Path) (ext : string) :
  Permutation (glob_suffix fs1 p ext) (glob_suffix fs2 p ext).
Proof.
  unfold glob_suffix. rewrite locate_listing, is_dir_listing.
  destruct (locate fs1 p) as [k|e]; [|constructor].
  destruct (is_dir fs1 p); [|constructor].
  apply Permutation_map, filter_permutation, children_listing.
Qed.

Lemma rglob_listing (p : Path) : Permutation (rglob fs1 p) (rglob fs2 p).
Proof.
  unfold rglob, rglob_rel. rewrite locate_listing, is_dir_listing.
  destruct (locate fs1 p) as [k|e]; [|constructor].
  destruct (is_dir fs1 p); [|constructor].
  apply Permutation_map, descendants_listing.
Qed.

Lemma rglob_suffix_listing (p : Path) (ext : string) :
  Permutation (rglob_suffix fs1 p ext) (rglob_suffix fs2 p ext).
Proof. unfold rglob_suffix. apply filter_permutation, rglob_listing. Qed.

Lemma iterdir_listing (p : Path) (l1 : list Path) :
  iterdir fs1 p = Ok l1 -> exists l2, iterdir fs2 p = Ok l2 /\ Permutation l1 l2.
Proof.
  unfold iterdir. rewrite locate_listing.
  destruct (locate fs1 p) as [k|e]; [|discriminate]. cbn [bind].
  rewrite lookup_listing. destruct (lookup fs1 k) as [[|b]|]; try discriminate.
  intros H. injection H as <-. eexists. split; [reflexivity|].
  apply Permutation_map, children_listing.
Qed.

Lemma is_texture_file_listing (TEXTURE_EXTS : list string) (p : Path) :
  is_texture_file TEXTURE_EXTS fs2 p = is_texture_file TEXTURE_EXTS fs1 p.
Proof. unfold is_texture_file. now rewrite is_file_listing. Qed.

Lemma no_model_listing (d : Path) : no_model fs2 d = no_model fs1 d.
Proof.
  unfold no_model. rewrite is_dir_listing. f_equal.
  pose proof (glob_suffix_listing d ".glm") as P.
  destruct (glob_suffix fs1 d ".glm") as [|a l], (glob_suffix fs2 d ".glm") as [|b l'];
    try reflexivity.
  - apply Permutation_nil in P. discriminate.
  - apply Permutation_sym, Permutation_nil in P. discriminate.
Qed.

Lemma disk_skin_listing (base_dir d x : Path) :
  disk_skin fs1 base_dir d x <-> disk_skin fs2 base_dir d x.
Proof.
  unfold disk_skin. pose proof (glob_suffix_listing d ".skin") as P.
  split; intros (p & Hp & E); exists p; (split; [|assumption]).
  - eapply Permutation_in; eassumption.
  - eapply Permutation_in; [apply Permutation_sym|]; eassumption.
Qed.

(** The archives are scanned in the same order. *)
Lemma archives_listing (base_dir : Path) :
  sorted path_leb (fun p => p) (rglob_suffix fs2 base_dir ".pk3")
  = sorted path_leb (fun p => p) (rglob_suffix fs1 base_dir ".pk3").
Proof.
  symmetry. apply (sorted_of_permutation _ path_leb path_leb_total path_leb_trans).
  - apply rglob_suffix_listing.
  - intros x y Hx Hy. apply path_leb_antisym.
    unfold rglob_suffix, rglob in Hx, Hy.
    apply filter_In in Hx as [Hx _]. apply filter_In in Hy as [Hy _].
    apply in_map_iff in Hx as (rx & <- & _). apply in_map_iff in Hy as (ry & <- & _).
    reflexivity.
Qed.

End Listings.

(** ** Dictionaries keyed by paths, and the entries of the scan *)

Section Dict.
Variables K V W : Type.
Variable eqb : K -> K -> bool.
Hypothesis eqb_eq : forall a b, eqb a b = true <-> a = b.

Lemma set_nodup (k : K) (v : V) (d : ODict.t K V) :
  NoDup (map fst d) -> NoDup (map fst (ODict.set eqb k v d)).
Proof.
  intros N. destruct (ODict.get eqb k d) as [v0|] eqn:G.
  - now rewrite (gen_set_keys_present _ _ eqb k v v0 d G).
  - rewrite (gen_set_absent _ _ eqb k v d G), map_app. cbn [map fst].
    apply (gen_get_none _ _ eqb eqb_eq) in G.
    eapply Permutation_NoDup; [apply Permutation_cons_append|].
    now constructor.
Qed.

Lemma map_set (f : V -> W) (k : K) (v : V) (d : ODict.t K V) :
  map (fun kv => (fst kv, f (snd kv))) (ODict.set eqb k v d)
  = ODict.set eqb k (f v) (map (fun kv => (fst kv, f (snd kv))) d).
Proof.
  induction d as [|[k' v'] d IH]; cbn [ODict.set map fst snd]; [reflexivity|].
  destruct (eqb k' k); cbn [map fst snd]; [reflexivity|now rewrite IH].
Qed.

Lemma get_map (f : V -> W) (k : K) (d : ODict.t K V) :
  ODict.get eqb k (map (fun kv => (fst kv, f (snd kv))) d)
  = option_map f (ODict.get eqb k d).
Proof.
  induction d as [|[k' v'] d IH]; cbn [ODict.get map fst snd]; [reflexivity|].
  destruct (eqb k' k); [reflexivity|exact IH].
Qed.

Lemma set_same (k : K) (v : V) (d : ODict.t K V) :
  ODict.get eqb k d = Some v -> ODict.set eqb k v d = d.
Proof.
  induction d as [|[k' v'] d IH]; cbn [ODict.get ODict.set]; [discriminate|].
  destruct (eqb k' k); [now intros [= ->]|]. intros H. now rewrite IH.
Qed.

End Dict.

Lemma get_source_skins (d : Path) (fresh : ModelSource) (E : TmpEntry) (x : Path) :
  skins fresh = [] -> In x (skins (get_source d fresh E)) -> entry_skinset E x.
Proof.
  intros F. unfold get_source.
  destruct (ODict.get Pathlib.eqb d (tmp_sources E)) as [s|] eqn:G.
  - intros H. exists (d, s). split; [|exact H].
    now apply (gen_get_in _ _ Pathlib.eqb Path_eqb_eq).
  - rewrite F. intros [].
Qed.

Lemma skinset_set (l : ODict.t Path ModelSource) (d : Path) (s' : ModelSource) (x : Path) :
  (forall s, ODict.get Pathlib.eqb d l = Some s -> In x (skins s) -> In x (skins s')) ->
  (exists kv, In kv (ODict.set Pathlib.eqb d s' l) /\ In x (skins (snd kv)))
  <-> (exists kv, In kv l /\ In x (skins (snd kv))) \/ In x (skins s').
Proof.
  induction l as [|[k v] l IH]; cbn [ODict.set ODict.get]; intros Sub.
  - split.
    + intros (kv & [<-|[]] & H). now right.
    + intros [(kv & [] & _)|H]. exists (d, s'). split; [now left|exact H].
  - destruct (Pathlib.eqb k d) eqn:E.
    + split.
      * intros (kv & [<-|Hin] & H); [now right|]. left. exists kv. split; [now right|exact H].
      * intros [(kv & [<-|Hin] & H)|H].
        -- exists (k, s'). split; [now left|]. cbn [snd] in *. now apply (Sub v).
        -- exists kv. split; [now right|exact H].
        -- exists (k, s'). split; [now left|exact H].
    + specialize (IH Sub). split.
      * intros (kv & [<-|Hin] & H).
        -- left. exists (k, v). split; [now left|exact H].
        -- destruct (proj1 IH (ex_intro _ kv (conj Hin H))) as [(kv' & Hin' & H')|H'].
           ++ left. exists kv'. split; [now right|exact H'].
           ++ now right.
      * intros [(kv & [<-|Hin] & H)|H].
        -- exists (k, v). split; [now left|exact H].
        -- destruct (proj2 IH (or_introl (ex_intro _ kv (conj Hin H)))) as (kv' & Hin' & H').
           exists kv'. split; [now right|exact H'].
        -- destruct (proj2 IH (or_intror H)) as (kv' & Hin' & H').
           exists kv'. split; [now right|exact H'].
Qed.

Lemma put_entry (n : string) (d : Path) (s' : ModelSource) (news : list Path) (st : Scan) :
  get_entry n (models_tmp (put_source n d s' news st))
  = {| tmp_sources :=
         ODict.set Pathlib.eqb d s' (tmp_sources (get_entry n (models_tmp st)));
       tmp_skins :=
         fold_left (fun acc s => pathset_add s acc) news
           (tmp_skins (get_entry n (models_tmp st))) |}.
Proof.
  unfold put_source. cbn [models_tmp]. unfold get_entry at 1.
  now rewrite get_set_same.
Qed.

Lemma put_entry_other (n m : string) (d : Path) (s' : ModelSource) (news : list Path)
    (st : Scan) :
  m <> n ->
  get_entry m (models_tmp (put_source n d s' news st)) = get_entry m (models_tmp st).
Proof.
  intros N. unfold put_source. cbn [models_tmp]. unfold get_entry.
  rewrite get_set_other by congruence. reflexivity.
Qed.

Lemma put_nodup (n : string) (d : Path) (s' : ModelSource) (news : list Path) (st : Scan) :
  NoDup (map fst (models_tmp st)) ->
  NoDup (map fst (models_tmp (put_source n d s' news st))).
Proof.
  intros N. unfold put_source. cbn [models_tmp].
  apply (set_nodup _ _ String.eqb String.eqb_eq). exact N.
Qed.

Lemma hdr_get_source (d : Path) (E : TmpEntry) :
  hdr (get_source d disk_source E) = hdr_at d (entry_hdr E).
Proof.
  unfold get_source, hdr_at, entry_hdr. rewrite get_map.
  destruct (ODict.get Pathlib.eqb d (tmp_sources E)); reflexivity.
Qed.

(** What one update of the source of the directory [d] does to the entry. *)
Lemma disk_put (n : string) (d : Path) (s' : ModelSource) (news : list Path) (st : Scan) :
  (forall x, In x (skins (get_source d disk_source (get_entry n (models_tmp st)))) ->
             In x (skins s')) ->
  entry_hdr (get_entry n (models_tmp (put_source n d s' news st)))
  = ODict.set Pathlib.eqb d (hdr s') (entry_hdr (get_entry n (models_tmp st)))
  /\ forall x,
       entry_skinset (get_entry n (models_tmp (put_source n d s' news st))) x
       <-> entry_skinset (get_entry n (models_tmp st)) x \/ In x (skins s').
Proof.
  intros Sub. rewrite put_entry. split.
  - unfold entry_hdr. cbn [tmp_sources]. apply map_set.
  - intros x. unfold entry_skinset. cbn [tmp_sources]. apply skinset_set.
    intros s G. specialize (Sub x). unfold get_source in Sub. rewrite G in Sub. exact Sub.
Qed.

Lemma hdr_set_at (d : Path) (h : header) (H : ODict.t Path header) :
  ODict.get Pathlib.eqb d H = Some h -> ODict.set Pathlib.eqb d (hdr_at d H) H = H.
Proof.
  intros G. unfold hdr_at. rewrite G. now apply set_same.
Qed.

(** ** The loops over the files of one model directory *)

Section ModelDir.
Variable base_dir : Path.
Variable n : string.
Variable d : Path.

Lemma add_disk_skin_quiet : quiet_step n d (add_disk_skin n d) (fun rel x => x = rel).
Proof.
  intros rel st. unfold add_disk_skin. cbv zeta. fold disk_source.
  set (s0 := get_source d disk_source (get_entry n (models_tmp st))).
  destruct (disk_put n d (with_skin s0 rel) [rel] st) as (Hh & Hs).
  { intros x Hx. cbn [with_skin skins]. unfold pathset_add. now apply set_add_intro1. }
  split; [|split; [|split]].
  - intros h G. rewrite Hh.
    change (hdr (with_skin s0 rel)) with (hdr s0). unfold s0. rewrite hdr_get_source.
    now apply (hdr_set_at d h).
  - intros x. rewrite Hs. cbn [with_skin skins]. unfold pathset_add.
    rewrite set_add_iff. split.
    + intros [H|[H|H]]; [now left|now right|left].
      now apply (get_source_skins d disk_source).
    + intros [H|H]; [now left|right; now left].
  - intros m N. now apply put_entry_other.
  - apply put_nodup.
Qed.

Lemma add_disk_gla_quiet : quiet_step n d (add_disk_gla n d) (fun rel x => False).
Proof.
  intros rel st. unfold add_disk_gla. cbv zeta. fold disk_source.
  set (s0 := get_source d disk_source (get_entry n (models_tmp st))).
  change (models_tmp (add_gla rel "disk" None (put_source n d (with_gla s0 rel) [] st)))
    with (models_tmp (put_source n d (with_gla s0 rel) [] st)).
  destruct (disk_put n d (with_gla s0 rel) [] st) as (Hh & Hs).
  { intros x Hx. exact Hx. }
  split; [|split; [|split]].
  - intros h G. rewrite Hh.
    change (hdr (with_gla s0 rel)) with (hdr s0). unfold s0. rewrite hdr_get_source.
    now apply (hdr_set_at d h).
  - intros x. rewrite Hs. cbn [with_gla skins]. split.
    + intros [H|H]; left; [exact H|]. now apply (get_source_skins d disk_source).
    + intros [H|[]]. now left.
  - intros m N. now apply put_entry_other.
  - apply put_nodup.
Qed.

Lemma add_texture_quiet :
  quiet_step n d (fun rel => add_texture rel "disk" None) (fun rel x => False).
Proof.
  intros rel st. cbn [add_texture models_tmp].
  split; [reflexivity|]. split; [tauto|]. split; [reflexivity|tauto].
Qed.

Lemma for_each_rel_quiet (f : Path -> Scan -> Scan) (A : Path -> Path -> Prop)
    (paths : list Path) (st st' : Scan) (h : header) :
  quiet_step n d f A ->
  for_each_rel base_dir f paths st = Ok st' ->
  ODict.get Pathlib.eqb d (entry_hdr (get_entry n (models_tmp st))) = Some h ->
  entry_hdr (get_entry n (models_tmp st')) = entry_hdr (get_entry n (models_tmp st))
  /\ (forall x, entry_skinset (get_entry n (models_tmp st')) x
                <-> entry_skinset (get_entry n (models_tmp st)) x
                    \/ exists p rel, In p paths /\ relative_to p base_dir = Ok rel /\ A rel x)
  /\ (forall m, m <> n -> get_entry m (models_tmp st') = get_entry m (models_tmp st))
  /\ (NoDup (map fst (models_tmp st)) -> NoDup (map fst (models_tmp st'))).
Proof.
  intros Q. revert st. induction paths as [|p paths IH]; intros st; cbn [for_each_rel].
  - intros H _. injection H as <-. split; [reflexivity|]. split; [|split; [reflexivity|tauto]].
    intros x. split; [now left|]. intros [H|(p & rel & [] & _)]. exact H.
  - destruct (relative_to p base_dir) as [rel|e] eqn:R; [|discriminate]. cbn [bind].
    intros H G. destruct (Q rel st) as (Qh & Qs & Qf & Qn).
    specialize (Qh h G).
    assert (G1 : ODict.get Pathlib.eqb d (entry_hdr (get_entry n (models_tmp (f rel st)))) = Some h)
      by (now rewrite Qh).
    destruct (IH _ H G1) as (Ih & Is & If & In_).
    split; [congruence|]. split; [|split].
    + intros x. rewrite Is, Qs. split.
      * intros [[H1|H1]|(q & r & Hq & Hr & Ha)]; [now left| |].
        -- right. exists p, rel. split; [now left|]. now split.
        -- right. exists q, r. split; [now right|]. now split.
      * intros [H1|(q & r & [<-|Hq] & Hr & Ha)]; [now left; left| |].
        -- rewrite R in Hr. injection Hr as <-. left. now right.
        -- right. exists q, r. now repeat split.
    + intros m N. rewrite If by assumption. now apply Qf.
    + intros N. apply In_, Qn, N.
Qed.

End ModelDir.

(** ** One model directory *)

Lemma scan_model_dir_effect (TEXTURE_EXTS : list string) (fs : t) (base_dir : Path)
    (st st' : Scan) (d : Path) :
  scan_model_dir TEXTURE_EXTS fs base_dir st d = Ok st' ->
  disk_effect fs base_dir d (get_entry (name d) (models_tmp st))
    (get_entry (name d) (models_tmp st'))
  /\ (forall m, m <> name d -> get_entry m (models_tmp st') = get_entry m (models_tmp st))
  /\ (NoDup (map fst (models_tmp st)) -> NoDup (map fst (models_tmp st'))).
Proof.
  unfold scan_model_dir, disk_effect, no_model.
  destruct (is_dir fs d) eqn:D; cbn [negb orb].
  2:{ intros H. injection H as <-. split; [reflexivity|]. split; [reflexivity|tauto]. }
  destruct (glob_suffix fs d ".glm") as [|first others] eqn:Gl.
  { intros H. injection H as <-. split; [reflexivity|]. split; [reflexivity|tauto]. }
  cbv zeta. fold disk_source.
  set (s0 := get_source d disk_source (get_entry (name d) (models_tmp st))).
  destruct (relative_to (pick_glm first (first :: others)) base_dir) as [glm_rel|e];
    [|discriminate].
  cbn [bind].
  set (st1 := put_source (name d) d (with_glm s0 glm_rel) [] st).
  destruct (for_each_rel base_dir (add_disk_skin (name d) d) _ st1) as [st2|e2] eqn:L2;
    [|discriminate].
  cbn [bind].
  destruct (for_each_rel base_dir (add_disk_gla (name d) d) _ st2) as [st3|e3] eqn:L3;
    [|discriminate].
  cbn [bind]. intros L4.
  destruct (disk_put (name d) d (with_glm s0 glm_rel) [] st) as (Hh1 & Hs1).
  { intros x Hx. exact Hx. }
  fold st1 in Hh1, Hs1.
  change (hdr (with_glm s0 glm_rel)) with (hdr_mark (hdr s0)) in Hh1.
  unfold s0 in Hh1. rewrite hdr_get_source in Hh1.
  set (H0 := entry_hdr (get_entry (name d) (models_tmp st))) in *.
  set (h1 := hdr_mark (hdr_at d H0)) in *.
  assert (G1 : ODict.get Pathlib.eqb d (entry_hdr (get_entry (name d) (models_tmp st1)))
               = Some h1).
  { rewrite Hh1, (gen_get_set _ _ Pathlib.eqb Path_eqb_eq).
    now rewrite (proj2 (Path_eqb_eq d d) eq_refl). }
  destruct (for_each_rel_quiet base_dir (name d) d _ _ _ _ _ h1
              (add_disk_skin_quiet (name d) d) L2 G1) as (Hh2 & Hs2 & Hf2 & Hn2).
  assert (G2 : ODict.get Pathlib.eqb d (entry_hdr (get_entry (name d) (models_tmp st2)))
               = Some h1) by (now rewrite Hh2).
  destruct (for_each_rel_quiet base_dir (name d) d _ _ _ _ _ h1
              (add_disk_gla_quiet (name d) d) L3 G2) as (Hh3 & Hs3 & Hf3 & Hn3).
  assert (G3 : ODict.get Pathlib.eqb d (entry_hdr (get_entry (name d) (models_tmp st3)))
               = Some h1) by (now rewrite Hh3).
  destruct (for_each_rel_quiet base_dir (name d) d _ _ _ _ _ h1
              (add_texture_quiet (name d) d) L4 G3) as (Hh4 & Hs4 & Hf4 & Hn4).
  split; [split|split].
  - congruence.
  - intros x. rewrite Hs4, Hs3, Hs2, Hs1. unfold disk_skin. split.
    + intros [[[[H|H]|(p & rel & Hp & Hr & ->)]|(p & rel & _ & _ & [])]
             |(p & rel & _ & _ & [])].
      * now left.
      * left. now apply (get_source_skins d disk_source).
      * right. now exists p.
    + intros [H|(p & Hp & Hr)]; left; left; [left; now left|right].
      exists p, x. now repeat split.
  - intros m N. rewrite Hf4, Hf3, Hf2 by assumption. now apply put_entry_other.
  - intros N. apply Hn4, Hn3, Hn2. now apply put_nodup.
Qed.

Lemma for_each_rel_total (base_dir : Path) (f : Path -> Scan -> Scan)
    (paths : list Path) (st : Scan) :
  (forall p, In p paths -> exists rel, p = under base_dir rel) ->
  exists st', for_each_rel base_dir f paths st = Ok st'.
Proof.
  revert st. induction paths as [|p paths IH]; intros st Hall; cbn [for_each_rel]; [eauto|].
  destruct (Hall p (or_introl eq_refl)) as (rel & ->).
  rewrite CacheFacts.relative_to_under. cbn [bind].
  apply IH. intros q Hq. apply Hall. now right.
Qed.

Lemma under_under (p : Path) (a b : key) : under (under p a) b = under p (a ++ b).
Proof. unfold under. cbn [root tail]. now rewrite app_assoc. Qed.

Lemma glob_suffix_under (fs : t) (p : Path) (ext : string) (q : Path) :
  In q (glob_suffix fs p ext) -> exists x, q = under p [x].
Proof.
  unfold glob_suffix. destruct (locate fs p) as [k|e]; [|intros []].
  destruct (is_dir fs p); [|intros []].
  intros H. apply in_map_iff in H as (x & <- & _). now exists x.
Qed.

Lemma rglob_under (fs : t) (p q : Path) :
  In q (rglob fs p) -> exists r, q = under p r.
Proof.
  unfold rglob. intros H. apply in_map_iff in H as (r & <- & _). now exists r.
Qed.

Lemma scan_model_dir_total (TEXTURE_EXTS : list string) (fs : t) (base_dir : Path)
    (st : Scan) (d : Path) (rel : key) :
  d = under base_dir rel ->
  exists st', scan_model_dir TEXTURE_EXTS fs base_dir st d = Ok st'.
Proof.
  intros ->. unfold scan_model_dir.
  destruct (negb (is_dir fs (under base_dir rel))); [eauto|].
  destruct (glob_suffix fs (under base_dir rel) ".glm") as [|first others] eqn:Gl; [eauto|].
  cbv zeta.
  assert (Hg : exists r, pick_glm first (first :: others) = under base_dir r).
  { assert (Hin : In (pick_glm first (first :: others)) (first :: others)).
    { unfold pick_glm.
      destruct (find _ (first :: others)) as [p|] eqn:F; [|now left].
      now apply find_some in F as [F _]. }
    assert (Hin' : In (pick_glm first (first :: others))
                      (glob_suffix fs (under base_dir rel) ".glm"))
      by (rewrite Gl; exact Hin).
    apply glob_suffix_under in Hin' as (x & Hx). rewrite Hx, under_under. eauto. }
  destruct Hg as (r & ->). rewrite CacheFacts.relative_to_under. cbn [bind].
  match goal with |- context [for_each_rel ?b ?f ?l ?s] =>
    destruct (for_each_rel_total b f l s) as (st2 & ->) end.
  { intros p Hp. apply glob_suffix_under in Hp as (x & ->). rewrite under_under. eauto. }
  cbn [bind].
  match goal with |- context [for_each_rel ?b ?f ?l ?s] =>
    destruct (for_each_rel_total b f l s) as (st3 & ->) end.
  { intros p Hp. apply glob_suffix_under in Hp as (x & ->). rewrite under_under. eauto. }
  cbn [bind].
  apply for_each_rel_total.
  intros p Hp. apply filter_In in Hp as [Hp _].
  apply rglob_under in Hp as (x & ->). rewrite under_under. eauto.
Qed.

(** ** The model directories, in any order *)

Lemma scan_model_dirs_effect (TEXTURE_EXTS : list string) (fs : t) (base_dir : Path)
    (dirs : list Path) (st st' : Scan) :
  scan_model_dirs TEXTURE_EXTS fs base_dir st dirs = Ok st' ->
  NoDup (map name dirs) ->
  (NoDup (map fst (models_tmp st)) -> NoDup (map fst (models_tmp st')))
  /\ forall n,
       (~ In n (map name dirs) -> get_entry n (models_tmp st') = get_entry n (models_tmp st))
       /\ (forall d, In d dirs -> name d = n ->
             disk_effect fs base_dir d (get_entry n (models_tmp st))
               (get_entry n (models_tmp st'))).
Proof.
  revert st. induction dirs as [|d0 dirs IH]; intros st; cbn [scan_model_dirs map].
  - intros H _. injection H as <-. split; [tauto|]. intros n. split; [reflexivity|].
    intros d [].
  - destruct (scan_model_dir TEXTURE_EXTS fs base_dir st d0) as [st1|e] eqn:S1;
      [|discriminate].
    cbn [bind]. intros H ND. inversion ND as [|? ? Hnot ND']; subst.
    destruct (scan_model_dir_effect _ _ _ _ _ _ S1) as (Eff & Fr & Nd).
    destruct (IH _ H ND') as (Nd' & IHn).
    split; [tauto|]. intros n. split.
    + intros Hn. rewrite (proj1 (IHn n)) by (intros C; apply Hn; now right).
      apply Fr. intros ->. apply Hn. now left.
    + intros d [<-|Hd] <-.
      * rewrite (proj1 (IHn (name d0))) by assumption. exact Eff.
      * assert (N : name d <> name d0).
        { intros E. apply Hnot. rewrite <- E. now apply in_map. }
        rewrite <- (Fr _ N). now apply (proj2 (IHn (name d))).
Qed.

Lemma scan_model_dirs_total (TEXTURE_EXTS : list string) (fs : t) (base_dir : Path)
    (dirs : list Path) (st : Scan) :
  (forall d, In d dirs -> exists rel, d = under base_dir rel) ->
  exists st', scan_model_dirs TEXTURE_EXTS fs base_dir st dirs = Ok st'.
Proof.
  revert st. induction dirs as [|d dirs IH]; intros st Hall; cbn [scan_model_dirs]; [eauto|].
  destruct (Hall d (or_introl eq_refl)) as (rel & Hd).
  destruct (scan_model_dir_total TEXTURE_EXTS fs base_dir st d rel Hd) as (st1 & ->).
  cbn [bind]. apply IH. intros q Hq. apply Hall. now right.
Qed.

(** The loop over the textures leaves the models as they are. *)
Lemma for_each_texture_models (base_dir : Path) (paths : list Path) (st st' : Scan) :
  for_each_rel base_dir (fun rel => add_texture rel "disk" None) paths st = Ok st' ->
  models_tmp st' = models_tmp st.
Proof.
  revert st. induction paths as [|p paths IH]; intros st; cbn [for_each_rel].
  - now intros [= <-].
  - destruct (relative_to p base_dir) as [rel|e]; [|discriminate]. cbn [bind].
    intros H. now rewrite (IH _ H).
Qed.

(** ** The archives *)

Lemma scan_member_nodup (TEXTURE_EXTS : list string) (pk3_path : Path) (st st' : Scan)
    (info : ZipInfo) :
  scan_member TEXTURE_EXTS pk3_path st info = Ok st' ->
  NoDup (map fst (models_tmp st)) -> NoDup (map fst (models_tmp st')).
Proof.
  unfold scan_member. destruct (zipinfo_is_dir info) as [b|e]; [|discriminate].
  cbn [bind]. cbv zeta.
  repeat match goal with
         | |- (if ?c then _ else _) = _ -> _ => destruct c
         end;
    intros H; injection H as <-; intros N; cbn [add_texture add_gla models_tmp];
    try assumption; now apply put_nodup.
Qed.

Lemma scan_members_nodup (TEXTURE_EXTS : list string) (pk3_path : Path)
    (infos : list ZipInfo) (st st' : Scan) :
  scan_members TEXTURE_EXTS pk3_path st infos = Ok st' ->
  NoDup (map fst (models_tmp st)) -> NoDup (map fst (models_tmp st')).
Proof.
  revert st. induction infos as [|i infos IH]; intros st; cbn [scan_members].
  - now intros [= <-].
  - destruct (scan_member TEXTURE_EXTS pk3_path st i) as [st1|e] eqn:S; [|discriminate].
    cbn [bind]. intros H N. apply (IH _ H). eapply scan_member_nodup; eassumption.
Qed.

Lemma scan_archives_nodup (unzip : string -> result (list ZipInfo))
    (TEXTURE_EXTS : list string) (fs : t) (paths : list Path) (st st' : Scan) :
  scan_archives unzip TEXTURE_EXTS fs st paths = Ok st' ->
  NoDup (map fst (models_tmp st)) -> NoDup (map fst (models_tmp st')).
Proof.
  revert st. induction paths as [|p paths IH]; intros st; cbn [scan_archives].
  - now intros [= <-].
  - destruct (scan_archive unzip TEXTURE_EXTS fs st p) as [st1|e] eqn:S; [|discriminate].
    cbn [bind]. intros H N. apply (IH _ H). unfold scan_archive in S.
    destruct (open_pk3 unzip fs p) as [zf|[]]; try discriminate.
    + eapply scan_members_nodup; eassumption.
    + now injection S as <-.
Qed.

Lemma scan_archives_listing (unzip : string -> result (list ZipInfo))
    (TEXTURE_EXTS : list string) (fs1 fs2 : t) (paths : list Path) (st : Scan) :
  NoDup (keys fs1) -> Permutation fs1 fs2 ->
  scan_archives unzip TEXTURE_EXTS fs2 st paths
  = scan_archives unzip TEXTURE_EXTS fs1 st paths.
Proof.
  intros N P. revert st. induction paths as [|p paths IH]; intros st; cbn [scan_archives];
    [reflexivity|].
  unfold scan_archive. rewrite (open_pk3_listing fs1 fs2 N P).
  destruct (open_pk3 unzip fs1 p) as [zf|e].
  - destruct (scan_members TEXTURE_EXTS p st zf); [apply IH|reflexivity].
  - destruct e; cbn [bind]; try reflexivity. apply IH.
Qed.

(** ** The last loop of [build_index] *)

Lemma finalize_models_get (tmp : ODict.t string TmpEntry) (n : string) :
  NoDup (map fst tmp) ->
  ODict.get String.eqb n (finalize_models tmp) = finalize_model (get_entry n tmp).
Proof.
  unfold finalize_models.
  assert (G : forall (l : ODict.t string TmpEntry) (acc : ODict.t string ModelEntry),
             NoDup (map fst l) ->
             ODict.get String.eqb n
               (fold_left (fun models nd =>
                             match finalize_model (snd nd) with
                             | Some e => ODict.set String.eqb (fst nd) e models
                             | None => models
                             end) l acc)
             = match ODict.get String.eqb n l with
               | Some data =>
                   match finalize_model data with
                   | Some e => Some e
                   | None => ODict.get String.eqb n acc
                   end
               | None => ODict.get String.eqb n acc
               end).
  { induction l as [|[k data] l IH]; intros acc N; cbn [fold_left ODict.get fst snd];
      [reflexivity|].
    inversion N as [|? ? Hk N']; subst. rewrite (IH _ N').
    destruct (String.eqb_spec k n) as [->|Nk].
    - assert (Gn : ODict.get String.eqb n l = None)
        by (now apply (gen_get_none _ _ String.eqb String.eqb_eq)).
      rewrite Gn. destruct (finalize_model data) as [e|]; [|reflexivity].
      now rewrite get_set_same.
    - destruct (finalize_model data) as [e|]; [|reflexivity].
      now rewrite get_set_other by assumption. }
  intros N. rewrite (G tmp [] N). unfold get_entry.
  destruct (ODict.get String.eqb n tmp) as [data|]; [|reflexivity].
  destruct (finalize_model data); reflexivity.
Qed.

Lemma map_filter_hdr (l : list ModelSource) :
  map hdr (filter (fun s => is_some (glm s)) l) = filter (fun h => snd h) (map hdr l).
Proof.
  induction l as [|s l IH]; cbn [filter map]; [reflexivity|].
  change (snd (hdr s)) with (is_some (glm s)).
  destruct (is_some (glm s)); cbn [map]; now rewrite IH.
Qed.

Lemma hdr_priority_hdr (s : ModelSource) : hdr_priority (hdr s) = source_priority s.
Proof. reflexivity. Qed.

Lemma hdr_class_hdr (s : ModelSource) : hdr_class (hdr s) = priority_class s.
Proof. reflexivity. Qed.

Lemma map_insert_sorted_hdr (x : ModelSource) (l : list ModelSource) :
  map hdr (insert_sorted tuple_leb source_priority x l)
  = insert_sorted tuple_leb hdr_priority (hdr x) (map hdr l).
Proof.
  induction l as [|y l IH]; cbn [insert_sorted map]; [reflexivity|].
  rewrite !hdr_priority_hdr.
  destruct (tuple_leb (source_priority x) (source_priority y)); cbn [map];
    [reflexivity|now rewrite IH].
Qed.

Lemma map_sorted_hdr (l : list ModelSource) :
  map hdr (sorted tuple_leb source_priority l) = sorted tuple_leb hdr_priority (map hdr l).
Proof.
  induction l as [|x l IH]; cbn [sorted map]; [reflexivity|].
  now rewrite map_insert_sorted_hdr, IH.
Qed.

Lemma values_hdr (e : TmpEntry) :
  map hdr (ODict.values (tmp_sources e)) = map snd (entry_hdr e).
Proof.
  unfold ODict.values, entry_hdr. rewrite !map_map. reflexivity.
Qed.

(** Entries with the same headers are kept or dropped together, and
    their primary sources are of the same class. *)
Lemma finalize_model_hdr (e e' : TmpEntry) :
  entry_hdr e = entry_hdr e' ->
  match finalize_model e, finalize_model e' with
  | Some m, Some m' => priority_class (primary m) = priority_class (primary m')
  | None, None => True
  | _, _ => False
  end.
Proof.
  intros H. unfold finalize_model.
  assert (S : map hdr (sorted tuple_leb source_priority
                         (filter (fun s => is_some (glm s)) (ODict.values (tmp_sources e))))
              = map hdr (sorted tuple_leb source_priority
                           (filter (fun s => is_some (glm s))
                              (ODict.values (tmp_sources e')))))
    by (now rewrite !map_sorted_hdr, !map_filter_hdr, !values_hdr, H).
  destruct (sorted tuple_leb source_priority
              (filter (fun s => is_some (glm s)) (ODict.values (tmp_sources e))))
    as [|a r];
    destruct (sorted tuple_leb source_priority
                (filter (fun s => is_some (glm s)) (ODict.values (tmp_sources e'))))
    as [|a' r']; cbn [map] in S; try discriminate; [exact I|].
  cbn [primary]. pose proof (f_equal (fun l => hd (hdr a) l) S) as Ha. cbn [hd] in Ha.
  now rewrite <- !hdr_class_hdr, Ha.
Qed.

Lemma fold_pathset_in (ss : list Path) (acc : pathset) (x : Path) :
  In x (fold_left (fun acc s => pathset_add s acc) ss acc) <-> In x acc \/ In x ss.
Proof.
  revert acc. induction ss as [|s ss IH]; intros acc; cbn [fold_left]; [simpl; tauto|].
  rewrite IH. unfold pathset_add. rewrite set_add_iff. simpl. intuition.
Qed.

Lemma all_skins_in (l : list ModelSource) (x : Path) :
  In x (all_skins l) <-> exists s, In s l /\ In x (skins s).
Proof.
  unfold all_skins.
  assert (G : forall acc,
             In x (fold_left (fun acc src =>
                                fold_left (fun acc s => pathset_add s acc) (skins src) acc)
                             l acc)
             <-> In x acc \/ exists s, In s l /\ In x (skins s)).
  { induction l as [|s l IH]; intros acc; cbn [fold_left].
    - split; [now left|]. intros [H|(s & [] & _)]. exact H.
    - rewrite IH, fold_pathset_in. split.
      + intros [[H|H]|(s' & Hs' & H)]; [now left| |].
        * right. exists s. split; [now left|exact H].
        * right. exists s'. split; [now right|exact H].
      + intros [H|(s' & [<-|Hs'] & H)]; [now left; left|now left; right|].
        right. now exists s'. }
  rewrite G. split; [intros [[]|H]; exact H|now right].
Qed.

Lemma finalize_model_skins (e : TmpEntry) (m : ModelEntry) (x : Path) :
  finalize_model e = Some m -> (In x (entry_skins m) <-> entry_skinset e x).
Proof.
  unfold finalize_model.
  destruct (sorted tuple_leb source_priority _) as [|a r]; [discriminate|].
  intros H. injection H as <-. cbn [entry_skins].
  assert (P := sorted_perm _ _ String.leb skin_sort_key
                 (all_skins (ODict.values (tmp_sources e)))).
  split.
  - intros Hx. apply (Permutation_in _ (Permutation_sym P)) in Hx.
    apply all_skins_in in Hx as (s & Hs & Hx). unfold ODict.values in Hs.
    apply in_map_iff in Hs as (kv & <- & Hkv). now exists kv.
  - intros (kv & Hkv & Hx). apply (Permutation_in _ P). apply all_skins_in.
    exists (snd kv). split; [|exact Hx]. unfold ODict.values. now apply in_map.
Qed.

(** ** The whole scan *)

Lemma children_in (fs : t) (k : key) (x : string) :
  In x (children fs k) <-> In (k ++ [x]) (keys fs).
Proof.
  unfold children, keys. rewrite in_flat_map, in_map_iff. split.
  - intros ((q, nd) & Hin & Hx). cbn [fst] in Hx.
    destruct (below k q) as [[|y [|z r]]|] eqn:B; try (now destruct Hx).
    destruct Hx as [<-|[]]. apply below_some in B. subst q. now exists (k ++ [y], nd).
  - intros ((q, nd) & Hq & Hin). cbn [fst] in Hq. subst q.
    exists (k ++ [x], nd). split; [exact Hin|]. cbn [fst]. rewrite below_app. now left.
Qed.

Lemma children_nodup (fs : t) (k : key) : NoDup (keys fs) -> NoDup (children fs k).
Proof.
  unfold keys, children. induction fs as [|[q nd] fs IH]; cbn [map flat_map fst];
    [constructor|].
  intros N. inversion N as [|? ? Hq N']; subst. specialize (IH N').
  destruct (below k q) as [[|y [|z r]]|] eqn:B; cbn [app]; try exact IH.
  constructor; [|exact IH]. intros Hin.
  apply (children_in fs k y) in Hin. apply below_some in B. subst q. exact (Hq Hin).
Qed.

Lemma name_child (p : Path) (x : string) : name (child p x) = x.
Proof. unfold name, child. cbn [tail]. apply last_last. Qed.

Lemma names_children (p : Path) (l : list string) : map name (map (child p) l) = l.
Proof.
  rewrite map_map. induction l as [|x l IH]; cbn [map]; [reflexivity|].
  now rewrite name_child, IH.
Qed.

Lemma models_dir_under (base_dir : Path) :
  joinpath (joinpath base_dir (parse "models")) (parse "players")
  = under base_dir ["models"; "players"].
Proof.
  replace (parse "models") with {| root := ""; tail := ["models"] |}
    by (vm_compute; reflexivity).
  replace (parse "players") with {| root := ""; tail := ["players"] |}
    by (vm_compute; reflexivity).
  unfold joinpath, under. cbn [root tail String.eqb]. now rewrite <- app_assoc.
Qed.

Lemma textures_dir_under (base_dir : Path) :
  joinpath base_dir (parse "textures") = under base_dir ["textures"].
Proof.
  replace (parse "textures") with {| root := ""; tail := ["textures"] |}
    by (vm_compute; reflexivity).
  reflexivity.
Qed.

Lemma entry_eq_refl (e : TmpEntry) : entry_eq e e.
Proof. split; [reflexivity|tauto]. Qed.

Lemma iterdir_children (fs : t) (p : Path) (dirs : list Path) :
  iterdir fs p = Ok dirs -> exists k, dirs = map (child p) (children fs k).
Proof.
  unfold iterdir. destruct (locate fs p) as [k|e]; [|discriminate]. cbn [bind].
  destruct (lookup fs k) as [[|b]|]; try discriminate. intros [= <-]. now exists k.
Qed.

Section Scan.
Variable TEXTURE_EXTS : list string.
Variables fs1 fs2 : t.
Hypothesis keys_nodup : NoDup (keys fs1).
Hypothesis same_tree : Permutation fs1 fs2.
Variable base_dir : Path.

Lemma model_dirs_listing (sA sB1 : Scan) :
  let md := under base_dir ["models"; "players"] in
  (if is_dir fs1 md
   then dirs <- iterdir fs1 md ;; scan_model_dirs TEXTURE_EXTS fs1 base_dir sA dirs
   else Ok sA) = Ok sB1 ->
  NoDup (map fst (models_tmp sA)) ->
  exists sB2,
    (if is_dir fs2 md
     then dirs <- iterdir fs2 md ;; scan_model_dirs TEXTURE_EXTS fs2 base_dir sA dirs
     else Ok sA) = Ok sB2
    /\ NoDup (map fst (models_tmp sB1))
    /\ NoDup (map fst (models_tmp sB2))
    /\ forall n, entry_eq (get_entry n (models_tmp sB1)) (get_entry n (models_tmp sB2)).
Proof.
  intros md. rewrite (is_dir_listing fs1 fs2 keys_nodup same_tree).
  destruct (is_dir fs1 md).
  2:{ intros [= <-] N. exists sA. split; [reflexivity|]. split; [exact N|].
      split; [exact N|]. intros n. apply entry_eq_refl. }
  destruct (iterdir fs1 md) as [dirs1|e] eqn:I1; [|discriminate]. cbn [bind].
  intros B1 N.
  destruct (iterdir_listing fs1 fs2 keys_nodup same_tree md dirs1 I1) as (dirs2 & I2 & Pd).
  rewrite I2. cbn [bind].
  destruct (iterdir_children _ _ _ I1) as (k1 & D1).
  destruct (iterdir_children _ _ _ I2) as (k2 & D2).
  assert (N1 : NoDup (map name dirs1)).
  { rewrite D1, names_children. now apply children_nodup. }
  assert (N2 : NoDup (map name dirs2)).
  { rewrite D2, names_children. apply children_nodup.
    exact (keys_nodup' fs1 fs2 keys_nodup same_tree). }
  destruct (scan_model_dirs_total TEXTURE_EXTS fs2 base_dir dirs2 sA) as (sB2 & B2).
  { intros d Hd. rewrite D2 in Hd. apply in_map_iff in Hd as (x & <- & _).
    exists (["models"; "players"] ++ [x]). unfold md. now rewrite <- under_under. }
  exists sB2. split; [exact B2|].
  destruct (scan_model_dirs_effect _ _ _ _ _ _ B1 N1) as (Nd1 & Ef1).
  destruct (scan_model_dirs_effect _ _ _ _ _ _ B2 N2) as (Nd2 & Ef2).
  split; [now apply Nd1|]. split; [now apply Nd2|].
  intros n. destruct (in_dec string_dec n (map name dirs1)) as [Hin|Hout].
  - apply in_map_iff in Hin as (d & Hn & Hd).
    assert (Hd2 : In d dirs2) by (eapply Permutation_in; eassumption).
    pose proof (proj2 (Ef1 n) d Hd Hn) as E1.
    pose proof (proj2 (Ef2 n) d Hd2 Hn) as E2.
    unfold disk_effect in E1, E2.
    rewrite (no_model_listing fs1 fs2 keys_nodup same_tree) in E2.
    destruct (no_model fs1 d).
    + rewrite E1, E2. apply entry_eq_refl.
    + destruct E1 as (H1 & S1), E2 as (H2 & S2). split; [congruence|].
      intros x. rewrite S1, S2.
      now rewrite (disk_skin_listing fs1 fs2 keys_nodup same_tree).
  - assert (Hout2 : ~ In n (map name dirs2)).
    { intros C. apply Hout. eapply Permutation_in; [|exact C].
      apply Permutation_sym. now apply Permutation_map. }
    rewrite (proj1 (Ef1 n) Hout), (proj1 (Ef2 n) Hout2). apply entry_eq_refl.
Qed.

Lemma textures_listing (sB1 sB2 sC1 : Scan) :
  let td := under base_dir ["textures"] in
  (if is_dir fs1 td
   then for_each_rel base_dir (fun rel => add_texture rel "disk" None)
          (filter (is_texture_file TEXTURE_EXTS fs1) (rglob fs1 td)) sB1
   else Ok sB1) = Ok sC1 ->
  models_tmp sC1 = models_tmp sB1
  /\ exists sC2,
       (if is_dir fs2 td
        then for_each_rel base_dir (fun rel => add_texture rel "disk" None)
               (filter (is_texture_file TEXTURE_EXTS fs2) (rglob fs2 td)) sB2
        else Ok sB2) = Ok sC2
       /\ models_tmp sC2 = models_tmp sB2.
Proof.
  intros td. rewrite (is_dir_listing fs1 fs2 keys_nodup same_tree).
  destruct (is_dir fs1 td).
  2:{ intros [= <-]. split; [reflexivity|]. now exists sB2. }
  intros C1. split; [now apply for_each_texture_models in C1|].
  destruct (for_each_rel_total base_dir (fun rel => add_texture rel "disk" None)
              (filter (is_texture_file TEXTURE_EXTS fs2) (rglob fs2 td)) sB2)
    as (sC2 & C2).
  { intros p Hp. apply filter_In in Hp as [Hp _].
    apply rglob_under in Hp as (r & ->). unfold td. rewrite under_under. eauto. }
  exists sC2. split; [exact C2|]. now apply for_each_texture_models in C2.
Qed.

(** The two scans return together; their tables of models hold entries
    with the same headers and the same skins under every name. *)
Lemma build_index_listing (unzip : string -> result (list ZipInfo)) (idx1 : Index) :
  build_index unzip TEXTURE_EXTS fs1 base_dir = Ok idx1 ->
  exists idx2 tmp1 tmp2,
    build_index unzip TEXTURE_EXTS fs2 base_dir = Ok idx2
    /\ models idx1 = finalize_models tmp1
    /\ models idx2 = finalize_models tmp2
    /\ NoDup (map fst tmp1) /\ NoDup (map fst tmp2)
    /\ forall n, entry_eq (get_entry n tmp1) (get_entry n tmp2).
Proof.
  unfold build_index. cbv zeta.
  rewrite (archives_listing fs1 fs2 keys_nodup same_tree).
  rewrite (scan_archives_listing unzip TEXTURE_EXTS fs1 fs2 _ _ keys_nodup same_tree).
  rewrite !models_dir_under, !textures_dir_under.
  destruct (scan_archives unzip TEXTURE_EXTS fs1 _ _) as [sA|e] eqn:A; [|discriminate].
  cbn [bind].
  assert (NA : NoDup (map fst (models_tmp sA))).
  { eapply scan_archives_nodup; [exact A|]. constructor. }
  match goal with
  | |- bind ?c _ = _ -> _ => destruct c as [sB1|e] eqn:B1; [|discriminate]
  end.
  cbn [bind].
  destruct (model_dirs_listing sA sB1 B1 NA) as (sB2 & B2 & N1 & N2 & Eq).
  rewrite B2. cbn [bind].
  match goal with
  | |- bind ?c _ = _ -> _ => destruct c as [sC1|e] eqn:C1; [|discriminate]
  end.
  cbn [bind].
  destruct (textures_listing sB1 sB2 sC1 C1) as (M1 & sC2 & C2 & M2).
  rewrite C2. cbn [bind]. intros [= <-].
  eexists. exists (models_tmp sC1), (models_tmp sC2).
  split; [reflexivity|]. cbn [models]. split; [reflexivity|]. split; [reflexivity|].
  rewrite M1, M2. split; [exact N1|]. split; [exact N2|]. exact Eq.
Qed.

End Scan.

End ListingFacts.

(* ================================================================== *)
(** * The properties *)
(* ================================================================== *)

Import PyStr Pathlib Notions.

(** C1 (code defect).  The guard of [safe_extract_members] compares the
    text of the resolved target with the text of the resolved destination
    by [startswith].  With the destination [/tmp/out], the member
    [../outside.txt] resolves to [/tmp/outside.txt], whose text starts with
    [/tmp/out]: no error is raised and the file is written next to the
    destination directory, not below it. *)
Theorem safe_extract_members_sibling_escape :
  let fs := [ (["tmp"], FS.Dir); (["tmp"; "out"], FS.Dir) ] in
  let run := safe_extract_members fs (parse "/tmp/out")
               [ mkZipInfo "../outside.txt" (Stored "x") ] in
  snd run = Ok ["../outside.txt"]
  /\ FS.lookup (fst run) ["tmp"; "outside.txt"] = Some (FS.File "x")
  /\ FS.below ["tmp"; "out"] ["tmp"; "outside.txt"] = None.
Proof. vm_compute. repeat split. Qed.

(** What the guard does stop: a target whose text does not start with the
    text of the destination, as [../evil.txt] below [/tmp/out]. *)
Lemma safe_extract_members_guard :
  let fs := [ (["tmp"], FS.Dir); (["tmp"; "out"], FS.Dir) ] in
  safe_extract_members fs (parse "/tmp/out") [ mkZipInfo "../evil.txt" (Stored "x") ]
  = (fs, Raise ArchiveError).
Proof. reflexivity. Qed.

Lemma build_index_models (unzip : string -> result (list ZipInfo))
    (TEXTURE_EXTS : list string) (fs : FS.t) (base_dir : Path) (idx : Index) :
  build_index unzip TEXTURE_EXTS fs base_dir = Ok idx ->
  exists tmp, models idx = finalize_models tmp.
Proof.
  unfold build_index.
  destruct (scan_archives _ _ _ _ _) as [st1|]; [|discriminate]. cbn [bind].
  match goal with |- bind ?c _ = _ -> _ => destruct c as [st2|] end; [|discriminate].
  cbn [bind].
  match goal with |- bind ?c _ = _ -> _ => destruct c as [st3|] end; [|discriminate].
  cbn [bind]. intros H. injection H as <-. cbn [models]. eauto.
Qed.

(** C3.  For every model name of a built index the primary source is the
    first source, in the order of the sources of the entry, of least rank
    among those that have a model file, where the rank is 0 on disk, 1 for
    the archive named [assets1.pk3] and 2 for any other archive; the tuples
    of [source_priority] order the sources as that rank does.  So a model
    that has a source on disk has its primary source on disk. *)
Theorem primary_source_by_priority (unzip : string -> result (list ZipInfo))
    (TEXTURE_EXTS : list string) (fs : FS.t) (base_dir : Path) (idx : Index)
    (model_name : string) (e : ModelEntry) :
  build_index unzip TEXTURE_EXTS fs base_dir = Ok idx ->
  ODict.get String.eqb model_name (models idx) = Some e ->
  (forall a b, tuple_leb (source_priority a) (source_priority b)
               = (priority_class a <=? priority_class b))
  /\ (exists before after,
        filter has_glm (sources e) = before ++ primary e :: after
        /\ (forall s, In s before ->
              priority_class (primary e) < priority_class s)
        /\ (forall s, In s after ->
              priority_class (primary e) <= priority_class s))
  /\ (forall s, In s (sources e) -> has_glm s = true ->
        origin s = "disk" -> origin (primary e) = "disk").
Proof.
  intros Hb Hg. split; [exact PrimaryFacts.source_priority_class|].
  destruct (build_index_models _ _ _ _ _ Hb) as (tmp & Em). rewrite Em in Hg.
  destruct (PrimaryFacts.finalize_models_entry _ _ _ Hg) as (data & _ & Hf).
  destruct (PrimaryFacts.finalize_model_primary _ _ Hf) as (_ & before & after & E & Hlt & Hle).
  split; [exists before, after; auto|].
  intros s Hs Hglm Hdisk.
  assert (Hin : In s (filter has_glm (sources e)))
    by (apply filter_In; auto).
  assert (C0 : priority_class s = 0).
  { unfold priority_class. rewrite Hdisk. reflexivity. }
  assert (Cp : priority_class (primary e) = 0).
  { rewrite E in Hin. apply in_app_or in Hin as [Hin|[<-|Hin]].
    - specialize (Hlt s Hin). lia.
    - assumption.
    - specialize (Hle s Hin). lia. }
  unfold priority_class in Cp.
  destruct (String.eqb_spec (origin (primary e)) "disk") as [Eo|No]; [exact Eo|].
  destruct (container (primary e)) as [c|]; [|discriminate].
  destruct (String.eqb (lower (name c)) "assets1.pk3"); discriminate.
Qed.

(** The model [kyle] lies on disk, in [assets1.pk3] and in another archive:
    its primary source is the one on disk. *)
Lemma primary_source_by_priority_witness :
  build_index Demo.unzip Demo.exts Demo.tree Demo.game = Ok Demo.index
  /\ map origin (sources Demo.kyle) = ["pk3"; "pk3"; "disk"]
  /\ origin (primary Demo.kyle) = "disk".
Proof.
  split; [reflexivity|]. split; [reflexivity|].
  refine (proj2 (proj2 (primary_source_by_priority Demo.unzip Demo.exts Demo.tree
                          Demo.game Demo.index "kyle" Demo.kyle _ _))
            (mkModelSource "disk" None
               (Some (parse "models/players/kyle/model.glm"))
               [parse "models/players/kyle/model_red.skin"] []) _ _ _).
  - reflexivity.
  - reflexivity.
  - right. right. left. reflexivity.
  - reflexivity.
  - reflexivity.
Defined.

(** C4 (code defect).  A binding map can hold a reference without a file
    name: the line [head,] binds [head] to the empty text.  For such a
    reference [with_suffix] raises [ValueError] at the first extension, so
    the resolution neither tries the other extensions nor falls back to the
    stem: it stops with that error. *)
Theorem resolve_texture_empty_reference (ext : string) (rest : list string)
    (index : Index) (preferred : option ModelSource) :
  parse_skin_text "head," = [("head", "")]
  /\ resolve_texture (ext :: rest) index "" preferred = Raise (ValueError "with_suffix").
Proof.
  split; [reflexivity|].
  apply (ResolveFacts.resolve_texture_empty_name (ext :: rest) index "" preferred ext rest);
    reflexivity.
Qed.

(** The behaviour for a reference that has a file name: the extensions are
    tried in their order against the path table, the stem table is used
    only when none of them hits, and a rename pair is recorded exactly when
    the resolved path differs from the text of the reference. *)
Lemma resolve_texture_order (TEXTURE_EXTS : list string) (index : Index)
    (tex_entry : string) (preferred : option ModelSource) :
  (forall before ext after l,
      TEXTURE_EXTS = before ++ ext :: after ->
      (forall e, In e before -> ext_misses index (parse tex_entry) e) ->
      ext_hits index (parse tex_entry) ext l ->
      resolve_texture TEXTURE_EXTS index tex_entry preferred
      = Ok (Some (choose preferred l, fs_rel_path (choose preferred l))))
  /\ ((forall e, In e TEXTURE_EXTS -> ext_misses index (parse tex_entry) e) ->
      resolve_texture TEXTURE_EXTS index tex_entry preferred
      = Ok (resolve_by_stem index (parse tex_entry) preferred)).
Proof.
  split.
  - intros. eapply ResolveFacts.resolve_texture_by_path; eassumption.
  - apply ResolveFacts.resolve_texture_by_stem.
Qed.

(** The reference [textures/x], with no candidate in the path table and the
    file [anything/x.png] under the stem [x], resolves to that file and is
    recorded as the rename pair [textures/x -> anything/x.png]. *)
Lemma resolve_texture_stem_example :
  let found := mkFileSource "pk3" (Some (parse "/game/assets1.pk3")) (parse "anything/x.png") in
  let index := mkIndex Demo.game []
                 [("anything/x.png", mkNe found [])] [("x", mkNe found [])] [] in
  let src := mkModelSource "pk3" (Some (parse "/game/assets1.pk3")) None [] [] in
  resolve_texture Demo.exts index "textures/x" (Some src)
  = Ok (Some (found, parse "anything/x.png"))
  /\ option_map c_replacements
       (match collect_texture Demo.exts index src (mkCollected [] [] []) "textures/x" with
        | Ok c => Some c
        | Raise _ => None
        end)
     = Some [("textures/x", "anything/x.png")].
Proof. vm_compute. split; reflexivity. Qed.

(** C5 (as stated, refuted).  [build_index] does not look whether the scan
    root exists: on a root that is missing it finds nothing to scan and
    returns an empty index. *)
Lemma build_index_missing_root :
  FS.exists_ [] (parse "/missing") = false
  /\ build_index Demo.unzip Demo.exts [] (parse "/missing")
     = Ok (mkIndex (parse "/missing") [] [] [] []).
Proof. split; reflexivity. Qed.

(** C5 (amended).  [ensure_index], through which the index is built, gives
    no index when the scan root does not exist: it returns [None], leaves
    [None] in the cached index, raises nothing and does not call
    [build_index]. *)
Theorem ensure_index_missing_root (unzip : string -> result (list ZipInfo))
    (TEXTURE_EXTS : list string) (cache : option Index) (fs : FS.t) (base_dir : Path) :
  FS.exists_ fs base_dir = false ->
  ensure_index unzip TEXTURE_EXTS cache fs base_dir = Ok (None, None).
Proof. intros H. unfold ensure_index. now rewrite H. Qed.

Lemma ensure_index_missing_root_witness :
  ensure_index Demo.unzip Demo.exts (Some Demo.index) Demo.tree (parse "/missing")
  = Ok (None, None).
Proof.
  apply (ensure_index_missing_root Demo.unzip Demo.exts (Some Demo.index) Demo.tree
           (parse "/missing")).
  reflexivity.
Defined.

(** C6.  The binding map of a skin text holds, for every part name, the
    last binding the lines state for it, where a line states a binding as
    [line_binding] tells: none for a blank line, a [//] line or a line
    without a comma, none when the reference is [*off] or [off] in any
    case, else the pair cut at the first comma.  (A binding with an empty
    part name is not kept.)  The text of the example yields the single
    binding of [head]. *)
Theorem parse_skin_text_bindings :
  (forall text part,
      ODict.get String.eqb part (parse_skin_text text)
      = if String.eqb part "" then None
        else last_binding part None
               (map line_binding (splitlines text)))
  /\ (forall line a b,
        split_once "," line = Some (a, b) ->
        line = String.append a (String "," b) /\ mem_char "," a = false)
  /\ parse_skin_text
       (String.append "head, model_blue.jpg"
          (String.append LF (String.append "// comment"
             (String.append LF (String.append "torso,*off" LF)))))
     = [("head", "model_blue.jpg")].
Proof.
  split; [|split].
  - intros text part. unfold parse_skin_text.
    destruct (String.eqb_spec part "") as [->|N].
    + now rewrite SkinTextFacts.parse_skin_lines_get_empty.
    + now rewrite SkinTextFacts.parse_skin_lines_get.
  - intros line a b. apply SkinTextFacts.split_once_first.
  - reflexivity.
Qed.

Lemma parse_skin_text_bindings_witness :
  "head, model_blue.jpg" = String.append "head" (String "," " model_blue.jpg")
  /\ mem_char "," "head" = false.
Proof.
  apply (proj1 (proj2 parse_skin_text_bindings) "head, model_blue.jpg" "head" " model_blue.jpg").
  reflexivity.
Defined.

(** C7 (as stated, refuted).  With the Windows flavour of paths a share
    root keeps its final separator, which the second normalisation drops;
    the prefix [UNC] of an extended path is recognised in capitals only;
    and a drive letter that the stripping of leading dots brings to the
    front is read as a drive by the second normalisation. *)
Lemma normalize_rel_windows_counterexample :
  normalize_rel_str Windows "//host/share" = "host/share/"
  /\ normalize_rel_str Windows (normalize_rel_str Windows "//host/share") = "host/share"
  /\ lower "\\?\UNC\h\s" = lower "\\?\unc\h\s"
  /\ normalize_rel_str Windows "\\?\UNC\h\s" <> normalize_rel_str Windows "\\?\unc\h\s"
  /\ normalize_rel_str Windows ".c:." = "c:."
  /\ normalize_rel_str Windows (normalize_rel_str Windows ".c:.") = "c:".
Proof.
  split; [reflexivity|]. split; [reflexivity|]. split; [reflexivity|].
  split; [vm_compute; discriminate|]. split; reflexivity.
Qed.

(** C7 (amended).  With the POSIX flavour of paths [normalize_rel] is
    idempotent on every input and gives one key to two paths that differ
    in letter case only; with either flavour it gives one key to two paths
    that differ only in [/] against the separator of the platform.  With
    the Windows flavour it gives one key to two paths that differ in letter
    case only, unless they begin with two separators (the paths of shares
    and the extended paths), and it is idempotent on every path that does
    not begin with two separators and holds no colon. *)
Theorem normalize_rel_key :
  (forall x, normalize_rel_str Posix (normalize_rel_str Posix x) = normalize_rel_str Posix x)
  /\ (forall x y, lower x = lower y -> normalize_rel_str Posix x = normalize_rel_str Posix y)
  /\ (forall fl x y,
        replace_char (os_sep fl) "/" x = replace_char (os_sep fl) "/" y ->
        normalize_rel_str fl x = normalize_rel_str fl y)
  /\ (forall x y,
        win_two_seps x = false -> lower x = lower y ->
        normalize_rel_str Windows x = normalize_rel_str Windows y)
  /\ (forall x,
        win_two_seps x = false -> mem_char ":" x = false ->
        normalize_rel_str Windows (normalize_rel_str Windows x)
        = normalize_rel_str Windows x).
Proof.
  split; [exact NormalizeFacts.normalize_rel_str_idempotent|]. split; [|split; [|split]].
  - intros x y H.
    rewrite (NormalizeFacts.normalize_rel_str_of_lower x),
      (NormalizeFacts.normalize_rel_str_of_lower y). now rewrite H.
  - exact NormalizeFacts.normalize_rel_str_slash.
  - exact WinFacts.win_normalize_case.
  - exact WinFacts.win_normalize_idempotent.
Qed.

Lemma normalize_rel_key_witness :
  normalize_rel_str Posix "Models/Players/Kyle/MODEL.GLM"
  = normalize_rel_str Posix "models/players/kyle/model.glm"
  /\ normalize_rel_str Windows "textures\kyle\face.TGA"
     = normalize_rel_str Windows "textures/kyle/face.TGA"
  /\ normalize_rel_str Windows "C:\Games\Base\Textures\Face.TGA"
     = normalize_rel_str Windows "c:\games\base\textures\face.tga"
  /\ normalize_rel_str Windows (normalize_rel_str Windows ".\Textures\Kyle\Face.TGA")
     = normalize_rel_str Windows ".\Textures\Kyle\Face.TGA".
Proof.
  split; [|split; [|split]].
  - apply (proj1 (proj2 normalize_rel_key)). reflexivity.
  - apply (proj1 (proj2 (proj2 normalize_rel_key)) Windows). reflexivity.
  - apply (proj1 (proj2 (proj2 (proj2 normalize_rel_key)))); reflexivity.
  - apply (proj2 (proj2 (proj2 (proj2 normalize_rel_key)))); reflexivity.
Defined.

(** The key of a path already parsed is the key of its text. *)
Lemma normalize_rel_parse (x : string) :
  normalize_rel (parse x) = normalize_rel_str Posix x.
Proof. reflexivity. Qed.

(** [resolve_gla] gives the head of the list the skeleton table holds. *)
Lemma resolve_gla_listed (index : Index) (g : Path) :
  resolve_gla index g = option_map (@ne_head FileSource) (gla_listed index g).
Proof. unfold resolve_gla, gla_listed. now destruct (ODict.get _ _ _). Qed.

Lemma resolve_gla_none (index : Index) (g : Path) :
  resolve_gla index g = None <-> gla_listed index g = None.
Proof.
  rewrite resolve_gla_listed. destruct (gla_listed index g); cbn [option_map];
    split; congruence.
Qed.

(** C8.  [find_gla] goes through the sources of the entry in their order
    and returns the head of the list that the skeleton table of the index
    holds under the key of a skeleton of the first source that has a
    skeleton with a key of the table.  When no skeleton of any source has
    a key of the table, it looks up
    [models/players/<model>/<model>.gla], [models/players/<model>/model.gla]
    and [models/players/_humanoid/_humanoid.gla], in that order, and returns
    the head of the first list found; when none of the three keys is in the
    table either, it returns nothing, and [collect_assets_for_skin] still
    returns its lists, the asset list holding the model file, the skin file
    and the textures only.  A skeleton that is found comes third in the
    asset list. *)
Theorem find_gla_resolution (index : Index) (model_name : string) (entry : ModelEntry) :
  (forall before src after,
      sources entry = before ++ src :: after ->
      (forall s g, In s before -> In g (glas s) -> gla_listed index g = None) ->
      (exists g, In g (glas src) /\ gla_listed index g <> None) ->
      exists g l,
        In g (glas src) /\ gla_listed index g = Some l
        /\ find_gla index model_name entry = Some (ne_head l))
  /\ ((forall s g, In s (sources entry) -> In g (glas s) -> gla_listed index g = None) ->
      find_gla index model_name entry
      = match gla_listed index
                (parse (String.append "models/players/"
                   (String.append model_name
                      (String.append "/" (String.append model_name ".gla"))))) with
        | Some l => Some (ne_head l)
        | None =>
            match gla_listed index
                    (parse (String.append "models/players/"
                       (String.append model_name "/model.gla"))) with
            | Some l => Some (ne_head l)
            | None =>
                match gla_listed index (parse "models/players/_humanoid/_humanoid.gla") with
                | Some l => Some (ne_head l)
                | None => None
                end
            end
        end)
  /\ (forall unzip decode_utf8 decode_locale TEXTURE_EXTS fs base_dir skin_rel
             skin_src glm_rel skin_text col,
        ODict.get String.eqb model_name (models index) = Some entry ->
        find_skin_source entry skin_rel = Some skin_src ->
        glm (primary entry) = Some glm_rel ->
        read_text_from_source unzip decode_utf8 decode_locale fs skin_src base_dir
        = Ok skin_text ->
        collect_textures TEXTURE_EXTS index (primary entry) (mkCollected [] [] [])
          (ODict.values (parse_skin_text skin_text)) = Ok col ->
        ((forall s g, In s (sources entry) -> In g (glas s) -> gla_listed index g = None) ->
         gla_listed index
           (parse (String.append "models/players/"
              (String.append model_name
                 (String.append "/" (String.append model_name ".gla"))))) = None ->
         gla_listed index
           (parse (String.append "models/players/"
              (String.append model_name "/model.gla"))) = None ->
         gla_listed index (parse "models/players/_humanoid/_humanoid.gla") = None ->
         collect_assets_for_skin unzip decode_utf8 decode_locale TEXTURE_EXTS fs index
           base_dir model_name skin_rel
         = Ok ([ (mkFileSource (origin (primary entry)) (container (primary entry)) glm_rel,
                  glm_rel);
                 (skin_src, skin_rel) ] ++ c_textures col,
               c_missing col, c_replacements col))
        /\ (forall gla_src,
              find_gla index model_name entry = Some gla_src ->
              collect_assets_for_skin unzip decode_utf8 decode_locale TEXTURE_EXTS fs index
                base_dir model_name skin_rel
              = Ok ([ (mkFileSource (origin (primary entry)) (container (primary entry))
                         glm_rel, glm_rel);
                      (skin_src, skin_rel);
                      (gla_src, fs_rel_path gla_src) ] ++ c_textures col,
                    c_missing col, c_replacements col))).
Proof.
  assert (Cand : (forall s g, In s (sources entry) -> In g (glas s) ->
                              gla_listed index g = None) ->
                 find_gla index model_name entry
                 = match gla_listed index
                           (parse (String.append "models/players/"
                              (String.append model_name
                                 (String.append "/" (String.append model_name ".gla")))))
                   with
                   | Some l => Some (ne_head l)
                   | None =>
                       match gla_listed index
                               (parse (String.append "models/players/"
                                  (String.append model_name "/model.gla"))) with
                       | Some l => Some (ne_head l)
                       | None =>
                           match gla_listed index
                                   (parse "models/players/_humanoid/_humanoid.gla") with
                           | Some l => Some (ne_head l)
                           | None => None
                           end
                       end
                   end).
  { intros H. rewrite ResolveFacts.find_gla_candidates.
    - rewrite !resolve_gla_listed.
      repeat match goal with
             | |- context [gla_listed ?i ?p] => destruct (gla_listed i p); cbn [option_map]
             end; reflexivity.
    - intros s g Hs Hg. apply resolve_gla_none. now apply (H s g). }
  split; [|split].
  - intros before src after Es Hb (g0 & Hg0 & Hit). unfold find_gla. rewrite Es.
    assert (Hsrc : exists y, first_some (resolve_gla index) (glas src) = Some y).
    { destruct (first_some (resolve_gla index) (glas src)) as [y|] eqn:F; [now exists y|].
      exfalso. apply Hit. apply resolve_gla_none.
      exact (proj1 (ResolveFacts.first_some_none _ _) F g0 Hg0). }
    destruct Hsrc as (y & Hy).
    rewrite (ResolveFacts.first_some_first
               (fun s => first_some (resolve_gla index) (glas s)) before after src y).
    + clear Hit Hg0 g0. revert Hy. induction (glas src) as [|g gs IH]; cbn [first_some];
        [discriminate|].
      destruct (resolve_gla index g) as [r|] eqn:R.
      * intros [= <-]. rewrite resolve_gla_listed in R.
        destruct (gla_listed index g) as [l|] eqn:L; [|discriminate].
        cbn [option_map] in R. injection R as <-. exists g, l.
        split; [now left|]. now split.
      * intros H. destruct (IH H) as (g' & l & Hg' & L & E). exists g', l.
        split; [now right|]. now split.
    + intros s Hs. apply ResolveFacts.first_some_none. intros g Hg.
      apply resolve_gla_none. now apply (Hb s g).
    + exact Hy.
  - exact Cand.
  - intros unzip d8 dl exts fs base_dir skin_rel skin_src glm_rel skin_text col
      Hm Hs Hg Hr Hc. split.
    + intros Hown H1 H2 H3.
      assert (Hn : find_gla index model_name entry = None)
        by (rewrite (Cand Hown), H1, H2, H3; reflexivity).
      unfold collect_assets_for_skin. rewrite Hm, Hs, Hg, Hr. cbn [bind].
      rewrite Hc. cbn [bind]. rewrite Hn. reflexivity.
    + intros gla_src Hf.
      unfold collect_assets_for_skin. rewrite Hm, Hs, Hg, Hr. cbn [bind].
      rewrite Hc. cbn [bind]. rewrite Hf. reflexivity.
Qed.

(** The model [kyle] has no skeleton of its own: the shared skeleton of the
    first archive is found, and comes third in the list.  An entry whose
    source names that skeleton gets it from the table as well.  With the
    skeleton table emptied, the list has no third file. *)
Lemma find_gla_resolution_witness :
  let humanoid := mkFileSource "pk3" (Some (parse "/game/assets1.pk3"))
                    (parse "models/players/_humanoid/_humanoid.gla") in
  let src := mkModelSource "pk3" (Some (parse "/game/extra.pk3")) None []
               [parse "Models/Players/_Humanoid/_HUMANOID.GLA"] in
  find_gla Demo.index "kyle" Demo.kyle = Some humanoid
  /\ (exists g l,
        In g (glas src) /\ gla_listed Demo.index g = Some l
        /\ find_gla Demo.index "other" (mkModelEntry [src] src []) = Some (ne_head l))
  /\ option_map (fun r => map snd (fst (fst r)))
       (match collect_assets_for_skin Demo.unzip (fun b => b) (fun b => b) Demo.exts
                Demo.tree Demo.index Demo.game "kyle"
                (parse "models/players/kyle/model_default.skin") with
        | Ok r => Some r
        | Raise _ => None
        end)
     = Some [ parse "models/players/kyle/model.glm";
              parse "models/players/kyle/model_default.skin";
              parse "models/players/_humanoid/_humanoid.gla";
              parse "models/players/kyle/head.jpg" ]
  /\ option_map (fun r => List.length (fst (fst r)))
       (match collect_assets_for_skin Demo.unzip (fun b => b) (fun b => b) Demo.exts
                Demo.tree Demo.bare_index Demo.game "kyle"
                (parse "models/players/kyle/model_default.skin") with
        | Ok r => Some r
        | Raise _ => None
        end) = Some 3.
Proof.
  intros humanoid src.
  assert (Own : forall idx s g, In s (sources Demo.kyle) -> In g (glas s) ->
                                gla_listed idx g = None).
  { intros idx s g Hs Hg. vm_compute in Hs.
    repeat (destruct Hs as [<-|Hs]; [destruct Hg|]). destruct Hs. }
  assert (F : find_gla Demo.index "kyle" Demo.kyle = Some humanoid).
  { rewrite (proj1 (proj2 (find_gla_resolution Demo.index "kyle" Demo.kyle))
               (Own Demo.index)).
    reflexivity. }
  split; [exact F|]. split; [|split].
  - apply (proj1 (find_gla_resolution Demo.index "other" (mkModelEntry [src] src []))
             [] src []).
    + reflexivity.
    + intros s g [].
    + exists (parse "Models/Players/_Humanoid/_HUMANOID.GLA"). split; [now left|].
      vm_compute. discriminate.
  - rewrite (proj2 (proj2 (proj2 (find_gla_resolution Demo.index "kyle" Demo.kyle))
                      Demo.unzip (fun b => b) (fun b => b) Demo.exts Demo.tree Demo.game
                      (parse "models/players/kyle/model_default.skin") _ _ _ _
                      eq_refl eq_refl eq_refl eq_refl eq_refl) humanoid F).
    reflexivity.
  - rewrite (proj1 (proj2 (proj2 (find_gla_resolution Demo.bare_index "kyle" Demo.kyle))
                      Demo.unzip (fun b => b) (fun b => b) Demo.exts Demo.tree Demo.game
                      (parse "models/players/kyle/model_default.skin") _ _ _ _
                      eq_refl eq_refl eq_refl eq_refl eq_refl)
               (Own Demo.bare_index) eq_refl eq_refl eq_refl).
    reflexivity.
Defined.

(* ================================================================== *)
(** * The properties of the cache *)
(* ================================================================== *)

Import FS FSFacts FSOps CacheFacts.

(** C2 (as stated, refuted).  The cache holds the directory [d], and the
    list names the destination [d] for a texture of the disk.  The first
    call copies the texture into the directory, as [shutil.copy2] does for
    a destination that is a directory, prunes the copy, whose key [d/t.png]
    is not in the keep set, and removes the emptied directory; the second
    call then writes the file [d].  Both calls report no failed path, and
    they leave different files in the cache.  Two more lists whose sources
    can all be read: with the destinations [a] and [a/b] the call raises,
    the file [a] standing where a directory is needed; and with a source
    that lies in the cache the first call prunes the source, so that the
    second call reports a failed path. *)
Lemma extract_assets_twice_directory_destination :
  let fs := [ (["game"], Dir); (["game"; "textures"], Dir);
              (["game"; "textures"; "t.png"], File "png");
              (["game"; "cache"], Dir); (["game"; "cache"; "d"], Dir) ] in
  let texture := mkFileSource "disk" None (parse "textures/t.png") in
  let assets := [ (texture, parse "d") ] in
  let cached := [ (["game"], Dir); (["game"; "cache"], Dir);
                  (["game"; "cache"; "x.png"], File "png") ] in
  let inside := [ (mkFileSource "disk" None (parse "cache/x.png"), parse "y.png") ] in
  (exists fs1 fs2,
     extract_assets Demo.unzip Demo.exts fs Demo.game Demo.cache assets = Ok (fs1, [], [])
     /\ extract_assets Demo.unzip Demo.exts fs1 Demo.game Demo.cache assets
        = Ok (fs2, [], [])
     /\ lookup fs1 ["game"; "cache"; "d"] = None
     /\ lookup fs2 ["game"; "cache"; "d"] = Some (File "png")
     /\ ~ (forall rel, cache_file fs2 Demo.cache rel <-> cache_file fs1 Demo.cache rel))
  /\ extract_assets Demo.unzip Demo.exts fs Demo.game Demo.cache
       [ (texture, parse "a"); (texture, parse "a/b") ] = Raise FileExistsError
  /\ (exists fs1 fs2 tm1,
        extract_assets Demo.unzip Demo.exts cached Demo.game Demo.cache inside
        = Ok (fs1, tm1, [])
        /\ extract_assets Demo.unzip Demo.exts fs1 Demo.game Demo.cache inside
           = Ok (fs2, [], ["y.png"])).
Proof.
  cbv zeta. split; [|split].
  - eexists. eexists. split; [vm_compute; reflexivity|].
    split; [vm_compute; reflexivity|]. split; [reflexivity|]. split; [reflexivity|].
    intros H. destruct (proj1 (H ["d"])) as (b & Hb); [now exists "png"|].
    vm_compute in Hb. discriminate.
  - vm_compute. reflexivity.
  - eexists. eexists. eexists. split; vm_compute; reflexivity.
Qed.

(** C10 (as the code has it: the claim fails for a destination with a
    [..] component).  The cache holds the file [b.png] and the directory
    [a]; the list names the destination [a/../b.png], whose source is
    missing.  The copy fails, the keep set holds the key [a/../b.png], the
    file is found at [b.png] by the pruning pass and removed. *)
Lemma extract_assets_prunes_dotdot_destination :
  let dest := parse "a/../b.png" in
  exists fs',
    extract_assets Demo.unzip Demo.exts Demo.stale Demo.game Demo.cache
      [(Demo.missing, dest)] = Ok (fs', [], ["a/../b.png"])
    /\ is_file Demo.stale (joinpath Demo.cache dest) = true
    /\ is_file fs' (joinpath Demo.cache dest) = false
    /\ lookup Demo.stale ["game"; "cache"; "b.png"] = Some (File "old")
    /\ lookup fs' ["game"; "cache"; "b.png"] = None.
Proof. eexists. repeat split; vm_compute; reflexivity. Qed.

(** C10, amended.  Let a call of [extract_assets] on a well-formed tree
    return, and let an asset be in the list.  The keep set handed to
    [cleanup_cache] holds the key of the destination of the asset, whether
    its copy failed or not; and if the destination is a relative path
    without [..] components at which the cache held a file before the
    call, the cache holds a file there after the call. *)
Theorem extract_assets_keeps_plain_destination
    (unzip : string -> result (list ZipInfo)) (TEXTURE_EXTS : list string)
    (fs fs' : t) (base_dir cache_root : Path) (assets : list asset)
    (tm : ODict.t string string) (fl : list string) (a : asset) :
  wf fs -> plain (tail cache_root) ->
  extract_assets unzip TEXTURE_EXTS fs base_dir cache_root assets = Ok (fs', tm, fl) ->
  In a assets ->
  (exists fs0 st,
      mkdir fs cache_root = Ok fs0
      /\ extract_loop unzip TEXTURE_EXTS base_dir cache_root (mkExtraction fs0 [] [] [])
           assets = Ok st
      /\ cleanup_cache (x_fs st) cache_root (keep st) = Ok fs'
      /\ fl = failed st
      /\ strset_mem (normalize_rel (snd a)) (keep st) = true)
  /\ (plain_rel (snd a) ->
      is_file fs (joinpath cache_root (snd a)) = true ->
      is_file fs' (joinpath cache_root (snd a)) = true).
Proof.
  intros W Pc H Hin. split.
  - destruct (extract_assets_steps unzip TEXTURE_EXTS _ _ _ _ _ _ _ W Pc H)
      as (fs0 & st & M & L & C & _ & Fl & _ & _ & K & _).
    exists fs0, st. repeat (split; [assumption|]).
    unfold strset_mem. apply set_mem_correct2. rewrite K. unfold keep_of.
    apply keep_of_mem. right. now exists a.
  - intros Hp Hf.
    exact (extract_assets_keeps_listed unzip TEXTURE_EXTS fs fs' base_dir cache_root
             assets tm fl a W Pc H Hin Hp Hf).
Qed.

Lemma extract_assets_keeps_plain_destination_witness :
  exists fs',
    extract_assets Demo.unzip Demo.exts Demo.stale Demo.game Demo.cache
      [(Demo.missing, parse "b.png")] = Ok (fs', [], ["b.png"])
    /\ is_file fs' (joinpath Demo.cache (parse "b.png")) = true.
Proof.
  eexists. split; [vm_compute; reflexivity|].
  refine (proj2 (extract_assets_keeps_plain_destination Demo.unzip Demo.exts Demo.stale _
                   Demo.game Demo.cache [(Demo.missing, parse "b.png")] [] ["b.png"]
                   (Demo.missing, parse "b.png") _ _ _ _) _ _).
  - apply wf_b_sound. vm_compute. reflexivity.
  - apply plain_b_sound. vm_compute. reflexivity.
  - vm_compute. reflexivity.
  - simpl. left. reflexivity.
  - split; [reflexivity|apply plain_b_sound; reflexivity].
  - vm_compute. reflexivity.
Defined.

(* ================================================================== *)
(** * The index and the order of directory listings *)
(* ================================================================== *)

Import ODictFacts ListingFacts.

(** C9.  The index is a function of the tree and of the scan root, and
    what the claim names does not depend on the order in which the
    directories list their entries either.  Let [fs2] hold the entries of
    [fs1] in another order.  If [build_index] returns on [fs1], it returns
    on [fs2]; the two indexes have the same model names; and under every
    name the primary sources are of the same priority class (disk, the
    archive [assets1.pk3], another archive) and the lists of skins have
    the same elements. *)
Theorem build_index_listing_order (unzip : string -> result (list ZipInfo))
    (TEXTURE_EXTS : list string) (fs1 fs2 : t) (base_dir : Path) (idx1 : Index) :
  NoDup (keys fs1) -> Permutation fs1 fs2 ->
  build_index unzip TEXTURE_EXTS fs1 base_dir = Ok idx1 ->
  exists idx2,
    build_index unzip TEXTURE_EXTS fs2 base_dir = Ok idx2
    /\ (forall n, In n (ODict.keys (models idx1)) <-> In n (ODict.keys (models idx2)))
    /\ forall n e1 e2,
         ODict.get String.eqb n (models idx1) = Some e1 ->
         ODict.get String.eqb n (models idx2) = Some e2 ->
         priority_class (primary e1) = priority_class (primary e2)
         /\ forall p, In p (entry_skins e1) <-> In p (entry_skins e2).
Proof.
  intros N P B1.
  destruct (build_index_listing TEXTURE_EXTS fs1 fs2 N P base_dir unzip idx1 B1)
    as (idx2 & tmp1 & tmp2 & B2 & M1 & M2 & N1 & N2 & Eq).
  exists idx2. split; [exact B2|].
  assert (G1 : forall n, ODict.get String.eqb n (models idx1)
                         = finalize_model (get_entry n tmp1))
    by (intros n; rewrite M1; now apply finalize_models_get).
  assert (G2 : forall n, ODict.get String.eqb n (models idx2)
                         = finalize_model (get_entry n tmp2))
    by (intros n; rewrite M2; now apply finalize_models_get).
  split.
  - intros n. unfold ODict.keys.
    pose proof (gen_get_none _ _ String.eqb String.eqb_eq n (models idx1)) as K1.
    pose proof (gen_get_none _ _ String.eqb String.eqb_eq n (models idx2)) as K2.
    pose proof (finalize_model_hdr _ _ (proj1 (Eq n))) as H.
    rewrite <- G1, <- G2 in H.
    destruct (ODict.get String.eqb n (models idx1)) as [e1|],
             (ODict.get String.eqb n (models idx2)) as [e2|]; try contradiction.
    + split; intros _.
      * destruct (in_dec string_dec n (map fst (models idx2))) as [Hin|Hout];
          [exact Hin|]. apply K2 in Hout. discriminate.
      * destruct (in_dec string_dec n (map fst (models idx1))) as [Hin|Hout];
          [exact Hin|]. apply K1 in Hout. discriminate.
    + split; intros Hin; exfalso.
      * now apply (proj1 K1 eq_refl).
      * now apply (proj1 K2 eq_refl).
  - intros n e1 e2 H1 H2. rewrite G1 in H1. rewrite G2 in H2.
    pose proof (finalize_model_hdr _ _ (proj1 (Eq n))) as H.
    rewrite H1, H2 in H. split; [exact H|].
    intros p. rewrite (finalize_model_skins _ _ p H1), (finalize_model_skins _ _ p H2).
    apply (proj2 (Eq n)).
Qed.

Lemma build_index_listing_order_witness :
  exists idx2,
    build_index Demo.unzip Demo.exts (rev Demo.tree) Demo.game = Ok idx2
    /\ (forall n, In n (ODict.keys (models Demo.index)) <-> In n (ODict.keys (models idx2)))
    /\ forall n e1 e2,
         ODict.get String.eqb n (models Demo.index) = Some e1 ->
         ODict.get String.eqb n (models idx2) = Some e2 ->
         priority_class (primary e1) = priority_class (primary e2)
         /\ forall p, In p (entry_skins e1) <-> In p (entry_skins e2).
Proof.
  apply (build_index_listing_order Demo.unzip Demo.exts Demo.tree (rev Demo.tree)
           Demo.game Demo.index).
  - apply nodup_b_sound. vm_compute. reflexivity.
  - apply Permutation_rev.
  - vm_compute. reflexivity.
Defined.

(* ================================================================== *)
(** * Further properties: the resolution of a skin *)
(* ================================================================== *)

Module SkinMore.
Import More MoreNotions ODictFacts ResolveFacts.

Lemma find_first (A : Type) (f : A -> bool) (l : list A) :
  match find f l with
  | Some x => first_with f l x
  | None => forall y, In y l -> f y = false
  end.
Proof.
  induction l as [|a l IH]; cbn [find]; [intros y []|].
  destruct (f a) eqn:E.
  - exists [], l. split; [reflexivity|]. split; [exact E|]. intros y [].
  - destruct (find f l) as [x|].
    + destruct IH as (before & after & -> & Hx & Hb).
      exists (a :: before), after. split; [reflexivity|]. split; [exact Hx|].
      intros y [<-|Hy]; [exact E|now apply Hb].
    + intros y [<-|Hy]; [exact E|now apply IH].
Qed.

Lemma first_with_in (A : Type) (f : A -> bool) (l : list A) (x : A) :
  first_with f l x -> In x l.
Proof. intros (before & after & -> & _). apply in_elt. Qed.

Lemma first_some_found (A B : Type) (f : A -> option B) (l : list A) (y : B) :
  first_some f l = Some y ->
  exists before x after,
    l = before ++ x :: after /\ f x = Some y /\ forall a, In a before -> f a = None.
Proof.
  induction l as [|a l IH]; cbn [first_some]; [discriminate|].
  destruct (f a) as [b|] eqn:E.
  - intros [= <-]. exists [], a, l. split; [reflexivity|]. split; [exact E|]. intros x [].
  - intros H. destruct (IH H) as (before & x & after & -> & Hx & Hb).
    exists (a :: before), x, after. split; [reflexivity|]. split; [exact Hx|].
    intros x' [<-|Hx']; [exact E|now apply Hb].
Qed.

(** [choose] as two searches. *)
Lemma choose_find (preferred : option ModelSource) (l : nelist FileSource) :
  choose preferred l
  = match find (in_preferred preferred) (ne_list l) with
    | Some fs => fs
    | None =>
        match find on_disk (ne_list l) with
        | Some fs => fs
        | None => ne_head l
        end
    end.
Proof.
  unfold choose, in_preferred. destruct preferred as [p|].
  - destruct (container p) as [c|]; [reflexivity|].
    replace (find (fun _ : FileSource => false) (ne_list l)) with (@None FileSource);
      [reflexivity|].
    induction (ne_list l) as [|a r IH]; [reflexivity|exact IH].
  - replace (find (fun _ : FileSource => false) (ne_list l)) with (@None FileSource);
      [reflexivity|].
    induction (ne_list l) as [|a r IH]; [reflexivity|exact IH].
Qed.

Lemma choose_in (preferred : option ModelSource) (l : nelist FileSource) :
  In (choose preferred l) (ne_list l).
Proof.
  rewrite choose_find.
  destruct (find (in_preferred preferred) (ne_list l)) as [x|] eqn:F1;
    [now apply find_some in F1|].
  destruct (find on_disk (ne_list l)) as [y|] eqn:F2; [now apply find_some in F2|].
  now left.
Qed.

End SkinMore.

Import More MoreNotions SkinMore ODictFacts ResolveFacts.

(** X1.  The source [choose] picks among the sources listed under a key is
    one of them: the first that lies in the container of the preferred
    model source, if there is one; else the first on disk, if there is
    one; else the first of the list. *)
Theorem choose_picks_listed (preferred : option ModelSource) (l : nelist FileSource) :
  In (choose preferred l) (ne_list l)
  /\ ((exists fs, In fs (ne_list l) /\ in_preferred preferred fs = true) ->
      first_with (in_preferred preferred) (ne_list l) (choose preferred l))
  /\ ((forall fs, In fs (ne_list l) -> in_preferred preferred fs = false) ->
      (exists fs, In fs (ne_list l) /\ on_disk fs = true) ->
      first_with on_disk (ne_list l) (choose preferred l))
  /\ ((forall fs, In fs (ne_list l) -> in_preferred preferred fs = false) ->
      (forall fs, In fs (ne_list l) -> on_disk fs = false) ->
      choose preferred l = ne_head l).
Proof.
  rewrite choose_find.
  pose proof (find_first _ (in_preferred preferred) (ne_list l)) as F1.
  pose proof (find_first _ on_disk (ne_list l)) as F2.
  destruct (find (in_preferred preferred) (ne_list l)) as [x|].
  - split; [now apply (first_with_in _ _ _ _ F1)|]. split; [intros _; exact F1|].
    assert (Hx : In x (ne_list l)) by (now apply (first_with_in _ _ _ _ F1)).
    destruct F1 as (b & a & _ & Px & _).
    split; intros H; rewrite (H x Hx) in Px; discriminate.
  - destruct (find on_disk (ne_list l)) as [y|].
    + split; [now apply (first_with_in _ _ _ _ F2)|].
      split; [intros (fs & Hfs & Hp); rewrite (F1 fs Hfs) in Hp; discriminate|].
      split; [intros _ _; exact F2|].
      assert (Hy : In y (ne_list l)) by (now apply (first_with_in _ _ _ _ F2)).
      destruct F2 as (b & a & _ & Py & _).
      intros _ H. rewrite (H y Hy) in Py. discriminate.
    + split; [now left|].
      split; [intros (fs & Hfs & Hp); rewrite (F1 fs Hfs) in Hp; discriminate|].
      split; [intros _ (fs & Hfs & Hd); rewrite (F2 fs Hfs) in Hd; discriminate|].
      reflexivity.
Qed.

Lemma choose_picks_listed_witness :
  let a := mkFileSource "pk3" (Some (parse "/game/extra.pk3")) (parse "textures/t.png") in
  let b := mkFileSource "disk" None (parse "textures/t.png") in
  let src := mkModelSource "pk3" (Some (parse "/game/assets1.pk3")) None [] [] in
  first_with on_disk [a; b] (choose (Some src) (mkNe a [b])).
Proof.
  intros a b src.
  apply (proj1 (proj2 (proj2 (choose_picks_listed (Some src) (mkNe a [b]))))).
  - intros fs [<-|[<-|[]]]; reflexivity.
  - exists b. split; [right; now left|reflexivity].
Defined.

Module SkinMore2.
Import ODictFacts ResolveFacts.

Lemma resolve_by_ext_sound (index : Index) (tex_path : Path)
    (preferred : option ModelSource) (exts : list string)
    (r : option (FileSource * Path)) :
  resolve_by_ext index tex_path preferred exts = Ok r ->
  match r with
  | Some (fs, rel) =>
      exists before ext after l,
        exts = before ++ ext :: after
        /\ (forall e, In e before -> ext_misses index tex_path e)
        /\ ext_hits index tex_path ext l
        /\ fs = choose preferred l /\ rel = fs_rel_path fs
  | None => forall e, In e exts -> ext_misses index tex_path e
  end.
Proof.
  revert r. induction exts as [|e exts IH]; intros r; cbn [resolve_by_ext].
  - intros [= <-]. intros e [].
  - destruct (with_suffix tex_path e) as [candidate|] eqn:W; [|discriminate].
    destruct (ODict.get String.eqb (normalize_rel candidate) (textures_by_rel index))
      as [l|] eqn:G.
    + intros [= <-]. exists [], e, exts, l. split; [reflexivity|].
      split; [intros x []|]. split; [now exists candidate|]. now split.
    + intros H. specialize (IH r H).
      assert (M : ext_misses index tex_path e) by (now exists candidate).
      destruct r as [[fs rel]|].
      * destruct IH as (before & ext & after & l & -> & Hb & Hh & Hf).
        exists (e :: before), ext, after, l. split; [reflexivity|].
        split; [|now split]. intros x [<-|Hx]; [exact M|now apply Hb].
      * intros x [<-|Hx]; [exact M|now apply IH].
Qed.

End SkinMore2.

Import SkinMore2.

(** X2.  What [resolve_texture] returns comes from the index.  A source it
    returns is the one [choose] picks among the sources the path table
    lists for the first extension that hits, or, when no extension hits,
    among the sources the stem table lists for the lower-cased stem of the
    reference; the path returned with it is the path of that source.  When
    it returns nothing, no extension hits and the stem is not in the stem
    table. *)
Theorem resolve_texture_from_index (TEXTURE_EXTS : list string) (index : Index)
    (tex_entry : string) (preferred : option ModelSource)
    (r : option (FileSource * Path)) :
  resolve_texture TEXTURE_EXTS index tex_entry preferred = Ok r ->
  match r with
  | Some (fs, rel) =>
      rel = fs_rel_path fs
      /\ exists l,
           fs = choose preferred l /\ In fs (ne_list l)
           /\ ((exists before ext after,
                   TEXTURE_EXTS = before ++ ext :: after
                   /\ (forall e, In e before -> ext_misses index (parse tex_entry) e)
                   /\ ext_hits index (parse tex_entry) ext l)
               \/ ((forall e, In e TEXTURE_EXTS -> ext_misses index (parse tex_entry) e)
                   /\ ODict.get String.eqb (lower (stem (parse tex_entry)))
                        (textures_by_stem index) = Some l))
  | None =>
      (forall e, In e TEXTURE_EXTS -> ext_misses index (parse tex_entry) e)
      /\ ODict.get String.eqb (lower (stem (parse tex_entry))) (textures_by_stem index)
         = None
  end.
Proof.
  unfold resolve_texture.
  destruct (resolve_by_ext index (parse tex_entry) preferred TEXTURE_EXTS) as [r0|e] eqn:R;
    [|discriminate].
  cbn [bind]. apply resolve_by_ext_sound in R. destruct r0 as [[fs rel]|].
  - intros [= <-]. destruct R as (before & ext & after & l & E & Hb & Hh & -> & ->).
    split; [reflexivity|]. exists l. split; [reflexivity|].
    split; [apply choose_in|]. left. now exists before, ext, after.
  - intros [= <-]. unfold resolve_by_stem.
    destruct (ODict.get String.eqb (lower (stem (parse tex_entry))) (textures_by_stem index))
      as [l|] eqn:G.
    + split; [reflexivity|]. exists l. split; [reflexivity|].
      split; [apply choose_in|]. right. now split.
    + now split.
Qed.

Lemma resolve_texture_from_index_witness :
  let found := mkFileSource "pk3" (Some (parse "/game/assets1.pk3")) (parse "anything/x.png") in
  let index := mkIndex Demo.game []
                 [("anything/x.png", mkNe found [])] [("x", mkNe found [])] [] in
  parse "anything/x.png" = fs_rel_path found
  /\ exists l,
       found = choose None l /\ In found (ne_list l)
       /\ ((exists before ext after,
               Demo.exts = before ++ ext :: after
               /\ (forall e, In e before -> ext_misses index (parse "textures/x") e)
               /\ ext_hits index (parse "textures/x") ext l)
           \/ ((forall e, In e Demo.exts -> ext_misses index (parse "textures/x") e)
               /\ ODict.get String.eqb (lower (stem (parse "textures/x")))
                    (textures_by_stem index) = Some l)).
Proof.
  intros found index.
  apply (resolve_texture_from_index Demo.exts index "textures/x" None
           (Some (found, parse "anything/x.png"))).
  vm_compute. reflexivity.
Defined.

(** X3.  [find_skin_source] looks a skin up by its key, not by its text.
    The source it returns carries the origin and the container of a source
    of the entry and the path of one of its skins, as the source lists it,
    whose key is the key of the path asked for; it is the first such skin
    of the first such source.  It returns nothing exactly when no skin of
    any source of the entry has that key. *)
Theorem find_skin_source_by_key (entry : ModelEntry) (skin_rel : Path) :
  (forall r,
      find_skin_source entry skin_rel = Some r ->
      exists before src after cbefore cafter,
        sources entry = before ++ src :: after
        /\ skins src = cbefore ++ fs_rel_path r :: cafter
        /\ normalize_rel (fs_rel_path r) = normalize_rel skin_rel
        /\ fs_origin r = origin src /\ fs_container r = container src
        /\ (forall s c, In s before -> In c (skins s) ->
                        normalize_rel c <> normalize_rel skin_rel)
        /\ (forall c, In c cbefore -> normalize_rel c <> normalize_rel skin_rel))
  /\ (find_skin_source entry skin_rel = None
      <-> forall s c, In s (sources entry) -> In c (skins s) ->
                      normalize_rel c <> normalize_rel skin_rel).
Proof.
  unfold find_skin_source. cbv zeta.
  set (pick := fun (src : ModelSource) (candidate : Path) =>
                 if String.eqb (normalize_rel candidate) (normalize_rel skin_rel)
                 then Some (mkFileSource (origin src) (container src) candidate)
                 else None).
  assert (None_iff : forall src c,
             pick src c = None <-> normalize_rel c <> normalize_rel skin_rel).
  { intros src c. unfold pick.
    destruct (String.eqb_spec (normalize_rel c) (normalize_rel skin_rel));
      split; congruence. }
  change (fun src : ModelSource =>
            first_some
              (fun candidate : Path =>
                 if String.eqb (normalize_rel candidate) (normalize_rel skin_rel)
                 then Some (mkFileSource (origin src) (container src) candidate)
                 else None) (skins src))
    with (fun src : ModelSource => first_some (pick src) (skins src)).
  split.
  - intros r H. apply first_some_found in H as (before & src & after & Es & Hs & Hb).
    apply first_some_found in Hs as (cbefore & c & cafter & Ec & Hc & Hcb).
    unfold pick in Hc.
    destruct (String.eqb_spec (normalize_rel c) (normalize_rel skin_rel)) as [En|];
      [|discriminate].
    injection Hc as <-. cbn [fs_rel_path fs_origin fs_container].
    exists before, src, after, cbefore, cafter.
    split; [exact Es|]. split; [exact Ec|]. split; [exact En|].
    split; [reflexivity|]. split; [reflexivity|]. split.
    + intros s c' Hin Hc'. apply (None_iff s).
      exact (proj1 (first_some_none _ _) (Hb s Hin) c' Hc').
    + intros c' Hc'. apply (None_iff src). now apply Hcb.
  - rewrite first_some_none. split.
    + intros H s c Hs Hc. apply (None_iff s).
      exact (proj1 (first_some_none _ _) (H s Hs) c Hc).
    + intros H s Hs. apply first_some_none. intros c Hc. apply None_iff. now apply (H s c).
Qed.

Lemma find_skin_source_by_key_witness :
  exists src,
    In src (sources Demo.kyle)
    /\ In (parse "models/players/kyle/model_red.skin") (skins src)
    /\ origin src = "disk".
Proof.
  destruct (proj1 (find_skin_source_by_key Demo.kyle
                     (parse "MODELS/Players/Kyle/MODEL_RED.SKIN"))
              (mkFileSource "disk" None (parse "models/players/kyle/model_red.skin")))
    as (before & src & after & cb & ca & Es & Ec & _ & Ho & _).
  - vm_compute. reflexivity.
  - exists src. split; [rewrite Es; apply in_elt|]. split; [|now rewrite <- Ho].
    cbn [fs_rel_path] in Ec. rewrite Ec. apply in_elt.
Defined.

Module SkinMore3.
Import ODictFacts ResolveFacts.

Section Collect.
Variable TEXTURE_EXTS : list string.
Variable index : Index.
Variable primary_src : ModelSource.

Lemma collect_textures_result (texs : list string) (acc col : Collected) :
  collect_textures TEXTURE_EXTS index primary_src acc texs = Ok col ->
  c_textures col
  = c_textures acc
    ++ flat_map (fun t => match resolve_texture TEXTURE_EXTS index t (Some primary_src) with
                          | Ok (Some a) => [a]
                          | _ => []
                          end) texs
  /\ c_missing col
     = c_missing acc
       ++ filter (fun t => match resolve_texture TEXTURE_EXTS index t (Some primary_src) with
                           | Ok None => true
                           | _ => false
                           end) texs
  /\ forall k,
       ODict.get String.eqb k (c_replacements col)
       = match (if existsb (String.eqb k) texs
                then match resolve_texture TEXTURE_EXTS index k (Some primary_src) with
                     | Ok (Some (_, rel)) =>
                         if negb (String.eqb (as_posix rel) k) then Some (as_posix rel)
                         else None
                     | _ => None
                     end
                else None) with
         | Some v => Some v
         | None => ODict.get String.eqb k (c_replacements acc)
         end.
Proof.
  revert acc. induction texs as [|t texs IH]; intros acc;
    cbn [collect_textures flat_map filter existsb].
  - intros [= <-]. now rewrite !app_nil_r.
  - unfold collect_texture at 1.
    destruct (resolve_texture TEXTURE_EXTS index t (Some primary_src)) as [[[fsrc rel]|]|e]
      eqn:R; [| |discriminate]; cbn [bind]; intros H;
      destruct (IH _ H) as (T & M & Rp);
      cbn [c_textures c_missing c_replacements] in *.
    + split; [now rewrite T, <- app_assoc|]. split; [exact M|].
      intros k. rewrite (Rp k).
      destruct (String.eqb_spec k t) as [->|N]; cbn [orb].
      * rewrite R.
        destruct (existsb (String.eqb t) texs);
          destruct (negb (String.eqb (as_posix rel) t)) eqn:D; try reflexivity.
        now rewrite get_set, String.eqb_refl.
      * assert (G : ODict.get String.eqb k
                      (if negb (String.eqb (as_posix rel) t)
                       then ODict.set String.eqb t (as_posix rel) (c_replacements acc)
                       else c_replacements acc)
                    = ODict.get String.eqb k (c_replacements acc)).
        { destruct (negb (String.eqb (as_posix rel) t)); [|reflexivity].
          rewrite get_set. destruct (String.eqb_spec t k); [congruence|reflexivity]. }
        now rewrite G.
    + split; [exact T|]. split; [now rewrite M, <- app_assoc|].
      intros k. rewrite (Rp k).
      destruct (String.eqb_spec k t) as [->|N]; cbn [orb]; [|reflexivity].
      rewrite R. now destruct (existsb (String.eqb t) texs).
Qed.

End Collect.

End SkinMore3.

Import SkinMore3.

(** X4.  [collect_assets_for_skin] raises [ValueError("Model not found")]
    for a name the index does not hold, and
    [ValueError("Skin file not found")] when no source of the entry lists
    the skin, before any file is read.  When it returns, the asset list
    begins with the model file of the primary source and the skin, placed
    at the path asked for (the primary source of an entry of a built
    index has a model file); then comes the skeleton, if [find_gla] finds
    one; then the textures.  The textures are what [resolve_texture] gives
    for the references of the skin that resolve, in the order of the
    references; the missing ones are the references it gives nothing for,
    in that order; and a text has a replacement exactly when it is a
    reference that resolves to a path whose text differs from it, and the
    replacement is that text. *)
Theorem collect_assets_for_skin_result (unzip : string -> result (list ZipInfo))
    (decode_utf8 decode_locale : string -> string) (TEXTURE_EXTS : list string)
    (fs : FS.t) (index : Index) (base_dir : Path) (model_name : string) (skin_rel : Path) :
  let run := collect_assets_for_skin unzip decode_utf8 decode_locale TEXTURE_EXTS fs index
               base_dir model_name skin_rel in
  (ODict.get String.eqb model_name (models index) = None ->
   run = Raise (ValueError "Model not found"))
  /\ (forall entry,
        ODict.get String.eqb model_name (models index) = Some entry ->
        find_skin_source entry skin_rel = None ->
        run = Raise (ValueError "Skin file not found"))
  /\ (forall entry glm_rel assets missing replacements,
        ODict.get String.eqb model_name (models index) = Some entry ->
        glm (primary entry) = Some glm_rel ->
        run = Ok (assets, missing, replacements) ->
        exists skin_src text,
          find_skin_source entry skin_rel = Some skin_src
          /\ read_text_from_source unzip decode_utf8 decode_locale fs skin_src base_dir
             = Ok text
          /\ assets
             = (mkFileSource (origin (primary entry)) (container (primary entry)) glm_rel,
                glm_rel)
               :: (skin_src, skin_rel)
               :: match find_gla index model_name entry with
                  | Some gla_src => [(gla_src, fs_rel_path gla_src)]
                  | None => []
                  end
               ++ flat_map
                    (fun t =>
                       match resolve_texture TEXTURE_EXTS index t (Some (primary entry)) with
                       | Ok (Some a) => [a]
                       | _ => []
                       end)
                    (ODict.values (parse_skin_text text))
          /\ missing
             = filter
                 (fun t =>
                    match resolve_texture TEXTURE_EXTS index t (Some (primary entry)) with
                    | Ok None => true
                    | _ => false
                    end)
                 (ODict.values (parse_skin_text text))
          /\ (forall k v,
                ODict.get String.eqb k replacements = Some v
                <-> In k (ODict.values (parse_skin_text text))
                    /\ exists fsrc rel,
                         resolve_texture TEXTURE_EXTS index k (Some (primary entry))
                         = Ok (Some (fsrc, rel))
                         /\ v = as_posix rel /\ v <> k)).
Proof.
  intros run. subst run. unfold collect_assets_for_skin.
  split; [intros ->; reflexivity|]. split.
  { intros entry -> ->. reflexivity. }
  intros entry glm_rel assets missing replacements -> ->.
  destruct (find_skin_source entry skin_rel) as [skin_src|] eqn:Fs; [|discriminate].
  destruct (read_text_from_source unzip decode_utf8 decode_locale fs skin_src base_dir)
    as [text|e] eqn:Rt; [|discriminate].
  cbn [bind].
  destruct (collect_textures TEXTURE_EXTS index (primary entry) (mkCollected [] [] [])
              (ODict.values (parse_skin_text text))) as [col|e] eqn:C; [|discriminate].
  cbn [bind]. intros H. injection H as <- <- <-.
  destruct (collect_textures_result _ _ _ _ _ _ C) as (T & M & Rp).
  cbn [c_textures c_missing c_replacements app] in *.
  exists skin_src, text.
  split; [reflexivity|]. split; [exact Rt|].
  split.
  { cbn [fs_rel_path]. rewrite T. destruct (find_gla index model_name entry); reflexivity. }
  split; [exact M|].
  intros k v. rewrite (Rp k). cbn [ODict.get].
  destruct (existsb (String.eqb k) (ODict.values (parse_skin_text text))) eqn:Ex.
  - assert (Hin : In k (ODict.values (parse_skin_text text))).
    { apply existsb_exists in Ex as (x & Hx & E). apply String.eqb_eq in E. now subst x. }
    destruct (resolve_texture TEXTURE_EXTS index k (Some (primary entry)))
      as [[[fsrc rel]|]|e] eqn:R.
    + destruct (String.eqb_spec (as_posix rel) k) as [E|N]; cbn [negb].
      * split; [discriminate|]. intros (_ & f & r & [= <- <-] & -> & N). now elim N.
      * split.
        -- intros [= <-]. split; [exact Hin|]. exists fsrc, rel. now repeat split.
        -- intros (_ & f & r & [= <- <-] & -> & _). reflexivity.
    + split; [discriminate|]. intros (_ & f & r & H & _). discriminate.
    + split; [discriminate|]. intros (_ & f & r & H & _). discriminate.
  - split; [discriminate|]. intros (Hin & _). exfalso.
    assert (Ex' : existsb (String.eqb k) (ODict.values (parse_skin_text text)) = true).
    { apply existsb_exists. exists k. split; [exact Hin|apply String.eqb_refl]. }
    congruence.
Qed.

(** The two errors; and a run that returns, on the tree of the example
    with the skin [model_red.skin] rewritten to name the texture of the
    head without its suffix: the texture is found under its full name,
    which is recorded as the replacement of the reference. *)
Lemma collect_assets_for_skin_result_witness :
  let fs := ODict.set list_eqb ["game"; "models"; "players"; "kyle"; "model_red.skin"]
              (FS.File "head,models/players/kyle/head") Demo.tree in
  collect_assets_for_skin Demo.unzip (fun b => b) (fun b => b) Demo.exts Demo.tree
    Demo.index Demo.game "nobody" (parse "models/players/kyle/model_red.skin")
  = Raise (ValueError "Model not found")
  /\ collect_assets_for_skin Demo.unzip (fun b => b) (fun b => b) Demo.exts Demo.tree
       Demo.index Demo.game "kyle" (parse "models/players/kyle/model_green.skin")
     = Raise (ValueError "Skin file not found")
  /\ exists assets,
       collect_assets_for_skin Demo.unzip (fun b => b) (fun b => b) Demo.exts fs
         Demo.index Demo.game "kyle" (parse "models/players/kyle/model_red.skin")
       = Ok (assets, [],
             [("models/players/kyle/head", "models/players/kyle/head.jpg")])
       /\ forall k v,
            ODict.get String.eqb k
              [("models/players/kyle/head", "models/players/kyle/head.jpg")] = Some v
            <-> In k (ODict.values (parse_skin_text "head,models/players/kyle/head"))
                /\ exists fsrc rel,
                     resolve_texture Demo.exts Demo.index k (Some (primary Demo.kyle))
                     = Ok (Some (fsrc, rel))
                     /\ v = as_posix rel /\ v <> k.
Proof.
  intros fs. split; [|split].
  - apply (proj1 (collect_assets_for_skin_result Demo.unzip (fun b => b) (fun b => b)
                    Demo.exts Demo.tree Demo.index Demo.game "nobody"
                    (parse "models/players/kyle/model_red.skin"))).
    reflexivity.
  - apply (proj1 (proj2 (collect_assets_for_skin_result Demo.unzip (fun b => b)
                           (fun b => b) Demo.exts Demo.tree Demo.index Demo.game "kyle"
                           (parse "models/players/kyle/model_green.skin"))) Demo.kyle).
    + reflexivity.
    + vm_compute. reflexivity.
  - eexists. split; [vm_compute; reflexivity|].
    destruct (proj2 (proj2 (collect_assets_for_skin_result Demo.unzip (fun b => b)
                              (fun b => b) Demo.exts fs Demo.index Demo.game "kyle"
                              (parse "models/players/kyle/model_red.skin")))
                Demo.kyle (parse "models/players/kyle/model.glm") _ _ _
                eq_refl eq_refl eq_refl)
      as (skin_src & text & Fs & Rt & _ & _ & Rp).
    vm_compute in Fs. injection Fs as <-. vm_compute in Rt. injection Rt as <-.
    exact Rp.
Defined.

Module SkinMore4.
Import ODictFacts SkinTextFacts.

Lemma rstrip_ws_cons (c : ascii) (r : string) :
  rstrip_ws (String c r)
  = match rstrip_ws r with
    | EmptyString => if isspace c then EmptyString else String c EmptyString
    | String c' r' => String c (String c' r')
    end.
Proof. reflexivity. Qed.

Lemma rstrip_ws_idem (s : string) : rstrip_ws (rstrip_ws s) = rstrip_ws s.
Proof.
  induction s as [|c r IH]; [reflexivity|]. rewrite rstrip_ws_cons.
  destruct (rstrip_ws r) as [|c' r'] eqn:E.
  - destruct (isspace c) eqn:Sp; [reflexivity|]. rewrite rstrip_ws_cons.
    cbn [rstrip_ws]. now rewrite Sp.
  - rewrite rstrip_ws_cons, IH. reflexivity.
Qed.

Lemma lstrip_ws_head (s : string) :
  lstrip_ws s = "" \/ exists c r, lstrip_ws s = String c r /\ isspace c = false.
Proof.
  induction s as [|c r IH]; [now left|]. cbn [lstrip_ws].
  destruct (isspace c) eqn:Sp; [exact IH|]. right. now exists c, r.
Qed.

Lemma rstrip_ws_head (c : ascii) (r : string) :
  isspace c = false -> exists r', rstrip_ws (String c r) = String c r'.
Proof.
  intros Sp. rewrite rstrip_ws_cons. destruct (rstrip_ws r) as [|c' r'].
  - rewrite Sp. now exists "".
  - now exists (String c' r').
Qed.

Lemma strip_idem (s : string) : strip (strip s) = strip s.
Proof.
  unfold strip. destruct (lstrip_ws_head s) as [->|(c & r & -> & Sp)]; [reflexivity|].
  destruct (rstrip_ws_head c r Sp) as (r' & E).
  assert (L : lstrip_ws (rstrip_ws (String c r)) = rstrip_ws (String c r)).
  { rewrite E. cbn [lstrip_ws]. now rewrite Sp. }
  rewrite L. apply rstrip_ws_idem.
Qed.

Lemma mem_char_lstrip_ws (a : ascii) (s : string) :
  mem_char a s = false -> mem_char a (lstrip_ws s) = false.
Proof.
  induction s as [|c r IH]; [reflexivity|]. cbn [lstrip_ws mem_char].
  intros H. apply orb_false_iff in H as [H1 H2].
  destruct (isspace c); [now apply IH|]. cbn [mem_char]. now rewrite H1, H2.
Qed.

Lemma mem_char_rstrip_ws (a : ascii) (s : string) :
  mem_char a s = false -> mem_char a (rstrip_ws s) = false.
Proof.
  induction s as [|c r IH]; [reflexivity|]. rewrite rstrip_ws_cons. cbn [mem_char].
  intros H. apply orb_false_iff in H as [H1 H2]. specialize (IH H2).
  destruct (rstrip_ws r) as [|c' r'].
  - destruct (isspace c); [reflexivity|]. cbn [mem_char]. now rewrite H1.
  - change (mem_char a (String c (String c' r')))
      with (Ascii.eqb a c || mem_char a (String c' r')).
    now rewrite H1, IH.
Qed.

Lemma mem_char_strip (a : ascii) (s : string) :
  mem_char a s = false -> mem_char a (strip s) = false.
Proof. intros H. unfold strip. now apply mem_char_rstrip_ws, mem_char_lstrip_ws. Qed.

(** What a line can bind. *)
Lemma line_binding_shape (raw_line part tex : string) :
  line_binding raw_line = Some (part, tex) ->
  mem_char "," part = false /\ strip part = part /\ strip tex = tex
  /\ lower tex <> "*off" /\ lower tex <> "off".
Proof.
  unfold line_binding.
  destruct (String.eqb (strip raw_line) ""); [discriminate|].
  destruct (startswith (strip raw_line) "//"); [discriminate|].
  destruct (split_once "," (strip raw_line)) as [[p t]|] eqn:S; [|discriminate].
  destruct (String.eqb_spec (lower (strip t)) "*off") as [|N1]; [discriminate|].
  destruct (String.eqb_spec (lower (strip t)) "off") as [|N2]; [discriminate|].
  intros [= <- <-]. apply split_once_first in S as [_ M].
  split; [now apply mem_char_strip|]. split; [apply strip_idem|].
  split; [apply strip_idem|]. now split.
Qed.

Lemma in_dict_set (k q : string) (v w : string) (d : ODict.t string string) :
  In (q, w) (ODict.set String.eqb k v d) -> (q, w) = (k, v) \/ In (q, w) d.
Proof.
  induction d as [|[k' v'] d IH]; cbn [ODict.set].
  - intros [H|[]]. left. now symmetry.
  - destruct (String.eqb_spec k' k) as [->|N].
    + intros [H|H]; [left; now symmetry|right; now right].
    + intros [H|H]; [right; now left|]. destruct (IH H) as [E|Hin]; [now left|].
      right. now right.
Qed.

End SkinMore4.

Import SkinMore4.

(** X5.  The binding map [parse_skin_text] returns has one binding per
    part name; no part name is empty, holds a comma, or begins or ends
    with white space; no texture reference begins or ends with white space
    or is [off] or [*off] in any letter case. *)
Theorem parse_skin_text_entries (text : string) :
  NoDup (ODict.keys (parse_skin_text text))
  /\ forall part tex,
       In (part, tex) (parse_skin_text text) ->
       part <> "" /\ mem_char "," part = false
       /\ strip part = part /\ strip tex = tex
       /\ lower tex <> "*off" /\ lower tex <> "off".
Proof.
  unfold parse_skin_text.
  assert (G : forall lines m,
             (NoDup (map fst m)
              /\ forall part tex, In (part, tex) m ->
                   part <> "" /\ mem_char "," part = false
                   /\ strip part = part /\ strip tex = tex
                   /\ lower tex <> "*off" /\ lower tex <> "off") ->
             NoDup (map fst (fold_left parse_skin_line lines m))
             /\ forall part tex, In (part, tex) (fold_left parse_skin_line lines m) ->
                  part <> "" /\ mem_char "," part = false
                  /\ strip part = part /\ strip tex = tex
                  /\ lower tex <> "*off" /\ lower tex <> "off").
  { induction lines as [|l lines IH]; intros m Hm; [exact Hm|].
    cbn [fold_left]. apply IH. rewrite SkinTextFacts.parse_skin_line_binding.
    destruct (line_binding l) as [[p t]|] eqn:B; [|exact Hm].
    destruct (String.eqb_spec p "") as [->|Np]; [exact Hm|].
    destruct Hm as (N & Hm). split.
    - now apply (ListingFacts.set_nodup _ _ String.eqb String.eqb_eq).
    - intros part tex Hin. apply in_dict_set in Hin as [E|Hin]; [|now apply Hm].
      injection E as -> ->. split; [exact Np|]. now apply (line_binding_shape l). }
  apply G. split; [constructor|]. intros part tex [].
Qed.

Module SkinMore5.

Lemma length_app_str (a b : string) :
  String.length (String.append a b) = String.length a + String.length b.
Proof. induction a as [|c a IH]; cbn; [reflexivity|now rewrite IH]. Qed.

Lemma rfind_app (c : ascii) (a t : string) (i : nat) :
  rfind c t = Some i -> rfind c (String.append a t) = Some (String.length a + i).
Proof.
  intros H. induction a as [|x a IH]; [exact H|].
  cbn [String.append rfind String.length]. now rewrite IH.
Qed.

Lemma substring_all (s : string) : substring 0 (String.length s) s = s.
Proof. induction s as [|c s IH]; cbn; [reflexivity|now rewrite IH]. Qed.

Lemma substring_prefix (a b : string) :
  substring 0 (String.length a) (String.append a b) = a.
Proof.
  induction a as [|c a IH]; cbn.
  - destruct b; reflexivity.
  - now rewrite IH.
Qed.

(** The stem of a file name that ends with [.skin]. *)
Lemma stem_skin (p : Path) (s : string) :
  s <> "" -> name p = String.append s ".skin" -> stem p = s.
Proof.
  intros Ns E. unfold stem, suffix_index. rewrite E.
  rewrite (rfind_app "." s ".skin" 0 eq_refl), Nat.add_0_r, length_app_str.
  cbn [String.length].
  assert (L : 0 < String.length s) by (destruct s; [congruence|cbn; lia]).
  replace (0 <? String.length s) with true by (symmetry; now apply Nat.ltb_lt).
  replace (String.length s <? String.length s + 5 - 1) with true
    by (symmetry; apply Nat.ltb_lt; lia).
  cbn [andb]. unfold slice. rewrite Nat.sub_0_r. apply substring_prefix.
Qed.

End SkinMore5.

Import SkinMore5.

(** X6.  The label of the skin file [model_<s>.skin] is [<s>], whatever
    [<s>] is and wherever the file lies, and [derive_skin_suffix] gives the
    import the same text; a skin file [<t>.skin] whose name does not start
    with [model_] is labelled [<t>]. *)
Theorem format_skin_label_of_name (rel : Path) (s : string) :
  (name rel = String.append "model_" (String.append s ".skin") ->
   format_skin_label rel = s /\ derive_skin_suffix rel = s)
  /\ (s <> "" -> startswith s "model_" = false ->
      name rel = String.append s ".skin" ->
      format_skin_label rel = s /\ derive_skin_suffix rel = s).
Proof.
  split.
  - intros E.
    assert (St : stem rel = String.append "model_" s).
    { apply stem_skin; [discriminate|]. rewrite E. reflexivity. }
    unfold format_skin_label, derive_skin_suffix. rewrite St.
    assert (D : drop (String.length "model_") (String.append "model_" s) = s).
    { unfold drop. cbn [String.append String.length Nat.sub substring].
      rewrite Nat.sub_0_r. apply substring_all. }
    assert (P : startswith (String.append "model_" s) "model_" = true)
      by (unfold startswith; cbn; destruct s; reflexivity).
    rewrite P, D. now split.
  - intros Ns P E. unfold derive_skin_suffix, format_skin_label.
    rewrite (stem_skin rel s Ns E), P. now split.
Qed.

Lemma format_skin_label_of_name_witness :
  format_skin_label (parse "models/players/kyle/model_red.skin") = "red"
  /\ derive_skin_suffix (parse "models/players/kyle/model_red.skin") = "red".
Proof.
  apply (proj1 (format_skin_label_of_name (parse "models/players/kyle/model_red.skin") "red")).
  reflexivity.
Defined.

(* ================================================================== *)
(** * Further properties: the index *)
(* ================================================================== *)

Module IndexMore.
Import FS ODictFacts FSFacts ListingFacts.

Lemma get_multi_add (k q : string) (x : FileSource)
    (d : ODict.t string (nelist FileSource)) :
  ODict.get String.eqb q (multi_add k x d)
  = if String.eqb k q
    then Some (match ODict.get String.eqb k d with
               | Some l => ne_append l x
               | None => mkNe x []
               end)
    else ODict.get String.eqb q d.
Proof.
  unfold multi_add. destruct (ODict.get String.eqb k d) as [l|]; apply get_set.
Qed.

Lemma listed_multi_add (k q : string) (x f : FileSource)
    (d : ODict.t string (nelist FileSource)) :
  listed (multi_add k x d) q f <-> listed d q f \/ (q = k /\ f = x).
Proof.
  unfold listed. rewrite get_multi_add.
  destruct (String.eqb_spec k q) as [<-|N].
  - destruct (ODict.get String.eqb k d) as [l|].
    + split.
      * intros (l' & [= <-] & Hin). unfold ne_list, ne_append in Hin.
        cbn [ne_head ne_rest] in Hin.
        destruct Hin as [H|H]; [left; exists l; split; [reflexivity|now left]|].
        apply in_app_or in H as [H|[<-|[]]]; [|now right].
        left. exists l. split; [reflexivity|now right].
      * intros [(l' & [= <-] & Hin)|[_ ->]]; eexists; (split; [reflexivity|]);
          unfold ne_list, ne_append; cbn [ne_head ne_rest].
        -- destruct Hin as [H|H]; [now left|right; apply in_or_app; now left].
        -- right. apply in_or_app. right. now left.
    + split.
      * intros (l' & [= <-] & [<-|[]]). now right.
      * intros [(l' & H & _)|[_ ->]]; [discriminate|].
        eexists. split; [reflexivity|now left].
  - split.
    + intros H. now left.
    + intros [H|[E _]]; [exact H|congruence].
Qed.

Section Tables.
Variable TEXTURE_EXTS : list string.

Lemma pk3_shape (rel pk3_path : Path) : source_shape (mkFileSource "pk3" (Some pk3_path) rel).
Proof. right. split; [reflexivity|]. now exists pk3_path. Qed.

Lemma disk_shape (rel : Path) : source_shape (mkFileSource "disk" None rel).
Proof. left. now split. Qed.

Lemma last_app_cons (A : Type) (l1 : list A) (x : A) (l2 : list A) (d : A) :
  last (l1 ++ x :: l2) d = last (x :: l2) d.
Proof.
  induction l1 as [|a l1 IH]; [reflexivity|].
  cbn [app]. rewrite <- IH. destruct (l1 ++ x :: l2) eqn:E; [|reflexivity].
  destruct l1; discriminate.
Qed.

(** A texture file found below [d], itself below the scan root, has the
    name of its path relative to the root. *)
Lemma texture_rel_suffix (fs : t) (base_dir d p rel : Path) (r0 : key) :
  d = under base_dir r0 ->
  In p (filter (is_texture_file TEXTURE_EXTS fs) (rglob fs d)) ->
  relative_to p base_dir = Ok rel ->
  in_TEXTURE_EXTS TEXTURE_EXTS (lower (suffix rel)) = true.
Proof.
  intros -> Hp R. apply filter_In in Hp as [Hp T].
  unfold is_texture_file in T. apply andb_prop in T as [_ T].
  unfold rglob, rglob_rel in Hp.
  destruct (locate fs (under base_dir r0)) as [k|e]; [|destruct Hp].
  destruct (is_dir fs (under base_dir r0)); [|destruct Hp].
  apply in_map_iff in Hp as (r & <- & Hr).
  unfold descendants in Hr. apply in_flat_map in Hr as (e & _ & He).
  destruct (below k (fst e)) as [[|n r']|]; try (now destruct He).
  destruct He as [<-|[]].
  rewrite under_under, CacheFacts.relative_to_under in R. injection R as <-.
  unfold suffix, name, under in *. cbn [tail] in *.
  rewrite last_app_cons in T. rewrite last_app_cons. exact T.
Qed.

Lemma for_each_rel_keeps (base_dir : Path) (f : Path -> Scan -> Scan) (Q : Scan -> Prop)
    (paths : list Path) (st st' : Scan) :
  (forall p rel s, In p paths -> relative_to p base_dir = Ok rel -> Q s -> Q (f rel s)) ->
  for_each_rel base_dir f paths st = Ok st' -> Q st -> Q st'.
Proof.
  revert st. induction paths as [|p paths IH]; intros st Hf; cbn [for_each_rel].
  - now intros [= <-].
  - destruct (relative_to p base_dir) as [rel|e] eqn:R; [|discriminate]. cbn [bind].
    intros H Hst. apply (IH (f rel st)); [|exact H|].
    + intros q r s Hq. apply Hf. now right.
    + apply (Hf p rel st); [now left|exact R|exact Hst].
Qed.

(** ** What every step of the scan keeps *)

Section Kept.
Variable P : Scan -> Prop.
Hypothesis P_texture :
  forall rel orig cont st,
    in_TEXTURE_EXTS TEXTURE_EXTS (lower (suffix rel)) = true ->
    source_shape (mkFileSource orig cont rel) ->
    P st -> P (add_texture rel orig cont st).
Hypothesis P_gla :
  forall rel orig cont st,
    source_shape (mkFileSource orig cont rel) -> P st -> P (add_gla rel orig cont st).
Hypothesis P_put :
  forall n key s news st, P st -> P (put_source n key s news st).

Lemma scan_member_keeps (pk3_path : Path) (st st' : Scan) (info : ZipInfo) :
  scan_member TEXTURE_EXTS pk3_path st info = Ok st' -> P st -> P st'.
Proof.
  unfold scan_member. destruct (zipinfo_is_dir info) as [b|e]; [|discriminate].
  cbn [bind]. cbv zeta. destruct b; [now intros [= <-]|].
  destruct (in_TEXTURE_EXTS TEXTURE_EXTS (lower (suffix (parse (filename info))))) eqn:T.
  { intros [= <-] H. apply P_texture; [exact T|apply pk3_shape|exact H]. }
  repeat match goal with
         | |- (if ?c then _ else _) = _ -> _ => destruct c
         end;
    intros H; injection H as <-; intros Ok0;
    try apply P_gla; try apply pk3_shape; try apply P_put; exact Ok0.
Qed.

Lemma scan_members_keeps (pk3_path : Path) (infos : list ZipInfo) (st st' : Scan) :
  scan_members TEXTURE_EXTS pk3_path st infos = Ok st' -> P st -> P st'.
Proof.
  revert st. induction infos as [|i infos IH]; intros st; cbn [scan_members].
  - now intros [= <-].
  - destruct (scan_member TEXTURE_EXTS pk3_path st i) as [st1|e] eqn:S; [|discriminate].
    cbn [bind]. intros H N. apply (IH _ H). eapply scan_member_keeps; eassumption.
Qed.

Lemma scan_archive_keeps (unzip : string -> result (list ZipInfo)) (fs : t)
    (p : Path) (st st' : Scan) :
  scan_archive unzip TEXTURE_EXTS fs st p = Ok st' -> P st -> P st'.
Proof.
  unfold scan_archive. destruct (open_pk3 unzip fs p) as [zf|[]]; try discriminate.
  - apply scan_members_keeps.
  - now intros [= <-].
Qed.

Lemma scan_archives_keeps (unzip : string -> result (list ZipInfo)) (fs : t)
    (paths : list Path) (st st' : Scan) :
  scan_archives unzip TEXTURE_EXTS fs st paths = Ok st' -> P st -> P st'.
Proof.
  revert st. induction paths as [|p paths IH]; intros st; cbn [scan_archives].
  - now intros [= <-].
  - destruct (scan_archive unzip TEXTURE_EXTS fs st p) as [st1|e] eqn:S; [|discriminate].
    cbn [bind]. intros H N. apply (IH _ H). eapply scan_archive_keeps; eassumption.
Qed.

Lemma scan_model_dir_keeps (fs : t) (base_dir : Path) (st st' : Scan) (d : Path)
    (r0 : key) :
  d = under base_dir r0 ->
  scan_model_dir TEXTURE_EXTS fs base_dir st d = Ok st' -> P st -> P st'.
Proof.
  intros Ed. unfold scan_model_dir.
  destruct (negb (is_dir fs d)); [now intros [= <-]|].
  destruct (glob_suffix fs d ".glm") as [|first others]; [now intros [= <-]|].
  cbv zeta.
  destruct (relative_to (pick_glm first (first :: others)) base_dir) as [glm_rel|e];
    [|discriminate].
  cbn [bind].
  match goal with
  | |- bind (for_each_rel ?b ?f ?l ?s) _ = _ -> _ =>
      destruct (for_each_rel b f l s) as [st2|e2] eqn:L2; [|discriminate]
  end.
  cbn [bind].
  match goal with
  | |- bind (for_each_rel ?b ?f ?l ?s) _ = _ -> _ =>
      destruct (for_each_rel b f l s) as [st3|e3] eqn:L3; [|discriminate]
  end.
  cbn [bind]. intros L4 H0.
  assert (H2 : P st2).
  { refine (for_each_rel_keeps _ _ P _ _ _ _ L2 (P_put _ _ _ _ _ H0)).
    intros p rel s _ _ Hs. unfold add_disk_skin. cbv zeta. now apply P_put. }
  assert (H3 : P st3).
  { refine (for_each_rel_keeps _ _ P _ _ _ _ L3 H2).
    intros p rel s _ _ Hs. unfold add_disk_gla. cbv zeta.
    apply P_gla; [apply disk_shape|now apply P_put]. }
  refine (for_each_rel_keeps _ _ P _ _ _ _ L4 H3).
  intros p rel s Hp R Hs. apply P_texture; [|apply disk_shape|exact Hs].
  exact (texture_rel_suffix fs base_dir d p rel r0 Ed Hp R).
Qed.

Lemma scan_model_dirs_keeps (fs : t) (base_dir : Path) (dirs : list Path)
    (st st' : Scan) :
  (forall d, In d dirs -> exists r0, d = under base_dir r0) ->
  scan_model_dirs TEXTURE_EXTS fs base_dir st dirs = Ok st' -> P st -> P st'.
Proof.
  revert st. induction dirs as [|d dirs IH]; intros st Hall; cbn [scan_model_dirs].
  - now intros [= <-].
  - destruct (scan_model_dir TEXTURE_EXTS fs base_dir st d) as [st1|e] eqn:S;
      [|discriminate].
    cbn [bind]. intros H H0. destruct (Hall d (or_introl eq_refl)) as (r0 & Ed).
    apply (IH st1); [intros q Hq; apply Hall; now right|exact H|].
    exact (scan_model_dir_keeps fs base_dir st st1 d r0 Ed S H0).
Qed.

(** The scan of the disk, as [build_index] runs it after the archives. *)
Lemma disk_scan_keeps (fs : t) (base_dir : Path) (sA sB sC : Scan) :
  (if is_dir fs (under base_dir ["models"; "players"])
   then dirs <- iterdir fs (under base_dir ["models"; "players"]) ;;
        scan_model_dirs TEXTURE_EXTS fs base_dir sA dirs
   else Ok sA) = Ok sB ->
  (if is_dir fs (under base_dir ["textures"])
   then for_each_rel base_dir (fun rel => add_texture rel "disk" None)
          (filter (is_texture_file TEXTURE_EXTS fs) (rglob fs (under base_dir ["textures"])))
          sB
   else Ok sB) = Ok sC ->
  (P sA -> P sB) /\ (P sB -> P sC).
Proof.
  intros B C. split.
  - intros HA.
    destruct (is_dir fs (under base_dir ["models"; "players"])); [|now injection B as <-].
    destruct (iterdir fs (under base_dir ["models"; "players"])) as [dirs|e] eqn:I;
      [|discriminate].
    cbn [bind] in B. apply iterdir_children in I as (k & ->).
    refine (scan_model_dirs_keeps fs base_dir _ sA sB _ B HA).
    intros d Hd. apply in_map_iff in Hd as (x & <- & _).
    exists (["models"; "players"] ++ [x]). now rewrite <- under_under.
  - intros HB.
    destruct (is_dir fs (under base_dir ["textures"])); [|now injection C as <-].
    refine (for_each_rel_keeps _ _ P _ _ _ _ C HB).
    intros p rel s Hp R Hs. apply P_texture; [|apply disk_shape|exact Hs].
    exact (texture_rel_suffix fs base_dir _ p rel ["textures"] eq_refl Hp R).
Qed.

End Kept.

Lemma add_texture_ok (rel : Path) (orig : string) (cont : option Path) (st : Scan) :
  in_TEXTURE_EXTS TEXTURE_EXTS (lower (suffix rel)) = true ->
  source_shape (mkFileSource orig cont rel) ->
  scan_ok TEXTURE_EXTS st ->
  scan_ok TEXTURE_EXTS (add_texture rel orig cont st).
Proof.
  intros Hs Hsh (R & S & G). unfold scan_ok, add_texture.
  cbn [scan_textures_by_rel scan_textures_by_stem scan_gla_index].
  split; [|split; [|exact G]].
  - intros k f H. apply listed_multi_add in H as [H|[-> ->]]; [now apply R|].
    cbn [fs_rel_path]. now repeat split.
  - intros k f H. apply listed_multi_add in H as [H|[-> ->]]; [now apply S|].
    cbn [fs_rel_path]. now repeat split.
Qed.

Lemma add_gla_ok (rel : Path) (orig : string) (cont : option Path) (st : Scan) :
  source_shape (mkFileSource orig cont rel) ->
  scan_ok TEXTURE_EXTS st ->
  scan_ok TEXTURE_EXTS (add_gla rel orig cont st).
Proof.
  intros Hsh (R & S & G). unfold scan_ok, add_gla.
  cbn [scan_textures_by_rel scan_textures_by_stem scan_gla_index].
  split; [exact R|]. split; [exact S|].
  intros k f H. apply listed_multi_add in H as [H|[-> ->]]; [now apply G|].
  cbn [fs_rel_path]. now split.
Qed.

End Tables.

End IndexMore.

Import IndexMore FS ODictFacts FSFacts ListingFacts.

(** X7.  The tables of a built index agree with what they list.  Every
    source listed under a key of the path table has that key, the key of
    its own path; every source listed under a key of the stem table has
    that lower-cased stem; both tables list files with a texture extension
    only; every source listed under a key of the skeleton table has that
    key; a source is on disk and in no container, or in an archive; and
    the index keeps the scan root it was built for. *)
Theorem build_index_tables (unzip : string -> result (list ZipInfo))
    (TEXTURE_EXTS : list string) (fs : FS.t) (base_dir : Path) (idx : Index) :
  build_index unzip TEXTURE_EXTS fs base_dir = Ok idx ->
  base idx = base_dir
  /\ tables_ok TEXTURE_EXTS (textures_by_rel idx) (textures_by_stem idx) (gla_index idx).
Proof.
  unfold build_index. cbv zeta. rewrite !models_dir_under, !textures_dir_under.
  destruct (scan_archives unzip TEXTURE_EXTS fs _ _) as [sA|e] eqn:A; [|discriminate].
  cbn [bind].
  match goal with
  | |- bind ?c _ = _ -> _ => destruct c as [sB|e] eqn:B; [|discriminate]
  end.
  cbn [bind].
  match goal with
  | |- bind ?c _ = _ -> _ => destruct c as [sC|e] eqn:C; [|discriminate]
  end.
  cbn [bind]. intros [= <-]. cbn [base textures_by_rel textures_by_stem gla_index].
  split; [reflexivity|].
  assert (K : forall s n key src news,
             scan_ok TEXTURE_EXTS s -> scan_ok TEXTURE_EXTS (put_source n key src news s))
    by (intros s n key src news H; exact H).
  destruct (disk_scan_keeps TEXTURE_EXTS (scan_ok TEXTURE_EXTS)
              (add_texture_ok TEXTURE_EXTS) (add_gla_ok TEXTURE_EXTS)
              (fun n key src news s H => K s n key src news H) fs base_dir sA sB sC B C)
    as (AB & BC).
  apply BC, AB.
  refine (scan_archives_keeps TEXTURE_EXTS (scan_ok TEXTURE_EXTS)
            (add_texture_ok TEXTURE_EXTS) (add_gla_ok TEXTURE_EXTS)
            (fun n key src news s H => K s n key src news H) unzip fs _ _ _ A _).
  split; [|split]; intros k f (l & G & _); discriminate.
Qed.

Lemma build_index_tables_witness :
  base Demo.index = Demo.game
  /\ tables_ok Demo.exts (textures_by_rel Demo.index) (textures_by_stem Demo.index)
       (gla_index Demo.index).
Proof.
  apply (build_index_tables Demo.unzip Demo.exts Demo.tree Demo.game Demo.index).
  vm_compute. reflexivity.
Defined.

Module IndexMore2.
Import FS ODictFacts FSFacts ListingFacts IndexMore.

Section Lists.
Variable TEXTURE_EXTS : list string.

Lemma add_texture_lists (rel : Path) (orig : string) (cont : option Path) (st : Scan) :
  scan_lists (mkFileSource orig cont rel) (add_texture rel orig cont st).
Proof.
  unfold scan_lists, texture_listed, add_texture.
  cbn [scan_textures_by_rel scan_textures_by_stem fs_rel_path].
  split; apply listed_multi_add; right; now split.
Qed.

Lemma lists_texture (f : FileSource) (rel : Path) (orig : string) (cont : option Path)
    (st : Scan) :
  in_TEXTURE_EXTS TEXTURE_EXTS (lower (suffix rel)) = true ->
  source_shape (mkFileSource orig cont rel) ->
  scan_lists f st -> scan_lists f (add_texture rel orig cont st).
Proof.
  intros _ _ (R & S). unfold scan_lists, texture_listed, add_texture.
  cbn [scan_textures_by_rel scan_textures_by_stem].
  split; apply listed_multi_add; now left.
Qed.

Lemma lists_gla (f : FileSource) (rel : Path) (orig : string) (cont : option Path)
    (st : Scan) :
  source_shape (mkFileSource orig cont rel) ->
  scan_lists f st -> scan_lists f (add_gla rel orig cont st).
Proof. intros _ H. exact H. Qed.

Lemma lists_put (f : FileSource) (n : string) (key : Path) (s : ModelSource)
    (news : list Path) (st : Scan) :
  scan_lists f st -> scan_lists f (put_source n key s news st).
Proof. intros H. exact H. Qed.

Lemma scan_members_lists (pk3_path : Path) (infos : list ZipInfo) (st st' : Scan)
    (info : ZipInfo) :
  scan_members TEXTURE_EXTS pk3_path st infos = Ok st' ->
  In info infos -> zipinfo_is_dir info = Ok false ->
  in_TEXTURE_EXTS TEXTURE_EXTS (lower (suffix (parse (filename info)))) = true ->
  scan_lists (mkFileSource "pk3" (Some pk3_path) (parse (filename info))) st'.
Proof.
  intros H Hin D T. revert st H.
  induction infos as [|i infos IH]; intros st; [destruct Hin|]. cbn [scan_members].
  destruct (scan_member TEXTURE_EXTS pk3_path st i) as [st1|e] eqn:S; [|discriminate].
  cbn [bind]. intros H. destruct Hin as [->|Hin]; [|now apply (IH Hin st1)].
  refine (scan_members_keeps TEXTURE_EXTS _ (lists_texture _) (lists_gla _) (lists_put _)
            pk3_path infos st1 st' H _).
  unfold scan_member in S. rewrite D in S. cbn [bind] in S. cbv zeta in S.
  rewrite T in S. injection S as <-. apply add_texture_lists.
Qed.

Lemma scan_archives_lists (unzip : string -> result (list ZipInfo)) (fs : t)
    (paths : list Path) (st st' : Scan) (p : Path) (zf : list ZipInfo) (info : ZipInfo) :
  scan_archives unzip TEXTURE_EXTS fs st paths = Ok st' ->
  In p paths -> open_pk3 unzip fs p = Ok zf ->
  In info zf -> zipinfo_is_dir info = Ok false ->
  in_TEXTURE_EXTS TEXTURE_EXTS (lower (suffix (parse (filename info)))) = true ->
  scan_lists (mkFileSource "pk3" (Some p) (parse (filename info))) st'.
Proof.
  intros H Hp O Hin D T. revert st H.
  induction paths as [|q paths IH]; intros st; [destruct Hp|]. cbn [scan_archives].
  destruct (scan_archive unzip TEXTURE_EXTS fs st q) as [st1|e] eqn:S; [|discriminate].
  cbn [bind]. intros H. destruct Hp as [->|Hp]; [|now apply (IH Hp st1)].
  refine (scan_archives_keeps TEXTURE_EXTS _ (lists_texture _) (lists_gla _) (lists_put _)
            unzip fs paths st1 st' H _).
  unfold scan_archive in S. rewrite O in S.
  exact (scan_members_lists p zf st st1 info S Hin D T).
Qed.

Lemma for_each_texture_lists (base_dir : Path) (paths : list Path) (st st' : Scan)
    (p rel : Path) :
  (forall q r, In q paths -> relative_to q base_dir = Ok r ->
               in_TEXTURE_EXTS TEXTURE_EXTS (lower (suffix r)) = true) ->
  for_each_rel base_dir (fun rel => add_texture rel "disk" None) paths st = Ok st' ->
  In p paths -> relative_to p base_dir = Ok rel ->
  scan_lists (mkFileSource "disk" None rel) st'.
Proof.
  intros Hs H Hp R. revert st H Hs.
  induction paths as [|q paths IH]; intros st; [destruct Hp|]. cbn [for_each_rel].
  destruct (relative_to q base_dir) as [r|e] eqn:Rq; [|discriminate]. cbn [bind].
  intros H Hs. destruct Hp as [->|Hp].
  - rewrite R in Rq. injection Rq as <-.
    refine (for_each_rel_keeps _ _ (scan_lists _) _ _ _ _ H (add_texture_lists _ _ _ _)).
    intros q r s Hq Rq Hl. apply lists_texture; [|apply disk_shape|exact Hl].
    apply (Hs q r); [now right|exact Rq].
  - apply (IH Hp _ H). intros q' r' Hq'. apply Hs. now right.
Qed.

End Lists.

End IndexMore2.

Import IndexMore2.

(** X8.  What is scanned can be looked up.  In a built index, every member
    with a texture extension of an archive [*.pk3] below the scan root
    that opens, and every file with a texture extension below the
    directory [textures] of the scan root, is listed in the path table
    under the key of its path and in the stem table under its lower-cased
    stem. *)
Theorem build_index_lists_textures (unzip : string -> result (list ZipInfo))
    (TEXTURE_EXTS : list string) (fs : FS.t) (base_dir : Path) (idx : Index) :
  build_index unzip TEXTURE_EXTS fs base_dir = Ok idx ->
  (forall p zf info,
      In p (rglob_suffix fs base_dir ".pk3") ->
      open_pk3 unzip fs p = Ok zf ->
      In info zf -> zipinfo_is_dir info = Ok false ->
      in_TEXTURE_EXTS TEXTURE_EXTS (lower (suffix (parse (filename info)))) = true ->
      texture_listed (textures_by_rel idx) (textures_by_stem idx)
        (mkFileSource "pk3" (Some p) (parse (filename info))))
  /\ (forall p rel,
        is_dir fs (joinpath base_dir (parse "textures")) = true ->
        In p (rglob fs (joinpath base_dir (parse "textures"))) ->
        is_texture_file TEXTURE_EXTS fs p = true ->
        relative_to p base_dir = Ok rel ->
        texture_listed (textures_by_rel idx) (textures_by_stem idx)
          (mkFileSource "disk" None rel)).
Proof.
  unfold build_index. cbv zeta. rewrite !models_dir_under, !textures_dir_under.
  destruct (scan_archives unzip TEXTURE_EXTS fs _ _) as [sA|e] eqn:A; [|discriminate].
  cbn [bind].
  match goal with
  | |- bind ?c _ = _ -> _ => destruct c as [sB|e] eqn:B; [|discriminate]
  end.
  cbn [bind].
  match goal with
  | |- bind ?c _ = _ -> _ => destruct c as [sC|e] eqn:C; [|discriminate]
  end.
  cbn [bind]. intros [= <-]. cbn [textures_by_rel textures_by_stem]. split.
  - intros p zf info Hp O Hin D T.
    destruct (disk_scan_keeps TEXTURE_EXTS
                (scan_lists (mkFileSource "pk3" (Some p) (parse (filename info))))
                (lists_texture TEXTURE_EXTS _) (lists_gla _) (lists_put _)
                fs base_dir sA sB sC B C) as (AB & BC).
    apply BC, AB.
    refine (scan_archives_lists TEXTURE_EXTS unzip fs _ _ sA p zf info A _ O Hin D T).
    eapply Permutation_in; [apply sorted_perm|exact Hp].
  - intros p rel Dt Hp T R. rewrite Dt in C.
    refine (for_each_texture_lists TEXTURE_EXTS base_dir _ sB sC p rel _ C _ R).
    + intros q r Hq Rq.
      exact (texture_rel_suffix TEXTURE_EXTS fs base_dir _ q r ["textures"] eq_refl Hq Rq).
    + apply filter_In. now split.
Qed.

Lemma build_index_lists_textures_witness :
  texture_listed (textures_by_rel Demo.index) (textures_by_stem Demo.index)
    (mkFileSource "pk3" (Some (parse "/game/assets1.pk3"))
       (parse "models/players/kyle/head.jpg"))
  /\ texture_listed (textures_by_rel Demo.index) (textures_by_stem Demo.index)
       (mkFileSource "disk" None (parse "textures/t.png")).
Proof.
  destruct (build_index_lists_textures Demo.unzip Demo.exts Demo.tree Demo.game Demo.index)
    as (Hp & Hd); [vm_compute; reflexivity|].
  split.
  - apply (Hp (parse "/game/assets1.pk3")
              [ mkZipInfo "models/players/kyle/model.glm" (Stored "glm-a");
                mkZipInfo "models/players/kyle/model_default.skin"
                  (Stored "head,models/players/kyle/head.jpg");
                mkZipInfo "models/players/kyle/head.jpg" (Stored "jpg");
                mkZipInfo "models/players/_humanoid/_humanoid.gla" (Stored "gla") ]
              (mkZipInfo "models/players/kyle/head.jpg" (Stored "jpg"))).
    + vm_compute. left. reflexivity.
    + vm_compute. reflexivity.
    + right. right. left. reflexivity.
    + reflexivity.
    + reflexivity.
  - apply (Hd (parse "/game/textures/t.png") (parse "textures/t.png")).
    + reflexivity.
    + vm_compute. left. reflexivity.
    + reflexivity.
    + reflexivity.
Defined.

Module IndexMore3.
Import FS ODictFacts FSFacts ListingFacts IndexMore OrderFacts.

Lemma scan_archives_raise (unzip : string -> result (list ZipInfo))
    (TEXTURE_EXTS : list string) (fs : t) (paths : list Path) (p : Path) :
  In p paths ->
  (forall st, exists e, scan_archive unzip TEXTURE_EXTS fs st p = Raise e) ->
  forall st, exists e, scan_archives unzip TEXTURE_EXTS fs st paths = Raise e.
Proof.
  intros Hp Hr. induction paths as [|q paths IH]; intros st; [destruct Hp|].
  cbn [scan_archives]. destruct Hp as [->|Hp].
  - destruct (Hr st) as (e & ->). now exists e.
  - destruct (scan_archive unzip TEXTURE_EXTS fs st q) as [st1|e]; cbn [bind];
      [now apply IH|now exists e].
Qed.

Lemma open_pk3_directory (unzip : string -> result (list ZipInfo)) (fs : t) (p : Path) :
  is_dir fs p = true -> open_pk3 unzip fs p = Raise IsADirectoryError.
Proof.
  unfold is_dir, open_pk3, exists_, read_file.
  destruct (stat fs p) as [[|b]|e]; try discriminate. reflexivity.
Qed.

Lemma build_index_base (unzip : string -> result (list ZipInfo))
    (TEXTURE_EXTS : list string) (fs : t) (base_dir : Path) (idx : Index) :
  build_index unzip TEXTURE_EXTS fs base_dir = Ok idx -> base idx = base_dir.
Proof.
  unfold build_index.
  destruct (scan_archives _ _ _ _ _) as [st1|]; [|discriminate]. cbn [bind].
  match goal with |- bind ?c _ = _ -> _ => destruct c as [st2|] end; [|discriminate].
  cbn [bind].
  match goal with |- bind ?c _ = _ -> _ => destruct c as [st3|] end; [|discriminate].
  cbn [bind]. now intros [= <-].
Qed.

(** ** The order of the skins *)

Lemma str_leb_ltb (a b : string) :
  String.leb a b = true <-> a = b \/ String.ltb a b = true.
Proof.
  unfold String.leb, String.ltb. destruct (String.compare a b) eqn:E.
  - apply String.compare_eq_iff in E. split; [now left|reflexivity].
  - split; [now right|reflexivity].
  - split; [discriminate|]. intros [->|H]; [|discriminate].
    assert (C : String.compare b b = Eq) by (now apply String_as_OT.cmp_eq).
    congruence.
Qed.

Lemma str_leb_total (a b : string) : String.leb a b = false -> String.leb b a = true.
Proof.
  intros H. destruct (String.leb_total a b) as [C|C]; [congruence|exact C].
Qed.

Lemma str_leb_trans (a b c : string) :
  String.leb a b = true -> String.leb b c = true -> String.leb a c = true.
Proof.
  rewrite !str_leb_ltb. intros [->|H1] [->|H2]; auto.
  right. eapply str_ltb_trans; eassumption.
Qed.

Section SortedKey.
Variables A K : Type.
Variable leb : K -> K -> bool.
Variable key : A -> K.
Hypothesis leb_total : forall a b, leb a b = false -> leb b a = true.
Hypothesis leb_trans : forall a b c, leb a b = true -> leb b c = true -> leb a c = true.

Lemma insert_sorted_key_in (x y : A) (l : list A) :
  In y (insert_sorted leb key x l) <-> y = x \/ In y l.
Proof.
  induction l as [|z l IH]; cbn [insert_sorted]; [simpl; intuition|].
  destruct (leb (key x) (key z)); simpl; [intuition|]. rewrite IH. simpl. intuition.
Qed.

Lemma insert_sorted_key_sorted (x : A) (l : list A) :
  StronglySorted (fun a b => leb (key a) (key b) = true) l ->
  StronglySorted (fun a b => leb (key a) (key b) = true) (insert_sorted leb key x l).
Proof.
  induction 1 as [|z l S IH F]; cbn [insert_sorted].
  - constructor; constructor.
  - destruct (leb (key x) (key z)) eqn:E.
    + constructor; [constructor; assumption|]. constructor; [exact E|].
      rewrite Forall_forall in *. intros y Hy. exact (leb_trans _ _ _ E (F y Hy)).
    + constructor; [exact IH|]. rewrite Forall_forall in *. intros y Hy.
      apply insert_sorted_key_in in Hy as [->|Hy]; [now apply leb_total|now apply F].
Qed.

Lemma sorted_key_sorted (l : list A) :
  StronglySorted (fun a b => leb (key a) (key b) = true) (sorted leb key l).
Proof.
  induction l as [|x l IH]; cbn [sorted]; [constructor|now apply insert_sorted_key_sorted].
Qed.

End SortedKey.

Lemma fold_pathset_nodup (ss : list Path) (acc : pathset) :
  NoDup acc -> NoDup (fold_left (fun acc s => pathset_add s acc) ss acc).
Proof.
  revert acc. induction ss as [|s ss IH]; intros acc N; cbn [fold_left]; [exact N|].
  apply IH. unfold pathset_add. now apply set_add_nodup.
Qed.

Lemma all_skins_nodup (l : list ModelSource) : NoDup (all_skins l).
Proof.
  unfold all_skins.
  assert (G : forall acc, NoDup acc ->
             NoDup (fold_left (fun acc src =>
                                 fold_left (fun acc s => pathset_add s acc) (skins src) acc)
                              l acc)).
  { induction l as [|s l IH]; intros acc N; cbn [fold_left]; [exact N|].
    apply IH. now apply fold_pathset_nodup. }
  apply G. constructor.
Qed.

End IndexMore3.

Import IndexMore3 OrderFacts.

(** X9.  An archive that [open_pk3] refuses with [ArchiveError], because
    the file is gone or because [ZipFile] raises [BadZipFile] on its bytes,
    is passed over: the scan of the archives gives what it gives on the
    other ones alone, in the same order.  Any other exception [ZipFile]
    raises on an archive of the list is not caught: the scan raises, and
    so does [build_index]. *)
Theorem scan_archives_skips_unreadable (unzip : string -> result (list ZipInfo))
    (TEXTURE_EXTS : list string) (fs : FS.t) (st : Scan) (pk3_paths : list Path) :
  scan_archives unzip TEXTURE_EXTS fs st pk3_paths
  = scan_archives unzip TEXTURE_EXTS fs st
      (filter (fun p => negb (unreadable unzip fs p)) pk3_paths)
  /\ (forall p,
        unreadable unzip fs p = true
        <-> exists_ fs p = false
            \/ exists bytes,
                 read_file fs p = Ok bytes
                 /\ (unzip bytes = Raise BadZipFile \/ unzip bytes = Raise ArchiveError))
  /\ (forall p bytes e,
        In p pk3_paths -> read_file fs p = Ok bytes -> unzip bytes = Raise e ->
        e <> BadZipFile -> e <> ArchiveError ->
        exists e', scan_archives unzip TEXTURE_EXTS fs st pk3_paths = Raise e')
  /\ (forall base_dir p bytes e,
        In p (rglob_suffix fs base_dir ".pk3") ->
        read_file fs p = Ok bytes -> unzip bytes = Raise e ->
        e <> BadZipFile -> e <> ArchiveError ->
        exists e', build_index unzip TEXTURE_EXTS fs base_dir = Raise e').
Proof.
  assert (R : forall p bytes e,
             read_file fs p = Ok bytes -> unzip bytes = Raise e ->
             e <> BadZipFile -> e <> ArchiveError ->
             forall st0, exists e', scan_archive unzip TEXTURE_EXTS fs st0 p = Raise e').
  { intros p bytes e Rd U N1 N2 st0. exists e. unfold scan_archive, open_pk3, exists_.
    unfold read_file in *. destruct (stat fs p) as [[|b]|e0]; try discriminate.
    cbn [bind] in *. injection Rd as ->. rewrite U. cbn [negb].
    destruct e; try reflexivity; congruence. }
  split; [|split; [|split]].
  - revert st. induction pk3_paths as [|p paths IH]; intros st; [reflexivity|].
    cbn [scan_archives filter]. destruct (unreadable unzip fs p) eqn:U; cbn [negb].
    + assert (S : scan_archive unzip TEXTURE_EXTS fs st p = Ok st).
      { unfold scan_archive. unfold unreadable in U.
        destruct (open_pk3 unzip fs p) as [zf|[]]; try discriminate. reflexivity. }
      rewrite S. cbn [bind]. apply IH.
    + cbn [scan_archives].
      destruct (scan_archive unzip TEXTURE_EXTS fs st p) as [st1|e]; cbn [bind];
        [apply IH|reflexivity].
  - intros p. unfold unreadable, open_pk3, exists_, read_file.
    destruct (stat fs p) as [[|b]|e]; cbn [negb bind].
    + split; [discriminate|]. intros [H|(b' & H & _)]; discriminate.
    + destruct (unzip b) as [zf|e] eqn:U.
      * split; [discriminate|]. intros [H|(b' & [= <-] & [H|H])]; congruence.
      * destruct e; (split; [try discriminate; intros _; right; exists b; auto|]);
          try reflexivity;
          intros [H|(b' & [= <-] & [H|H])]; congruence.
    + split; [now left|reflexivity].
  - intros p bytes e Hp Rd U N1 N2.
    exact (scan_archives_raise unzip TEXTURE_EXTS fs pk3_paths p Hp
             (R p bytes e Rd U N1 N2) st).
  - intros base_dir p bytes e Hp Rd U N1 N2. unfold build_index.
    destruct (scan_archives_raise unzip TEXTURE_EXTS fs
                (sorted path_leb (fun p => p) (rglob_suffix fs base_dir ".pk3")) p)
      with (st := mkScan [] [] [] []) as (e' & ->).
    + eapply Permutation_in; [apply sorted_perm|exact Hp].
    + exact (R p bytes e Rd U N1 N2).
    + now exists e'.
Qed.

Lemma scan_archives_skips_unreadable_witness :
  let unzip := fun bytes =>
    if String.eqb bytes "not an archive" then Raise NotImplementedError
    else Demo.unzip bytes in
  exists e', build_index unzip Demo.exts Demo.tree Demo.game = Raise e'.
Proof.
  intros unzip.
  refine (proj2 (proj2 (proj2 (scan_archives_skips_unreadable unzip Demo.exts Demo.tree
                                 (mkScan [] [] [] []) [])))
            Demo.game (parse "/game/broken.pk3") "not an archive" NotImplementedError
            _ _ _ _ _).
  - vm_compute. right. right. left. reflexivity.
  - reflexivity.
  - reflexivity.
  - discriminate.
  - discriminate.
Defined.

(** X10.  A directory whose name ends with [.pk3], anywhere below the scan
    root, is taken for an archive; opening it raises an error that is not
    an [ArchiveError], and [build_index] does not return an index. *)
Theorem build_index_pk3_directory (unzip : string -> result (list ZipInfo))
    (TEXTURE_EXTS : list string) (fs : FS.t) (base_dir d : Path) :
  In d (rglob_suffix fs base_dir ".pk3") -> is_dir fs d = true ->
  open_pk3 unzip fs d = Raise IsADirectoryError
  /\ exists e, build_index unzip TEXTURE_EXTS fs base_dir = Raise e.
Proof.
  intros Hd D. pose proof (open_pk3_directory unzip fs d D) as O.
  split; [exact O|]. unfold build_index.
  destruct (scan_archives_raise unzip TEXTURE_EXTS fs
              (sorted path_leb (fun p => p) (rglob_suffix fs base_dir ".pk3")) d)
    with (st := mkScan [] [] [] []) as (e & ->).
  - eapply Permutation_in; [apply sorted_perm|exact Hd].
  - intros st. exists IsADirectoryError. unfold scan_archive. now rewrite O.
  - now exists e.
Qed.

Lemma build_index_pk3_directory_witness :
  let fs := [ (["game"], Dir); (["game"; "old.pk3"], Dir) ] in
  open_pk3 Demo.unzip fs (parse "/game/old.pk3") = Raise IsADirectoryError
  /\ exists e, build_index Demo.unzip Demo.exts fs Demo.game = Raise e.
Proof.
  intros fs.
  apply (build_index_pk3_directory Demo.unzip Demo.exts fs Demo.game (parse "/game/old.pk3")).
  - vm_compute. left. reflexivity.
  - reflexivity.
Defined.

(** X11.  [ensure_index] builds the index once.  After a call that built
    it, a call for the same scan root returns that very index without
    scanning, whatever the tree has become, as long as the scan root
    exists; it gives up the cached index when the scan root does not exist;
    and a call for another scan root, or after [clear_index], scans
    again. *)
Theorem ensure_index_reuses (unzip : string -> result (list ZipInfo))
    (TEXTURE_EXTS : list string) (fs fs' : FS.t) (base_dir : Path) (idx : Index) :
  exists_ fs base_dir = true ->
  build_index unzip TEXTURE_EXTS fs base_dir = Ok idx ->
  ensure_index unzip TEXTURE_EXTS None fs base_dir = Ok (Some idx, Some idx)
  /\ (exists_ fs' base_dir = true ->
      ensure_index unzip TEXTURE_EXTS (Some idx) fs' base_dir = Ok (Some idx, Some idx))
  /\ (exists_ fs' base_dir = false ->
      ensure_index unzip TEXTURE_EXTS (Some idx) fs' base_dir = Ok (None, None))
  /\ (forall other idx',
        Pathlib.eqb base_dir other = false -> exists_ fs' other = true ->
        build_index unzip TEXTURE_EXTS fs' other = Ok idx' ->
        ensure_index unzip TEXTURE_EXTS (Some idx) fs' other = Ok (Some idx', Some idx'))
  /\ (forall idx',
        exists_ fs' base_dir = true ->
        build_index unzip TEXTURE_EXTS fs' base_dir = Ok idx' ->
        ensure_index unzip TEXTURE_EXTS (clear_index (Some idx)) fs' base_dir
        = Ok (Some idx', Some idx')).
Proof.
  intros Ex B. pose proof (build_index_base _ _ _ _ _ B) as Eb.
  unfold ensure_index, clear_index. rewrite Ex, B, Eb. cbn [negb bind].
  split; [reflexivity|]. split; [|split; [|split]].
  - intros ->. cbn [negb]. now rewrite (proj2 (ListingFacts.Path_eqb_eq _ _) eq_refl).
  - intros ->. reflexivity.
  - intros other idx' N -> ->. cbn [negb bind]. now rewrite N.
  - intros idx' -> ->. reflexivity.
Qed.

Lemma ensure_index_reuses_witness :
  ensure_index Demo.unzip Demo.exts (Some Demo.index) [ (["game"], Dir) ] Demo.game
  = Ok (Some Demo.index, Some Demo.index).
Proof.
  apply (proj1 (proj2 (ensure_index_reuses Demo.unzip Demo.exts Demo.tree
                         [ (["game"], Dir) ] Demo.game Demo.index eq_refl eq_refl))).
  reflexivity.
Defined.

Module IndexMore4.
Import PyStrFacts NormalizeFacts.

Lemma key_parent (l : list string) :
  lstrip "./" (join "/" (map lower (".." :: l))) = lstrip "./" (join "/" (map lower l)).
Proof.
  cbn [map]. destruct (map lower l) as [|y r]; reflexivity.
Qed.

Lemma key_dot (h : string) (l : list string) :
  lstrip "./" (join "/" (map lower (String "." h :: l)))
  = lstrip "./" (join "/" (map lower (h :: l))).
Proof.
  cbn [map]. destruct (map lower l) as [|y r]; reflexivity.
Qed.

End IndexMore4.

Import IndexMore4 PyStrFacts NormalizeFacts.

(** X12.  The key of a path forgets what comes before its first proper
    name.  The texts [/x], [../x] and [.x] have the key of [x], for every
    text [x]: an absolute path, a path that climbs to the parent directory
    and a name with a leading dot are not told from the plain relative
    path. *)
Theorem normalize_rel_forgets_prefix (x : string) :
  normalize_rel_str Posix (String "/" x) = normalize_rel_str Posix x
  /\ normalize_rel_str Posix (String.append "../" x) = normalize_rel_str Posix x
  /\ normalize_rel_str Posix (String "." x) = normalize_rel_str Posix x.
Proof.
  rewrite !normalize_rel_str_posix. unfold parse. cbn [tail]. split; [|split].
  - reflexivity.
  - change (split "/" (String.append "../" x)) with (".." :: split "/" x).
    change (filter keep_part (".." :: split "/" x))
      with (".." :: filter keep_part (split "/" x)).
    apply key_parent.
  - change (split "/" (String "." x))
      with (match split "/" x with
            | h :: t => String "." h :: t
            | [] => [String "." EmptyString]
            end).
    destruct (split "/" x) as [|h t] eqn:E; [now apply split_not_nil in E|].
    cbn [filter]. destruct h as [|c h'].
    + reflexivity.
    + destruct (String.eqb_spec (String c h') ".") as [Ed|Nd].
      * rewrite Ed. change (keep_part "..") with true. change (keep_part ".") with false.
        cbv iota. apply key_parent.
      * assert (K1 : keep_part (String c h') = true).
        { unfold keep_part. apply String.eqb_neq in Nd. rewrite Nd. reflexivity. }
        assert (K2 : keep_part (String "." (String c h')) = true).
        { unfold keep_part. cbn [String.eqb]. rewrite Ascii.eqb_refl.
          cbn [negb andb]. destruct c as [[] [] [] [] [] [] [] []]; reflexivity. }
        rewrite K1, K2. apply key_dot.
Qed.

(** X13.  In a built index the list of skins of a model holds each skin
    once, holds exactly the skins of the sources of the model, in
    archives and on disk, and is in the order of the lower-cased texts of
    the paths. *)
Theorem build_index_entry_skins (unzip : string -> result (list ZipInfo))
    (TEXTURE_EXTS : list string) (fs : FS.t) (base_dir : Path) (idx : Index)
    (model_name : string) (e : ModelEntry) :
  build_index unzip TEXTURE_EXTS fs base_dir = Ok idx ->
  ODict.get String.eqb model_name (models idx) = Some e ->
  NoDup (entry_skins e)
  /\ StronglySorted skin_le (entry_skins e)
  /\ forall x, In x (entry_skins e) <-> exists s, In s (sources e) /\ In x (skins s).
Proof.
  intros B G.
  assert (M : exists tmp, models idx = finalize_models tmp).
  { revert B. unfold build_index.
    destruct (scan_archives _ _ _ _ _) as [st1|]; [|discriminate]. cbn [bind].
    match goal with |- bind ?c _ = _ -> _ => destruct c as [st2|] end; [|discriminate].
    cbn [bind].
    match goal with |- bind ?c _ = _ -> _ => destruct c as [st3|] end; [|discriminate].
    cbn [bind]. intros [= <-]. cbn [models]. eauto. }
  destruct M as (tmp & M). rewrite M in G.
  apply PrimaryFacts.finalize_models_entry in G as (data & _ & F).
  unfold finalize_model in F.
  destruct (sorted tuple_leb source_priority _) as [|first rest]; [discriminate|].
  injection F as <-. cbn [entry_skins sources].
  pose proof (sorted_perm _ _ String.leb skin_sort_key
                (all_skins (ODict.values (tmp_sources data)))) as P.
  split; [|split].
  - eapply Permutation_NoDup; [exact P|apply all_skins_nodup].
  - apply (sorted_key_sorted _ _ String.leb skin_sort_key str_leb_total str_leb_trans).
  - intros x. rewrite <- ListingFacts.all_skins_in. split.
    + apply Permutation_in. now apply Permutation_sym.
    + now apply Permutation_in.
Qed.

Lemma build_index_entry_skins_witness :
  NoDup (entry_skins Demo.kyle)
  /\ StronglySorted skin_le (entry_skins Demo.kyle)
  /\ forall x, In x (entry_skins Demo.kyle)
               <-> exists s, In s (sources Demo.kyle) /\ In x (skins s).
Proof.
  apply (build_index_entry_skins Demo.unzip Demo.exts Demo.tree Demo.game Demo.index
           "kyle" Demo.kyle).
  - vm_compute. reflexivity.
  - reflexivity.
Defined.

(* ================================================================== *)
(** * Further properties: extraction from an archive *)
(* ================================================================== *)

Module Pk3More.
Import FS FSFacts PyStrFacts NormalizeFacts.

Lemma extract_member_name (destination : Path) (fs fs' : t) (info : ZipInfo)
    (r : option string) :
  extract_member destination fs info = (fs', Ok r) ->
  startswith (to_str (resolve (joinpath destination (parse (filename info)))))
             (to_str destination) = true
  /\ r = if is_file_member info then Some (filename info) else None.
Proof.
  unfold extract_member, is_file_member. cbv zeta.
  destruct (startswith _ (to_str destination)); cbn [negb]; [|discriminate].
  destruct (zipinfo_is_dir info) as [[|]|e]; [| |discriminate].
  - destruct (mkdir fs _) as [f1|e]; [|discriminate]. intros [= _ <-]. now split.
  - destruct (mkdir fs _) as [f1|e]; [|discriminate].
    destruct (copy_member f1 info _) as [f2 [u|e]]; [|discriminate].
    intros [= _ <-]. now split.
Qed.

Lemma extract_members_loop_names (destination : Path) (members : list ZipInfo)
    (fs fs' : t) (acc out : list string) :
  extract_members_loop destination fs members acc = (fs', Ok out) ->
  out = acc ++ map filename (filter is_file_member members)
  /\ forall info, In info members ->
       startswith (to_str (resolve (joinpath destination (parse (filename info)))))
                  (to_str destination) = true.
Proof.
  revert fs acc. induction members as [|i members IH]; intros fs acc;
    cbn [extract_members_loop filter map].
  - intros [= _ <-]. split; [now rewrite app_nil_r|intros info []].
  - destruct (extract_member destination fs i) as [f1 [r|e]] eqn:E; [|discriminate].
    apply extract_member_name in E as (G & ->).
    destruct (is_file_member i); intros H; apply IH in H as (-> & Hall).
    + split; [cbn [map]; now rewrite <- app_assoc|].
      intros info [<-|Hin]; [exact G|now apply Hall].
    + split; [reflexivity|]. intros info [<-|Hin]; [exact G|now apply Hall].
Qed.

End Pk3More.

Import Pk3More.

(** X14.  When [safe_extract_members] returns, it returns the names of the
    members it was given that are not directory entries, in their order;
    and so does [safe_extract] for the members that match a pattern, or for
    all of them when no pattern is given.  When no member matches,
    [safe_extract] returns the empty list and leaves the file system as it
    is: not even the destination directory is made. *)
Theorem safe_extract_names (fnmatch : string -> string -> bool) (fs fs' : FS.t)
    (archive : list ZipInfo) (destination : Path) (patterns : list string)
    (out : list string) :
  (forall members,
      safe_extract_members fs destination members = (fs', Ok out) ->
      out = map filename (filter is_file_member members))
  /\ (safe_extract fnmatch fs archive destination patterns = (fs', Ok out) ->
      out = map filename (filter is_file_member (filter_members fnmatch archive patterns)))
  /\ (filter_members fnmatch archive patterns = [] ->
      safe_extract fnmatch fs archive destination patterns = (fs, Ok []))
  /\ filter_members fnmatch archive [] = archive.
Proof.
  split; [|split; [|split]].
  - intros members H. unfold safe_extract_members in H.
    now apply extract_members_loop_names in H as [-> _].
  - unfold safe_extract.
    destruct (filter_members fnmatch archive patterns) as [|m ms] eqn:F.
    + now intros [= _ <-].
    + intros H. unfold safe_extract_members in H.
      now apply extract_members_loop_names in H as [-> _].
  - intros E. unfold safe_extract. now rewrite E.
  - reflexivity.
Qed.

Lemma safe_extract_names_witness :
  let zf := [ mkZipInfo "textures/" (Stored ""); mkZipInfo "textures/t.png" (Stored "png") ] in
  ["textures/t.png"] = map filename (filter is_file_member zf).
Proof.
  intros zf.
  refine (proj1 (safe_extract_names (fun _ _ => true) [ (["tmp"], FS.Dir) ] _ zf
                   (parse "/tmp/out") [] ["textures/t.png"]) zf _).
  vm_compute. reflexivity.
Defined.

Module Pk3More2.
Import FS FSFacts PyStrFacts NormalizeFacts.

Lemma prefix_nil (b : string) : String.prefix "" b = true.
Proof. destruct b; reflexivity. Qed.

Lemma prefix_cons (x c : ascii) (a b : string) :
  String.prefix (String x a) (String c b) = Ascii.eqb x c && String.prefix a b.
Proof.
  cbn [String.prefix]. destruct (ascii_dec x c) as [->|N].
  - now rewrite Ascii.eqb_refl.
  - apply Ascii.eqb_neq in N. now rewrite N.
Qed.

Lemma prefix_app_inv (a b : string) :
  String.prefix a b = true -> exists s, b = String.append a s.
Proof.
  revert b. induction a as [|x a IH]; intros b H; [now exists b|].
  destruct b as [|c b]; [discriminate|]. rewrite prefix_cons in H.
  apply andb_prop in H as [E H]. apply Ascii.eqb_eq in E. subst c.
  destruct (IH b H) as (s & ->). now exists s.
Qed.

Lemma prefix_slash_free (a b y : string) :
  mem_char "/" a = false ->
  String.prefix a (String.append b (String "/" y)) = true -> String.prefix a b = true.
Proof.
  revert a. induction b as [|c b IH]; intros a M H.
  - destruct a as [|x a]; [reflexivity|]. cbn [String.append] in H.
    rewrite prefix_cons in H. apply andb_prop in H as [E _].
    apply Ascii.eqb_eq in E. subst x. cbn [mem_char] in M. discriminate.
  - destruct a as [|x a]; [reflexivity|]. cbn [String.append] in H.
    rewrite prefix_cons in *. apply andb_prop in H as [E H]. rewrite E. cbn [andb].
    apply IH; [|exact H]. cbn [mem_char] in M. now apply orb_false_iff in M as [_ M].
Qed.

Lemma prefix_needs_slash (a y b : string) :
  String.prefix (String.append a (String "/" y)) b = true -> mem_char "/" b = true.
Proof.
  revert b. induction a as [|x a IH]; intros b H; destruct b as [|c b]; try discriminate.
  - cbn [String.append] in H. rewrite prefix_cons in H. apply andb_prop in H as [E _].
    apply Ascii.eqb_eq in E. subst c. reflexivity.
  - cbn [String.append] in H. rewrite prefix_cons in H. apply andb_prop in H as [_ H].
    cbn [mem_char]. rewrite (IH b H). apply orb_true_r.
Qed.

Lemma prefix_component (a b y z : string) :
  mem_char "/" a = false -> mem_char "/" b = false ->
  String.prefix (String.append a (String "/" y)) (String.append b (String "/" z)) = true ->
  a = b /\ String.prefix y z = true.
Proof.
  revert b. induction a as [|x a IH]; intros b Ma Mb H.
  - destruct b as [|c b].
    + cbn [String.append] in H. rewrite prefix_cons in H.
      apply andb_prop in H as [_ H]. now split.
    + cbn [String.append] in H. rewrite prefix_cons in H. apply andb_prop in H as [E _].
      apply Ascii.eqb_eq in E. subst c. cbn [mem_char] in Mb. discriminate.
  - cbn [mem_char] in Ma. apply orb_false_iff in Ma as [Nx Ma]. destruct b as [|c b].
    + cbn [String.append] in H. rewrite prefix_cons in H. apply andb_prop in H as [E _].
      apply Ascii.eqb_eq in E. subst x. discriminate.
    + cbn [String.append] in H. rewrite prefix_cons in H. apply andb_prop in H as [E H].
      apply Ascii.eqb_eq in E. subst c.
      cbn [mem_char] in Mb. apply orb_false_iff in Mb as [_ Mb].
      destruct (IH b Ma Mb H) as [-> P]. now split.
Qed.

Lemma join_cons2 (x y : string) (r : list string) :
  join "/" (x :: y :: r) = String.append x (String "/" (join "/" (y :: r))).
Proof. reflexivity. Qed.

(** A joined path that begins with another joined path. *)
Lemma prefix_join (d t : list string) :
  Forall good_part d -> Forall good_part t ->
  String.prefix (join "/" d) (join "/" t) = true ->
  d = [] \/ exists pre nm s rest, d = pre ++ [nm] /\ t = pre ++ String.append nm s :: rest.
Proof.
  revert t. induction d as [|a d IH]; intros t Gd Gt H; [now left|]. right.
  inversion Gd as [|? ? (Na & Ma & _) Gd']; subst.
  destruct d as [|a2 d].
  - (* the last component *)
    destruct t as [|b t].
    + cbn in H. destruct a; [congruence|discriminate].
    + inversion Gt as [|? ? (Nb & Mb & _) Gt']; subst.
      assert (P : String.prefix a b = true).
      { destruct t as [|b2 t]; [exact H|].
        rewrite join_cons2 in H. now apply (prefix_slash_free a b _ Ma) in H. }
      apply prefix_app_inv in P as (s & ->). now exists [], a, s, t.
  - rewrite join_cons2 in H. destruct t as [|b t].
    + cbn in H. destruct a; discriminate.
    + inversion Gt as [|? ? (Nb & Mb & _) Gt']; subst. destruct t as [|b2 t].
      * apply prefix_needs_slash in H. cbn [join String.concat] in H. congruence.
      * rewrite join_cons2 in H. apply prefix_component in H as [<- P]; try assumption.
        destruct (IH (b2 :: t) Gd' Gt' P) as [E|(pre & nm & s & rest & Ed & Et)];
          [discriminate|].
        exists (a :: pre), nm, s, rest. cbn [app]. now rewrite Ed, Et.
Qed.

Lemma good_removelast (l : list string) : Forall good_part l -> Forall good_part (removelast l).
Proof.
  induction 1 as [|x l Hx Hl IH]; [constructor|].
  destruct l as [|y l]; [constructor|]. cbn [removelast]. constructor; assumption.
Qed.

Lemma resolve_good (p : Path) : Forall good_part (tail p) -> Forall good_part (tail (resolve p)).
Proof.
  unfold resolve. cbn [tail].
  assert (G : forall segs cur, Forall good_part segs -> Forall good_part cur ->
                               Forall good_part (fold_left step segs cur)).
  { induction segs as [|s segs IH]; intros cur Hs Hc; [exact Hc|].
    inversion Hs as [|? ? H1 H2]; subst. cbn [fold_left]. apply IH; [exact H2|].
    unfold step. destruct (String.eqb s ".."); [now apply good_removelast|].
    destruct (String.eqb s "."); [exact Hc|].
    apply Forall_app. split; [exact Hc|now constructor]. }
  intros H. apply G; [exact H|constructor].
Qed.

Lemma to_str_rooted (l : list string) :
  to_str {| root := "/"; tail := l |} = String "/" (join "/" l).
Proof. reflexivity. Qed.

(** What the test of [safe_extract_members] lets through. *)
Lemma guard_confines (dest_text name : string) :
  let destination := resolve (parse dest_text) in
  let target := resolve (joinpath destination (parse name)) in
  startswith (to_str target) (to_str destination) = true ->
  confined destination target.
Proof.
  intros destination target H.
  assert (Gd : Forall good_part (tail destination))
    by (apply resolve_good, parse_tail_good).
  assert (Gt : Forall good_part (tail target)).
  { apply resolve_good. unfold joinpath.
    destruct (String.eqb (root (parse name)) ""); cbn [tail];
      [apply Forall_app; split; [exact Gd|]|]; apply parse_tail_good. }
  unfold startswith in H.
  change (to_str target) with (String "/" (join "/" (tail target))) in H.
  change (to_str destination) with (String "/" (join "/" (tail destination))) in H.
  rewrite prefix_cons in H. apply andb_prop in H as [_ H].
  destruct (prefix_join _ _ Gd Gt H) as [E|(pre & nm & s & rest & Ed & Et)].
  - left. rewrite E. discriminate.
  - destruct (String.eqb_spec s "") as [->|Ns].
    + left. rewrite Et, Ed, append_empty_r.
      change (pre ++ nm :: rest) with (pre ++ [nm] ++ rest).
      rewrite app_assoc, below_app. discriminate.
    + right. now exists pre, nm, s, rest.
Qed.

End Pk3More2.

Import Pk3More2 FS FSFacts.

(** X15.  The reach of the test of [safe_extract_members].  The test
    compares texts, so it lets a member through exactly when the text of
    its resolved target begins with the text of the resolved destination;
    such a target lies at the destination or below it, or at or below a
    neighbour of the destination whose name begins with the name of the
    destination.  Every member of a run that returns has such a target,
    and a member whose target is anywhere else is refused with
    [ArchiveError] before anything is written for it. *)
Theorem safe_extract_members_confined (fs : FS.t) (dest_text : string) :
  let destination := resolve (parse dest_text) in
  (forall members fs' out info,
      safe_extract_members fs (parse dest_text) members = (fs', Ok out) ->
      In info members ->
      confined destination (resolve (joinpath destination (parse (filename info)))))
  /\ (forall fs0 info,
        ~ confined destination (resolve (joinpath destination (parse (filename info)))) ->
        extract_member destination fs0 info = (fs0, Raise ArchiveError)).
Proof.
  intros destination. split.
  - intros members fs' out info H Hin. unfold safe_extract_members in H.
    apply extract_members_loop_names in H as [_ Hall].
    apply guard_confines. now apply Hall.
  - intros fs0 info N. unfold extract_member. cbv zeta.
    destruct (startswith (to_str (resolve (joinpath destination (parse (filename info)))))
                (to_str destination)) eqn:G; [|reflexivity].
    exfalso. apply N. now apply guard_confines.
Qed.

Lemma safe_extract_members_confined_witness :
  confined (resolve (parse "/tmp/out"))
    (resolve (joinpath (resolve (parse "/tmp/out")) (parse "../outside.txt")))
  /\ extract_member (resolve (parse "/tmp/out")) [ (["tmp"], Dir) ]
       (mkZipInfo "../../etc/passwd" (Stored "x"))
     = ([ (["tmp"], Dir) ], Raise ArchiveError).
Proof.
  split.
  - apply (proj1 (safe_extract_members_confined [ (["tmp"], Dir); (["tmp"; "out"], Dir) ]
                    "/tmp/out")
             [ mkZipInfo "../outside.txt" (Stored "x") ]
             [ (["tmp"], Dir); (["tmp"; "out"], Dir); (["tmp"; "outside.txt"], File "x") ]
             ["../outside.txt"] (mkZipInfo "../outside.txt" (Stored "x"))).
    + vm_compute. reflexivity.
    + now left.
  - apply (proj2 (safe_extract_members_confined [] "/tmp/out")).
    intros [H|(pre & nm & s & rest & _ & Ed & Et)].
    + apply H. reflexivity.
    + vm_compute in Ed, Et.
      destruct pre as [|p0 [|p1 [|p2 pre]]]; cbn in Ed, Et; try discriminate.
      injection Ed as <- <-. injection Et as E _. discriminate E.
Defined.

(* ================================================================== *)
(** * Further properties: the cache folder *)
(* ================================================================== *)

Module CacheMore.
Import FS FSFacts FSOps CacheFacts ListingFacts IndexMore3.

(** A directory that lists nothing has nothing below it either. *)
Lemma children_nil_descendants (fs : t) (k : key) :
  wf fs -> children fs k = [] -> descendants fs k = [].
Proof.
  intros W C. destruct (descendants fs k) as [|r l] eqn:D; [reflexivity|exfalso].
  assert (Hr : In r (descendants fs k)) by (rewrite D; now left).
  apply descendants_in in Hr as (Hne & m & Hin).
  destruct r as [|n rest]; [now apply Hne|].
  assert (Lk : lookup fs (k ++ n :: rest) = Some m).
  { apply in_lookup; [exact (proj1 W)| |assumption]. now destruct k. }
  assert (Ln : exists m', lookup fs (k ++ [n]) = Some m').
  { destruct rest as [|y rest]; [now exists m|]. exists Dir.
    apply (wf_above fs (k ++ [n]) (y :: rest) m W); [|discriminate].
    now rewrite <- app_assoc. }
  destruct Ln as (m' & Ln).
  assert (Hc : In n (children fs k)).
  { apply children_in. apply lookup_in in Ln; [|now destruct k].
    unfold keys. apply in_map_iff. now exists (k ++ [n], m'). }
  rewrite C in Hc. exact Hc.
Qed.

(** The two outcomes of one round of the second loop of [cleanup_cache]:
    the tree is left as it is, and then the directory, if it is one, lists
    something; or the directory goes and nothing else changes. *)
Lemma cleanup_dir_cases (fs : t) (d : Path) :
  wf fs -> plain (tail d) -> tail d <> [] ->
  (cleanup_dir fs d = fs
   /\ (lookup fs (tail d) = Some Dir -> children fs (tail d) <> []))
  \/ (forall q, lookup (cleanup_dir fs d) q
                = if list_eqb (tail d) q then None else lookup fs q).
Proof.
  intros W Hp Hne. unfold cleanup_dir, iterdir, rmdir.
  destruct (locate fs d) as [k|e] eqn:Lc; cbn [bind].
  - destruct (walk_plain_inv _ _ _ _ Hp Lc) as [-> _]. cbn [app].
    destruct (lookup fs (tail d)) as [[|b]|] eqn:L;
      try (left; split; [reflexivity|discriminate]).
    destruct (children fs (tail d)) as [|x l] eqn:C; cbn [map].
    + pose proof (children_nil_descendants fs (tail d) W C) as D.
      destruct (tail d) as [|a k] eqn:T; [now elim Hne|]. rewrite D.
      right. intros q. now apply lookup_remove.
    + left. split; [reflexivity|]. intros _. discriminate.
  - left. split; [reflexivity|]. intros L.
    unfold locate in Lc. rewrite (walk_wf _ _ _ W L) in Lc. discriminate.
Qed.

(** The second loop only takes entries away. *)
Lemma cleanup_dir_mono (fs : t) (d : Path) (q : key) (n : node) :
  wf fs -> lookup (cleanup_dir fs d) q = Some n -> lookup fs q = Some n.
Proof.
  intros W. unfold cleanup_dir.
  destruct (iterdir fs d) as [[|x l]|]; try tauto.
  destruct (rmdir fs d) as [fs'|] eqn:R; [|tauto].
  destruct (rmdir_spec _ _ _ W R) as (k & _ & _ & _ & _ & L').
  rewrite (L' q). now destruct (list_eqb k q).
Qed.

Lemma cleanup_dirs_mono (dirs : list Path) (fs : t) (q : key) (n : node) :
  wf fs -> lookup (fold_left cleanup_dir dirs fs) q = Some n -> lookup fs q = Some n.
Proof.
  revert fs. induction dirs as [|d dirs IH]; intros fs W; cbn [fold_left]; [tauto|].
  intros H. apply (cleanup_dir_mono fs d q n W).
  apply IH; [|assumption]. exact (proj1 (cleanup_dir_spec fs d W)).
Qed.

Lemma sorted_split (A : Type) (R : A -> A -> Prop) (pre post : list A) (x : A) :
  StronglySorted R (pre ++ x :: post) -> Forall (R x) post.
Proof.
  induction pre as [|y pre IH]; cbn [app]; intros S.
  - now apply StronglySorted_inv in S.
  - apply IH. now apply StronglySorted_inv in S.
Qed.

(** A directory that is still there after the second loop, run deepest
    first, lists something. *)
Lemma cleanup_dirs_nonempty (dirs : list Path) (fs : t) (d : Path) :
  wf fs ->
  StronglySorted (fun a b => List.length (tail b) <= List.length (tail a)) dirs ->
  (forall p, In p dirs -> plain (tail p) /\ tail p <> []) ->
  In d dirs ->
  lookup (fold_left cleanup_dir dirs fs) (tail d) = Some Dir ->
  children (fold_left cleanup_dir dirs fs) (tail d) <> [].
Proof.
  intros W S Hd Hin L.
  destruct (in_split _ _ Hin) as (pre & post & E). subst dirs.
  rewrite fold_left_app in *. cbn [fold_left] in *.
  set (sA := fold_left cleanup_dir pre fs) in *.
  assert (WA : wf sA) by exact (proj1 (cleanup_dirs_spec pre fs W)).
  assert (WB : wf (cleanup_dir sA d)) by exact (proj1 (cleanup_dir_spec sA d WA)).
  destruct (Hd d Hin) as [Pd Nd].
  apply cleanup_dirs_mono in L as LB; [|assumption].
  destruct (cleanup_dir_cases sA d WA Pd Nd) as [[Es Hc]|Hr].
  - rewrite Es in *. specialize (Hc LB).
    destruct (children sA (tail d)) as [|x l] eqn:C; [now elim Hc|].
    assert (Hx : In (tail d ++ [x]) (keys sA)).
    { apply children_in. rewrite C. now left. }
    intros C'.
    assert (Hx' : In x (children (fold_left cleanup_dir post sA) (tail d)));
      [|rewrite C' in Hx'; exact Hx'].
    apply children_in.
    assert (Ls : lookup sA (tail d ++ [x]) <> None).
    { intros N. apply lookup_none in N as [_ N]. now apply N. }
    assert (Lf : lookup (fold_left cleanup_dir post sA) (tail d ++ [x])
                 = lookup sA (tail d ++ [x])).
    { apply cleanup_dirs_frame; [assumption|]. intros p Hp. split.
      - apply Hd. apply in_or_app. right. now right.
      - apply sorted_split in S. rewrite Forall_forall in S. specialize (S p Hp).
        cbv beta in S. intros E. rewrite <- E in S. rewrite length_app in S.
        cbn [List.length] in S. lia. }
    rewrite <- Lf in Ls.
    destruct (in_dec (list_eq_dec string_dec) (tail d ++ [x])
                (keys (fold_left cleanup_dir post sA))) as [I|I]; [exact I|].
    elim Ls. apply lookup_none. split; [now destruct (tail d)|exact I].
  - rewrite (Hr (tail d)), list_eqb_refl in LB. discriminate.
Qed.

Lemma parts_length_under (c : Path) (r : key) :
  List.length (parts (under c r))
  = List.length (parts c) + List.length r.
Proof.
  unfold parts, under. cbn [root tail]. destruct (String.eqb (root c) "");
    cbn [List.length]; rewrite length_app; lia.
Qed.

(** The two loops of [cleanup_cache]: the tree [fs1] the first leaves has
    lost files below the cache folder only; the second goes through the
    directories of [fs1] below the cache folder, the deepest first. *)
Lemma cleanup_cache_run (fs : t) (c : Path) (keep_set : strset) :
  wf fs -> lookup fs (tail c) = Some Dir ->
  exists fs1 dirs,
    cleanup_cache fs c keep_set = Ok (fold_left cleanup_dir dirs fs1)
    /\ wf fs1
    /\ (forall q, lookup fs1 q = lookup fs q
                  \/ (lookup fs1 q = None /\ inside (tail c) q))
    /\ (forall p, In p dirs <->
                  exists rel, p = under c rel /\ rel <> []
                              /\ lookup fs1 (tail c ++ rel) = Some Dir)
    /\ StronglySorted (fun a b => List.length (tail b) <= List.length (tail a)) dirs.
Proof.
  intros W Lc. unfold cleanup_cache.
  assert (Pc : plain (tail c)) by exact (proj1 (wf_lookup _ _ _ W Lc)).
  assert (St : stat fs c = Ok Dir) by (now apply stat_found).
  assert (Ex : exists_ fs c = true) by (unfold exists_; now rewrite St).
  assert (Rg : rglob_rel fs c = descendants fs (tail c)).
  { unfold rglob_rel, locate. rewrite (walk_wf _ _ _ W Lc).
    unfold is_dir. now rewrite St. }
  rewrite Ex. cbn [negb]. rewrite Rg.
  destruct (cleanup_files_spec c keep_set (descendants fs (tail c)) fs W)
    as (fs1 & E1 & W1 & L1).
  { intros rel Hr. apply descendants_in in Hr as (_ & m & Hin).
    destruct W as [ND W]. exact (proj1 (proj2 (W _ _ Hin))). }
  rewrite E1. cbn [bind].
  assert (F1 : forall q, lookup fs1 q = lookup fs q
                         \/ (lookup fs1 q = None /\ inside (tail c) q)).
  { intros q. rewrite (L1 q). destruct (doomed (tail c) keep_set fs q) eqn:Dm;
      [|left; now rewrite andb_false_r].
    destruct (existsb _ _); cbn [andb]; [right|now left]. split; [reflexivity|].
    destruct (doomed_file _ _ _ _ Dm) as (rel & b & -> & Lq).
    destruct rel as [|n rel]; [rewrite app_nil_r in Lq; congruence|].
    now exists n, rel. }
  assert (Lc1 : lookup fs1 (tail c) = Some Dir).
  { destruct (F1 (tail c)) as [E|[_ (n & rel & E)]]; [congruence|].
    exfalso. apply (f_equal (@List.length string)) in E. rewrite length_app in E.
    cbn [List.length] in E. lia. }
  assert (Rg1 : rglob fs1 c = map (under c) (descendants fs1 (tail c))).
  { unfold rglob, rglob_rel, locate. rewrite (walk_wf _ _ _ W1 Lc1).
    unfold is_dir. now rewrite (stat_found _ _ _ W1 Lc1). }
  match goal with |- context [fold_left cleanup_dir ?ds fs1] => set (dirs := ds) end.
  assert (Hdirs : forall p, In p dirs <->
            exists rel, p = under c rel /\ rel <> []
                        /\ lookup fs1 (tail c ++ rel) = Some Dir).
  { intros p. unfold dirs. split.
    - intros Hp.
      apply (Permutation_in _ (Permutation_sym (sorted_perm _ _ _ _ _))) in Hp.
      apply filter_In in Hp as [Hp Dp]. rewrite Rg1 in Hp.
      apply in_map_iff in Hp as (rel & <- & Hr).
      apply descendants_in in Hr as (Hne & m & Hin).
      exists rel. split; [reflexivity|]. split; [assumption|].
      apply is_dir_iff in Dp; [exact Dp|assumption|].
      destruct W1 as [ND1 W1]. exact (proj1 (proj2 (W1 _ _ Hin))).
    - intros (rel & -> & Hne & L).
      apply (Permutation_in _ (sorted_perm _ _ _ _ _)).
      apply filter_In. split.
      + rewrite Rg1. apply in_map. apply descendants_in. split; [assumption|].
        exists Dir. apply lookup_in; [|assumption]. now destruct (tail c), rel.
      + apply is_dir_iff; [assumption| |exact L].
        exact (proj1 (wf_lookup _ _ _ W1 L)). }
  exists fs1, dirs. split; [reflexivity|]. split; [assumption|].
  split; [assumption|]. split; [assumption|].
  assert (S0 : StronglySorted
                 (fun a b => deeper_first (List.length (parts a))
                                          (List.length (parts b)) = true) dirs).
  { unfold dirs. apply sorted_key_sorted.
    - intros a b. unfold deeper_first. rewrite Nat.leb_gt, Nat.leb_le. lia.
    - intros a b x. unfold deeper_first. rewrite !Nat.leb_le. lia. }
  assert (G : forall l, (forall p, In p l -> In p dirs) ->
            StronglySorted
              (fun a b => deeper_first (List.length (parts a))
                                       (List.length (parts b)) = true) l ->
            StronglySorted
              (fun a b => List.length (tail b) <= List.length (tail a)) l).
  { induction l as [|a l IH]; intros Hl Sl; [constructor|].
    apply StronglySorted_inv in Sl as [Sl Fl]. constructor.
    - apply IH; [|assumption]. intros p Hp. apply Hl. now right.
    - rewrite Forall_forall in *. intros b Hb. specialize (Fl b Hb).
      unfold deeper_first in Fl. apply Nat.leb_le in Fl.
      destruct (proj1 (Hdirs a) (Hl a (or_introl eq_refl))) as (ra & -> & _).
      destruct (proj1 (Hdirs b) (Hl b (or_intror Hb))) as (rb & -> & _).
      rewrite !parts_length_under in Fl. cbn [under tail].
      rewrite !length_app. lia. }
  apply G; [tauto|exact S0].
Qed.

(** The directories the second loop goes through have plain names below
    the cache folder. *)
Lemma cleanup_cache_dirs_plain (fs1 : t) (c : Path) (dirs : list Path) :
  wf fs1 ->
  (forall p, In p dirs <->
             exists rel, p = under c rel /\ rel <> []
                         /\ lookup fs1 (tail c ++ rel) = Some Dir) ->
  forall p, In p dirs -> plain (tail p) /\ tail p <> [] /\ inside (tail c) (tail p).
Proof.
  intros W1 Hdirs p Hp. apply Hdirs in Hp as (rel & -> & Hne & L). cbn [under tail].
  split; [exact (proj1 (wf_lookup _ _ _ W1 L))|]. split.
  - now destruct (tail c), rel.
  - destruct rel as [|n rel]; [now elim Hne|]. now exists n, rel.
Qed.

End CacheMore.

Import FS FSFacts FSOps CacheFacts ListingFacts IndexMore3 CacheMore.

(** X16.  [cleanup_cache] on a cache folder that exists returns, only takes
    entries away, changes nothing that is not strictly below the cache
    folder, and leaves no empty directory below it. *)
Theorem cleanup_cache_tidy (fs : t) (c : Path) (keep_set : strset) :
  wf fs -> lookup fs (tail c) = Some Dir ->
  exists fs',
    cleanup_cache fs c keep_set = Ok fs'
    /\ (forall q n, lookup fs' q = Some n -> lookup fs q = Some n)
    /\ (forall q, ~ inside (tail c) q -> lookup fs' q = lookup fs q)
    /\ (forall rel, rel <> [] -> lookup fs' (tail c ++ rel) = Some Dir ->
                    children fs' (tail c ++ rel) <> []).
Proof.
  intros W Lc.
  destruct (cleanup_cache_run fs c keep_set W Lc) as (fs1 & dirs & E & W1 & F1 & Hdirs & S).
  pose proof (cleanup_cache_dirs_plain fs1 c dirs W1 Hdirs) as Hplain.
  exists (fold_left cleanup_dir dirs fs1). split; [exact E|]. split; [|split].
  - intros q n H. apply cleanup_dirs_mono in H; [|assumption].
    destruct (F1 q) as [<-|[N _]]; [assumption|congruence].
  - intros q Hq. rewrite cleanup_dirs_frame; [|assumption|].
    + destruct (F1 q) as [F|[_ F]]; [exact F|now elim Hq].
    + intros p Hp. destruct (Hplain p Hp) as (P & _ & I). split; [exact P|].
      intros ->. now apply Hq.
  - intros rel Hne L.
    apply (cleanup_dirs_nonempty dirs fs1 (under c rel) W1 S); [| |exact L].
    + intros p Hp. destruct (Hplain p Hp) as (P & N & _). now split.
    + apply Hdirs. exists rel. split; [reflexivity|]. split; [assumption|].
      exact (cleanup_dirs_mono dirs fs1 _ _ W1 L).
Qed.

Lemma cleanup_cache_tidy_witness :
  exists fs',
    cleanup_cache Demo.stale Demo.cache [] = Ok fs'
    /\ (forall q n, lookup fs' q = Some n -> lookup Demo.stale q = Some n)
    /\ (forall q, ~ inside (tail Demo.cache) q -> lookup fs' q = lookup Demo.stale q)
    /\ (forall rel, rel <> [] -> lookup fs' (tail Demo.cache ++ rel) = Some Dir ->
                    children fs' (tail Demo.cache ++ rel) <> []).
Proof.
  apply (cleanup_cache_tidy Demo.stale Demo.cache []).
  - apply wf_b_sound. vm_compute. reflexivity.
  - vm_compute. reflexivity.
Defined.

Module CacheMore2.
Import ODictFacts.

Section Outputs.
Variable unzip : string -> result (list ZipInfo).
Variable TEXTURE_EXTS : list string.
Variables base_dir c : Path.

(** What one round of the loop of [extract_assets] does to the texture
    map and to the list of failures. *)
Lemma extract_asset_outputs (st st' : Extraction) (a : asset) :
  extract_asset unzip TEXTURE_EXTS base_dir c st a = Ok st' ->
  (failed st' = failed st ++ [to_str (snd a)] /\ texture_map st' = texture_map st)
  \/ (failed st' = failed st
      /\ texture_map st'
         = if in_TEXTURE_EXTS TEXTURE_EXTS (lower (suffix (joinpath c (snd a))))
           then ODict.set String.eqb (lower (stem (joinpath c (snd a))))
                          (to_str (joinpath c (snd a))) (texture_map st)
           else texture_map st).
Proof.
  destruct a as [src dest_rel]. unfold extract_asset. cbv zeta. cbn [snd].
  destruct (mkdir (x_fs st) _) as [fs1|e]; cbn [bind]; [|discriminate].
  destruct (copy_asset unzip fs1 base_dir src _) as [fs2 [u|e]]; intros [= <-];
    cbn [failed texture_map]; [right|left]; now split.
Qed.

Lemma extract_loop_outputs (assets : list asset) (st st' : Extraction) :
  extract_loop unzip TEXTURE_EXTS base_dir c st assets = Ok st' ->
  (forall k v, ODict.get String.eqb k (texture_map st') = Some v ->
     ODict.get String.eqb k (texture_map st) = Some v
     \/ exists a, In a assets
          /\ k = lower (stem (joinpath c (snd a)))
          /\ v = to_str (joinpath c (snd a))
          /\ in_TEXTURE_EXTS TEXTURE_EXTS (lower (suffix (joinpath c (snd a)))) = true)
  /\ (forall x, In x (failed st') ->
        In x (failed st) \/ exists a, In a assets /\ x = to_str (snd a))
  /\ (forall x, In x (failed st) -> In x (failed st'))
  /\ (forall k, ODict.get String.eqb k (texture_map st) <> None ->
                ODict.get String.eqb k (texture_map st') <> None)
  /\ (forall a, In a assets ->
        In (to_str (snd a)) (failed st')
        \/ (in_TEXTURE_EXTS TEXTURE_EXTS (lower (suffix (joinpath c (snd a)))) = true ->
            ODict.get String.eqb (lower (stem (joinpath c (snd a)))) (texture_map st')
            <> None)).
Proof.
  revert st. induction assets as [|a assets IH]; intros st; cbn [extract_loop].
  - intros [= <-]. split; [now left|]. split; [now left|]. split; [tauto|].
    split; [tauto|]. intros a [].
  - destruct (extract_asset unzip TEXTURE_EXTS base_dir c st a) as [st1|e] eqn:E1;
      cbn [bind]; [|discriminate].
    intros E. destruct (IH _ E) as (T & F & F' & K & C).
    pose proof (extract_asset_outputs _ _ _ E1) as O.
    split; [|split; [|split; [|split]]].
    + intros k v G. destruct (T k v G) as [G1|(a' & Ha & R)];
        [|right; exists a'; split; [now right|exact R]].
      destruct O as [[_ Et]|[_ Et]]; rewrite Et in G1; [now left|].
      destruct (in_TEXTURE_EXTS TEXTURE_EXTS _) eqn:X; [|now left].
      rewrite get_set in G1.
      destruct (String.eqb (lower (stem (joinpath c (snd a)))) k) eqn:Ek; [|now left].
      apply String.eqb_eq in Ek. injection G1 as <-. right. exists a.
      split; [now left|]. now split.
    + intros x Hx. destruct (F x Hx) as [H1|(a' & Ha & R)];
        [|right; exists a'; split; [now right|exact R]].
      destruct O as [[Ef _]|[Ef _]]; rewrite Ef in H1; [|now left].
      apply in_app_or in H1 as [H1|[<-|[]]]; [now left|]. right. exists a.
      split; [now left|reflexivity].
    + intros x Hx. apply F'. destruct O as [[Ef _]|[Ef _]]; rewrite Ef; [|exact Hx].
      apply in_or_app. now left.
    + intros k Hk. apply K. destruct O as [[_ Et]|[_ Et]]; rewrite Et; [exact Hk|].
      destruct (in_TEXTURE_EXTS TEXTURE_EXTS _); [|exact Hk]. rewrite get_set.
      now destruct (String.eqb _ k).
    + intros a' [<-|Ha]; [|now apply C].
      destruct O as [[Ef _]|[_ Et]].
      * left. apply F'. rewrite Ef. apply in_or_app. right. now left.
      * right. intros X. apply K. rewrite Et, X, get_set, String.eqb_refl. discriminate.
Qed.

End Outputs.
End CacheMore2.

Import CacheMore2.

(** X17.  What [extract_assets] returns, when it returns: every asset of
    the list is either reported in the list of failures, by its destination
    as given, or, when the suffix of its destination in the cache is a
    texture suffix, has the lower-cased stem of that destination as a key
    of the texture map.  Every failure reported is the destination of a
    listed asset, and every entry of the map binds the lower-cased stem of
    the destination of a listed asset with a texture suffix to that
    destination in the cache. *)
Theorem extract_assets_outputs
    (unzip : string -> result (list ZipInfo)) (TEXTURE_EXTS : list string)
    (fs fs' : t) (base_dir cache_root : Path) (assets : list asset)
    (tm : ODict.t string string) (fl : list string) :
  extract_assets unzip TEXTURE_EXTS fs base_dir cache_root assets = Ok (fs', tm, fl) ->
  (forall a, In a assets ->
     In (to_str (snd a)) fl
     \/ (in_TEXTURE_EXTS TEXTURE_EXTS (lower (suffix (joinpath cache_root (snd a)))) = true ->
         ODict.get String.eqb (lower (stem (joinpath cache_root (snd a)))) tm <> None))
  /\ (forall x, In x fl -> exists a, In a assets /\ x = to_str (snd a))
  /\ (forall k v, ODict.get String.eqb k tm = Some v ->
        exists a, In a assets
          /\ k = lower (stem (joinpath cache_root (snd a)))
          /\ v = to_str (joinpath cache_root (snd a))
          /\ in_TEXTURE_EXTS TEXTURE_EXTS (lower (suffix (joinpath cache_root (snd a))))
             = true).
Proof.
  unfold extract_assets.
  destruct (mkdir fs cache_root) as [fs0|e]; cbn [bind]; [|discriminate].
  destruct (extract_loop unzip TEXTURE_EXTS base_dir cache_root _ assets) as [st|e] eqn:E;
    cbn [bind]; [|discriminate].
  destruct (cleanup_cache (x_fs st) cache_root (keep st)) as [fs2|e]; cbn [bind];
    [|discriminate].
  intros [= _ <- <-].
  destruct (extract_loop_outputs unzip TEXTURE_EXTS base_dir cache_root assets _ _ E)
    as (T & F & _ & _ & C).
  cbn [texture_map failed] in *. split; [exact C|]. split.
  - intros x Hx. destruct (F x Hx) as [[]|R]. exact R.
  - intros k v G. destruct (T k v G) as [G0|R]; [discriminate G0|exact R].
Qed.

Lemma extract_assets_outputs_witness :
  (forall a, In a Demo.assets ->
     In (to_str (snd a)) []
     \/ (in_TEXTURE_EXTS Demo.exts (lower (suffix (joinpath Demo.cache (snd a)))) = true ->
         ODict.get String.eqb (lower (stem (joinpath Demo.cache (snd a))))
           [("t", "/game/cache/textures/t.png");
            ("head", "/game/cache/models/players/kyle/head.jpg")] <> None))
  /\ (forall x, In x [] -> exists a, In a Demo.assets /\ x = to_str (snd a))
  /\ (forall k v,
        ODict.get String.eqb k
          [("t", "/game/cache/textures/t.png");
           ("head", "/game/cache/models/players/kyle/head.jpg")] = Some v ->
        exists a, In a Demo.assets
          /\ k = lower (stem (joinpath Demo.cache (snd a)))
          /\ v = to_str (joinpath Demo.cache (snd a))
          /\ in_TEXTURE_EXTS Demo.exts (lower (suffix (joinpath Demo.cache (snd a))))
             = true).
Proof.
  refine (extract_assets_outputs Demo.unzip Demo.exts Demo.tree
            (match extract_assets Demo.unzip Demo.exts Demo.tree Demo.game Demo.cache
                     Demo.assets with
             | Ok (f, _, _) => f
             | Raise _ => []
             end)
            Demo.game Demo.cache Demo.assets _ _ _).
  vm_compute. reflexivity.
Defined.

Module CacheMore3.

Lemma not_inside_self (ck : key) : ~ inside ck ck.
Proof.
  intros (n & rel & E). apply (f_equal (@List.length string)) in E.
  rewrite length_app in E. cbn [List.length] in E. lia.
Qed.

Lemma dirs_outside_refl (ck : key) (fs : t) : dirs_outside ck fs fs.
Proof. intros q _. split; [tauto|]. intros n H. now left. Qed.

Lemma dirs_outside_trans (ck : key) (a b c : t) :
  dirs_outside ck a b -> dirs_outside ck b c -> dirs_outside ck a c.
Proof.
  intros H1 H2 q Hq. destruct (H1 q Hq) as [K1 N1]. destruct (H2 q Hq) as [K2 N2].
  split; [intros n H; now apply K2, K1|].
  intros n H. destruct (N2 n H) as [Hb|[Hb ->]].
  - now apply N1.
  - right. split; [|reflexivity]. destruct (lookup a q) as [m|] eqn:La; [|reflexivity].
    rewrite (K1 m eq_refl) in Hb. discriminate.
Qed.

Lemma adds_dirs_outside (ck : key) (fs fs' : t) : adds_dirs fs fs' -> dirs_outside ck fs fs'.
Proof. intros [K N] q _. split; [apply K|apply N]. Qed.

Lemma same_outside (ck : key) (fs fs' : t) :
  (forall q, ~ inside ck q -> lookup fs' q = lookup fs q) -> dirs_outside ck fs fs'.
Proof.
  intros H q Hq. rewrite (H q Hq). split; [tauto|]. intros n L. now left.
Qed.

(** A file written at a plain place below the folder at [ck], or under a
    name in a directory at such a place, changes nothing but below [ck]. *)
Lemma write_file_inside (ck : key) (fs fs' : t) (dp p : Path) (td : key) (bytes : string) :
  wf fs -> lookup fs ck = Some Dir ->
  plain (tail dp) -> tail dp = ck ++ td ->
  p = (if is_dir fs dp then child dp (name p) else dp) ->
  write_file fs p bytes = Ok fs' ->
  forall q, ~ inside ck q -> lookup fs' q = lookup fs q.
Proof.
  intros W Lc Pd Td Ep Wr q Hq.
  destruct (write_file_spec _ _ _ _ W Wr) as (k & Lk & Kne & Nd & _ & L').
  rewrite (L' q). destruct (list_eqb k q) eqn:E; [|reflexivity].
  apply list_eqb_eq in E. subst q. exfalso. apply Hq. clear L' Wr.
  destruct (is_dir fs dp) eqn:D.
  - apply is_dir_iff in D; [|assumption|assumption].
    rewrite Ep in Lk. unfold locate, child in Lk. cbn [tail] in Lk.
    rewrite walk_app in Lk. rewrite (walk_wf _ _ _ W D) in Lk. cbn [bind walk] in Lk.
    rewrite D in Lk. injection Lk as <-. unfold step in *.
    destruct (String.eqb (name p) "..").
    { elim Nd. exact (proj2 (wf_lookup _ _ _ W D)). }
    destruct (String.eqb (name p) "."); [now elim Nd|].
    rewrite Td, <- app_assoc. destruct td as [|x td]; cbn [app].
    + now exists (name p), [].
    + now exists x, (td ++ [name p]).
  - rewrite Ep in Lk. unfold locate in Lk.
    destruct (walk_plain_inv _ _ _ _ Pd Lk) as [-> _]. cbn [app] in *.
    rewrite Td in *. destruct td as [|x td]; [|now exists x, td].
    rewrite app_nil_r in Nd. now elim Nd.
Qed.

Section Frame.
Variable unzip : string -> result (list ZipInfo).
Variable TEXTURE_EXTS : list string.
Variables base_dir c : Path.

Lemma copy_asset_outside (fs fs' : t) (src : FileSource) (dp : Path) (td : key)
    (r : result unit) :
  wf fs -> lookup fs (tail c) = Some Dir ->
  plain (tail dp) -> tail dp = tail c ++ td ->
  copy_asset unzip fs base_dir src dp = (fs', r) ->
  forall q, ~ inside (tail c) q -> lookup fs' q = lookup fs q.
Proof.
  intros W Lc Pd Td. unfold copy_asset.
  assert (CM : forall info, copy_member fs info dp = (fs', r) ->
                 forall q, ~ inside (tail c) q -> lookup fs' q = lookup fs q).
  { intros info. unfold copy_member.
    assert (Wd : forall bytes f, write_file fs dp bytes = Ok f ->
                   forall q, ~ inside (tail c) q -> lookup f q = lookup fs q).
    { intros bytes f Wr. apply (write_file_inside (tail c) fs f dp dp td bytes); auto.
      destruct (is_dir fs dp) eqn:D; [|reflexivity]. exfalso.
      apply is_dir_iff in D; [|assumption|assumption].
      destruct (write_file_spec _ _ _ _ W Wr) as (k & Lk & _ & Nd & _).
      unfold locate in Lk. destruct (walk_plain_inv _ _ _ _ Pd Lk) as [-> _].
      now elim Nd. }
    destruct (body info) as [data| |partial].
    - destruct (write_file fs dp data) as [f|e] eqn:Wr; intros [= <- <-]; eauto.
    - intros [= <- <-]. reflexivity.
    - destruct (write_file fs dp partial) as [f|e] eqn:Wr; intros [= <- <-]; eauto. }
  destruct (String.eqb (fs_origin src) "disk").
  - unfold copy2. cbv zeta.
    match goal with |- context [if ?b then (fs, Raise SameFileError) else _] =>
      destruct b end; [intros [= <- <-]; reflexivity|].
    destruct (read_file fs _) as [bytes|e]; [|intros [= <- <-]; reflexivity].
    destruct (write_file fs _ bytes) as [f|e] eqn:Wr; intros [= <- <-]; [|reflexivity].
    refine (write_file_inside (tail c) fs f dp _ td bytes W Lc Pd Td _ Wr).
    destruct (is_dir fs dp); [|reflexivity]. unfold child, name. cbn [tail].
    now rewrite last_last.
  - destruct (fs_container src) as [p|]; [|intros [= <- <-]; reflexivity].
    destruct (open_pk3 unzip fs p) as [zf|e]; [|intros [= <- <-]; reflexivity].
    destruct (getinfo zf _) as [info|e]; [|intros [= <- <-]; reflexivity].
    apply CM.
Qed.

Lemma extract_asset_outside (st st' : Extraction) (a : asset) :
  wf (x_fs st) -> plain (tail c) -> lookup (x_fs st) (tail c) = Some Dir ->
  plain_rel (snd a) ->
  extract_asset unzip TEXTURE_EXTS base_dir c st a = Ok st' ->
  wf (x_fs st') /\ lookup (x_fs st') (tail c) = Some Dir
  /\ dirs_outside (tail c) (x_fs st) (x_fs st').
Proof.
  intros W Pc Lc Pa E.
  destruct (extract_asset_spec unzip TEXTURE_EXTS _ _ _ _ _ W E) as (W' & _ & _).
  split; [exact W'|]. revert E. unfold extract_asset. destruct a as [src dest_rel].
  cbn [snd] in *. cbv zeta.
  destruct (plain_rel_join c dest_rel Pc Pa) as (J & Pj & _). rewrite J.
  destruct (mkdir (x_fs st) _) as [fs1|e] eqn:M; cbn [bind]; [|discriminate].
  destruct (mkdir_spec _ _ _ W M) as (W1 & A1 & _).
  destruct (copy_asset unzip fs1 base_dir src _) as [fs2 r] eqn:C.
  assert (Lc1 : lookup fs1 (tail c) = Some Dir) by (now apply (proj1 A1)).
  pose proof (copy_asset_outside fs1 fs2 src
                {| root := root c; tail := tail c ++ tail dest_rel |}
                (tail dest_rel) r W1 Lc1 Pj eq_refl C) as F.
  assert (R : lookup fs2 (tail c) = Some Dir /\ dirs_outside (tail c) (x_fs st) fs2).
  { split.
    - rewrite F; [exact Lc1|apply not_inside_self].
    - apply (dirs_outside_trans _ _ fs1); [now apply adds_dirs_outside|].
      now apply same_outside. }
  destruct r; intros [= <-]; cbn [x_fs]; exact R.
Qed.

Lemma extract_loop_outside (assets : list asset) (st st' : Extraction) :
  wf (x_fs st) -> plain (tail c) -> lookup (x_fs st) (tail c) = Some Dir ->
  (forall a, In a assets -> plain_rel (snd a)) ->
  extract_loop unzip TEXTURE_EXTS base_dir c st assets = Ok st' ->
  dirs_outside (tail c) (x_fs st) (x_fs st').
Proof.
  revert st. induction assets as [|a assets IH]; intros st W Pc Lc Pa; cbn [extract_loop].
  - intros [= <-]. apply dirs_outside_refl.
  - destruct (extract_asset unzip TEXTURE_EXTS base_dir c st a) as [st1|e] eqn:E;
      cbn [bind]; [|discriminate].
    intros L.
    destruct (extract_asset_outside st st1 a W Pc Lc (Pa a (or_introl eq_refl)) E)
      as (W1 & Lc1 & O1).
    apply (dirs_outside_trans _ _ (x_fs st1)); [exact O1|].
    apply IH; auto. intros a' Ha'. apply Pa. now right.
Qed.

End Frame.
End CacheMore3.

Import CacheMore3.

(** X18.  When every destination is a relative path without [.] and [..]
    components, [extract_assets] works below the cache folder only: an
    entry that is not below the cache folder is left as it was, and what
    the call adds elsewhere are directories (the cache folder and those
    above it). *)
Theorem extract_assets_outside
    (unzip : string -> result (list ZipInfo)) (TEXTURE_EXTS : list string)
    (fs fs' : t) (base_dir cache_root : Path) (assets : list asset)
    (tm : ODict.t string string) (fl : list string) :
  wf fs -> plain (tail cache_root) ->
  (forall a, In a assets -> plain_rel (snd a)) ->
  extract_assets unzip TEXTURE_EXTS fs base_dir cache_root assets = Ok (fs', tm, fl) ->
  forall q, ~ inside (tail cache_root) q ->
    (forall n, lookup fs q = Some n -> lookup fs' q = Some n)
    /\ (forall n, lookup fs' q = Some n ->
          lookup fs q = Some n \/ (lookup fs q = None /\ n = Dir)).
Proof.
  intros W Pc Pa E.
  destruct (extract_assets_steps unzip TEXTURE_EXTS _ _ _ _ _ _ _ W Pc E)
    as (fs0 & st & M & L & C & _ & _ & W1 & _ & _ & Lc).
  destruct (mkdir_spec _ _ _ W M) as (W0 & A0 & D0).
  assert (Lc0 : lookup fs0 (tail cache_root) = Some Dir) by (now apply is_dir_iff in D0).
  pose proof (extract_loop_outside unzip TEXTURE_EXTS base_dir cache_root assets
                (mkExtraction fs0 [] [] []) st W0 Pc Lc0 Pa L) as O1.
  cbn [x_fs] in O1.
  destruct (cleanup_cache_run (x_fs st) cache_root (keep st) W1 Lc)
    as (fs1 & dirs & E2 & Wf1 & F1 & Hdirs & _).
  rewrite C in E2. injection E2 as ->.
  pose proof (cleanup_cache_dirs_plain fs1 cache_root dirs Wf1 Hdirs) as Hplain.
  apply (dirs_outside_trans _ _ fs0); [now apply adds_dirs_outside|].
  apply (dirs_outside_trans _ _ (x_fs st)); [exact O1|].
  apply same_outside. intros q Hq. rewrite cleanup_dirs_frame; [|assumption|].
  - destruct (F1 q) as [F|[_ F]]; [exact F|now elim Hq].
  - intros p Hp. destruct (Hplain p Hp) as (P & _ & I). split; [exact P|].
    intros ->. now apply Hq.
Qed.

Lemma extract_assets_outside_witness :
  exists fs' tm,
    extract_assets Demo.unzip Demo.exts Demo.tree Demo.game Demo.cache Demo.assets
    = Ok (fs', tm, [])
    /\ forall q, ~ inside (tail Demo.cache) q ->
         (forall n, lookup Demo.tree q = Some n -> lookup fs' q = Some n)
         /\ (forall n, lookup fs' q = Some n ->
               lookup Demo.tree q = Some n \/ (lookup Demo.tree q = None /\ n = Dir)).
Proof.
  eexists. eexists. split; [vm_compute; reflexivity|].
  refine (extract_assets_outside Demo.unzip Demo.exts Demo.tree _ Demo.game Demo.cache
            Demo.assets _ [] _ _ _ _).
  - apply wf_b_sound. vm_compute. reflexivity.
  - apply plain_b_sound. vm_compute. reflexivity.
  - intros a [<-|[<-|[]]]; (split; [reflexivity|apply plain_b_sound; reflexivity]).
  - vm_compute. reflexivity.
Defined.

(** X19.  [rewrite_skin_paths] rewrites the skin file in place and touches
    nothing else.  With no replacement, or when the skin file is missing,
    cannot be read or cannot be decoded, the tree is left as it is.
    Otherwise the skin path leads to a file; after the call that file holds
    the text of the skin after the replacements, applied in the order of the
    dictionary, or nothing when that text cannot be encoded; and every other
    entry is as it was. *)
Theorem rewrite_skin_paths_effect
    (decode_strict encode_locale : string -> option string)
    (fs : t) (cache_root skin_rel : Path) (replacements : ODict.t string string) :
  (replacements = [] \/ exists_ fs (joinpath cache_root skin_rel) = false
   \/ (forall bytes, read_file fs (joinpath cache_root skin_rel) <> Ok bytes)
   \/ (exists bytes, read_file fs (joinpath cache_root skin_rel) = Ok bytes
                     /\ decode_strict bytes = None)
   -> rewrite_skin_paths decode_strict encode_locale fs cache_root skin_rel replacements
      = fs)
  /\ forall bytes text,
       replacements <> [] ->
       read_file fs (joinpath cache_root skin_rel) = Ok bytes ->
       decode_strict bytes = Some text ->
       exists k,
         locate fs (joinpath cache_root skin_rel) = Ok k
         /\ lookup fs k = Some (File bytes)
         /\ forall q,
              lookup (rewrite_skin_paths decode_strict encode_locale fs cache_root
                        skin_rel replacements) q
              = if list_eqb k q
                then Some (File match encode_locale
                                        (fold_left
                                           (fun t kv => replace (fst kv) (snd kv) t)
                                           replacements text) with
                                | Some b => b
                                | None => ""
                                end)
                else lookup fs q.
Proof.
  unfold rewrite_skin_paths. split.
  - destruct replacements as [|r0 rs]; [reflexivity|]. cbv zeta.
    destruct (exists_ fs (joinpath cache_root skin_rel)) eqn:Ex; cbn [negb];
      [|reflexivity].
    destruct (read_file fs (joinpath cache_root skin_rel)) as [bytes|e] eqn:Rd;
      [|reflexivity].
    destruct (decode_strict bytes) as [text|] eqn:Dc; [|reflexivity].
    intros [H|[H|[H|(b & H & H')]]]; try discriminate.
    + now elim (H bytes).
    + injection H as <-. congruence.
  - intros bytes text Hne Rd Dc.
    destruct replacements as [|r0 rs]; [now elim Hne|]. cbv zeta.
    assert (St : exists k, locate fs (joinpath cache_root skin_rel) = Ok k
                           /\ lookup fs k = Some (File bytes)).
    { unfold read_file, stat in Rd.
      destruct (locate fs (joinpath cache_root skin_rel)) as [k|e]; [|discriminate].
      cbn [bind] in Rd. exists k. split; [reflexivity|].
      destruct (lookup fs k) as [[|b]|]; cbn [bind] in Rd; try discriminate.
      now injection Rd as ->. }
    destruct St as (k & Lk & Lf). exists k. split; [exact Lk|]. split; [exact Lf|].
    assert (Ex : exists_ fs (joinpath cache_root skin_rel) = true).
    { unfold exists_, stat. rewrite Lk. cbn [bind]. now rewrite Lf. }
    rewrite Ex, Rd, Dc. cbn [negb].
    unfold write_file. rewrite Lk. cbn [bind]. rewrite Lf.
    intros q. apply lookup_set. intros ->. rewrite lookup_nil in Lf. discriminate.
Qed.

Lemma rewrite_skin_paths_effect_witness :
  exists k,
    locate Demo.tree (joinpath Demo.game (parse "models/players/kyle/model_red.skin"))
    = Ok k
    /\ lookup Demo.tree k = Some (File "head,*off")
    /\ forall q,
         lookup (rewrite_skin_paths Some Some Demo.tree Demo.game
                   (parse "models/players/kyle/model_red.skin") [("*off", "*on")]) q
         = if list_eqb k q
           then Some (File match Some (fold_left
                                         (fun t kv => replace (fst kv) (snd kv) t)
                                         [("*off", "*on")] "head,*off") with
                           | Some b => b
                           | None => ""
                           end)
           else lookup Demo.tree q.
Proof.
  refine (proj2 (rewrite_skin_paths_effect Some Some Demo.tree Demo.game
                   (parse "models/players/kyle/model_red.skin") [("*off", "*on")])
            "head,*off" "head,*off" _ _ _).
  - discriminate.
  - reflexivity.
  - reflexivity.
Defined.

(* ================================================================== *)
(** * The first extraction into a cache *)
(* ================================================================== *)

Module FirstRun.
Import FS FSFacts FSOps CacheFacts.

(** Along a path of plain components with no file on it, resolution
    reaches the end or stops at a missing directory. *)
Lemma walk_result (fs : t) (segs : list string) (cur : key) :
  plain segs ->
  (forall pre post b, segs = pre ++ post -> lookup fs (cur ++ pre) <> Some (File b)) ->
  walk fs cur segs = Ok (cur ++ segs) \/ walk fs cur segs = Raise FileNotFoundError.
Proof.
  revert cur. induction segs as [|s segs IH]; intros cur Hp Hf; cbn [walk].
  - left. now rewrite app_nil_r.
  - inversion Hp as [|? ? Hs Hp']; subst.
    destruct (lookup fs cur) as [[|b]|] eqn:L.
    + rewrite (step_plain cur s Hs).
      replace (cur ++ s :: segs) with ((cur ++ [s]) ++ segs) by now rewrite <- app_assoc.
      apply IH; [assumption|]. intros pre post b E. rewrite <- app_assoc.
      apply (Hf (s :: pre) post b). cbn [app]. now rewrite E.
    + exfalso. apply (Hf [] (s :: segs) b eq_refl). now rewrite app_nil_r.
    + now right.
Qed.

(** A directory whose parent exists can be located. *)
Lemma locate_child (fs : t) (rt : string) (k : key) (s : string) :
  wf fs -> plain_seg s -> lookup fs k = Some Dir ->
  locate fs {| root := rt; tail := k ++ [s] |} = Ok (k ++ [s]).
Proof.
  intros W Hs L. unfold locate. cbn [tail]. rewrite walk_app, (walk_wf _ _ _ W L).
  cbn [bind walk]. rewrite L. now rewrite (step_plain k s Hs).
Qed.

(** [mkdir] succeeds when no file lies on the path, and what it adds are
    directories on the path. *)
Lemma mkdir_parents_ok (rt : string) (rsegs : list string) (fs : t) :
  wf fs -> plain (rev rsegs) ->
  (forall pre post b, rev rsegs = pre ++ post -> lookup fs pre <> Some (File b)) ->
  exists fs',
    mkdir_parents fs rt rsegs = Ok fs'
    /\ forall q n, lookup fs' q = Some n ->
         lookup fs q = Some n \/ (n = Dir /\ exists post, rev rsegs = q ++ post).
Proof.
  revert fs. induction rsegs as [|s rparent IH]; intros fs W Hp Hf.
  - exists fs. split; [|intros q n H; now left]. cbn [mkdir_parents rev]. reflexivity.
  - cbn [rev] in *.
    assert (Here : forall f, wf f -> lookup f (rev rparent ++ [s]) = Some Dir ->
               mkdir_parents f rt (s :: rparent) = Ok f).
    { intros f Wf L. cbn [mkdir_parents rev]. unfold os_mkdir, locate. cbn [tail].
      rewrite (walk_wf _ _ _ Wf L). cbn [bind]. rewrite L. cbn [is_OSError andb].
      unfold is_dir.
      now rewrite (stat_found f {| root := rt; tail := rev rparent ++ [s] |} Dir Wf L). }
    apply Forall_app in Hp as [Hpp Hps]. inversion Hps as [|? ? Hs _]; subst.
    destruct (lookup fs (rev rparent ++ [s])) as [[|b]|] eqn:L.
    + exists fs. split; [now apply Here|]. intros q n H. now left.
    + exfalso. apply (Hf (rev rparent ++ [s]) [] b); [now rewrite app_nil_r|exact L].
    + assert (Make : forall f, wf f -> lookup f (rev rparent) = Some Dir ->
                 lookup f (rev rparent ++ [s]) = None ->
                 os_mkdir f {| root := rt; tail := rev rparent ++ [s] |}
                 = Ok (f ++ [(rev rparent ++ [s], Dir)])).
      { intros f Wf Lp Ln. unfold os_mkdir. rewrite (locate_child f rt _ s Wf Hs Lp).
        cbn [bind]. now rewrite Ln. }
      assert (New : forall f q n, lookup f (rev rparent ++ [s]) = None ->
                lookup (f ++ [(rev rparent ++ [s], Dir)]) q = Some n ->
                lookup f q = Some n \/ (n = Dir /\ q = rev rparent ++ [s])).
      { intros f q n Ln H. rewrite lookup_add in H by exact Ln.
        destruct (list_eqb (rev rparent ++ [s]) q) eqn:E; [|now left].
        apply list_eqb_eq in E. injection H as <-. right. now split. }
      destruct (lookup fs (rev rparent)) as [[|b]|] eqn:Lp.
      * exists (fs ++ [(rev rparent ++ [s], Dir)]). split.
        -- cbn [mkdir_parents rev]. now rewrite (Make fs W Lp L).
        -- intros q n H. destruct (New fs q n L H) as [H'|[-> ->]]; [now left|].
           right. split; [reflexivity|]. exists []. now rewrite app_nil_r.
      * exfalso. apply (Hf (rev rparent) [s] b eq_refl Lp).
      * assert (Lc : locate fs {| root := rt; tail := rev rparent ++ [s] |}
                     = Raise FileNotFoundError).
        { unfold locate. cbn [tail].
          assert (Pl : plain (rev rparent ++ [s]))
            by (apply Forall_app; split; [assumption|constructor; [exact Hs|constructor]]).
          assert (Hf' : forall pre post b, rev rparent ++ [s] = pre ++ post ->
                          lookup fs ([] ++ pre) <> Some (File b))
            by (intros pre post b E; cbn [app]; now apply (Hf pre post b)).
          destruct (walk_result fs (rev rparent ++ [s]) [] Pl Hf') as [Ok1|R]; [|exact R].
          exfalso. cbn [app] in Ok1.
          destruct (walk_plain_inv _ _ _ _ Pl Ok1) as [_ Hd].
          specialize (Hd (rev rparent) s [] eq_refl). cbn [app] in Hd. congruence. }
        destruct (IH fs W Hpp) as (fs1 & M1 & N1).
        { intros pre post b E. apply (Hf pre (post ++ [s]) b).
          now rewrite E, <- app_assoc. }
        destruct (mkdir_parents_spec _ _ _ _ W M1) as (W1 & A1 & D1).
        apply is_dir_iff in D1; [|assumption|exact Hpp]. cbn [tail] in D1.
        assert (Ln1 : lookup fs1 (rev rparent ++ [s]) = None).
        { destruct (lookup fs1 (rev rparent ++ [s])) as [n|] eqn:E; [|reflexivity].
          exfalso. destruct (N1 _ _ E) as [H|(_ & post & Ep)]; [congruence|].
          apply (f_equal (@List.length string)) in Ep. rewrite !length_app in Ep.
          cbn [List.length] in Ep. lia. }
        exists (fs1 ++ [(rev rparent ++ [s], Dir)]). split.
        -- cbn [mkdir_parents rev]. unfold os_mkdir at 1. rewrite Lc. cbn [bind].
           rewrite M1. cbn [bind]. now rewrite (Make fs1 W1 D1 Ln1).
        -- intros q n H. destruct (New fs1 q n Ln1 H) as [H'|[-> ->]].
           ++ destruct (N1 q n H') as [H''|(-> & post & Ep)]; [now left|].
              right. split; [reflexivity|]. exists (post ++ [s]).
              now rewrite Ep, <- app_assoc.
           ++ right. split; [reflexivity|]. exists []. now rewrite app_nil_r.
Qed.

Lemma mkdir_ok (fs : t) (p : Path) :
  wf fs -> plain (tail p) ->
  (forall pre post b, tail p = pre ++ post -> lookup fs pre <> Some (File b)) ->
  exists fs',
    mkdir fs p = Ok fs' /\ wf fs' /\ adds_dirs fs fs'
    /\ lookup fs' (tail p) = Some Dir
    /\ forall q n, lookup fs' q = Some n ->
         lookup fs q = Some n \/ (n = Dir /\ exists post, tail p = q ++ post).
Proof.
  intros W Hp Hf. unfold mkdir.
  destruct (mkdir_parents_ok (root p) (rev (tail p)) fs W) as (fs' & M & N).
  - now rewrite rev_involutive.
  - rewrite rev_involutive. exact Hf.
  - exists fs'. split; [exact M|].
    assert (M' : mkdir fs p = Ok fs') by exact M.
    destruct (mkdir_spec _ _ _ W M') as (W' & A & D).
    split; [exact W'|]. split; [exact A|]. split.
    + now apply is_dir_iff in D.
    + intros q n H. rewrite rev_involutive in N. now apply N.
Qed.

Section Sources.
Variable unzip : string -> result (list ZipInfo).

(** A source that can be read stays so as long as the files outside the
    cache stay. *)
Lemma source_available_keeps (s s' : t) (c base_dir : Path) (src : FileSource) :
  wf s' ->
  (forall q b, below (tail c) q = None -> lookup s q = Some (File b) ->
               lookup s' q = Some (File b)) ->
  source_available unzip s c base_dir src -> source_available unzip s' c base_dir src.
Proof.
  intros W' K. unfold source_available.
  destruct (String.eqb (fs_origin src) "disk").
  - cbv zeta. intros (Pp & Bp & Fp). split; [exact Pp|]. split; [exact Bp|].
    unfold is_file in Fp.
    destruct (stat s (joinpath base_dir (fs_rel_path src))) as [[|b]|] eqn:St;
      try discriminate.
    apply (stat_plain_inv _ _ _ Pp) in St. apply (K _ _ Bp) in St.
    unfold is_file. now rewrite (stat_found _ _ _ W' St).
  - intros (c' & zf & info & data & Ec & Pc' & Bc & Op & Gi & Bd).
    exists c', zf, info, data. split; [exact Ec|]. split; [exact Pc'|].
    split; [exact Bc|]. split; [|now split].
    destruct (open_pk3_file unzip _ _ _ Pc' Op) as (bytes & L & U).
    apply (K _ _ Bc) in L. exact (open_pk3_found unzip _ _ _ _ W' L U).
Qed.

End Sources.

(** A file can be written at a plain place in a directory, unless a
    directory lies there. *)
Lemma write_fresh (fs : t) (p : Path) (bytes : string) :
  wf fs -> plain (tail p) -> tail p <> [] ->
  lookup fs (removelast (tail p)) = Some Dir -> lookup fs (tail p) <> Some Dir ->
  write_file fs p bytes = Ok (ODict.set list_eqb (tail p) (File bytes) fs).
Proof.
  intros W Hp Hne Lp Ld. unfold write_file, locate.
  destruct (removelast_app_last (tail p) Hne) as (x & E).
  assert (Hx : plain_seg x).
  { rewrite E in Hp. apply Forall_app in Hp as [_ Hx]. now inversion Hx. }
  rewrite E at 1. rewrite walk_app, (walk_wf _ _ _ W Lp). cbn [bind walk].
  rewrite Lp, (step_plain _ x Hx), <- E. cbn [bind].
  destruct (lookup fs (tail p)) as [[|b]|]; [now elim Ld|reflexivity|reflexivity].
Qed.

Lemma wf_write (fs : t) (k : key) (bytes : string) :
  wf fs -> plain k -> k <> [] ->
  lookup fs (removelast k) = Some Dir -> lookup fs k <> Some Dir ->
  wf (ODict.set list_eqb k (File bytes) fs).
Proof.
  intros W Hp Hne Lp Ld.
  pose proof (write_fresh fs {| root := ""; tail := k |} bytes W Hp Hne Lp Ld) as Wr.
  destruct (write_file_spec _ _ _ _ W Wr) as (k' & _ & _ & _ & W' & _). exact W'.
Qed.

Section Loop.
Variable unzip : string -> result (list ZipInfo).
Variable TEXTURE_EXTS : list string.
Variables base_dir c : Path.
Variable all : list asset.
Hypothesis Pc : plain (tail c).
Hypothesis Hall : forall a, In a all -> plain_rel (snd a) /\ tail (snd a) <> [].
Hypothesis Hpf : forall a a' x rest,
  In a all -> In a' all -> tail (snd a') <> tail (snd a) ++ x :: rest.

(** The copy of a source that can be read to a place where a file can be
    made succeeds, and writes the file. *)
Lemma copy_asset_fresh (s : t) (src : FileSource) (dp : Path) :
  wf s -> plain (tail dp) -> tail dp <> [] ->
  lookup s (removelast (tail dp)) = Some Dir -> lookup s (tail dp) <> Some Dir ->
  below (tail c) (tail dp) <> None ->
  source_available unzip s c base_dir src ->
  exists bytes,
    copy_asset unzip s base_dir src dp
    = (ODict.set list_eqb (tail dp) (File bytes) s, Ok tt).
Proof.
  intros W Pd Hne Lp Ld Bd Av. unfold source_available in Av. unfold copy_asset.
  destruct (String.eqb (fs_origin src) "disk").
  - cbv zeta in Av. destruct Av as (Pp & Bp & Fp).
    set (p := joinpath base_dir (fs_rel_path src)) in *.
    rewrite (is_file_plain _ _ W Pp) in Fp. apply is_file_at_iff in Fp as (bs & Ls).
    unfold copy2.
    assert (Nd : is_dir s dp = false).
    { destruct (is_dir s dp) eqn:E; [|reflexivity].
      apply (is_dir_iff _ _ W Pd) in E. congruence. }
    rewrite Nd. rewrite (stat_found _ _ _ W Ls).
    unfold locate at 1. rewrite (walk_wf _ _ _ W Ls).
    assert (Same : match stat s dp with
                   | Ok _ => match locate s dp with
                             | Ok k2 => list_eqb (tail p) k2
                             | Raise _ => false
                             end
                   | Raise _ => false
                   end = false).
    { destruct (stat s dp); [|reflexivity].
      destruct (locate s dp) as [k2|] eqn:Lk; [|reflexivity].
      unfold locate in Lk. destruct (walk_plain_inv _ _ _ _ Pd Lk) as [-> _].
      cbn [app]. apply list_eqb_neq. intros E. rewrite E in Bp. congruence. }
    rewrite Same. unfold read_file. rewrite (stat_found _ _ _ W Ls). cbn [bind].
    rewrite (write_fresh s dp bs W Pd Hne Lp Ld). now exists bs.
  - destruct Av as (c' & zf & info & data & Ec & Pc' & Bc & Op & Gi & Bdy).
    rewrite Ec, Op, Gi. unfold copy_member. rewrite Bdy.
    rewrite (write_fresh s dp data W Pd Hne Lp Ld). now exists data.
Qed.

(** The way of another destination of the list stays clear when a file is
    written at a destination of the list, in directories made for it. *)
Lemma clear_way_step (s s2 : t) (a0 a : asset) :
  In a0 all -> In a all ->
  (forall q n, lookup s2 q = Some n ->
     lookup s q = Some n
     \/ (n = Dir /\ exists post,
           removelast (tail c ++ tail (snd a0)) = q ++ post)
     \/ (q = tail c ++ tail (snd a0) /\ exists b, n = File b)) ->
  clear_way s (tail c ++ tail (snd a)) -> clear_way s2 (tail c ++ tail (snd a)).
Proof.
  intros H0 Ha N [Cf Cd].
  assert (Hne0 : tail c ++ tail (snd a0) <> []).
  { intros E. apply app_eq_nil in E as [_ E]. now apply (proj2 (Hall a0 H0)). }
  split.
  - intros pre post b E Hpost L.
    destruct (N _ _ L) as [L'|[(D & _)|(-> & _)]].
    + exact (Cf pre post b E Hpost L').
    + discriminate D.
    + rewrite <- app_assoc in E. apply app_inv_head in E.
      destruct post as [|x rest]; [now elim Hpost|].
      exact (Hpf a0 a x rest H0 Ha E).
  - intros L. destruct (N _ _ L) as [L'|[(_ & post & E)|(_ & b & D)]].
    + now apply Cd.
    + destruct (removelast_app_last _ Hne0) as (x & E0). rewrite E in E0.
      rewrite <- !app_assoc in E0. apply app_inv_head in E0.
      destruct post as [|y post]; cbn [app] in E0.
      * exact (Hpf a a0 x [] Ha H0 E0).
      * exact (Hpf a a0 y (post ++ [x]) Ha H0 E0).
    + discriminate D.
Qed.

(** One round of the loop of [extract_assets], for a destination whose
    way is clear. *)
Lemma extract_asset_first (st : Extraction) (a0 : asset) :
  In a0 all -> wf (x_fs st) -> lookup (x_fs st) (tail c) = Some Dir ->
  (forall a, In a all -> source_available unzip (x_fs st) c base_dir (fst a)) ->
  clear_way (x_fs st) (tail c ++ tail (snd a0)) ->
  exists st1,
    extract_asset unzip TEXTURE_EXTS base_dir c st a0 = Ok st1
    /\ wf (x_fs st1) /\ lookup (x_fs st1) (tail c) = Some Dir
    /\ failed st1 = failed st
    /\ (forall a, In a all -> source_available unzip (x_fs st1) c base_dir (fst a))
    /\ (exists b, lookup (x_fs st1) (tail c ++ tail (snd a0)) = Some (File b))
    /\ (forall a, In a all -> clear_way (x_fs st) (tail c ++ tail (snd a)) ->
                  clear_way (x_fs st1) (tail c ++ tail (snd a))).
Proof.
  intros H0 W Lc Av Cw. destruct (Hall a0 H0) as [Pr Tne].
  pose proof Cw as [Cf Cd].
  destruct a0 as [src dest]. cbn [fst snd] in *.
  destruct (plain_rel_join c dest Pc Pr) as (Ej & Pj & _).
  unfold extract_asset. rewrite Ej.
  set (k0 := tail c ++ tail dest) in *.
  set (dp := {| root := root c; tail := k0 |}).
  assert (Hne0 : k0 <> []).
  { intros E. apply app_eq_nil in E as [_ E]. now apply Tne. }
  destruct (removelast_app_last k0 Hne0) as (x0 & E0).
  destruct (mkdir_ok (x_fs st) (parent dp) W) as (s1 & M & W1 & A1 & D1 & N1).
  { cbn [parent tail]. now apply plain_removelast. }
  { cbn [parent tail dp]. intros pre post b E.
    apply (Cf pre (post ++ [x0]) b).
    - rewrite E0, E. now rewrite <- app_assoc.
    - intros H. apply app_eq_nil in H as [_ H]. discriminate. }
  cbn [parent tail dp] in D1, N1.
  rewrite M. cbn [bind].
  assert (Ld1 : lookup s1 k0 <> Some Dir).
  { intros L. destruct (N1 _ _ L) as [L'|(_ & post & E)]; [now apply Cd|].
    apply (f_equal (@List.length string)) in E. rewrite E0 in E.
    rewrite removelast_last, !length_app in E. cbn [List.length] in E. lia. }
  assert (Out1 : forall q b, below (tail c) q = None ->
                   lookup (x_fs st) q = Some (File b) -> lookup s1 q = Some (File b)).
  { intros q b _ L. now apply (proj1 A1). }
  destruct (copy_asset_fresh s1 src dp W1 Pj Hne0 D1 Ld1) as (bytes & Cp).
  { cbn [tail dp]. unfold k0. now rewrite below_app. }
  { apply (source_available_keeps unzip (x_fs st) s1 c base_dir src W1 Out1).
    exact (Av (src, dest) H0). }
  cbn [tail dp] in Cp. rewrite Cp.
  set (s2 := ODict.set list_eqb k0 (File bytes) s1) in *.
  assert (L2 : forall q, lookup s2 q = if list_eqb k0 q then Some (File bytes)
                                       else lookup s1 q).
  { intros q. unfold s2. now apply lookup_set. }
  assert (W2 : wf s2) by (unfold s2; now apply wf_write).
  eexists. split; [reflexivity|]. cbn [x_fs failed].
  split; [exact W2|]. split; [|split; [reflexivity|split; [|split]]].
  - rewrite L2. destruct (list_eqb k0 (tail c)) eqn:E.
    + apply list_eqb_eq in E. unfold k0 in E.
      apply (f_equal (@List.length string)) in E. rewrite length_app in E.
      destruct (tail dest); [now elim Tne|cbn [List.length] in E; lia].
    + now apply (proj1 A1).
  - intros a Ha.
    apply (source_available_keeps unzip (x_fs st) s2 c base_dir (fst a) W2);
      [|now apply Av].
    intros q b Bq L. rewrite L2. destruct (list_eqb k0 q) eqn:E.
    + apply list_eqb_eq in E. subst q. unfold k0 in Bq. rewrite below_app in Bq.
      discriminate.
    + now apply (proj1 A1).
  - exists bytes. now rewrite L2, list_eqb_refl.
  - intros a Ha. apply (clear_way_step (x_fs st) s2 (src, dest) a H0 Ha).
    cbn [snd]. fold k0. intros q n L. rewrite L2 in L.
    destruct (list_eqb k0 q) eqn:E.
    + apply list_eqb_eq in E. subst q. injection L as <-. right. right.
      split; [reflexivity|]. now exists bytes.
    + destruct (N1 _ _ L) as [L'|(-> & post & Ep)]; [now left|].
      right. left. split; [reflexivity|]. now exists post.
Qed.

(** The loop of [extract_assets] on destinations whose ways are clear:
    every copy succeeds and leaves its file. *)
Lemma extract_loop_first (todo : list asset) (st : Extraction) :
  (forall a, In a todo -> In a all) ->
  wf (x_fs st) -> lookup (x_fs st) (tail c) = Some Dir ->
  (forall a, In a all -> source_available unzip (x_fs st) c base_dir (fst a)) ->
  (forall a, In a all -> clear_way (x_fs st) (tail c ++ tail (snd a))) ->
  exists st',
    extract_loop unzip TEXTURE_EXTS base_dir c st todo = Ok st'
    /\ wf (x_fs st') /\ lookup (x_fs st') (tail c) = Some Dir
    /\ failed st' = failed st
    /\ (forall a, In a all -> source_available unzip (x_fs st') c base_dir (fst a))
    /\ (forall a, In a todo ->
          exists b, lookup (x_fs st') (tail c ++ tail (snd a)) = Some (File b)).
Proof.
  revert st. induction todo as [|a0 todo IH]; intros st Hsub W Lc Av Cw;
    cbn [extract_loop].
  - exists st. split; [reflexivity|]. repeat (split; [assumption|]).
    split; [reflexivity|]. split; [assumption|]. intros a [].
  - assert (H0 : In a0 all) by (apply Hsub; now left).
    destruct (extract_asset_first st a0 H0 W Lc Av (Cw a0 H0))
      as (st1 & E1 & W1 & Lc1 & F1 & Av1 & (b0 & Lb0) & Cw1).
    rewrite E1. cbn [bind].
    destruct (IH st1) as (st' & E' & W' & Lc' & F' & Av' & Fl'); auto.
    { intros a Ha. apply Hsub. now right. }
    exists st'. split; [exact E'|]. split; [exact W'|]. split; [exact Lc'|].
    split; [congruence|]. split; [exact Av'|].
    intros a [<-|Ha]; [|now apply Fl'].
    destruct (extract_loop_spec unzip TEXTURE_EXTS _ _ _ _ _ W1 E') as (_ & G & _).
    specialize (G (tail c ++ tail (snd a0))). rewrite Lb0 in G. exact G.
Qed.

End Loop.

Lemma no_file_on_sound (fs : t) (k pre post : key) (b : string) (n : nat) :
  no_file_on fs k n = true -> k = pre ++ post -> List.length pre < n ->
  lookup fs pre <> Some (File b).
Proof.
  intros H E Hn L. unfold no_file_on in H. rewrite forallb_forall in H.
  specialize (H (List.length pre)). rewrite E, firstn_app, Nat.sub_diag in H.
  rewrite firstn_all in H. cbn [firstn] in H. rewrite app_nil_r, L in H.
  assert (T : false = true); [|discriminate T].
  apply H. apply in_seq. lia.
Qed.

End FirstRun.

Import FS FSFacts FSOps CacheFacts FirstRun.

(** C2 (amended).  Let [extract_assets] be called on a well-formed tree.
    If the call returns, the files of the cache after it are exactly the
    files the loop of the copies left there whose key, as [cleanup_cache]
    computes it from the place of the file, is in the keep set of the
    call, which holds the keys of the destinations of the list: every
    other file is pruned.  If the list can be extracted in full (no file
    lies on the path of the cache root; every source can be read and lies
    outside the cache; every destination is a plain relative path, not
    empty, with no file above it and no directory at it; no destination
    lies below another one), the call returns and reports no failed path,
    every destination is a file of the cache after it, and a second call
    with the same list returns as well, reports no failed path either, and
    leaves the cache with the same files. *)
Theorem extract_assets_cache_is_keep_set (unzip : string -> result (list ZipInfo))
    (TEXTURE_EXTS : list string) (fs : t) (base_dir cache_root : Path)
    (assets : list asset) :
  wf fs -> plain (tail cache_root) ->
  (forall fs1 tm1 fl1,
      extract_assets unzip TEXTURE_EXTS fs base_dir cache_root assets = Ok (fs1, tm1, fl1) ->
      exists fs0 st,
        mkdir fs cache_root = Ok fs0
        /\ extract_loop unzip TEXTURE_EXTS base_dir cache_root (mkExtraction fs0 [] [] [])
             assets = Ok st
        /\ cleanup_cache (x_fs st) cache_root (keep st) = Ok fs1
        /\ keep st = keep_of assets
        /\ forall rel,
             cache_file fs1 cache_root rel
             <-> cache_file (x_fs st) cache_root rel /\ kept (keep st) rel = true)
  /\ (resolvable unzip fs cache_root base_dir assets ->
      exists fs1 tm1,
        extract_assets unzip TEXTURE_EXTS fs base_dir cache_root assets = Ok (fs1, tm1, [])
        /\ (forall a, In a assets -> is_file fs1 (joinpath cache_root (snd a)) = true)
        /\ exists fs2 tm2,
             extract_assets unzip TEXTURE_EXTS fs1 base_dir cache_root assets
             = Ok (fs2, tm2, [])
             /\ forall rel, cache_file fs2 cache_root rel <-> cache_file fs1 cache_root rel).
Proof.
  intros W Pc.
  assert (Files : forall st fs1,
             wf (x_fs st) -> lookup (x_fs st) (tail cache_root) = Some Dir ->
             cleanup_cache (x_fs st) cache_root (keep st) = Ok fs1 ->
             wf fs1 /\ lookup fs1 (tail cache_root) = Some Dir
             /\ (forall q b, lookup fs1 q = Some (File b)
                   <-> lookup (x_fs st) q = Some (File b)
                       /\ doomed (tail cache_root) (keep st) (x_fs st) q = false)
             /\ forall rel,
                  cache_file fs1 cache_root rel
                  <-> cache_file (x_fs st) cache_root rel /\ kept (keep st) rel = true).
  { intros st fs1 Wst Lc C.
    destruct (cleanup_cache_spec (x_fs st) cache_root (keep st) Wst Lc)
      as (fs' & C' & W1 & Lc1 & L1).
    rewrite C in C'. injection C' as <-.
    split; [exact W1|]. split; [exact Lc1|]. split; [exact L1|].
    intros rel. unfold cache_file. split.
    - intros (b & Hb). apply L1 in Hb as [Hb D]. split; [now exists b|].
      rewrite doomed_at in D. unfold is_file_at in D. rewrite Hb in D.
      cbn [andb] in D. now apply negb_false_iff in D.
    - intros ((b & Hb) & Kp). exists b. apply L1. split; [assumption|].
      rewrite doomed_at, Kp. apply andb_false_r. }
  split.
  - intros fs1 tm1 fl1 H.
    destruct (extract_assets_steps unzip TEXTURE_EXTS _ _ _ _ _ _ _ W Pc H)
      as (fs0 & st & M & L & C & _ & _ & Wst & _ & K & Lc).
    exists fs0, st. repeat (split; [assumption|]).
    exact (proj2 (proj2 (proj2 (Files st fs1 Wst Lc C)))).
  - intros (Hroot & Hassets & Hpf).
    destruct (mkdir_ok fs cache_root W Pc Hroot) as (fs0 & M & W0 & A0 & Lc0 & N0).
    assert (Hall : forall a, In a assets -> plain_rel (snd a) /\ tail (snd a) <> []).
    { intros a Ha. destruct (Hassets a Ha) as (P & T & _). now split. }
    assert (Av0 : forall a, In a assets ->
                    source_available unzip fs0 cache_root base_dir (fst a)).
    { intros a Ha. destruct (Hassets a Ha) as (_ & _ & _ & Av).
      apply (source_available_keeps unzip fs fs0 cache_root base_dir (fst a) W0);
        [|exact Av].
      intros q b _ L. now apply (proj1 A0). }
    assert (Cw0 : forall a, In a assets ->
                    clear_way fs0 (tail cache_root ++ tail (snd a))).
    { intros a Ha. destruct (Hassets a Ha) as (_ & T & (Cf & Cd) & _). split.
      - intros pre post b E Hpost L.
        destruct (N0 _ _ L) as [L'|(D & _)]; [|discriminate D].
        exact (Cf pre post b E Hpost L').
      - intros L. destruct (N0 _ _ L) as [L'|(_ & post & E)]; [now apply Cd|].
        apply (f_equal (@List.length string)) in E. rewrite !length_app in E.
        destruct (tail (snd a)); [now elim T|cbn [List.length] in E; lia]. }
    destruct (extract_loop_first unzip TEXTURE_EXTS base_dir cache_root assets Pc Hall Hpf
                assets (mkExtraction fs0 [] [] []))
      as (st & L & Wst & Lc & Fl & Av & Fs); auto.
    cbn [x_fs failed] in *.
    destruct (extract_loop_spec unzip TEXTURE_EXTS base_dir cache_root assets
                (mkExtraction fs0 [] [] []) st W0 L) as (_ & _ & K).
    change (keep st = keep_of assets) in K.
    destruct (cleanup_cache_spec (x_fs st) cache_root (keep st) Wst Lc)
      as (fs1 & C & _).
    destruct (Files st fs1 Wst Lc C) as (W1 & Lc1 & L1 & F1).
    assert (E1 : extract_assets unzip TEXTURE_EXTS fs base_dir cache_root assets
                 = Ok (fs1, texture_map st, [])).
    { unfold extract_assets. rewrite M. cbn [bind]. rewrite L. cbn [bind].
      rewrite C. cbn [bind]. now rewrite Fl. }
    assert (Dest : forall a, In a assets ->
                     is_file fs1 (joinpath cache_root (snd a)) = true).
    { intros a Ha. destruct (Hall a Ha) as [Pr _].
      destruct (plain_rel_join cache_root (snd a) Pc Pr) as (Ej & Pj & _).
      rewrite Ej.
      rewrite (is_file_plain fs1
                 {| root := root cache_root; tail := tail cache_root ++ tail (snd a) |}
                 W1 Pj).
      cbn [tail]. apply is_file_at_iff.
      destruct (Fs a Ha) as (b & Lb). exists b. apply L1. split; [exact Lb|].
      rewrite doomed_at, K, (kept_listed assets a Ha Pr). apply andb_false_r. }
    exists fs1, (texture_map st). split; [exact E1|]. split; [exact Dest|].
    apply (extract_assets_again unzip TEXTURE_EXTS fs1 base_dir cache_root assets
             W1 Pc Lc1).
    + intros rel Hrel. apply F1 in Hrel as [_ Kp]. now rewrite <- K.
    + intros a Ha. split; [exact (proj1 (Hall a Ha))|]. split; [now apply Dest|].
      apply (source_available_keeps unzip (x_fs st) fs1 cache_root base_dir (fst a) W1);
        [|now apply Av].
      intros q b Bq Lq. apply L1. split; [exact Lq|]. unfold doomed. now rewrite Bq.
Qed.

Lemma extract_assets_cache_is_keep_set_witness :
  exists fs1 tm1,
    extract_assets Demo.unzip Demo.exts Demo.tree Demo.game Demo.cache Demo.assets
    = Ok (fs1, tm1, [])
    /\ (forall a, In a Demo.assets -> is_file fs1 (joinpath Demo.cache (snd a)) = true)
    /\ exists fs2 tm2,
         extract_assets Demo.unzip Demo.exts fs1 Demo.game Demo.cache Demo.assets
         = Ok (fs2, tm2, [])
         /\ forall rel, cache_file fs2 Demo.cache rel <-> cache_file fs1 Demo.cache rel.
Proof.
  refine (proj2 (extract_assets_cache_is_keep_set Demo.unzip Demo.exts Demo.tree
                   Demo.game Demo.cache Demo.assets _ _) _).
  - apply wf_b_sound. vm_compute. reflexivity.
  - apply plain_b_sound. vm_compute. reflexivity.
  - split; [|split].
    + intros pre post b E.
      apply (no_file_on_sound Demo.tree (tail Demo.cache) pre post b 3);
        [vm_compute; reflexivity|exact E|].
      change (["game"; "cache"] = pre ++ post) in E.
      apply (f_equal (@List.length string)) in E. rewrite length_app in E.
      cbn [List.length] in E. lia.
    + intros a [<-|[<-|[]]]; cbn [fst snd];
        (split; [split; [reflexivity|apply plain_b_sound; reflexivity]|]);
        (split; [discriminate|]);
        (split;
         [split;
          [intros pre post b E Hpost;
           match type of E with
           | ?k = _ =>
               let k' := eval vm_compute in k in
               change (k' = pre ++ post) in E;
               apply (no_file_on_sound Demo.tree k' pre post b (List.length k'));
               [vm_compute; reflexivity|exact E|];
               apply (f_equal (@List.length string)) in E; rewrite length_app in E;
               destruct post; [now elim Hpost|cbn [List.length] in E |- *; lia]
           end
          |vm_compute; discriminate]|]).
      * split; [apply plain_b_sound; reflexivity|]. split; vm_compute; reflexivity.
      * exists (parse "/game/assets1.pk3").
        eexists. exists (mkZipInfo "models/players/kyle/head.jpg" (Stored "jpg")), "jpg".
        split; [reflexivity|]. split; [apply plain_b_sound; reflexivity|].
        split; [reflexivity|]. split; [vm_compute; reflexivity|].
        split; vm_compute; reflexivity.
    + intros a a' x rest [<-|[<-|[]]] [<-|[<-|[]]]; cbn; discriminate.
Defined.
